(* ===== verification/_CoqProject ===== *)
-Q . S2P
Prelude.v
Checks.v
Text.v
Utf8.v
Aid.v
Cbor.v
Platform.v
Kel.v
KelReference.v
Codec.v
KelSpec.v
KelFacts.v
KelProps.v
KelTheorems.v
Controller.v
ControllerInv.v
ControllerTheorems.v
IdFile.v
IdFileTheorems.v
Liabtree.v
LiabtreeFacts.v
LiabtreeTheorems.v
Ael.v
AelFacts.v
AelTheorems.v
Notice.v
NoticeTheorems.v
ReplayCache.v
ReplayCacheTheorems.v
Relayauth.v
RelayauthTheorems.v
Tsir.v
TsirTheorems.v
Taskdoc.v
TaskdocTheorems.v
Payment.v
Evidence.v
Delegation.v
PaymentTheorems.v
EvidenceTheorems.v
DelegationTheorems.v
Fields.v
Envelope.v
FieldsFacts.v
EnvelopeFacts.v
EnvelopeTheorems.v
SealTheorems.v
SealErrors.v
SealRoundTrip.v
EnvelopeReference.v
SealSamples.v
EncKeys.v
Access.v
AccessFacts.v
AccessTheorems.v
AccessSamples.v
EncKeysTheorems.v
EncKeysSamples.v
Dack.v
DackTheorems.v
DackSamples.v
Agenturi.v
AgenturiFacts.v
AgenturiTheorems.v
AgenturiSamples.v
Recovery.v
RecoveryFacts.v
RecoveryTheorems.v
RecoverySamples.v
Supply.v
SupplyTheorems.v
SupplySamples.v
Regpow.v
RegpowTheorems.v
RegpowSamples.v
