(* ===== verification/Prelude.v ===== *)
(** * ANetCore in Rocq

    A verification library of ANetCore, the Go module that anet nodes and hubs share: identities
    and their key event logs, the messages signed under them, and the records kept about them.
    Definitions are translated from the Go code function by function; theorems say what the
    functions guarantee.  File names under src/ are given with each part.

    ** How the program is put together

    An identity is a key event log (identity/identity.go): an inception, then rotations and at most
    one deactivation, each signed by the key it reveals, whose digest the event before committed to.
    [replay] turns a log into the list of its key states; every signature of the program is judged
    by [VerifyObject] against them.  The signing side is the [Controller] (identity/controller.go):
    it builds the next event, keeps it pending until a hub has it, and signs with the key of the last
    event it published.  It is exported to a file and restored from it (identity/idfile.go).  What
    logs replay to is remembered by a cache shared by concurrent calls (identity/replaycache.go).
    A hub confirms an agent's tip with a witness notice (identity/notice.go).

    On that rest the signed objects: task documents (tsir/taskdoc.go) with the predicates that limit
    what a task may do (tsir/predicate.go); the messages of a delegated task, the binding of a task to
    its receipt and the checks of both sides (delegation/); receipts, reviews and attestations
    (evidence/); authorizations and settlement receipts of the credit rail (payment/); the hash-chained
    event ledger (ael/); and the sum-carrying Merkle tree a hub publishes its liabilities with
    (liabtree/), whose root and sum it states in a supply epoch record (ael/supply.go).  Requests to a hub
    are authenticated by relayauth/; a new identity pays for its registration with work (regpow/).  The
    seed its next keys derive from is kept in a sealed recovery file (identity/recovery.go).

    ** Files

    - [Prelude] (this file): bytes, machine integers, errors and the error monad with its notation
      [refuse], the functions of Go's strings, strconv and utf8 the code calls, the tactics [go_inv] and
      [case_goal], the [go] hint and rewrite databases, and the shared lemmas on digits, separators and
      decimals.
    - [Aid]: the spelling of an AID (identity/aid.go) over base32.
    - [Cbor]: CoreDet data items, the payloads of records among them, and a reference encoder and decoder
      with its injectivity, used to run samples only.
    - [Platform]: what the code takes from outside the repository, as type classes ([Platform] for the
      cryptography, [Coredet] and [Strict] for the CBOR codec of one Go type) with the laws theorems may
      use ([PlatformLaws], [CoredetInj], [StrictInv], [CoredetItem]); the envelope of aobj/ and the
      identifiers of anetcid/; and two concrete platforms that satisfy the laws,
      [Reference] with a real SHA-256 and [Light] with a checksum, on which the samples run.
    - [Codec]: turns a CBOR shape that reads back into the codec parameters of a sample.
    - [Kel], with [KelSpec] (the rules of a log as an inductive relation), [KelFacts], [KelProps],
      [KelReference] (samples), [KelTheorems]: identity/identity.go, extend.go, smallorder.go.
    - [Controller], [ControllerInv], [ControllerTheorems]: identity/controller.go, signer.go.
      [speaks] is what the other components need of a signer, and [speaks_signs] what they get.
    - [IdFile], [IdFileTheorems]: identity/idfile.go.
    - [ReplayCache], [ReplayCacheTheorems]: identity/replaycache.go.
    - [Notice], [NoticeTheorems]: identity/notice.go.
    - [Liabtree], [LiabtreeFacts], [LiabtreeTheorems]: liabtree/.
    - [Ael], [AelFacts], [AelTheorems]: ael/ael.go, witness.go.
    - [Relayauth], [RelayauthTheorems]: relayauth/.
    - [Tsir], [TsirTheorems], [Taskdoc], [TaskdocTheorems]: tsir/.
    - [Payment], [PaymentTheorems]: payment/.
    - [Evidence], [EvidenceTheorems]: evidence/.
    - [Delegation], [DelegationTheorems]: delegation/.
    - [Fields], [FieldsFacts]: the integer-keyed maps every sealed object is made of, the padding, key
      ids, limits and reasons (seal/fields.go, suite.go, limits.go, errors.go).  [Items] is the CBOR
      codec at the types they use, [ItemsLaws] what it is documented to do.
    - [Envelope], [EnvelopeFacts], [EnvelopeTheorems], [SealTheorems], [SealErrors], [SealRoundTrip]:
      seal/envelope.go and ixkey.go, over HPKE as a parameter ([HpkeContexts]).  [EnvelopeReference]
      instantiates both classes with concrete functions that satisfy the laws, and [SealSamples] runs
      the properties on messages made with them.
    - [EncKeys], [EncKeysTheorems], [EncKeysSamples]: seal/enckeys.go and highwater.go, the key sets an
      identity publishes and a sender chooses from.
    - [Access], [AccessFacts], [AccessTheorems], [AccessSamples]: seal/access.go and grant.go, delivery
      capabilities and grants.
    - [Dack], [DackTheorems], [DackSamples]: seal/dack.go, delivery tokens; [Aead] is the cipher of
      their notes.
    - [Recovery], [RecoveryFacts], [RecoveryTheorems], [RecoverySamples]: identity/recovery.go; [Argon],
      [XAead] and [Unicode] stand for its libraries.
    - [Supply], [SupplyTheorems], [SupplySamples]: ael/supply.go, composed with liabtree/ and the ledger's
      signatures.
    - [Regpow], [RegpowTheorems], [RegpowSamples]: regpow/, with the search as a step relation
      ([search_step]) and its invariant ([search_ok]).
    - [Text]: strconv, encoding/hex and encoding/base64 as the models use them, and the order of strings.
    - [Utf8]: the runes of a string, with induction over them; [Agenturi], [AgenturiFacts],
      [AgenturiTheorems], [AgenturiSamples]: agenturi/, with Unicode data as a parameter ([Unicode]).
    - [Checks]: refusals as lists of checks ([checked], [first_refusal]) and the [safe] tactics, with
      which "a refusal names its step" is stated and proved.


    ** How code is modelled

    A Go string and a Go byte slice are lists of integers in [0, 256).  A [uint64] or an [int64] is an
    integer, with [u64] where the code's arithmetic can wrap and the range as a hypothesis ([is_u64],
    [is_i64]) where a theorem needs it.  A function that can fail returns a [result]; [Panic] is a Go
    run-time panic, so "never panics" is a statement.  A method that mutates its receiver returns the
    new one; one that returns an error leaves the old one in force.  An error carries the text of its
    format, the values of the verbs left out, and what it wraps.  A nil pointer is [None].  A loop is a
    [Fixpoint]; where it is not structural it has fuel, and a theorem or lemma shows the fuel is enough
    (the draining of staged records takes one step for each; the glob matcher one for each byte of the
    pattern; twenty digits hold every [uint64]; eight offsets have no pad, so nine rounds of [padLoop] settle).  Maps whose order does not matter are
    stdpp's [gmap].  The lock of the replay cache is modelled by its two critical sections, interleaved
    in any order.

    ** What the theorems show

    - Key event logs, C1, C4, C12:
      [replay] accepts exactly the logs of the written rules; exactly what [VerifyObject] accepts;
      a fork needs the key the log committed to.  Also that extending a log never makes it accept more
      ([verify_object_monotone]), [replay_and_verify_never_panic] and what [ExtendsKEL] decides ([extends_kel_decides]).
    - The signing side, C5, C13, C31, C32:
      the controller's invariant under any calls, failing ones included; what it signs verifies;
      a pending event is never replaced; export and restore are inverse.  Also
      [accepted_log_only_grows].
    - Liabilities, C14, C15, C20: the
      record a hub publishes for a tree of balances reads back, verifies and lets every account prove its
      balance (over [build_proves_every_account]); exactly which records are supply epochs; verified
      balances are covered by the published sum unless the hash collides.
    - The ledger, C21, C22, C23:
      its invariant; equivocation quarantines a chain for good; delivery order is irrelevant.  Also
      [attested_head_is_kept].
    - Notices, C24: exactly which are accepted.  Also [verify_notice_refusals]
      (how each refusal is named) and [signed_notice_verifies] (what a hub signs is accepted in its
      window).
    - Relay authentication: signed preimages are unambiguous ([preimage_v2_injective]), MAC inputs
      ([session_mac_authenticates]) and [timestamps_increase].
    - Delegated tasks, C8, C38: an honest task completes from the
      signed document to the accepted receipt; a receipt is accepted for one task and one
      deliverable only.
    - The replay cache, C33: it changes no answer under any interleaving.
    - Task documents, C36, C37: the glob dialect, total
      evaluation of validated predicates.  Also [violations_persist] and [compile_verifies_first].
    - Payments, C40: exactly when an authorization is
      accepted or expired over all [int64] times.  Also [settlement_round_trip] (payments and receipts
      travel) and [amounts_have_one_spelling].
    - Registration, C19, C34: what a proof of work is; the concurrent
      search returns only work that passes, and can always finish while its context lasts.
    - Evidence, C39: exactly which receipts and reviews interlock, one receipt to a
      review.
    - Sealed messages, C2, C6, C11, C26, C27, C29:
      what is sealed arrives, with its ack_key and layers, and
      its signature verifies; every refusal names its step; one preimage, one message; exactly which
      opened messages are accepted; the credential is outside the signature and the digest; the
      padding settles.
    - Published keys, C18, C25, C35:
      exactly which key sets are believed, that what a live identity publishes is until it rotates,
      which key a sender uses.  Also [high_water_only_rises].
    - Capabilities, C3, C17: what is granted
      delivers; exactly which deliveries pass, each refusal named by its first failed step.  Also
      [grants_kept], the same for grants.
    - Delivery tokens, C7, C30: the recipient's answer is
      what the sender reads, the token alone decides.  Also [retry_waits]: the waits are bounded.
    - Recovery, C9, C10: a sealed seed is recovered from every copy
      of its file; what opens derives the key the file commits to, and every failure is a named error.
    - Names, C16, C28: the canonical form of an agent
      URI is a fixed point and equality of canonical forms is equality of names; parsing returns
      well-formed names or one of its errors.

    Security statements assume no collision among the inputs that were hashed ([inj_on], or the
    equality of two named inputs), never that the hash is injective; signatures are used through
    [ed25519_sign_verify] only, so no theorem claims that a signature cannot be forged.

    ** What is not modelled

    - CoreDet itself (coredet/) is an encoder of a CBOR library with options; it is a parameter. Its rule
      against nulls walks Go types by reflection.
    - Of seal/: SealedEnvelope.Marshal, the random message ids (NewMID) and interaction keys
      (GenerateIXKey), the printed forms and the test hooks of [seal].  The AEAD of HPKE is the exact
      inverse of its sealing in [HpkeLaws] and nothing more; that it hides or authenticates is not claimed.
    - Agent cards (a2acard/): JSON documents over encoding/json, whose values are trees of interfaces; their
      canonical form needs Go's printing of floating-point numbers.
    - The directory box (dirbox/): files, permissions and locks of the operating system.
    - Of identity/: suite.go (one suite, a constant here) and the wrappers that draw randomness.
    - The JSON objects of payment/ and the constants of effect/ carry no behaviour.
    - wire/ is build-time tooling over the repository's own source, golden/ and the *test packages are
      tests.
    - Randomness is an argument (the bytes a reader will give); clocks are arguments; logging and text of
      errors beyond their format are left out. *)

From stdpp Require Export base tactics options.
From stdpp Require Export strings list gmap fin_maps.
From Stdlib Require Export ZArith Lia.


#[global] Open Scope Z_scope.

(** ** Bytes and strings

    A Go [string] and a Go [[]byte] are both sequences of bytes; a byte is an integer in
    [0, 256).  [str] turns a Rocq literal into such a sequence, so [str "icp"] is the Go
    constant ["icp"]. *)

Abbreviation bytes := (list Z).

Definition byte_ok (b : Z) : Prop := 0 <= b < 256.
Definition bytes_ok (s : bytes) : Prop := Forall byte_ok s.

Fixpoint str (s : string) : bytes :=
  match s with
  | EmptyString => []
  | String c s => Z.of_N (Ascii.N_of_ascii c) :: str s
  end.

(** Equality of byte sequences, [a == b] on strings and [bytes.Equal]. *)
Definition beqb (a b : bytes) : bool := bool_decide (a = b).

(** Go's [len] as an [int]. *)
Definition len {A} (l : list A) : Z := Z.of_nat (length l).

(** ** Machine integers *)

Definition two63 : Z := 9223372036854775808.
Definition two64 : Z := 18446744073709551616.
Definition MaxInt64 : Z := two63 - 1.
Definition MaxUint64 : Z := two64 - 1.

(** A value is a [uint64], an [int64]. *)
Definition is_u64 (z : Z) : Prop := 0 <= z < two64.
Definition is_i64 (z : Z) : Prop := - two63 <= z < two63.

(** What is left of an arithmetic result in a [uint64]. *)
Definition u64 (z : Z) : Z := z mod two64.

(** The [n] base-[b] digits of [z], most significant first, and the value of a digit sequence. *)
Fixpoint digits (b : Z) (n : nat) (z : Z) : list Z :=
  match n with
  | O => []
  | S n => digits b n (z / b) ++ [z mod b]
  end.
Definition undigits (b : Z) (l : list Z) : Z := fold_left (λ acc d, acc * b + d) l 0.

(** [binary.BigEndian.PutUint64] and [binary.BigEndian.Uint64]. *)
Definition be (n : nat) (z : Z) : bytes := digits 256 n z.
Definition u64be (z : Z) : bytes := be 8 z.
Definition be_val (s : bytes) : Z := undigits 256 s.

(** ** Errors

    A Go [error] value.  [Panic] is a run-time panic (nil dereference, index out of range);
    [Errf m] is an error made with text [m], the values of its format verbs left out; [Wrap m e]
    is [fmt.Errorf("m: %w", e)] and [Wrap2 m a b] is [fmt.Errorf("m: %w: %w", a, b)]; [Typed r d] is one of the typed errors of the repository
    ([identity.VErr], [ael.Error], [seal.Error], [agenturi.Error]) with reason [r] and the text of its detail. *)

Inductive error :=
  | Panic
  | Errf (msg : string)
  | Wrap (msg : string) (cause : error)
  | Wrap2 (msg : string) (a b : error)
  | Typed (reason detail : string).

Inductive result (A : Type) :=
  | Ok (a : A)
  | Err (e : error).
Arguments Ok {A} a.
Arguments Err {A} e.

Fixpoint error_beq (a b : error) : bool :=
  match a, b with
  | Panic, Panic => true
  | Errf m, Errf m' => String.eqb m m'
  | Wrap m e, Wrap m' e' => String.eqb m m' && error_beq e e'
  | Wrap2 m e f, Wrap2 m' e' f' => String.eqb m m' && error_beq e e' && error_beq f f'
  | Typed r d, Typed r' d' => String.eqb r r' && String.eqb d d'
  | _, _ => false
  end.

(** [errors.Is(e, target)]: [e] or an error it wraps is [target]. *)
Fixpoint errors_Is (e target : error) : bool :=
  error_beq e target ||
  match e with
  | Wrap _ c => errors_Is c target
  | Wrap2 _ a b => errors_Is a target || errors_Is b target
  | _ => false
  end.

(** The error monad: [x ← c; k] runs [c] and returns its error, as [if err != nil { return err }]
    does. *)
#[global] Instance result_ret : MRet result := λ A a, Ok a.
#[global] Instance result_bind : MBind result := λ A B f m,
  match m with Ok a => f a | Err e => Err e end.
#[global] Instance result_fmap : FMap result := λ A B f m,
  match m with Ok a => Ok (f a) | Err e => Err e end.

Definition is_Ok {A} (r : result A) : bool := match r with Ok _ => true | Err _ => false end.

(** [of_option o e]: a lookup or a fallible library call that gives [e] when it has no value. *)
Definition of_option {A} (o : option A) (e : error) : result A :=
  match o with Some a => Ok a | None => Err e end.

(** [map_err f r]: the caller's wrapping of a callee's error. *)
Definition map_err {A} (f : error → error) (r : result A) : result A :=
  match r with Ok a => Ok a | Err e => Err (f e) end.

(** A wrapping that lets a panic through: a panicking callee returns no error to wrap. *)
Definition unless_panic (f : error → error) (e : error) : error :=
  match e with Panic => Panic | _ => f e end.

Declare Scope go_scope.
Delimit Scope go_scope with go.
Open Scope go_scope.

(** [refuse c with e; k] is [if c { return e }; k]. *)
Notation "'refuse' c 'with' e ; k" := (if c%bool then Err e else k)
  (at level 100, c at level 99, e at level 99, k at level 200, right associativity,
   format "'[v' 'refuse'  c  'with'  e ; '/' k ']'") : go_scope.

(** ** Strings functions of Go's standard library *)

(** [strings.IndexByte(s, c) >= 0]. *)
Definition has_byte (c : Z) (s : bytes) : bool := existsb (Z.eqb c) s.

(** [strings.HasPrefix(s, p)]. *)
Fixpoint has_prefix (p s : bytes) : bool :=
  match p, s with
  | [], _ => true
  | a :: p, b :: s => (a =? b) && has_prefix p s
  | _ :: _, [] => false
  end.

(** [strings.IndexByte]: the position of the first [c], if any, as the split around it. *)
Fixpoint cut_byte (c : Z) (s : bytes) : option (bytes * bytes) :=
  match s with
  | [] => None
  | b :: s => if b =? c then Some ([], s)
              else match cut_byte c s with
                   | Some (l, r) => Some (b :: l, r)
                   | None => None
                   end
  end.

(** [strings.Split(s, sep)] for a one-byte separator. *)
Fixpoint split_byte (c : Z) (s : bytes) : list bytes :=
  match s with
  | [] => [[]]
  | b :: s => if b =? c then [] :: split_byte c s
              else match split_byte c s with
                   | w :: ws => (b :: w) :: ws
                   | [] => [[b]]
                   end
  end.

(** [strings.Join(ws, sep)]. *)
Fixpoint join (sep : bytes) (ws : list bytes) : bytes :=
  match ws with
  | [] => []
  | [w] => w
  | w :: ws => w ++ sep ++ join sep ws
  end.

(** [strconv.FormatUint(n, 10)]: decimal digits; twenty are enough for a [uint64]. *)
Fixpoint dec_digits (fuel : nat) (n : Z) : bytes :=
  match fuel with
  | O => []
  | S f => if n <? 10 then [48 + n] else dec_digits f (n / 10) ++ [48 + n mod 10]
  end.
Definition decimal (n : Z) : bytes := dec_digits 20 n.

(** ** UTF-8 (Go's [unicode/utf8])

    [rune_size c s]: how many bytes the character that starts with byte [c] before the bytes [s]
    takes, [None] when they do not start a well-formed one. *)
Definition is_tail (c : Z) : bool := (128 <=? c) && (c <=? 191).
Definition rune_size (c : Z) (s : bytes) : option Z :=
  if c <? 128 then Some 1
  else if (194 <=? c) && (c <=? 223) then
    match s with a :: _ => if is_tail a then Some 2 else None | _ => None end
  else if (224 <=? c) && (c <=? 239) then
    match s with
    | a :: b :: _ =>
        if (if c =? 224 then 160 else 128) <=? a then
          if a <=? (if c =? 237 then 159 else 191) then if is_tail b then Some 3 else None else None
        else None
    | _ => None
    end
  else if (240 <=? c) && (c <=? 244) then
    match s with
    | a :: b :: d :: _ =>
        if (if c =? 240 then 144 else 128) <=? a then
          if a <=? (if c =? 244 then 143 else 191) then if is_tail b && is_tail d then Some 4 else None
          else None
        else None
    | _ => None
    end
  else None.

(** [utf8.RuneCountInString]: a byte that starts no well-formed character counts as one.
    [utf8.ValidString]: there is no such byte. *)
Fixpoint RuneCountInString (s : bytes) : Z :=
  match s with
  | [] => 0
  | c :: s =>
      1 + match rune_size c s, s with
          | Some 2, _ :: s => RuneCountInString s
          | Some 3, _ :: _ :: s => RuneCountInString s
          | Some 4, _ :: _ :: _ :: s => RuneCountInString s
          | _, _ => RuneCountInString s
          end
  end.
Fixpoint ValidString (s : bytes) : bool :=
  match s with
  | [] => true
  | c :: s =>
      match rune_size c s, s with
      | Some 1, _ => ValidString s
      | Some 2, _ :: s => ValidString s
      | Some 3, _ :: _ :: s => ValidString s
      | Some 4, _ :: _ :: _ :: s => ValidString s
      | _, _ => false
      end
  end.

(** ** Collisions

    A hash has collisions; what the security statements assume is that there is none among the inputs
    that were hashed. *)
Definition inj_on {A B} (h : A → B) (l : list A) : Prop :=
  ∀ x y, x ∈ l → y ∈ l → h x = h y → x = y.

(** A check of [inj_on] that hashes every input once. *)
Definition inj_onb (h : bytes → bytes) (l : list bytes) : bool :=
  let ps := map (λ x, (x, h x)) l in
  forallb (λ p, forallb (λ q, implb (beqb p.2 q.2) (beqb p.1 q.1)) ps) ps.

Lemma inj_onb_true h l : inj_onb h l = true → inj_on h l.
Proof.
  unfold inj_onb. intros H x y Hx Hy E. rewrite forallb_forall in H.
  assert (∀ z, z ∈ l → In (z, h z) (map (λ x, (x, h x)) l)) as Hin.
  { intros z Hz. apply in_map_iff. exists z. split; [done|]. by apply list_elem_of_In. }
  specialize (H _ (Hin x Hx)). rewrite forallb_forall in H. specialize (H _ (Hin y Hy)). simpl in H.
  unfold beqb in H. rewrite E in H. rewrite bool_decide_true in H by done. simpl in H.
  by apply bool_decide_eq_true in H.
Qed.

(** ** Automation

    [inv_bind] takes apart a successful or failed run of the error monad; [split_refuse] does one
    guard of a handler. *)

Lemma bind_Ok {A B} (m : result A) (f : A → result B) b :
  (m ≫= f) = Ok b ↔ ∃ a, m = Ok a ∧ f a = Ok b.
Proof.
  destruct m; simpl; split.
  - eauto.
  - by intros (? & [= ->] & ?).
  - done.
  - by intros (? & ? & ?).
Qed.

Lemma bind_Err {A B} (m : result A) (f : A → result B) e :
  (m ≫= f) = Err e ↔ m = Err e ∨ ∃ a, m = Ok a ∧ f a = Err e.
Proof.
  destruct m; simpl; split.
  - eauto.
  - by intros [?|(? & [= ->] & ?)].
  - intros [= ->]. by left.
  - by intros [[= ->]|(? & ? & ?)].
Qed.

Lemma bind_Panic {A B} (m : result A) (f : A → result B) :
m ≠ Err Panic → (∀ a, m = Ok a → f a ≠ Err Panic) → (m ≫= f) ≠ Err Panic.
Proof. destruct m as [a|e]; simpl; [by eauto|]. intros H _. congruence. Qed.

(** Whatever a step fails with has the property. *)
Definition errs_in {A} (Q : error → Prop) (r : result A) : Prop := ∀ e, r = Err e → Q e.

Lemma errs_Ok {A} Q (a : A) : errs_in Q (Ok a).
Proof. by intros e [=]. Qed.

Lemma errs_bind {A B} Q (m : result A) (f : A → result B) :
  errs_in Q m → (∀ a, m = Ok a → errs_in Q (f a)) → errs_in Q (m ≫= f).
Proof. intros Hm Hf e [He|(a & Ha & He)]%bind_Err; [by apply Hm|by eapply Hf]. Qed.

Lemma errs_weaken {A} (Q Q' : error → Prop) (r : result A) : (∀ e, Q e → Q' e) → errs_in Q r → errs_in Q' r.
Proof. unfold errs_in. auto. Qed.

Lemma of_option_Ok {A} (o : option A) e a : of_option o e = Ok a ↔ o = Some a.
Proof. destruct o; simpl; split; congruence. Qed.

Lemma map_err_Ok {A} f (r : result A) a : map_err f r = Ok a ↔ r = Ok a.
Proof. destruct r; simpl; split; congruence. Qed.

Lemma refuse_Ok {A} (c : bool) e (k : result A) a :
  (refuse c with e; k) = Ok a ↔ c = false ∧ k = Ok a.
Proof. destruct c; split; try tauto; [done | by intros [? ?]]. Qed.

Lemma beqb_true a b : beqb a b = true ↔ a = b.
Proof. unfold beqb. apply bool_decide_eq_true. Qed.

Lemma beqb_false a b : beqb a b = false ↔ a ≠ b.
Proof. unfold beqb. apply bool_decide_eq_false. Qed.

Lemma beqb_refl a : beqb a a = true.
Proof. by apply beqb_true. Qed.

Lemma negb_beqb_false a b : negb (beqb a b) = false ↔ a = b.
Proof. rewrite negb_false_iff. apply beqb_true. Qed.

Lemma negb_Zeqb_false a b : negb (a =? b) = false ↔ a = b.
Proof. rewrite negb_false_iff. apply Z.eqb_eq. Qed.

Create HintDb go discriminated.
Create Rewrite HintDb go.
#[export] Hint Rewrite @bind_Ok @of_option_Ok @map_err_Ok @refuse_Ok beqb_true beqb_false
  negb_beqb_false negb_Zeqb_false Z.eqb_eq Z.eqb_neq Z.ltb_lt Z.ltb_ge Z.leb_le Z.leb_gt
  orb_false_iff orb_true_iff andb_true_iff andb_false_iff negb_true_iff negb_false_iff : go.
#[export] Hint Resolve beqb_refl : go.

(** Take the hypotheses about runs apart: guards passed become facts, binds become runs. *)
Ltac go_inv :=
  repeat match goal with
  | H : Ok _ = Err _ |- _ => discriminate H
  | H : Err _ = Ok _ |- _ => discriminate H
  | H : ?x = ?x |- _ => clear H
  | H : Ok _ = Ok _ |- _ => injection H as H; try subst
  | H : Some _ = Some _ |- _ => injection H as H; try subst
  | H : Some _ = None |- _ => discriminate H
  | H : None = Some _ |- _ => discriminate H
  | H : (_ ≫= _) = Ok _ |- _ => apply bind_Ok in H as (? & ? & H)
  | H : of_option _ _ = Ok _ |- _ => apply of_option_Ok in H
  | H : map_err _ _ = Ok _ |- _ => apply map_err_Ok in H
  | H : (if _ then Err _ else _) = Ok _ |- _ => apply refuse_Ok in H as [? H]
  | H : _ ∧ _ |- _ => destruct H
  | H : ∃ _, _ |- _ => destruct H
  | H : (_ || _) = false |- _ => apply orb_false_iff in H as [? ?]
  | H : (_ && _) = true |- _ => apply andb_true_iff in H as [? ?]
  | H : negb _ = false |- _ => apply negb_false_iff in H
  | H : negb _ = true |- _ => apply negb_true_iff in H
  | H : beqb _ _ = true |- _ => apply beqb_true in H
  | H : beqb _ _ = false |- _ => apply beqb_false in H
  | H : (_ =? _) = true |- _ => apply Z.eqb_eq in H
  | H : (_ =? _) = false |- _ => apply Z.eqb_neq in H
  | H : (_ <? _) = true |- _ => apply Z.ltb_lt in H
  | H : (_ <? _) = false |- _ => apply Z.ltb_ge in H
  | H : (_ <=? _) = true |- _ => apply Z.leb_le in H
  | H : (_ <=? _) = false |- _ => apply Z.leb_gt in H
  end.

(** Case analysis on the condition or the scrutinee the goal is stuck on. *)
Ltac case_goal :=
  match goal with
  | |- context [if ?c then _ else _] => destruct c eqn:?
  | |- context [match ?c with _ => _ end] => destruct c eqn:?
  end.

(** ** Lists and digits *)

Lemma len_nonneg {A} (l : list A) : 0 <= len l.
Proof. unfold len. lia. Qed.

Lemma len_app {A} (l k : list A) : len (l ++ k) = len l + len k.
Proof. unfold len. rewrite length_app. lia. Qed.

Lemma len_nil {A} (l : list A) : len l = 0 ↔ l = [].
Proof. unfold len. destruct l; simpl; split; intros; [done.. | lia | done]. Qed.

Lemma len_length {A} (l : list A) (n : nat) : len l = Z.of_nat n ↔ length l = n.
Proof. unfold len. lia. Qed.

Lemma undigits_app b l k :
  undigits b (l ++ k) = undigits b l * b ^ Z.of_nat (length k) + undigits b k.
Proof.
  unfold undigits. rewrite fold_left_app.
  generalize (fold_left (λ acc d, acc * b + d) l 0) as a. intros a.
  assert (∀ a, fold_left (λ acc d, acc * b + d) k a
               = a * b ^ Z.of_nat (length k) + fold_left (λ acc d, acc * b + d) k 0) as H; [|done].
  clear. induction k as [|d k IH]; intros a; cbn [fold_left length]; [simpl; lia|].
  rewrite IH, (IH (0 * b + d)), Nat2Z.inj_succ, Z.pow_succ_r by lia. lia.
Qed.

Lemma length_digits b n z : length (digits b n z) = n.
Proof.
  revert z. induction n as [|n IH]; intros z; simpl; [done|].
  rewrite length_app, IH. simpl. lia.
Qed.

Lemma digits_range b n z : 0 < b → Forall (λ d, 0 <= d < b) (digits b n z).
Proof.
  intros Hb. revert z. induction n as [|n IH]; intros z; simpl; [done|].
  apply Forall_app. split; [done|]. constructor; [|done]. by apply Z.mod_pos_bound.
Qed.

Lemma undigits_digits b n z : 0 < b → undigits b (digits b n z) = z mod b ^ Z.of_nat n.
Proof.
  intros Hb. revert z. induction n as [|n IH]; intros z.
  - simpl. by rewrite Z.mod_1_r.
  - cbn [digits]. rewrite undigits_app, IH.
    change (undigits b [z mod b]) with (z mod b).
    cbn [length]. change (Z.of_nat 1) with 1.
    rewrite (Nat2Z.inj_succ n), Z.pow_succ_r, Z.rem_mul_r, Z.pow_1_r by lia. lia.
Qed.

Lemma digits_undigits b l :
  0 < b → Forall (λ d, 0 <= d < b) l → digits b (length l) (undigits b l) = l.
Proof.
  intros Hb. induction l as [|d l IH] using rev_ind; intros H; [done|].
  apply Forall_app in H as [H1 H2]. apply Forall_cons_1 in H2 as [H2 _].
  rewrite length_app, Nat.add_1_r. cbn [digits]. rewrite undigits_app.
  change (undigits b [d]) with d. cbn [length]. change (Z.of_nat 1) with 1.
  rewrite Z.pow_1_r. rewrite Z.div_add_l, Z.div_small, Z.add_0_r, IH by (lia || done).
  f_equal. rewrite Z.add_comm, Z.mod_add, Z.mod_small by lia. done.
Qed.

Lemma undigits_range b l :
  0 < b → Forall (λ d, 0 <= d < b) l → 0 <= undigits b l < b ^ Z.of_nat (length l).
Proof.
  intros Hb H. rewrite <- (digits_undigits b l) at 1 2 by done.
  rewrite undigits_digits by done. apply Z.mod_pos_bound, Z.pow_pos_nonneg; lia.
Qed.

Lemma digits_inj b n x y :
  0 < b → 0 <= x < b ^ Z.of_nat n → 0 <= y < b ^ Z.of_nat n → digits b n x = digits b n y → x = y.
Proof.
  intros Hb Hx Hy H. apply (f_equal (undigits b)) in H.
  rewrite !undigits_digits in H by done. by rewrite !Z.mod_small in H by done.
Qed.

Lemma u64be_inj x y : is_u64 x → is_u64 y → u64be x = u64be y → x = y.
Proof. unfold is_u64, two64, u64be, be. intros Hx Hy. apply digits_inj; simpl; lia. Qed.

Lemma be_val_u64be x : is_u64 x → be_val (u64be x) = x.
Proof.
  unfold is_u64, two64, u64be, be, be_val. intros Hx. rewrite undigits_digits by lia.
  apply Z.mod_small. simpl. lia.
Qed.

Lemma length_u64be x : length (u64be x) = 8%nat.
Proof. apply length_digits. Qed.

Lemma u64be_ok x : bytes_ok (u64be x).
Proof. apply (digits_range 256); lia. Qed.
#[export] Hint Resolve len_nonneg u64be_ok length_u64be : go.

(** ** Unambiguous concatenation *)

Lemma app_inj_len {A} (a b c d : list A) :
  length a = length c → a ++ b = c ++ d → a = c ∧ b = d.
Proof. intros Hl H. by apply app_inj_1 in H. Qed.

Lemma existsb_false {A} (f : A → bool) l : existsb f l = false ↔ Forall (λ x, f x = false) l.
Proof.
  induction l as [|a l IH]; simpl; [by split|]. rewrite orb_false_iff, IH, Forall_cons. done.
Qed.

Lemma has_byte_false c s : has_byte c s = false ↔ c ∉ s.
Proof.
  unfold has_byte. induction s as [|b s IH]; simpl.
  - split; [|done]. intros _ H. by apply elem_of_nil in H.
  - rewrite orb_false_iff, IH, not_elem_of_cons, Z.eqb_neq. done.
Qed.

(** A separator that occurs in neither prefix fixes where both end. *)
Lemma app_sep_inj (c : Z) (a b x y : bytes) :
  c ∉ a → c ∉ b → a ++ c :: x = b ++ c :: y → a = b ∧ x = y.
Proof.
  revert b. induction a as [|d a IH]; intros [|e b] Ha Hb H; simpl in H.
  - by injection H as H.
  - injection H as E H. subst e. exfalso. apply Hb. by left.
  - injection H as E H. subst d. exfalso. apply Ha. by left.
  - injection H as E H. apply not_elem_of_cons in Ha as [_ Ha], Hb as [_ Hb].
    destruct (IH b Ha Hb H) as [-> ->]. by subst.
Qed.

Lemma cut_byte_Some c s l r : cut_byte c s = Some (l, r) ↔ (c ∉ l) ∧ s = l ++ c :: r.
Proof.
  revert l r. induction s as [|b s IH]; intros l r; simpl.
  - split; [done|]. intros [_ H]. by destruct l.
  - destruct (Z.eqb_spec b c) as [->|Hbc].
    + split; [intros [= <- <-]; split; [apply not_elem_of_nil|done]|].
      intros [Hl H]. destruct l as [|d l]; simpl in H; [by injection H as ->|].
      injection H as E2 H. subst d. exfalso. apply Hl. by left.
    + destruct (cut_byte c s) as [[l' r']|] eqn:E.
      * destruct (proj1 (IH l' r') eq_refl) as [Hl' ->]. split.
        -- intros [= <- <-]. split; [|done]. apply not_elem_of_cons. done.
        -- intros [Hl H]. destruct l as [|d l]; simpl in H; [by injection H|].
           injection H as E2 H.
           apply not_elem_of_cons in Hl as [_ Hl].
           destruct (app_sep_inj _ _ _ _ _ Hl' Hl H) as [-> ->]. by subst.
      * split; [done|]. intros [Hl H]. destruct l as [|d l]; simpl in H; [by injection H|].
        injection H as E' H.
        apply not_elem_of_cons in Hl as [_ Hl]. by discriminate (proj2 (IH l r) (conj Hl H)).
Qed.

(** ** Decimal numbers *)

Definition is_digit (c : Z) : Prop := 48 <= c <= 57.

Lemma dec_digits_range f n : 0 <= n → Forall is_digit (dec_digits f n).
Proof.
  revert n. induction f as [|f IH]; intros n Hn; simpl; [done|].
  destruct (n <? 10) eqn:E; go_inv.
  - constructor; [unfold is_digit; lia|done].
  - apply Forall_app. split; [apply IH; apply Z.div_pos; lia|].
    constructor; [|done]. unfold is_digit. pose proof (Z.mod_pos_bound n 10). lia.
Qed.

Lemma dec_digits_val f n :
  0 <= n < 10 ^ Z.of_nat f → undigits 10 (map (λ c, c - 48) (dec_digits f n)) = n.
Proof.
  revert n. induction f as [|f IH]; intros n Hn; [unfold undigits; simpl in *; lia|].
  cbn [dec_digits].
  rewrite Nat2Z.inj_succ, Z.pow_succ_r in Hn by lia.
  destruct (n <? 10) eqn:E; go_inv.
  - unfold undigits. simpl. lia.
  - rewrite map_app, undigits_app, IH by (split; [apply Z.div_pos|apply Z.div_lt_upper_bound]; lia).
    cbn [map length]. change (undigits 10 [48 + n mod 10 - 48]) with (0 * 10 + (48 + n mod 10 - 48)).
    change (10 ^ Z.of_nat 1) with 10. pose proof (Z.div_mod n 10). lia.
Qed.

Lemma decimal_digits n : 0 <= n → Forall is_digit (decimal n).
Proof. apply dec_digits_range. Qed.

(** A decimal has the value it spells, so two numbers with one spelling are the same. *)
Lemma decimal_val n : is_u64 n → undigits 10 (map (λ c, c - 48) (decimal n)) = n.
Proof. intros [H0 H1]. apply dec_digits_val. unfold two64 in H1. split; [done|]. simpl. lia. Qed.

Lemma decimal_inj n m : is_u64 n → is_u64 m → decimal n = decimal m → n = m.
Proof. intros Hn Hm E. by rewrite <- (decimal_val n), <- (decimal_val m), E. Qed.

Lemma decimal_not_in c n : 0 <= n → ¬ is_digit c → c ∉ decimal n.
Proof. intros Hn Hc Hin. apply Hc. by apply (proj1 (Forall_forall _ _) (decimal_digits n Hn)). Qed.
