(* ===== verification/Checks.v ===== *)
(** * Checks: runs that do not panic, and runs that report the first of a list of named checks that fails *)

From S2P Require Import Prelude.

(** ** No panic *)

Definition safe {A} (r : result A) : Prop := r ≠ Err Panic.

Lemma safe_Ok {A} (a : A) : safe (Ok a).
Proof. done. Qed.
Lemma safe_option {A} (o : option A) e : e ≠ Panic → safe (of_option o e).
Proof. unfold safe. destruct o; simpl; congruence. Qed.
Lemma safe_bind {A B} (m : result A) (f : A → result B) : safe m → (∀ a, m = Ok a → safe (f a)) → safe (m ≫= f).
Proof. apply bind_Panic. Qed.
Lemma safe_map_err {A} f (r : result A) : safe r → (∀ e, e ≠ Panic → f e ≠ Panic) → safe (map_err f r).
Proof. unfold safe. destruct r; simpl; [done|]. intros H1 H2 [= E]. apply (H2 e); congruence. Qed.
Lemma safe_refuse {A} (c : bool) e (k : result A) : e ≠ Panic → (c = false → safe k) → safe (if c then Err e else k).
Proof. unfold safe. destruct c; [congruence|auto]. Qed.

Create HintDb safe discriminated.
#[export] Hint Resolve safe_Ok : safe.

(** One step of a function that returns errors. *)
Ltac safe_step :=
  match goal with
  | |- safe (of_option _ _) => apply safe_option; done
  | |- safe (_ ≫= _) => apply safe_bind; [|intros ? ?]
  | |- safe (map_err _ _) => apply safe_map_err; [|by intros []]
  | |- safe (if _ then Err _ else _) => apply safe_refuse; [done|intros ?]
  | |- safe (Ok _) => apply safe_Ok
  | |- safe (Err _) => by intros [=]
  end.
Ltac safe_steps := repeat (safe_step; auto with safe).

(** ** The errors a run may return *)

Definition fails_as {A} (Q : error → Prop) (r : result A) : Prop := match r with Ok _ => True | Err e => Q e end.

Section Fails.
Context (Q : error → Prop).
Lemma fails_option {A} (o : option A) e : Q e → fails_as Q (of_option o e).
Proof. by destruct o. Qed.
Lemma fails_bind {A B} (m : result A) (f : A → result B) : fails_as Q m → (∀ a, m = Ok a → fails_as Q (f a)) → fails_as Q (m ≫= f).
Proof. destruct m; simpl; auto. Qed.
Lemma fails_map_err {A} f (r : result A) : (∀ e, Q (f e)) → fails_as Q (map_err f r).
Proof. destruct r; simpl; auto. Qed.
Lemma fails_refuse {A} (c : bool) e (k : result A) : Q e → (c = false → fails_as Q k) → fails_as Q (if c then Err e else k).
Proof. destruct c; simpl; auto. Qed.
Lemma fails_weaken {A} (Q' : error → Prop) (r : result A) : (∀ e, Q e → Q' e) → fails_as Q r → fails_as Q' r.
Proof. destruct r; simpl; auto. Qed.
End Fails.

(** One step; [leaf] proves that an error of the run is one of the set. *)
Ltac fails_step leaf :=
  match goal with
  | |- fails_as _ (of_option _ _) => apply fails_option; leaf
  | |- fails_as _ (_ ≫= _) => apply fails_bind; [|intros ? ?]
  | |- fails_as _ (map_err _ _) => apply fails_map_err; [intros ?; leaf]
  | |- fails_as _ (if _ then Err _ else _) => apply fails_refuse; [leaf|intros ?]
  | |- fails_as _ (Ok _) => exact I
  | |- fails_as _ (Err _) => leaf
  end.

(** ** Named checks *)

(** The first condition of the list that does not hold is the one named. *)
Inductive first_refusal : list (string * Prop) → string → Prop :=
  | refusal_here s (Q : Prop) l : ¬ Q → first_refusal ((s, Q) :: l) s
  | refusal_later s (Q : Prop) l s' : Q → first_refusal l s' → first_refusal ((s, Q) :: l) s'.

Lemma first_refusal_fails l s : first_refusal l s → ¬ Forall snd l.
Proof. induction 1 as [s Q l HQ|s Q l s' HQ _ IH]; intros [HF Hl]%Forall_cons; simpl in HF; auto. Qed.

Lemma first_refusal_det l s s' : first_refusal l s → first_refusal l s' → s = s'.
Proof. induction 1; inversion 1; subst; auto; done. Qed.

(** A run [r] makes the checks [l], reports a failure as [bad] says and ends with a value in [R]. *)
Definition checked {A} (bad : string → error) (l : list (string * Prop)) (R : A → Prop) (r : result A) : Prop :=
  match r with
  | Ok a => Forall snd l ∧ R a
  | Err e => ∃ s, e = bad s ∧ first_refusal l s
  end.

#[global] Arguments checked : simpl never.

(** What that comes to: success exactly when all the checks hold, and failure exactly at the first
    that does not. *)
Lemma checked_decides {A} bad l (R : A → Prop) r :
  (∀ s s', bad s = bad s' → s = s') → checked bad l R r →
  ((∃ a, r = Ok a ∧ R a) ↔ Forall snd l) ∧ (∀ s, r = Err (bad s) ↔ first_refusal l s) ∧
  (∀ e, r = Err e → ∃ s, e = bad s).
Proof.
  intros Hinj Hc. destruct r as [a|e]; unfold checked in Hc.
  - destruct Hc as [Hl HR]. split_and!; [split; eauto| |done]. intros s. split; [done|]. by intros ?%first_refusal_fails.
  - destruct Hc as (s & -> & Hf). split_and!.
    + split; [by intros (? & ? & _)|]. by intros ?%(first_refusal_fails _ _ Hf).
    + intros s'. split; [by intros [= <-%Hinj]|]. intros Hf'. by rewrite (first_refusal_det _ _ _ Hf Hf').
    + intros e [= <-]. eauto.
Qed.

Section Steps.
Context {A : Type} (bad : string → error) (R : A → Prop).

Lemma checked_Ok a : R a → checked bad [] R (Ok a).
Proof. intros HR. split; [constructor|done]. Qed.

Lemma checked_cons s (Q : Prop) l r : Q → checked bad l R r → checked bad ((s, Q) :: l) R r.
Proof.
  intros HQ. unfold checked. destruct r; [intros [Hl ?]; split; [by constructor|done]|].
  intros (s' & -> & Hf). exists s'. split; [done|]. by constructor.
Qed.

Lemma checked_fail s (Q : Prop) l : ¬ Q → checked bad ((s, Q) :: l) R (Err (bad s)).
Proof. intros HQ. exists s. split; [done|]. by constructor. Qed.

Lemma checked_iff s (Q Q' : Prop) l r : (Q ↔ Q') → checked bad ((s, Q) :: l) R r → checked bad ((s, Q') :: l) R r.
Proof.
  intros HQ. unfold checked. destruct r; [intros [[HF Hl]%Forall_cons ?]; split; [constructor; [by apply HQ|done]|done]|].
  intros (s' & -> & Hf). exists s'. split; [done|]. inversion Hf; subst; [constructor; by rewrite <- HQ|].
  apply refusal_later; [by apply HQ|done].
Qed.

(** A guard. *)
Lemma checked_refuse s (Q : Prop) l c k :
  (c = false ↔ Q) → (Q → checked bad l R k) → checked bad ((s, Q) :: l) R (if c then Err (bad s) else k).
Proof.
  intros Hc Hk. destruct c.
  - apply checked_fail. rewrite <- Hc. done.
  - apply checked_cons; [by apply Hc|]. by apply Hk, Hc.
Qed.

(** A call that must succeed, with guards under the same name. *)
Lemma checked_bind {B} s (Q : Prop) l (r : result B) f k :
  r ≠ Err Panic → (∀ e, e ≠ Panic → f e = bad s) → (∀ e, r = Err e → ¬ Q) →
  (∀ b, r = Ok b → checked bad ((s, Q) :: l) R (k b)) →
  checked bad ((s, Q) :: l) R (b ← map_err f r; k b).
Proof.
  intros Hp Hf Hn Hk. destruct r as [b|e]; cbn [map_err mbind result_bind]; [by apply Hk|].
  rewrite Hf by congruence. apply checked_fail. by eapply Hn.
Qed.

Lemma checked_option {B} s (Q : Prop) l (o : option B) k :
  (o = None → ¬ Q) → (∀ b, o = Some b → checked bad ((s, Q) :: l) R (k b)) →
  checked bad ((s, Q) :: l) R (b ← of_option o (bad s); k b).
Proof. intros Hn Hk. destruct o as [b|]; [by apply Hk|]. apply checked_fail. auto. Qed.
End Steps.
