(* ===== verification/Text.v ===== *)
(** * Text: spellings of bytes and numbers (Go's [strconv], [encoding/hex] and [encoding/base64]) *)

From S2P Require Import Prelude.

(** ** Separators *)

Lemma split_byte_none c w : c ∉ w → split_byte c w = [w].
Proof.
  induction w as [|b w IH]; [done|]. intros [Hb Hw]%not_elem_of_cons. simpl. rewrite (proj2 (Z.eqb_neq b c)) by done.
  by rewrite IH.
Qed.

Lemma split_byte_app c w s : c ∉ w → split_byte c (w ++ c :: s) = w :: split_byte c s.
Proof.
  induction w as [|b w IH]; simpl; [by rewrite Z.eqb_refl|]. intros [Hb Hw]%not_elem_of_cons.
  rewrite (proj2 (Z.eqb_neq b c)) by done. by rewrite IH.
Qed.

(** ** Decimals *)

(** [strconv.ParseUint(s, 10, bits)], character by character in a [uint64]. *)
Definition ErrSyntax : error := Errf "invalid syntax".
Definition ErrRange : error := Errf "value out of range".
Definition parse_cutoff : Z := MaxUint64 / 10 + 1.

Fixpoint parse_digits (maxVal n : Z) (s : bytes) : result Z :=
  match s with
  | [] => Ok n
  | c :: s =>
      refuse negb ((48 <=? c) && (c <=? 57)) with ErrSyntax;
      refuse parse_cutoff <=? n with ErrRange;
      let m := u64 (n * 10) in
      let n1 := u64 (m + (c - 48)) in
      refuse (n1 <? m) || (maxVal <? n1) with ErrRange;
      parse_digits maxVal n1 s
  end.

Definition ParseUint (s : bytes) (bits : Z) : result Z :=
  refuse beqb s [] with ErrSyntax;
  parse_digits (2 ^ bits - 1) 0 s.

Definition dec_value (s : bytes) : Z := undigits 10 (map (λ c, c - 48) s).

Lemma parse_digits_Ok maxVal s : ∀ n m,
  maxVal <= MaxUint64 → 0 <= n <= maxVal →
  parse_digits maxVal n s = Ok m ↔
  Forall is_digit s ∧ m = fold_left (λ acc d, acc * 10 + d) (map (λ c, c - 48) s) n ∧ m <= maxVal.
Proof.
  unfold MaxUint64, two64. induction s as [|c s IH]; intros n m Hmax Hn; cbn [parse_digits map fold_left].
  - split; [intros [= ->]; split_and!; [done|done|lia]|by intros (_ & -> & _)].
  - assert (parse_cutoff = 1844674407370955162) as Hcut by (vm_compute; reflexivity).
    split.
    + intros H. apply refuse_Ok in H as [Hc H]. apply negb_false_iff, andb_true_iff in Hc as [Hc1 Hc2].
      apply refuse_Ok in H as [Hcu H]. apply refuse_Ok in H as [Hr H]. go_inv. rewrite Hcut in Hcu.
      assert (u64 (n * 10) = n * 10) as E1 by (unfold u64, two64; apply Z.mod_small; lia).
      rewrite E1 in *.
      assert (u64 (n * 10 + (c - 48)) = n * 10 + (c - 48)) as E2.
      { unfold u64, two64 in *. destruct (Z_lt_ge_dec (n * 10 + (c - 48)) 18446744073709551616) as [Hs|Hs].
        - apply Z.mod_small. lia.
        - exfalso. assert ((n * 10 + (c - 48)) mod 18446744073709551616 = n * 10 + (c - 48) - 18446744073709551616)
            as E by (symmetry; apply Zmod_unique with (q := 1); lia).
          rewrite E in *. lia. }
      rewrite E2 in *. apply IH in H as (Hd & -> & Hm); [|lia..].
      split_and!; try done. constructor; [unfold is_digit; lia|done].
    + intros (Hd & Hm & Hle). inversion Hd as [|? ? Hc Hd']; subst. unfold is_digit in Hc.
      assert (n * 10 + (c - 48) <= fold_left (λ acc d, acc * 10 + d) (map (λ c, c - 48) s) (n * 10 + (c - 48)))
        as Hge.
      { assert (∀ l a, Forall is_digit l → 0 <= a → a <= fold_left (λ acc d, acc * 10 + d) (map (λ c, c - 48) l) a)
          as Hmono; [|apply Hmono; [done|lia]].
        clear. induction l as [|d l IHl]; intros a Hl Ha; cbn [map fold_left]; [lia|].
        inversion Hl; subst. unfold is_digit in *. etrans; [|apply IHl; [done|lia]]. lia. }
      rewrite (proj2 (Z.leb_le 48 c)), (proj2 (Z.leb_le c 57)) by lia. cbn [negb andb].
      rewrite Hcut, (proj2 (Z.leb_gt _ n)) by lia.
      assert (u64 (n * 10) = n * 10) as -> by (unfold u64, two64; apply Z.mod_small; lia).
      assert (u64 (n * 10 + (c - 48)) = n * 10 + (c - 48)) as -> by (unfold u64, two64; apply Z.mod_small; lia).
      rewrite (proj2 (Z.ltb_ge _ _)), (proj2 (Z.ltb_ge _ _)) by lia. cbn [orb]. apply IH; [lia..|done].
Qed.

Lemma ParseUint_Ok s bits n :
  bits = 63 ∨ bits = 64 →
  ParseUint s bits = Ok n ↔ s ≠ [] ∧ Forall is_digit s ∧ n = dec_value s ∧ n <= 2 ^ bits - 1.
Proof.
  intros Hb. assert (0 <= 2 ^ bits - 1 <= MaxUint64) as Hm by (destruct Hb as [-> | ->]; done).
  unfold ParseUint. rewrite refuse_Ok, beqb_false, parse_digits_Ok by lia. done.
Qed.

(** The decimal spelling of a number: digits, with no zero in front of another digit. *)
Definition canonical_decimal (s : bytes) : Prop :=
  Forall is_digit s ∧ s ≠ [] ∧ (1 < len s → head s ≠ Some 48).

Lemma dec_value_snoc s d : dec_value (s ++ [d]) = dec_value s * 10 + (d - 48).
Proof. unfold dec_value. rewrite map_app, undigits_app. cbn [map length]. unfold undigits at 2. simpl. lia. Qed.

Lemma dec_value_nonneg s : Forall is_digit s → 0 <= dec_value s.
Proof.
  induction s as [|d s IH] using rev_ind; intros H; [done|]. apply Forall_app in H as [H1 H2].
  inversion H2; subst. unfold is_digit in *. rewrite dec_value_snoc. specialize (IH H1). lia.
Qed.

Lemma canonical_snoc s d : canonical_decimal (s ++ [d]) → s ≠ [] → canonical_decimal s ∧ 1 <= dec_value s.
Proof.
  intros (Hd & _ & Hz) Hs. apply Forall_app in Hd as [Hd _]. destruct s as [|c s]; [done|].
  assert (c ≠ 48) as Hc by (intros ->; apply Hz; [unfold len; simpl; rewrite length_app; simpl; lia|done]).
  split; [split_and!; [done|done|intros _ [= E]; done]|].
  assert (∀ l, Forall is_digit l → c - 48 <= dec_value (c :: l)) as Hge.
  { induction l as [|e l IH] using rev_ind; intros Hl; [unfold dec_value, undigits; simpl; lia|].
    apply Forall_app in Hl as [Hl1 Hl2]. inversion Hl2; subst. unfold is_digit in *.
    change (c :: l ++ [e]) with ((c :: l) ++ [e]). rewrite dec_value_snoc. specialize (IH Hl1).
    inversion Hd; subst. unfold is_digit in *. lia. }
  inversion Hd as [|? ? Hcd Hsd]; subst. specialize (Hge s Hsd). unfold is_digit in *. lia.
Qed.

Lemma dec_digits_canonical f n : 0 <= n < 10 ^ Z.of_nat f → (0 < f)%nat → canonical_decimal (dec_digits f n).
Proof.
  revert n. induction f as [|f IH]; intros n Hn Hf; [lia|]. cbn [dec_digits].
  split_and!; [apply (dec_digits_range (S f)); lia|case_goal; [done|by destruct (dec_digits f (n / 10))]|].
  destruct (n <? 10) eqn:E; [unfold len; simpl; lia|]. apply Z.ltb_ge in E. rewrite Nat2Z.inj_succ, Z.pow_succ_r in Hn by lia.
  destruct f as [|f]; [simpl in Hn; lia|].
  destruct (IH (n / 10)) as (_ & Hne & Hz); [split; [apply Z.div_pos|apply Z.div_lt_upper_bound]; lia|lia|].
  destruct (dec_digits (S f) (n / 10)) as [|c l] eqn:El; [done|]. intros _ [= ->].
  assert (dec_value (48 :: l) = n / 10) as Hv.
  { unfold dec_value. rewrite <- El. apply dec_digits_val. split; [apply Z.div_pos|apply Z.div_lt_upper_bound]; lia. }
  assert (1 <= n / 10) by (apply Z.div_le_lower_bound; lia).
  destruct l as [|e l]; [unfold dec_value, undigits in Hv; simpl in Hv; lia|].
  apply Hz; [unfold len; simpl; lia|done].
Qed.

Lemma canonical_dec_digits f : ∀ s,
  canonical_decimal s → dec_value s < 10 ^ Z.of_nat f → (0 < f)%nat → dec_digits f (dec_value s) = s.
Proof.
  induction f as [|f IH]; intros s Hs Hv Hf; [lia|].
  rewrite Nat2Z.inj_succ, Z.pow_succ_r in Hv by lia.
  destruct s as [|d s _] using rev_ind; [by destruct Hs as (_ & ? & _)|].
  pose proof (proj1 Hs) as Hd. apply Forall_app in Hd as [_ Hd]. inversion Hd as [|? ? Hdd _]; subst.
  unfold is_digit in Hdd. rewrite dec_value_snoc in *. cbn [dec_digits]. destruct s as [|c s].
  - change (dec_value []) with 0. rewrite (proj2 (Z.ltb_lt _ _)) by lia. simpl. f_equal. lia.
  - destruct (canonical_snoc _ _ Hs) as [Hc Hv1]; [done|]. rewrite (proj2 (Z.ltb_ge _ _)) by lia.
    rewrite Z.div_add_l, Z.div_small, Z.add_0_r by lia.
    assert ((dec_value (c :: s) * 10 + (d - 48)) mod 10 = d - 48) as ->.
    { symmetry. apply Z.mod_unique with (q := dec_value (c :: s)); lia. }
    destruct f as [|f]; [simpl in Hv; lia|]. rewrite IH by (done || lia). f_equal. f_equal. lia.
Qed.

(** [FormatUint] and [ParseUint]. *)
Lemma decimal_reads n :
  is_u64 n → canonical_decimal (decimal n) ∧ ParseUint (decimal n) 64 = Ok n.
Proof.
  intros Hn. assert (canonical_decimal (decimal n)) as Hc.
  { apply dec_digits_canonical; [|lia]. unfold is_u64, two64 in Hn. change (10 ^ Z.of_nat 20) with 100000000000000000000. lia. }
  split; [done|]. apply ParseUint_Ok; [by right|]. destruct Hc as (H1 & H2 & _). split_and!; [done..| |].
  - symmetry. by apply decimal_val.
  - change (2 ^ 64 - 1) with MaxUint64. unfold is_u64, MaxUint64 in *. lia.
Qed.

(** ** Hexadecimal

    [hex.EncodeToString] writes lower case; [hex.DecodeString] reads either. *)

Definition hex_char (n : Z) : Z := if n <? 10 then 48 + n else 87 + n.
Definition hex_encode (b : bytes) : bytes := flat_map (λ c, [hex_char (c / 16); hex_char (c mod 16)]) b.

Definition unhex (c : Z) : option Z :=
  if (48 <=? c) && (c <=? 57) then Some (c - 48)
  else if (97 <=? c) && (c <=? 102) then Some (c - 87)
  else if (65 <=? c) && (c <=? 70) then Some (c - 55)
  else None.
Fixpoint hex_decode (s : bytes) : option bytes :=
  match s with
  | [] => Some []
  | [_] => None
  | a :: b :: s => h ← unhex a; l ← unhex b; r ← hex_decode s; Some (h * 16 + l :: r)
  end.

(** [strings.ToLower] on ASCII letters. *)
Definition lower_ascii (s : bytes) : bytes := map (λ c, if (65 <=? c) && (c <=? 90) then c + 32 else c) s.

Lemma hex_char_facts n :
  0 <= n < 16 → unhex (hex_char n) = Some n ∧ lower_ascii [hex_char n] = [hex_char n] ∧ 48 <= hex_char n <= 102.
Proof.
  intros Hn. assert (n ∈ seqZ 0 16) as Hi by (apply elem_of_seqZ; lia). clear Hn. revert n Hi. apply Forall_forall.
  vm_compute. repeat constructor; discriminate.
Qed.

Lemma hex_round_trip b :
  bytes_ok b →
  hex_decode (hex_encode b) = Some b ∧ len (hex_encode b) = 2 * len b ∧ lower_ascii (hex_encode b) = hex_encode b ∧
  Forall (λ c, 48 <= c <= 102) (hex_encode b).
Proof.
  induction 1 as [|c b Hc _ (IH1 & IH2 & IH3 & IH4)]; [done|]. unfold byte_ok in Hc.
  destruct (hex_char_facts (c / 16)) as (H1 & L1 & R1); [Z.to_euclidean_division_equations; lia|].
  destruct (hex_char_facts (c mod 16)) as (H2 & L2 & R2); [Z.to_euclidean_division_equations; lia|].
  injection L1 as L1. injection L2 as L2.
  change (hex_encode (c :: b)) with (hex_char (c / 16) :: hex_char (c mod 16) :: hex_encode b). split_and!.
  - cbn [hex_decode]. rewrite H1, H2, IH1. cbn [mbind option_bind]. by replace (c / 16 * 16 + c mod 16) with c by (Z.to_euclidean_division_equations; lia).
  - unfold len in *. cbn [length]. lia.
  - cbn [lower_ascii map]. rewrite L1, L2. do 2 f_equal. exact IH3.
  - constructor; [done|]. by constructor.
Qed.

Lemma unhex_lower c n : unhex c = Some n → lower_ascii [c] = [c] → hex_char n = c ∧ 0 <= n < 16.
Proof.
  unfold unhex, lower_ascii, hex_char. cbn [map]. intros H [= Hl].
  repeat match type of H with context [if ?b then _ else _] => destruct b eqn:? end; simplify_eq;
    repeat match goal with K : (_ && _) = true |- _ => apply andb_true_iff in K as [?%Z.leb_le ?%Z.leb_le] end.
  - rewrite (proj2 (Z.ltb_lt _ _)) by lia. lia.
  - rewrite (proj2 (Z.ltb_ge _ _)) by lia. lia.
  - rewrite (proj2 (Z.leb_le _ _)), (proj2 (Z.leb_le _ _)) in Hl by lia. cbn [andb] in Hl. lia.
Qed.

(** A lower-case spelling is the only one. *)
Lemma hex_decode_lower s b : hex_decode s = Some b → lower_ascii s = s → hex_encode b = s ∧ bytes_ok b.
Proof.
  assert (∀ n s b, (length s <= n)%nat → hex_decode s = Some b → lower_ascii s = s → hex_encode b = s ∧ bytes_ok b) as H; [|by apply (H (length s))].
  clear. induction n as [|n IH]; intros [|x [|y s]] b; cbn [length hex_decode]; try lia; try done.
  1-2: intros _ [= <-] _; split; [done|constructor].
  intros Hn Hd Hl. destruct (unhex x) as [h|] eqn:Ex; [|done]. destruct (unhex y) as [l|] eqn:Ey; [|done].
  destruct (hex_decode s) as [r|] eqn:Er; [|done]. cbn [mbind option_bind] in Hd. injection Hd as <-.
  unfold lower_ascii in Hl. cbn [map] in Hl. injection Hl as Hx Hy Hs.
  destruct (unhex_lower x h Ex) as [<- Rh]; [unfold lower_ascii; cbn [map]; by rewrite Hx|].
  destruct (unhex_lower y l Ey) as [<- Rl]; [unfold lower_ascii; cbn [map]; by rewrite Hy|].
  destruct (IH s r) as [E Hr]; [lia|done|exact Hs|]. split.
  - change (hex_encode (h * 16 + l :: r)) with (hex_char ((h * 16 + l) / 16) :: hex_char ((h * 16 + l) mod 16) :: hex_encode r).
    rewrite E. replace ((h * 16 + l) / 16) with h by (Z.to_euclidean_division_equations; lia).
    by replace ((h * 16 + l) mod 16) with l by (Z.to_euclidean_division_equations; lia).
  - constructor; [unfold byte_ok; lia|done].
Qed.

(** ** Base64 ([base64.StdEncoding]) *)

Definition b64_alphabet : bytes := str "ABCDEFGHIJKLMNOPQRSTUVWXYZabcdefghijklmnopqrstuvwxyz0123456789+/".
Definition b64_char (v : Z) : Z := nth (Z.to_nat v) b64_alphabet 0.
Definition b64_val (c : Z) : option Z :=
  if (65 <=? c) && (c <=? 90) then Some (c - 65)
  else if (97 <=? c) && (c <=? 122) then Some (c - 71)
  else if (48 <=? c) && (c <=? 57) then Some (c + 4)
  else if c =? 43 then Some 62
  else if c =? 47 then Some 63
  else None.

Fixpoint b64_encode (b : bytes) : bytes :=
  match b with
  | [] => []
  | [x] => [b64_char (x / 4); b64_char (x mod 4 * 16); 61; 61]
  | [x; y] => [b64_char (x / 4); b64_char (x mod 4 * 16 + y / 16); b64_char (y mod 16 * 4); 61]
  | x :: y :: z :: b =>
      b64_char (x / 4) :: b64_char (x mod 4 * 16 + y / 16) :: b64_char (y mod 16 * 4 + z / 64) :: b64_char (z mod 64) :: b64_encode b
  end.

(** [Strict().DecodeString]: carriage returns and line feeds are skipped; padding is required, ends
    the input, and leaves no bit unused. *)
Fixpoint b64_quanta (s : bytes) : option bytes :=
  match s with
  | [] => Some []
  | c1 :: c2 :: c3 :: c4 :: s =>
      v1 ← b64_val c1;
      v2 ← b64_val c2;
      if c3 =? 61 then
        if (c4 =? 61) && bool_decide (s = []) && (v2 mod 16 =? 0) then Some [v1 * 4 + v2 / 16] else None
      else
        v3 ← b64_val c3;
        if c4 =? 61 then
          if bool_decide (s = []) && (v3 mod 4 =? 0) then Some [v1 * 4 + v2 / 16; v2 mod 16 * 16 + v3 / 4] else None
        else
          v4 ← b64_val c4;
          r ← b64_quanta s;
          Some (v1 * 4 + v2 / 16 :: v2 mod 16 * 16 + v3 / 4 :: v3 mod 4 * 64 + v4 :: r)
  | _ => None
  end.
Definition skip_newlines (s : bytes) : bytes := List.filter (λ c, negb ((c =? 13) || (c =? 10))) s.
Definition b64_decode (s : bytes) : option bytes := b64_quanta (skip_newlines s).

(** The characters of an encoding: neither a space nor a control nor a line end. *)
Definition b64_ok (c : Z) : Prop := 43 <= c <= 122.

Lemma b64_char_facts v : 0 <= v < 64 → b64_val (b64_char v) = Some v ∧ b64_ok (b64_char v) ∧ b64_char v ≠ 61.
Proof.
  intros Hv. assert (v ∈ seqZ 0 64) as Hi by (apply elem_of_seqZ; lia). clear Hv. revert v Hi. apply Forall_forall.
  vm_compute. repeat constructor; discriminate.
Qed.

(** Induction by three bytes. *)
Lemma three_ind (Q : bytes → Prop) :
  Q [] → (∀ x, Q [x]) → (∀ x y, Q [x; y]) → (∀ x y z b, Q b → Q (x :: y :: z :: b)) → ∀ b, Q b.
Proof.
  intros H0 H1 H2 H3. fix IH 1. intros [|x [|y [|z b]]]; [apply H0|apply H1|apply H2|apply H3, IH].
Qed.

Lemma b64_quanta_encode b : bytes_ok b → b64_quanta (b64_encode b) = Some b ∧ Forall b64_ok (b64_encode b) ∧ (b ≠ [] → b64_encode b ≠ []).
Proof.
  assert (∀ v, 0 <= v < 64 → b64_val (b64_char v) = Some v) as Hv by (intros v Hv; by apply b64_char_facts).
  assert (∀ v, 0 <= v < 64 → b64_ok (b64_char v)) as Ho by (intros v Ho; by apply b64_char_facts).
  assert (∀ v, 0 <= v < 64 → (b64_char v =? 61) = false) as Hn by (intros v Hn; by apply Z.eqb_neq, b64_char_facts).
  assert (b64_ok 61) as H61 by (unfold b64_ok; lia).
  induction b as [|x|x y|x y z b IH] using three_ind; intros Hok; [done|..]; unfold bytes_ok in Hok;
    rewrite ?Forall_cons in Hok; unfold byte_ok in Hok.
  - destruct Hok as [Hx _]. cbn [b64_encode b64_quanta].
    rewrite !Hv by (Z.to_euclidean_division_equations; lia). cbn [mbind option_bind Z.eqb andb Pos.eqb].
    rewrite Z.mod_mul by done. split_and!; [|repeat constructor; try done; apply Ho; Z.to_euclidean_division_equations; lia|done].
    change (bool_decide (@nil Z = [])) with true. cbn [andb Z.eqb]. do 2 f_equal. Z.to_euclidean_division_equations; lia.
  - destruct Hok as (Hx & Hy & _). cbn [b64_encode b64_quanta].
    rewrite !Hv, Hn by (Z.to_euclidean_division_equations; lia). cbn [mbind option_bind Z.eqb andb Pos.eqb].
    rewrite Z.mod_mul by done. split_and!; [|repeat constructor; try done; apply Ho; Z.to_euclidean_division_equations; lia|done].
    change (bool_decide (@nil Z = [])) with true. cbn [andb Z.eqb]. do 2 f_equal; [|f_equal]; Z.to_euclidean_division_equations; lia.
  - destruct Hok as (Hx & Hy & Hz & Hok). destruct (IH Hok) as (IH1 & IH2 & _). cbn [b64_encode b64_quanta].
    rewrite !Hv, !Hn by (Z.to_euclidean_division_equations; lia). cbn [mbind option_bind]. rewrite IH1. cbn [mbind option_bind].
    split_and!; [|repeat constructor; try done; apply Ho; Z.to_euclidean_division_equations; lia|done].
    do 2 f_equal; [|f_equal; [|f_equal]]; Z.to_euclidean_division_equations; lia.
Qed.

Lemma skip_newlines_ok s : Forall b64_ok s → skip_newlines s = s.
Proof.
  unfold skip_newlines. induction 1 as [|c s Hc _ IH]; [done|]. cbn [List.filter]. unfold b64_ok in Hc.
  rewrite (proj2 (Z.eqb_neq c 13)), (proj2 (Z.eqb_neq c 10)) by lia. cbn [orb negb]. by rewrite IH.
Qed.

Lemma b64_round_trip b : bytes_ok b → b64_decode (b64_encode b) = Some b.
Proof. intros Hb. destruct (b64_quanta_encode b Hb) as (H1 & H2 & _). unfold b64_decode. by rewrite skip_newlines_ok. Qed.

Lemma len_b64_encode b : 3 * len (b64_encode b) <= 4 * len b + 8.
Proof. induction b as [|x|x y|x y z b IH] using three_ind; unfold len in *; cbn [b64_encode length] in *; lia. Qed.

(** ** The order of strings *)

(** [sort.Strings]: bytewise. *)
Fixpoint bytes_leb (a b : bytes) : bool :=
  match a, b with
  | [], _ => true
  | _ :: _, [] => false
  | x :: a, y :: b => if x <? y then true else if y <? x then false else bytes_leb a b
  end.
Definition bytes_le (a b : bytes) : Prop := bytes_leb a b = true.
#[export] Instance bytes_le_dec : RelDecision bytes_le := λ a b, decide (bytes_leb a b = true).

Lemma bytes_leb_total a : ∀ b, bytes_leb a b = true ∨ bytes_leb b a = true.
Proof.
  induction a as [|x a IH]; intros [|y b]; simpl; auto.
  destruct (Z.ltb_spec x y), (Z.ltb_spec y x); auto; lia.
Qed.
Lemma bytes_leb_antisym a : ∀ b, bytes_leb a b = true → bytes_leb b a = true → a = b.
Proof.
  induction a as [|x a IH]; intros [|y b]; simpl; try done.
  destruct (Z.ltb_spec x y), (Z.ltb_spec y x); try done; try lia. intros. f_equal; [lia|by apply IH].
Qed.
Lemma bytes_leb_trans a : ∀ b c, bytes_leb a b = true → bytes_leb b c = true → bytes_leb a c = true.
Proof.
  induction a as [|x a IH]; intros [|y b] [|z c]; simpl; try done.
  destruct (Z.ltb_spec x y), (Z.ltb_spec y x), (Z.ltb_spec y z), (Z.ltb_spec z y), (Z.ltb_spec x z), (Z.ltb_spec z x);
    try done; try lia. apply IH.
Qed.
#[export] Instance bytes_le_total : Total bytes_le.
Proof. intros a b. apply bytes_leb_total. Qed.
#[export] Instance bytes_le_antisym : AntiSymm (=) bytes_le.
Proof. intros a b. apply bytes_leb_antisym. Qed.
#[export] Instance bytes_le_trans : Transitive bytes_le.
Proof. intros a b c. apply bytes_leb_trans. Qed.
