(* ===== verification/Utf8.v ===== *)
(** * Utf8: the runes of a string (Go's [unicode/utf8] and [range])

    [runes] is what ranging over a string yields; [encode_rune] is [utf8.AppendRune].  A valid string
    is the encoding of its runes, and [valid_ind] is induction over them. *)

From S2P Require Import Prelude.

Definition RuneError : Z := 65533.

(** The code points that have an encoding. *)
Definition scalar (r : Z) : Prop := 0 <= r < 55296 ∨ 57344 <= r <= 1114111.
Definition scalarb (r : Z) : bool := (0 <=? r) && (r <? 55296) || (57344 <=? r) && (r <=? 1114111).

Lemma scalarb_spec r : scalarb r = true ↔ scalar r.
Proof. unfold scalarb, scalar. rewrite orb_true_iff, !andb_true_iff, !Z.leb_le, Z.ltb_lt. done. Qed.

Definition encode_rune (r : Z) : bytes :=
  let r := if scalarb r then r else RuneError in
  if r <? 128 then [r]
  else if r <? 2048 then [192 + r / 64; 128 + r mod 64]
  else if r <? 65536 then [224 + r / 4096; 128 + r / 64 mod 64; 128 + r mod 64]
  else [240 + r / 262144; 128 + r / 4096 mod 64; 128 + r / 64 mod 64; 128 + r mod 64].

(** [string(runes)]. *)
Definition utf8 (rs : list Z) : bytes := flat_map encode_rune rs.

(** The rune a character of two, three or four bytes stands for. *)
Definition rune2 (c a : Z) : Z := (c - 192) * 64 + (a - 128).
Definition rune3 (c a b : Z) : Z := (c - 224) * 4096 + (a - 128) * 64 + (b - 128).
Definition rune4 (c a b d : Z) : Z := (c - 240) * 262144 + (a - 128) * 4096 + (b - 128) * 64 + (d - 128).

Fixpoint runes (s : bytes) : list Z :=
  match s with
  | [] => []
  | c :: s =>
      match rune_size c s, s with
      | Some 1, _ => c :: runes s
      | Some 2, a :: s => rune2 c a :: runes s
      | Some 3, a :: b :: s => rune3 c a b :: runes s
      | Some 4, a :: b :: d :: s => rune4 c a b d :: runes s
      | _, _ => RuneError :: runes s
      end
  end.

Ltac bdestr :=
  repeat match goal with
    | |- context [?a =? ?b] => destruct (Z.eqb_spec a b); try lia
    | |- context [?a <? ?b] => destruct (Z.ltb_spec a b); try lia
    | |- context [?a <=? ?b] => destruct (Z.leb_spec a b); try lia
    end.

(** ** The characters *)

(** The bytes of one character. *)
Inductive char : Z → bytes → Prop :=
  | char1 c : 0 <= c < 128 → char c [c]
  | char2 c a : 194 <= c <= 223 → is_tail a = true → char (rune2 c a) [c; a]
  | char3 c a b : 224 <= c <= 239 → (c = 224 → 160 <= a) → (c = 237 → a <= 159) → is_tail a = true → is_tail b = true →
      char (rune3 c a b) [c; a; b]
  | char4 c a b d : 240 <= c <= 244 → (c = 240 → 144 <= a) → (c = 244 → a <= 143) →
      is_tail a = true → is_tail b = true → is_tail d = true → char (rune4 c a b d) [c; a; b; d].

Lemma is_tail_spec a : is_tail a = true ↔ 128 <= a <= 191.
Proof. unfold is_tail. rewrite andb_true_iff, !Z.leb_le. done. Qed.

Lemma char_read r bs s :
  char r bs → runes (bs ++ s) = r :: runes s ∧ ValidString (bs ++ s) = ValidString s.
Proof.
  intros Hc. destruct Hc as [c Hc|c a Hc Ha|c a b Hc H1 H2 Ha Hb|c a b d Hc H1 H2 Ha Hb Hd]; cbn [app].
  - assert (∀ s, rune_size c s = Some 1) as E by (intros ?; unfold rune_size; by rewrite (proj2 (Z.ltb_lt _ _)) by lia).
    cbn [runes ValidString]. by rewrite E.
  - assert (rune_size c (a :: s) = Some 2) as E.
    { unfold rune_size. rewrite Ha. bdestr; done. }
    cbn [runes ValidString]. by rewrite E.
  - assert (rune_size c (a :: b :: s) = Some 3) as E.
    { apply is_tail_spec in Ha. unfold rune_size. rewrite Hb. bdestr; done. }
    cbn [runes ValidString]. by rewrite E.
  - assert (rune_size c (a :: b :: d :: s) = Some 4) as E.
    { apply is_tail_spec in Ha. unfold rune_size. rewrite Hb, Hd. bdestr; done. }
    cbn [runes ValidString]. by rewrite E.
Qed.

Lemma char_encode r : scalar r → char r (encode_rune r).
Proof.
  intros Hs. unfold encode_rune. rewrite (proj2 (scalarb_spec r) Hs). unfold scalar in Hs.
  destruct (Z.ltb_spec r 128); [constructor; lia|]. destruct (Z.ltb_spec r 2048).
  { replace r with (rune2 (192 + r / 64) (128 + r mod 64)) at 1
      by (unfold rune2; Z.to_euclidean_division_equations; lia).
    constructor; [|apply is_tail_spec]; Z.to_euclidean_division_equations; lia. }
  destruct (Z.ltb_spec r 65536).
  { replace r with (rune3 (224 + r / 4096) (128 + r / 64 mod 64) (128 + r mod 64)) at 1
      by (unfold rune3; Z.to_euclidean_division_equations; lia).
    constructor; rewrite ?is_tail_spec; Z.to_euclidean_division_equations; lia. }
  replace r with (rune4 (240 + r / 262144) (128 + r / 4096 mod 64) (128 + r / 64 mod 64) (128 + r mod 64)) at 1
    by (unfold rune4; Z.to_euclidean_division_equations; lia).
  constructor; rewrite ?is_tail_spec; Z.to_euclidean_division_equations; lia.
Qed.

Lemma char_scalar r bs : char r bs → scalar r ∧ encode_rune r = bs.
Proof.
  assert (∀ r, scalar r → (if scalarb r then r else RuneError) = r) as E by (intros x Hx%scalarb_spec; by rewrite Hx).
  intros Hc. destruct Hc as [c Hc|c a Hc Ha|c a b Hc H1 H2 Ha Hb|c a b d Hc H1 H2 Ha Hb Hd]; rewrite ?is_tail_spec in *.
  - assert (scalar c) as Hs by (left; lia). split; [done|]. unfold encode_rune. rewrite E by done. bdestr; done.
  - assert (scalar (rune2 c a)) as Hs by (unfold rune2; left; lia). split; [done|]. unfold encode_rune. rewrite E by done.
    unfold rune2. bdestr. repeat f_equal; Z.to_euclidean_division_equations; lia.
  - assert (scalar (rune3 c a b)) as Hs.
    { unfold rune3, scalar. destruct (Z.eq_dec c 237); [left|destruct (Z.le_gt_cases c 237); [left|right]]; lia. }
    split; [done|]. unfold encode_rune. rewrite E by done.
    unfold rune3. bdestr. repeat f_equal; Z.to_euclidean_division_equations; lia.
  - assert (scalar (rune4 c a b d)) as Hs by (unfold rune4; right; lia). split; [done|]. unfold encode_rune. rewrite E by done.
    unfold rune4. bdestr. repeat f_equal; Z.to_euclidean_division_equations; lia.
Qed.

(** A valid string begins with a character. *)
Lemma valid_char s : bytes_ok s → ValidString s = true → s ≠ [] → ∃ r bs t, char r bs ∧ s = bs ++ t.
Proof.
  intros Hok Hv Hne. destruct s as [|c s]; [done|]. apply Forall_cons in Hok as [Hc Hok].
  assert (∃ n, rune_size c s = Some n) as [n Hn] by (simpl in Hv; destruct (rune_size c s) as [z|]; [eauto|by destruct s as [|? [|? [|]]]]).
  unfold rune_size in Hn. destruct (Z.ltb_spec c 128); [exists c, [c], s; split; [apply char1; unfold byte_ok in Hc; lia|done]|].
  destruct ((194 <=? c) && (c <=? 223)) eqn:E2.
  { apply andb_true_iff in E2 as [?%Z.leb_le ?%Z.leb_le]. destruct s as [|a s]; [done|]. destruct (is_tail a) eqn:Ha; [|done].
    exists (rune2 c a), [c; a], s. split; [by constructor|done]. }
  destruct ((224 <=? c) && (c <=? 239)) eqn:E3.
  { apply andb_true_iff in E3 as [?%Z.leb_le ?%Z.leb_le]. destruct s as [|a [|b s]]; [done..|].
    destruct ((if c =? 224 then 160 else 128) <=? a) eqn:Ea; [|done]. apply Z.leb_le in Ea.
    destruct (a <=? (if c =? 237 then 159 else 191)) eqn:Eb; [|done]. apply Z.leb_le in Eb.
    destruct (is_tail b) eqn:Hb; [|done]. exists (rune3 c a b), [c; a; b], s. split; [|done].
    constructor; [lia|..|done]; rewrite ?is_tail_spec; destruct (Z.eqb_spec c 224), (Z.eqb_spec c 237); lia. }
  destruct ((240 <=? c) && (c <=? 244)) eqn:E4; [|done].
  apply andb_true_iff in E4 as [?%Z.leb_le ?%Z.leb_le]. destruct s as [|a [|b [|d s]]]; [done..|].
  destruct ((if c =? 240 then 144 else 128) <=? a) eqn:Ea; [|done]. apply Z.leb_le in Ea.
  destruct (a <=? (if c =? 244 then 143 else 191)) eqn:Eb; [|done]. apply Z.leb_le in Eb.
  destruct (is_tail b && is_tail d) eqn:Hb; [|done]. apply andb_true_iff in Hb as [Hb Hd].
  exists (rune4 c a b d), [c; a; b; d], s. split; [|done].
  constructor; [lia|..|done|done]; rewrite ?is_tail_spec; destruct (Z.eqb_spec c 240), (Z.eqb_spec c 244); lia.
Qed.

(** ** Reading and writing *)

Lemma runes_encode r s : scalar r → runes (encode_rune r ++ s) = r :: runes s.
Proof. intros Hs%char_encode. exact (proj1 (char_read _ _ _ Hs)). Qed.
Lemma valid_encode r s : scalar r → ValidString (encode_rune r ++ s) = ValidString s.
Proof. intros Hs%char_encode. exact (proj2 (char_read _ _ _ Hs)). Qed.

Lemma encode_rune_ok r : bytes_ok (encode_rune r).
Proof.
  unfold encode_rune. destruct (scalarb r) eqn:E; [|by repeat constructor].
  apply scalarb_spec in E. unfold scalar in E. unfold bytes_ok.
  bdestr; repeat constructor; Z.to_euclidean_division_equations; lia.
Qed.

(** Induction over the characters of a valid string. *)
Lemma valid_ind (Q : bytes → Prop) :
  Q [] → (∀ r s, scalar r → bytes_ok s → ValidString s = true → Q s → Q (encode_rune r ++ s)) →
  ∀ s, bytes_ok s → ValidString s = true → Q s.
Proof.
  intros H0 HS s.
  remember (length s) as n eqn:En. revert s En. induction n as [n IH] using lt_wf_ind. intros s -> Hok Hv.
  destruct (decide (s = [])) as [->|Hne]; [done|].
  destruct (valid_char s Hok Hv Hne) as (r & bs & t & Hc & ->). pose proof (char_read r bs t Hc) as [_ E]. rewrite E in Hv.
  destruct (char_scalar r bs Hc) as [Hs <-]. apply Forall_app in Hok as [_ Hok]. apply HS; [done..|].
  eapply IH; [|done..]. rewrite length_app. destruct (encode_rune r) eqn:Er; [|simpl; lia].
  exfalso. by inversion Hc.
Qed.

Lemma utf8_runes s : bytes_ok s → ValidString s = true → utf8 (runes s) = s ∧ Forall scalar (runes s).
Proof.
  revert s. apply valid_ind; [by split|]. intros r s Hr _ _ [IH1 IH2]. rewrite runes_encode by done.
  split; [|by constructor]. change (utf8 (r :: runes s)) with (encode_rune r ++ utf8 (runes s)). by rewrite IH1.
Qed.

Lemma runes_utf8 rs : Forall scalar rs → runes (utf8 rs) = rs ∧ ValidString (utf8 rs) = true ∧ bytes_ok (utf8 rs).
Proof.
  induction 1 as [|r rs Hr _ (IH1 & IH2 & IH3)]; [by repeat constructor|]. change (utf8 (r :: rs)) with (encode_rune r ++ utf8 rs).
  rewrite runes_encode, valid_encode by done. split_and!; [by f_equal|done|]. apply Forall_app. split; [apply encode_rune_ok|done].
Qed.

Lemma valid_app a b : bytes_ok a → ValidString a = true → ValidString (a ++ b) = ValidString b ∧ runes (a ++ b) = runes a ++ runes b.
Proof.
  intros Ha Hv. revert a Ha Hv. apply valid_ind; [done|]. intros r s Hr _ _ [IH1 IH2].
  rewrite <- app_assoc, valid_encode, !runes_encode by done. split; [done|]. simpl. by rewrite IH2.
Qed.

(** An ASCII string is its own runes. *)
Lemma ascii_valid s : Forall (λ c, 0 <= c < 128) s → ValidString s = true ∧ bytes_ok s ∧ runes s = s.
Proof.
  induction 1 as [|c s Hc _ (IH1 & IH2 & IH3)]; [by repeat constructor|].
  destruct (char_read c [c] s ltac:(by constructor)) as [E1 E2]. simpl app in *. rewrite E1, E2, IH3.
  split_and!; [done| |done]. constructor; [unfold byte_ok; lia|done].
Qed.

(** ** Texts *)

(** A Go string that is UTF-8. *)
Definition text (s : bytes) : Prop := bytes_ok s ∧ ValidString s = true.

Lemma text_nil : text [].
Proof. by repeat constructor. Qed.
Lemma text_app a b : text a → text b → text (a ++ b).
Proof. intros [A1 A2] [B1 B2]. split; [by apply Forall_app|]. by rewrite (proj1 (valid_app a b A1 A2)). Qed.
Lemma text_utf8 rs : Forall scalar rs → text (utf8 rs).
Proof. intros (_ & H1 & H2)%runes_utf8. by split. Qed.
Lemma text_rune r : text (encode_rune r).
Proof.
  split; [apply encode_rune_ok|]. destruct (scalarb r) eqn:E.
  - apply scalarb_spec in E. rewrite <- (app_nil_r (encode_rune r)). by rewrite valid_encode.
  - unfold encode_rune. by rewrite E.
Qed.
Lemma text_ascii s : Forall (λ c, 0 <= c < 128) s → text s.
Proof. intros (H1 & H2 & _)%ascii_valid. by split. Qed.

(** ** Tables of Go's [unicode] package

    [NFC] is the normalization form of the text library; the format characters and the scripts are
    data of a Unicode version.  Controls, separators and white space are fixed. *)
Class Unicode := {
  NFC : bytes → bytes;
  is_Cf : Z → bool;
  is_Latin : Z → bool;
  is_Cyrillic : Z → bool;
  is_Greek : Z → bool;
}.

Definition is_Cc (r : Z) : bool := (0 <=? r) && (r <=? 31) || (127 <=? r) && (r <=? 159).
Definition is_Zl (r : Z) : bool := r =? 8232.
Definition is_Zp (r : Z) : bool := r =? 8233.
Definition IsSpace (r : Z) : bool :=
  (9 <=? r) && (r <=? 13) || (8192 <=? r) && (r <=? 8202)
  || existsb (Z.eqb r) [32; 133; 160; 5760; 8232; 8233; 8239; 8287; 12288].
