(* ===== verification/Aid.v ===== *)
(** * Aid: the spelling of an AID (identity/aid.go)

    [EncodeToString] and [DecodeString] are Go's [encoding/base32] with the lower-case alphabet and
    no padding, the functions [aidEncoding] names; [ValidAID] is the syntax check of the source. *)

From S2P Require Import Prelude.

Definition aidLen : Z := 59.
Definition aidPrefix : bytes := [1; 113; 18; 32].

Definition b32_alphabet : bytes := str "abcdefghijklmnopqrstuvwxyz234567".
Definition b32_char (v : Z) : Z := nth (Z.to_nat v) b32_alphabet 0.
Definition b32_val (c : Z) : option Z :=
  if (97 <=? c) && (c <=? 122) then Some (c - 97)
  else if (50 <=? c) && (c <=? 55) then Some (c - 24)
  else None.

(** Five bytes are eight characters of five bits. *)
Definition quantum_chars (q : bytes) : bytes := map b32_char (digits 32 8 (undigits 256 q)).
Definition quantum_bytes (d : list Z) : bytes := be 5 (undigits 32 d).

Fixpoint EncodeToString (s : bytes) : bytes :=
  match s with
  | [] => []
  | [a] => take 2 (quantum_chars [a; 0; 0; 0; 0])
  | [a; b] => take 4 (quantum_chars [a; b; 0; 0; 0])
  | [a; b; c] => take 5 (quantum_chars [a; b; c; 0; 0])
  | [a; b; c; d] => take 7 (quantum_chars [a; b; c; d; 0])
  | a :: b :: c :: d :: e :: s => quantum_chars [a; b; c; d; e] ++ EncodeToString s
  end.

(** The bytes of the digits decoded so far; a last quantum of 2, 4, 5 or 7 digits gives 1, 2, 3 or
    4 bytes, and one of another length none. *)
Fixpoint decode_quanta (d : list Z) : bytes :=
  match d with
  | d0 :: d1 :: d2 :: d3 :: d4 :: d5 :: d6 :: d7 :: d =>
      quantum_bytes [d0; d1; d2; d3; d4; d5; d6; d7] ++ decode_quanta d
  | [_; _] => take 1 (quantum_bytes (d ++ repeat 0 6))
  | [_; _; _; _] => take 2 (quantum_bytes (d ++ repeat 0 4))
  | [_; _; _; _; _] => take 3 (quantum_bytes (d ++ repeat 0 3))
  | [_; _; _; _; _; _; _] => take 4 (quantum_bytes (d ++ repeat 0 1))
  | _ => []
  end.

(** The decoder skips CR and LF and fails on any other character outside the alphabet. *)
Definition strip_newlines (s : bytes) : bytes :=
  List.filter (λ c, negb ((c =? 13) || (c =? 10))) s.

Definition DecodeString (s : bytes) : option bytes :=
  decode_quanta <$> mapM b32_val (strip_newlines s).

(** [ValidAID]: ["b"] and the one base32 spelling of the four-byte CID prefix and 32 bytes. *)
Definition ValidAID (s : bytes) : bool :=
  match s with
  | c :: t =>
      (len s =? aidLen) && (c =? 98) &&
      match DecodeString t with
      | Some raw => (len raw =? len aidPrefix + 32) && beqb (take 4 raw) aidPrefix
                    && beqb (EncodeToString raw) t
      | None => false
      end
  | [] => false
  end.

(** ** Properties *)

Lemma b32_val_char v : 0 <= v < 32 → b32_val (b32_char v) = Some v.
Proof.
  intros H. assert (∀ n, (n < 32)%nat → b32_val (b32_char (Z.of_nat n)) = Some (Z.of_nat n)) as Hn.
  { intros n Hn. do 32 (destruct n as [|n]; [reflexivity|]). lia. }
  rewrite <- (Z2Nat.id v) by lia. apply Hn. lia.
Qed.

Lemma b32_char_not_newline v : 0 <= v < 32 → (b32_char v =? 13) || (b32_char v =? 10) = false.
Proof.
  intros H. pose proof (b32_val_char v H) as E.
  destruct (Z.eqb_spec (b32_char v) 13) as [e|]; [rewrite e in E; discriminate E|].
  destruct (Z.eqb_spec (b32_char v) 10) as [e|]; [rewrite e in E; discriminate E|]. done.
Qed.

Lemma decode_chars ds :
  Forall (λ d, 0 <= d < 32) ds → mapM b32_val (strip_newlines (map b32_char ds)) = Some ds.
Proof.
  induction 1 as [|d ds Hd _ IH]; [done|]. unfold strip_newlines in *. cbn [map List.filter].
  rewrite b32_char_not_newline by done. cbn [negb]. cbn [mapM].
  rewrite b32_val_char by done. simpl. by rewrite IH.
Qed.

(** The digits of a chunk of bytes and back. *)
Definition chunk_digits (q : bytes) : list Z := digits 32 8 (undigits 256 q).

Fixpoint b32_digits (s : bytes) : list Z :=
  match s with
  | [] => []
  | [a] => take 2 (chunk_digits [a; 0; 0; 0; 0])
  | [a; b] => take 4 (chunk_digits [a; b; 0; 0; 0])
  | [a; b; c] => take 5 (chunk_digits [a; b; c; 0; 0])
  | [a; b; c; d] => take 7 (chunk_digits [a; b; c; d; 0])
  | a :: b :: c :: d :: e :: s => chunk_digits [a; b; c; d; e] ++ b32_digits s
  end.

(** Induction on a byte sequence five bytes at a time. *)
Lemma chunk_ind (P : bytes → Prop) :
  (∀ s, (length s < 5)%nat → P s) →
  (∀ a b c d e s, P s → P (a :: b :: c :: d :: e :: s)) → ∀ s, P s.
Proof.
  intros Hs Hc s. induction s as [s IH] using (induction_ltof1 _ (@length Z)).
  unfold ltof in IH. destruct s as [|a [|b [|c [|d [|e s]]]]]; try (apply Hs; simpl; lia).
  apply Hc, IH. simpl. lia.
Qed.

Lemma EncodeToString_digits s : EncodeToString s = map b32_char (b32_digits s).
Proof.
  induction s as [s Hs|a b c d e s IH] using chunk_ind.
  - destruct s as [|a [|b [|c [|d [|e s]]]]]; simpl in Hs; try lia; [done|..];
      cbn [EncodeToString b32_digits]; unfold quantum_chars, chunk_digits; by rewrite <- firstn_map.
  - cbn [EncodeToString b32_digits]. by rewrite map_app, IH.
Qed.

Lemma b32_digits_range s : Forall (λ d, 0 <= d < 32) (b32_digits s).
Proof.
  induction s as [s Hs|a b c d e s IH] using chunk_ind.
  - destruct s as [|a [|b [|c [|d [|e s]]]]]; simpl in Hs; try lia; [constructor|..];
      apply Forall_take, digits_range; lia.
  - cbn [b32_digits]. apply Forall_app. split; [apply digits_range; lia | done].
Qed.

Lemma digits_shift b n m v :
  0 < b → digits b (n + m) (v * b ^ Z.of_nat m) = digits b n v ++ repeat 0 m.
Proof.
  intros Hb. revert v. induction m as [|m IH]; intros v.
  - rewrite Nat.add_0_r, app_nil_r. simpl. f_equal. lia.
  - rewrite Nat.add_succ_r. cbn [digits]. rewrite Nat2Z.inj_succ, Z.pow_succ_r by lia.
    replace (v * (b * b ^ Z.of_nat m)) with (v * b ^ Z.of_nat m * b) by lia.
    rewrite Z.div_mul, Z.mod_mul by lia. rewrite IH, <- app_assoc. f_equal.
    change [0] with (repeat 0 1). by rewrite <- repeat_app, Nat.add_comm.
Qed.

(** A chunk of [k] bytes padded with zeros loses nothing when only its first [n] digits are kept. *)
Lemma chunk_roundtrip q z n k m v :
  length (q ++ repeat 0 z) = 5%nat → bytes_ok q → (n + m = 8)%nat → length q = k →
  undigits 256 (q ++ repeat 0 z) = v * 32 ^ Z.of_nat m →
  take k (quantum_bytes (take n (chunk_digits (q ++ repeat 0 z)) ++ repeat 0 m)) = q.
Proof.
  intros Hl Hq Hnm Hk Hv. unfold chunk_digits. rewrite Hv, <- Hnm, digits_shift by lia.
  rewrite take_app_length' by (by rewrite length_digits).
  rewrite <- digits_shift, <- Hv, Hnm by lia. unfold quantum_bytes, be.
  assert (bytes_ok (q ++ repeat 0 z)) as Hok.
  { apply Forall_app. split; [done|]. apply List.Forall_forall. intros x Hx%repeat_spec.
    subst x. unfold byte_ok. lia. }
  assert (0 <= undigits 256 (q ++ repeat 0 z) < 256 ^ 5) as Hr.
  { change 5 with (Z.of_nat 5). rewrite <- Hl. apply undigits_range; [lia|done]. }
  rewrite undigits_digits, Z.mod_small by (simpl in *; lia).
  rewrite <- Hl, digits_undigits by (lia || done). by rewrite take_app_length'.
Qed.

Lemma decode_quanta_digits s : bytes_ok s → decode_quanta (b32_digits s) = s.
Proof.
  induction s as [s Hs|a b c d e s IH] using chunk_ind; intros Hok.
  - destruct s as [|a [|b [|c [|d [|e s]]]]]; simpl in Hs; try lia; [done|..].
    + apply (chunk_roundtrip [a] 4 2 1 6 (a * 4)); [done..|]. unfold undigits; simpl; lia.
    + apply (chunk_roundtrip [a; b] 3 4 2 4 (a * 4096 + b * 16)); [done..|].
      unfold undigits; simpl; lia.
    + apply (chunk_roundtrip [a; b; c] 2 5 3 3 (a * 131072 + b * 512 + c * 2)); [done..|].
      unfold undigits; simpl; lia.
    + apply (chunk_roundtrip [a; b; c; d] 1 7 4 1
               (a * 134217728 + b * 524288 + c * 2048 + d * 8)); [done..|].
      unfold undigits; simpl; lia.
  - assert (bytes_ok [a; b; c; d; e] ∧ bytes_ok s) as [Hq Hs].
    { apply (Forall_app _ [a; b; c; d; e]). done. }
    pose proof (chunk_roundtrip [a; b; c; d; e] 0 8 5 0 (undigits 256 [a; b; c; d; e])) as H.
    rewrite !app_nil_r, Z.mul_1_r in H.
    rewrite (take_ge (chunk_digits _)) in H by (unfold chunk_digits; by rewrite length_digits).
    specialize (H eq_refl Hq eq_refl eq_refl eq_refl).
    rewrite take_ge in H by (unfold quantum_bytes, be; by rewrite length_digits).
    cbn [b32_digits]. unfold chunk_digits in *.
    remember (digits 32 8 (undigits 256 [a; b; c; d; e])) as l eqn:El.
    assert (length l = 8%nat) as Hl by (rewrite El; apply length_digits).
    do 8 (destruct l as [|? l]; [discriminate Hl|]). destruct l; [|discriminate Hl].
    cbn [app decode_quanta]. rewrite H, IH by done. done.
Qed.

Lemma DecodeString_EncodeToString s : bytes_ok s → DecodeString (EncodeToString s) = Some s.
Proof.
  intros H. unfold DecodeString. rewrite EncodeToString_digits, decode_chars by apply b32_digits_range.
  simpl. by rewrite decode_quanta_digits.
Qed.

Lemma decode_quanta_ok d : bytes_ok (decode_quanta d).
Proof.
  assert (∀ d, bytes_ok (quantum_bytes d)) as H by (intros; apply (digits_range 256); lia).
  induction d as [d IH] using (induction_ltof1 _ (@length Z)). unfold ltof in IH.
  do 8 (destruct d as [|? d]; [first [apply Forall_nil_2 | apply Forall_take, H]|]).
  cbn [decode_quanta]. apply Forall_app. split; [apply H | apply IH; simpl; lia].
Qed.

Lemma ValidAID_spec s :
  ValidAID s = true ↔
  ∃ d, length d = 32%nat ∧ bytes_ok d ∧ s = str "b" ++ EncodeToString (aidPrefix ++ d).
Proof.
  split.
  - destruct s as [|c t]; [done|]. unfold ValidAID. intros H.
    destruct (DecodeString t) as [raw|] eqn:Hraw; [|by rewrite andb_false_r in H].
    go_inv. subst c. exists (drop 4 raw).
    assert (raw = aidPrefix ++ drop 4 raw) as Hp.
    { rewrite <- (take_drop 4 raw) at 1. by f_equal. }
    rewrite length_drop. unfold len in *. repeat split; [simpl in *; lia|..].
    + apply Forall_drop. unfold DecodeString in Hraw.
      destruct (mapM _ _); simplify_eq/=. apply decode_quanta_ok.
    + rewrite <- Hp. subst t. done.
  - intros (d & Hl & Hok & ->). change (str "b") with [98]. cbn [app]. unfold ValidAID.
    assert (bytes_ok (aidPrefix ++ d)) as Hok'.
    { apply Forall_app. split; [|done]. repeat constructor; unfold byte_ok; lia. }
    rewrite DecodeString_EncodeToString by done.
    assert (length (EncodeToString (aidPrefix ++ d)) = 58%nat) as HL.
    { do 33 (destruct d as [|? d]; try discriminate Hl). reflexivity. }
    assert ((len (98 :: EncodeToString (aidPrefix ++ d)) =? aidLen) = true) as ->.
    { apply Z.eqb_eq. unfold len, aidLen. cbn [length]. rewrite HL. done. }
    assert ((len (aidPrefix ++ d) =? len aidPrefix + 32) = true) as ->.
    { apply Z.eqb_eq. rewrite len_app. unfold len. rewrite Hl. done. }
    assert (take 4 (aidPrefix ++ d) = aidPrefix) as -> by done. by rewrite !beqb_refl.
Qed.
