(* ===== verification/Cbor.v ===== *)
(** * Cbor: a reference CoreDet-CBOR encoder

    The repository calls a third-party CBOR encoder; its models take the encoder as a parameter
    ([Platform.Coredet]).  This file holds the encoding RFC 8949 section 4.2 prescribes for the
    values the repository encodes, written on a tree of data items (maps have integer keys or text keys), and the fact the parameter is
    assumed to have: [encode] is injective, even on the front of a longer input.  It instantiates
    the parameter where a model is run on concrete data. *)

From S2P Require Import Prelude.

#[local] Set Warnings "-register-all".

Inductive cbor :=
  | CUint (n : Z)
  | CNeg (n : Z)   (* the integer -1 - n *)
  | CBytes (b : bytes)
  | CText (b : bytes)
  | CArray (l : list cbor)
  | CMap (l : list (Z * cbor))
  | CObj (l : list (bytes * cbor))   (* a map with text keys, not empty *)
  | CBool (b : bool)
  | CNull.

(** The initial byte and argument of an item, in the shortest form. *)
Definition cbor_head (major n : Z) : bytes :=
  if n <? 24 then [major * 32 + n]
  else if n <? 256 then [major * 32 + 24; n]
  else if n <? 65536 then (major * 32 + 25) :: be 2 n
  else if n <? 4294967296 then (major * 32 + 26) :: be 4 n
  else (major * 32 + 27) :: be 8 n.

Fixpoint encode (c : cbor) : bytes :=
  match c with
  | CUint n => cbor_head 0 n
  | CNeg n => cbor_head 1 n
  | CBytes b => cbor_head 2 (len b) ++ b
  | CText b => cbor_head 3 (len b) ++ b
  | CArray l => cbor_head 4 (len l) ++ flat_map encode l
  | CMap l => cbor_head 5 (len l) ++ flat_map (λ kv, cbor_head 0 kv.1 ++ encode kv.2) l
  | CObj l => cbor_head 5 (len l) ++ flat_map (λ kv, cbor_head 3 (len kv.1) ++ kv.1 ++ encode kv.2) l
  | CBool b => cbor_head 7 (if b then 21 else 20)
  | CNull => cbor_head 7 22
  end.

Definition u64b (n : Z) : bool := (0 <=? n) && (n <? two64).

(** Every number and length fits the argument of a head. *)
Fixpoint cbor_okb (c : cbor) : bool :=
  match c with
  | CUint n | CNeg n => u64b n
  | CBytes b | CText b => u64b (len b)
  | CArray l => u64b (len l) && forallb cbor_okb l
  | CMap l => u64b (len l) && forallb (λ kv, u64b kv.1 && cbor_okb kv.2) l
  | CObj l => u64b (len l) && negb (len l =? 0) && forallb (λ kv, u64b (len kv.1) && cbor_okb kv.2) l
  | CBool _ | CNull => true
  end.

#[global] Arguments cbor_head : simpl never.

Lemma u64b_spec n : u64b n = true ↔ is_u64 n.
Proof. unfold u64b, is_u64. rewrite andb_true_iff, Z.leb_le, Z.ltb_lt. done. Qed.

(** The first byte of a head determines its major type and the width of its argument. *)
Lemma cbor_head_inj m m' n n' r r' :
  0 <= m < 8 → 0 <= m' < 8 → is_u64 n → is_u64 n' →
  cbor_head m n ++ r = cbor_head m' n' ++ r' → m = m' ∧ n = n' ∧ r = r'.
Proof.
  unfold is_u64, two64. intros Hm Hm' Hn Hn' H. unfold cbor_head in H.
  assert (∀ k a b x y, 0 <= a < 256 ^ Z.of_nat k → 0 <= b < 256 ^ Z.of_nat k →
            be k a ++ x = be k b ++ y → a = b ∧ x = y) as Hbe.
  { intros k a b x y Ha Hb E. apply app_inj_len in E as [E ->]; [|unfold be; by rewrite !length_digits].
    split; [|done]. by apply (digits_inj 256 k). }
  assert (∀ (a b : Z) (x y : bytes), a :: x = b :: y → a = b ∧ x = y) as Hc.
  { by intros a b x y [= -> ->]. }
  repeat match type of H with context [?a <? ?b] => destruct (Z.ltb_spec a b) end;
    cbn [app] in H; apply Hc in H as [E1 E2]; try (exfalso; lia);
    first [ apply Hbe in E2 as [E2 ->]; simpl; [|lia..] | apply Hc in E2 as [E2 ->] | subst ];
    split_and!; lia || done.
Qed.

Lemma cbor_ind' (Q : cbor → Prop) :
  (∀ n, Q (CUint n)) → (∀ n, Q (CNeg n)) → (∀ b, Q (CBytes b)) → (∀ b, Q (CText b)) →
  (∀ l, Forall Q l → Q (CArray l)) → (∀ l, Forall (λ kv, Q kv.2) l → Q (CMap l)) →
  (∀ l, Forall (λ kv, Q kv.2) l → Q (CObj l)) → (∀ b, Q (CBool b)) → Q CNull → ∀ c, Q c.
Proof.
  intros H1 H0 H2 H3 H4 H5 H8 H6 H7. fix IH 1. intros [n|n|b|b|l|l|l|b|].
  - apply H1.
  - apply H0.
  - apply H2.
  - apply H3.
  - apply H4. induction l as [|c l IHl]; constructor; [apply IH | apply IHl].
  - apply H5. induction l as [|[k c] l IHl]; constructor; [apply IH | apply IHl].
  - apply H8. induction l as [|[k c] l IHl]; constructor; [apply IH | apply IHl].
  - apply H6.
  - apply H7.
Qed.

(** A sequence of prefix-free encodings of known length is prefix-free. *)
Lemma flat_map_prefix {A} (f : A → bytes) (l l' : list A) r r' :
  length l = length l' →
  Forall (λ a, ∀ a' x y, a' ∈ l' → f a ++ x = f a' ++ y → a = a' ∧ x = y) l →
  flat_map f l ++ r = flat_map f l' ++ r' → l = l' ∧ r = r'.
Proof.
  revert l'. induction l as [|a l IH]; intros [|a' l'] Hl Hf H; simplify_eq/=; [done|].
  apply Forall_cons in Hf as [Ha Hf]. rewrite <- !app_assoc in H.
  apply Ha in H as [-> H]; [|by left].
  apply IH in H as [-> ->]; [done..|]. eapply Forall_impl; [apply Hf|].
  intros b Hb a'' x y Hin. apply Hb. by right.
Qed.

(** The keys of a map tell the two kinds apart. *)
Lemma map_obj_apart l l' r r' :
  len l = len l' → len l' ≠ 0 → forallb (λ kv, u64b kv.1 && cbor_okb kv.2) l = true → forallb (λ kv, u64b (len kv.1) && cbor_okb kv.2) l' = true →
  flat_map (λ kv, cbor_head 0 kv.1 ++ encode kv.2) l ++ r ≠ flat_map (λ kv, cbor_head 3 (len kv.1) ++ kv.1 ++ encode kv.2) l' ++ r'.
Proof.
  intros Hl Hn Ho Ho'. destruct l' as [|[k' c'] l']; [done|]. destruct l as [|[k c] l]; [done|]. simpl in *.
  apply andb_true_iff in Ho as [[Hk%u64b_spec _]%andb_true_iff _]. apply andb_true_iff in Ho' as [[Hk'%u64b_spec _]%andb_true_iff _].
  rewrite <- !app_assoc. intros E. apply cbor_head_inj in E as (? & _); lia || done.
Qed.

Lemma encode_prefix c c' r r' :
  cbor_okb c = true → cbor_okb c' = true → encode c ++ r = encode c' ++ r' → c = c' ∧ r = r'.
Proof.
  revert c' r r'. induction c as [n|n|b|b|l IH|l IH|l IH|b|] using cbor_ind';
    intros c' r r' Ho Ho' H; destruct c' as [n'|n'|b'|b'|l'|l'|l'|b'|]; simpl in Ho, Ho'; cbn [encode] in H;
    repeat match goal with
    | E : (_ && _) = true |- _ => apply andb_true_iff in E as [? ?]
    | E : u64b _ = true |- _ => apply u64b_spec in E
    end; rewrite <- ?app_assoc in H;
    apply cbor_head_inj in H as (Hm & Hn & H);
    try match goal with
    | F : flat_map _ ?l ++ ?r = flat_map _ ?l' ++ ?r' |- CMap ?l = CObj ?l' ∧ _ => exfalso; apply (map_obj_apart l l' r r'); try done; by apply Z.eqb_neq, negb_true_iff
    | F : flat_map _ ?l ++ ?r = flat_map _ ?l' ++ ?r' |- CObj ?l = CMap ?l' ∧ _ => exfalso; apply (map_obj_apart l' l r' r); try done; by apply Z.eqb_neq, negb_true_iff
    end;
    try done; try lia; try (unfold is_u64, two64; repeat case_match; lia);
    try (exfalso; repeat case_match; lia).
  - by subst.
  - by subst.
  - apply app_inj_len in H as [-> ->]; [done | unfold len in *; lia].
  - apply app_inj_len in H as [-> ->]; [done | unfold len in *; lia].
  - apply flat_map_prefix in H as [-> ->]; [done | unfold len in *; lia|].
    rewrite forallb_forall in *. rewrite Forall_forall in IH |- *.
    intros a Ha a' x y Ha' E. apply IH in E; [done..| |];
      match goal with F : ∀ x, In x ?L → _ |- cbor_okb _ = true => apply F; by apply list_elem_of_In end.
  - apply flat_map_prefix in H as [-> ->]; [done | unfold len in *; lia|].
    rewrite forallb_forall in *. rewrite Forall_forall in IH |- *.
    intros [k a] Ha [k' a'] x y Ha' E. simpl in E. rewrite <- !app_assoc in E.
    repeat match goal with F : ∀ x, In x ?L → _, M : _ ∈ ?L |- _ =>
      apply list_elem_of_In in M as M'; apply F in M'; simpl in M';
      apply andb_true_iff in M' as [?%u64b_spec ?]; clear F end.
    apply cbor_head_inj in E as (_ & -> & E); [|done..].
    pose proof (IH _ Ha) as IH'. simpl in IH'. apply IH' in E as [-> ->]; done.
  - apply flat_map_prefix in H as [-> ->]; [done | unfold len in *; lia|].
    rewrite forallb_forall in *. rewrite Forall_forall in IH |- *.
    intros [k a] Ha [k' a'] x y Ha' E. simpl in E. rewrite <- !app_assoc in E.
    repeat match goal with F : ∀ x, In x ?L → _, M : _ ∈ ?L |- _ =>
      apply list_elem_of_In in M as M'; apply F in M'; simpl in M';
      apply andb_true_iff in M' as [?%u64b_spec ?]; clear F end.
    apply cbor_head_inj in E as (_ & Hk & E); [|done..].
    apply app_inj_len in E as [-> E]; [|unfold len in *; lia].
    pose proof (IH _ Ha) as IH'. simpl in IH'. apply IH' in E as [-> ->]; done.
  - destruct b, b'; simplify_eq/=; done.
Qed.

Lemma encode_inj c c' :
  cbor_okb c = true → cbor_okb c' = true → encode c = encode c' → c = c'.
Proof.
  intros H H' E. apply (encode_prefix c c' [] []); [done..|]. by rewrite !app_nil_r.
Qed.

(** The encoder as a function that may fail, and its injectivity. *)
Definition cbor_marshal (c : cbor) : option bytes :=
  if cbor_okb c then Some (encode c) else None.

Lemma cbor_marshal_inj c c' x : cbor_marshal c = Some x → cbor_marshal c' = Some x → c = c'.
Proof.
  unfold cbor_marshal. destruct (cbor_okb c) eqn:H, (cbor_okb c') eqn:H'; intros [= <-] [= E].
  by apply encode_inj.
Qed.

(** A struct encodes as a map from its field numbers; [field], [present] and [omitempty] are the
    member a field contributes, [member] reads one back. *)
Definition field (k : Z) (c : cbor) : list (Z * cbor) := [(k, c)].
Definition omitempty (k : Z) (b : bool) (c : cbor) : list (Z * cbor) := if b then [] else [(k, c)].

Fixpoint member (k : Z) (l : list (Z * cbor)) : option cbor :=
  match l with
  | [] => None
  | (k', c) :: l => if k =? k' then Some c else member k l
  end.

(** ** Decoding

    The inverse of [encode]: it reads one item off the front and refuses arguments that are not in
    their shortest form.  The fuel bounds the nesting; the length of the input is enough. *)

Definition take_arg (n : nat) (least : Z) (s : bytes) : option (Z * bytes) :=
  let v := be_val (take n s) in
  if (n <=? length s)%nat && (least <=? v) then Some (v, drop n s) else None.

Definition decode_head (s : bytes) : option (Z * Z * bytes) :=
  match s with
  | [] => None
  | b :: s =>
      let m := b / 32 in let a := b mod 32 in
      match (if a <? 24 then Some (a, s)
             else if a =? 24 then take_arg 1 24 s
             else if a =? 25 then take_arg 2 256 s
             else if a =? 26 then take_arg 4 65536 s
             else if a =? 27 then take_arg 8 4294967296 s
             else None) with
      | Some (n, r) => Some (m, n, r)
      | None => None
      end
  end.

Fixpoint decode_seq {A} (d : bytes → option (A * bytes)) (n : nat) (s : bytes)
  : option (list A * bytes) :=
  match n with
  | O => Some ([], s)
  | S n => '(a, s) ← d s; '(l, s) ← decode_seq d n s; Some (a :: l, s)
  end.

(** The item is a text string: the keys of the map are. *)
Definition text_head (s : bytes) : bool := match s with b :: _ => b / 32 =? 3 | [] => false end.

Fixpoint decode_item (fuel : nat) (s : bytes) : option (cbor * bytes) :=
  match fuel with
  | O => None
  | S fuel =>
      '(m, n, s) ← decode_head s;
      if m =? 0 then Some (CUint n, s)
      else if m =? 1 then Some (CNeg n, s)
      else if m =? 7 then
        if n =? 20 then Some (CBool false, s)
        else if n =? 21 then Some (CBool true, s)
        else if n =? 22 then Some (CNull, s)
        else None
      else if len s <? n then None
      else if m =? 2 then Some (CBytes (take (Z.to_nat n) s), drop (Z.to_nat n) s)
      else if m =? 3 then Some (CText (take (Z.to_nat n) s), drop (Z.to_nat n) s)
      else if m =? 4 then
        '(l, s) ← decode_seq (decode_item fuel) (Z.to_nat n) s; Some (CArray l, s)
      else if (m =? 5) && text_head s && negb (n =? 0) then
        '(l, s) ← decode_seq (λ s, '(mk, k, s) ← decode_head s;
                                   if (mk =? 3) && (k <=? len s) then
                                     '(c, s') ← decode_item fuel (drop (Z.to_nat k) s); Some ((take (Z.to_nat k) s, c), s')
                                   else None) (Z.to_nat n) s;
        Some (CObj l, s)
      else if m =? 5 then
        '(l, s) ← decode_seq (λ s, '(mk, key, s) ← decode_head s;
                                   if mk =? 0 then '(c, s) ← decode_item fuel s; Some ((key, c), s)
                                   else None) (Z.to_nat n) s;
        Some (CMap l, s)
      else None
  end.

(** The whole input is one item. *)
Definition decode (s : bytes) : option cbor :=
  match decode_item (S (length s)) s with
  | Some (c, []) => Some c
  | _ => None
  end.

#[local] Arguments be : simpl never.
#[local] Arguments take_arg : simpl never.

Lemma take_arg_be k least n r :
  0 <= n < 256 ^ Z.of_nat k → least <= n → take_arg k least (be k n ++ r) = Some (n, r).
Proof.
  intros Hn Hl. unfold take_arg, be_val, be.
  assert (length (digits 256 k n) = k) as Hk by apply length_digits.
  rewrite (take_app_length' _ _ _ (eq_sym Hk)), (drop_app_length' _ _ _ (eq_sym Hk)), undigits_digits by lia.
  rewrite Z.mod_small by done. rewrite length_app, Hk.
  rewrite (proj2 (Nat.leb_le _ _)) by lia. by rewrite (proj2 (Z.leb_le _ _)).
Qed.

(** Comparisons of literals. *)
Ltac go_lit := lazy beta iota zeta delta [Z.ltb Z.eqb Z.compare Pos.compare Pos.compare_cont Pos.eqb].

Lemma decode_head_encode m n r :
  0 <= m < 8 → is_u64 n → decode_head (cbor_head m n ++ r) = Some (m, n, r).
Proof.
  unfold is_u64, two64. intros Hm Hn. unfold cbor_head.
  assert (∀ a, 0 <= a < 32 → (m * 32 + a) / 32 = m ∧ (m * 32 + a) mod 32 = a) as Hb.
  { intros a Ha. split; symmetry; [apply (Z.div_unique _ 32 m a)|apply (Z.mod_unique _ 32 m a)]; lia. }
  repeat match goal with |- context [?a <? ?b] => destruct (Z.ltb_spec a b) end;
    rewrite <- ?app_comm_cons, ?app_nil_l; cbn [decode_head].
  - destruct (Hb n) as [-> ->]; [lia|]. by rewrite (proj2 (Z.ltb_lt _ _)).
  - destruct (Hb 24) as [-> ->]; [lia|]. go_lit.
    change (n :: r) with ([n] ++ r). replace [n] with (be 1 n); [rewrite (take_arg_be 1); [done|simpl; lia|done]|].
    change (be 1 n) with [n mod 256]. by rewrite Z.mod_small by lia.
  - destruct (Hb 25) as [-> ->]; [lia|]. go_lit. rewrite (take_arg_be 2); [done|simpl; lia|done].
  - destruct (Hb 26) as [-> ->]; [lia|]. go_lit. rewrite (take_arg_be 4); [done|simpl; lia|done].
  - destruct (Hb 27) as [-> ->]; [lia|]. go_lit. rewrite (take_arg_be 8); [done|simpl; lia|done].
Qed.

Lemma decode_seq_encode {A} (d : bytes → option (A * bytes)) (f : A → bytes) l r :
  Forall (λ a, ∀ r, d (f a ++ r) = Some (a, r)) l →
  decode_seq d (length l) (flat_map f l ++ r) = Some (l, r).
Proof.
  induction 1 as [|a l Ha _ IH]; [done|]. simpl. rewrite <- app_assoc, Ha. simpl. by rewrite IH.
Qed.

(** The nesting of an item. *)
Fixpoint depth (c : cbor) : nat :=
  match c with
  | CArray l => S (list_max (map depth l))
  | CMap l => S (list_max (map (λ kv, depth kv.2) l))
  | CObj l => S (list_max (map (λ kv, depth kv.2) l))
  | _ => 1
  end.

Lemma list_max_in {A} (f : A → nat) l a : a ∈ l → (f a <= list_max (map f l))%nat.
Proof.
  intros Hin. pose proof (proj1 (list_max_le (map f l) (list_max (map f l))) (le_n _)) as H.
  rewrite List.Forall_forall in H. apply H, in_map. by apply list_elem_of_In.
Qed.

Lemma flat_map_len {A} (f : A → bytes) l :
  (∀ a, (1 <= length (f a))%nat) → (length l <= length (flat_map f l))%nat.
Proof.
  intros H. induction l as [|b l IH]; simpl; [lia|]. rewrite length_app. specialize (H b). lia.
Qed.

Lemma cbor_head_length m n : (1 <= length (cbor_head m n))%nat.
Proof. unfold cbor_head. repeat case_match; simpl; lia. Qed.

Lemma encode_length c : (1 <= length (encode c))%nat.
Proof.
  destruct c; cbn [encode]; rewrite ?length_app;
    match goal with |- context [cbor_head ?m ?n] => pose proof (cbor_head_length m n) end; lia.
Qed.

Lemma text_head_encode m n r : 0 <= m < 8 → is_u64 n → text_head (cbor_head m n ++ r) = (m =? 3).
Proof.
  unfold is_u64, two64. intros Hm Hn. unfold cbor_head.
  assert (∀ a, 0 <= a < 32 → (m * 32 + a) / 32 = m) as Hb by (intros a Ha; symmetry; apply (Z.div_unique _ 32 m a); lia).
  repeat match goal with |- context [?a <? ?b] => destruct (Z.ltb_spec a b) end; rewrite <- ?app_comm_cons; cbn [text_head];
    rewrite Hb by lia; done.
Qed.

Lemma decode_item_encode c fuel r :
  cbor_okb c = true → (depth c <= fuel)%nat → decode_item fuel (encode c ++ r) = Some (c, r).
Proof.
  revert fuel r. induction c as [n|n|b|b|l IH|l IH|l IH|b|] using cbor_ind'; intros fuel r Ho Hf;
    (destruct fuel as [|fuel]; [simpl in Hf; lia|]); simpl in Ho; cbn [encode decode_item];
    repeat match goal with
    | E : (_ && _) = true |- _ => apply andb_true_iff in E as [? ?]
    | E : u64b _ = true |- _ => apply u64b_spec in E
    end; rewrite <- ?app_assoc.
  - by rewrite decode_head_encode.
  - by rewrite decode_head_encode.
  - rewrite decode_head_encode by done. simpl.
    rewrite (proj2 (Z.ltb_ge _ _)) by (rewrite len_app; pose proof (len_nonneg r); lia).
    unfold len. rewrite Nat2Z.id, take_app_length, drop_app_length. done.
  - rewrite decode_head_encode by done. simpl.
    rewrite (proj2 (Z.ltb_ge _ _)) by (rewrite len_app; pose proof (len_nonneg r); lia).
    unfold len. rewrite Nat2Z.id, take_app_length, drop_app_length. done.
  - rewrite decode_head_encode by done. simpl. rewrite (proj2 (Z.ltb_ge _ _)).
    2: { rewrite len_app. unfold len. pose proof (flat_map_len encode l encode_length). lia. }
    unfold len. rewrite Nat2Z.id, decode_seq_encode; [done|].
    rewrite forallb_forall in *. rewrite Forall_forall in IH |- *. intros a Ha r'.
    apply IH; [done| |].
    + match goal with F : ∀ x, In x l → _ |- _ => apply F; by apply list_elem_of_In end.
    + pose proof (list_max_in depth l a Ha). simpl in Hf. lia.
  - rewrite decode_head_encode by done. simpl. rewrite (proj2 (Z.ltb_ge _ _)).
    2: { rewrite len_app. unfold len. pose proof (flat_map_len (λ kv, cbor_head 0 kv.1 ++ encode kv.2) l) as Hl.
         enough (length l <= length (flat_map (λ kv : Z * cbor, cbor_head 0 kv.1 ++ encode kv.2) l))%nat by lia.
         apply Hl. intros kv. rewrite length_app. pose proof (cbor_head_length 0 kv.1). lia. }
    replace (text_head _ && _) with false.
    2: { destruct l as [|[k a] l]; [symmetry; apply andb_false_r|]. cbn [flat_map forallb] in *. cbn [fst] in *.
         rewrite <- !app_assoc, text_head_encode; [done|lia|].
         match goal with F : (_ && _) && _ = true |- _ => apply andb_true_iff in F as [[F%u64b_spec _]%andb_true_iff _]; exact F end. }
    unfold len. rewrite Nat2Z.id, decode_seq_encode; [done|].
    rewrite forallb_forall in *. rewrite Forall_forall in IH |- *. intros [k a] Ha r'. simpl.
    match goal with F : ∀ x, In x l → _ |- _ =>
      apply list_elem_of_In in Ha as Ha'; apply F in Ha'; simpl in Ha';
      apply andb_true_iff in Ha' as [?%u64b_spec ?] end.
    rewrite <- app_assoc, decode_head_encode by done. simpl.
    rewrite (IH (k, a) Ha); [done|done|]. pose proof (list_max_in (λ kv, depth kv.2) l (k, a) Ha) as Hd.
    simpl in Hf, Hd |- *. lia.
  - rewrite decode_head_encode by done. simpl. rewrite (proj2 (Z.ltb_ge _ _)).
    2: { rewrite len_app. pose proof (len_nonneg r). enough (len l <= len (flat_map (λ kv : bytes * cbor, cbor_head 3 (len kv.1) ++ kv.1 ++ encode kv.2) l)) by lia.
         apply inj_le, flat_map_len. intros kv. rewrite length_app. pose proof (cbor_head_length 3 (len kv.1)). lia. }
    replace (text_head _ && _) with true.
    2: { destruct l as [|[k a] l]; [done|]. cbn [flat_map forallb fst] in *.
         rewrite <- !app_assoc, text_head_encode; [|lia|]; [symmetry; by rewrite andb_true_l|].
         match goal with F : (_ && _) && _ = true |- _ => apply andb_true_iff in F as [[F%u64b_spec _]%andb_true_iff _]; exact F end. }
    replace (Z.to_nat (len l)) with (length l) by (unfold len; lia). rewrite decode_seq_encode; [done|].
    rewrite forallb_forall in *. rewrite Forall_forall in IH |- *. intros [k a] Ha r'. simpl.
    match goal with F : ∀ x, In x l → _ |- _ =>
      apply list_elem_of_In in Ha as Ha'; apply F in Ha'; simpl in Ha';
      apply andb_true_iff in Ha' as [?%u64b_spec ?] end.
    rewrite <- !app_assoc, decode_head_encode by done. simpl.
    rewrite (proj2 (Z.leb_le _ _)) by (rewrite len_app; match goal with |- _ <= _ + len ?x => pose proof (len_nonneg x); lia end).
    unfold len. rewrite Nat2Z.id, take_app_length, drop_app_length.
    rewrite (IH (k, a) Ha); [done|done|]. pose proof (list_max_in (λ kv, depth kv.2) l (k, a) Ha) as Hd.
    simpl in Hf, Hd |- *. lia.
  - rewrite decode_head_encode by (destruct b; unfold is_u64, two64; lia). by destruct b.
  - by rewrite decode_head_encode.
Qed.

(** Nesting costs at least a byte a level. *)
Lemma depth_le_length c : (depth c <= length (encode c))%nat.
Proof.
  assert (∀ {A} (f : A → bytes) (g : A → nat) (l : list A),
    Forall (λ a, (g a <= length (f a))%nat) l → (list_max (map g l) <= length (flat_map f l))%nat) as Hl.
  { induction 1 as [|a l Ha _ IH]; simpl; [lia|]. rewrite length_app. lia. }
  induction c as [n|n|b|b|l IH|l IH|l IH|b|] using cbor_ind'; cbn [encode depth];
    try (rewrite ?length_app; match goal with |- context [cbor_head ?m ?n] =>
      pose proof (cbor_head_length m n) end; lia).
  - rewrite length_app. pose proof (cbor_head_length 4 (len l)). pose proof (Hl _ encode depth l IH). lia.
  - rewrite length_app. pose proof (cbor_head_length 5 (len l)).
    pose proof (Hl _ (λ kv, cbor_head 0 kv.1 ++ encode kv.2) (λ kv, depth kv.2) l) as H1.
    enough (list_max (map (λ kv : Z * cbor, depth kv.2) l)
            <= length (flat_map (λ kv : Z * cbor, cbor_head 0 kv.1 ++ encode kv.2) l))%nat by lia.
    apply H1. eapply Forall_impl; [exact IH|]. intros kv Hkv. rewrite length_app. simpl in Hkv. lia.
  - rewrite length_app. pose proof (cbor_head_length 5 (len l)).
    pose proof (Hl _ (λ kv, cbor_head 3 (len kv.1) ++ kv.1 ++ encode kv.2) (λ kv, depth kv.2) l) as H1.
    enough (list_max (map (λ kv : bytes * cbor, depth kv.2) l)
            <= length (flat_map (λ kv : bytes * cbor, cbor_head 3 (len kv.1) ++ kv.1 ++ encode kv.2) l))%nat by lia.
    apply H1. eapply Forall_impl; [exact IH|]. intros kv Hkv. rewrite !length_app. simpl in Hkv. lia.
Qed.

(** Decoding inverts encoding. *)
Lemma decode_encode c : cbor_okb c = true → decode (encode c) = Some c.
Proof.
  intros Ho. unfold decode. pose proof (depth_le_length c) as Hd.
  pose proof (decode_item_encode c (S (length (encode c))) [] Ho) as H. rewrite app_nil_r in H.
  by rewrite H by lia.
Qed.

Lemma cbor_marshal_decode c x : cbor_marshal c = Some x → decode x = Some c.
Proof. unfold cbor_marshal. destruct (cbor_okb c) eqn:H; intros [= <-]. by apply decode_encode. Qed.
