(* ===== verification/Platform.v ===== *)
(** * Platform: what the code takes from outside the repository

    [Platform] gathers the cryptographic and encoding functions the repository calls but does not
    define (Go's [crypto/sha256], [crypto/ed25519], [crypto/hmac], the multiformats packages);
    every model of a component is a function of a [Platform].  [PlatformLaws] states the documented
    behaviour theorems may rely on.  [Coredet] is the CoreDet-CBOR encoder of one Go type
    ([coredet.Marshal] at that type).

    [Sha256] is the hash of FIPS 180-4 and [Reference.platform] a platform over it; [Light.platform]
    hashes with a checksum.  Both satisfy the laws; samples run on the light one. *)

From S2P Require Import Prelude Aid Cbor.

Class Platform := {
  sha256 : bytes → bytes;
  hmac_sha256 : bytes → bytes → bytes;
  (** seed ↦ private key; private key, message ↦ signature; public key, message, signature ↦ bool *)
  ed25519_NewKeyFromSeed : bytes → bytes;
  ed25519_sign : bytes → bytes → bytes;
  ed25519_verify : bytes → bytes → bytes → bool;
  (** [mh.Sum(preimage, SHA2_256, -1)] and [cid.NewCidV1(codec, h).String()] *)
  mh_Sum : bytes → option bytes;
  cid_string : Z → bytes → bytes;
}.

(** [PrivateKey.Public] and [PrivateKey.Seed]: an Ed25519 private key is its seed followed by its
    public key. *)
Definition ed25519_public (k : bytes) : bytes := drop 32 k.
Definition ed25519_Seed (k : bytes) : bytes := take 32 k.

(** A private key made from a seed, as every key Go makes is. *)
Definition key_ok `{Platform} (k : bytes) : Prop :=
  ∃ seed, length seed = 32%nat ∧ k = ed25519_NewKeyFromSeed seed.

Class PlatformLaws (P : Platform) : Prop := {
  sha256_length m : length (sha256 m) = 32%nat;
  sha256_bytes m : bytes_ok (sha256 m);
  ed25519_key_length seed :
    length seed = 32%nat → length (ed25519_NewKeyFromSeed seed) = 64%nat;
  ed25519_key_seed seed :
    length seed = 32%nat → ed25519_Seed (ed25519_NewKeyFromSeed seed) = seed;
  ed25519_sign_length k m : key_ok k → length (ed25519_sign k m) = 64%nat;
  ed25519_sign_verify k m :
    key_ok k → ed25519_verify (ed25519_public k) m (ed25519_sign k m) = true;
  mh_Sum_total m : is_Some (mh_Sum m);
}.

(** HMAC-SHA256 is 32 bytes. *)
Class HmacLaws (P : Platform) : Prop := hmac_length k m : len (hmac_sha256 k m) = 32.

(** [coredet.Marshal] of the values of one type.  It is [None] for a value that does not encode
    (a text string that is not UTF-8, say).  Two values with one encoding are the same value: the
    CoreDet encoding is deterministic and loses nothing. *)
Class Coredet (A : Type) := marshal : A → option bytes.
Class CoredetInj (A : Type) `{Coredet A} : Prop :=
  marshal_inj a b x : marshal a = Some x → marshal b = Some x → a = b.

(** An encoding is a CBOR item: it takes at least one byte. *)
Class CoredetItem (A : Type) `{Coredet A} : Prop := marshal_item a : marshal a ≠ Some [].

Definition errMarshal : error := Errf "coredet: does not encode".

(** [coredet.Marshal(v)] as a call that may fail. *)
Definition Marshal `{Coredet A} (a : A) : result bytes := of_option (marshal a) errMarshal.

(** [coredet.UnmarshalStrict] into one type: [None] when the input does not decode.  It reads back
    what [coredet.Marshal] wrote. *)
Class Strict (A : Type) := unmarshal : bytes → option A.
Class StrictInv (A : Type) `{Coredet A, Strict A} : Prop :=
  unmarshal_marshal a x : marshal a = Some x → unmarshal x = Some a.

Definition errUnmarshal : error := Errf "coredet: does not decode".
Definition UnmarshalStrict {A} `{Strict A} (b : bytes) : result A :=
  of_option (unmarshal b) errUnmarshal.

(** ** anetcid: the content identifier (anetcid/cid.go) *)

Definition DagCBOR : Z := 113.
Definition Raw : Z := 85.

Definition Sum `{Platform} (preimage : bytes) : result bytes :=
  h ← of_option (mh_Sum preimage) (Errf "multihash");
  Ok (cid_string DagCBOR h).

Definition SumRaw `{Platform} (data : bytes) : result bytes :=
  h ← of_option (mh_Sum data) (Errf "multihash");
  Ok (cid_string Raw h).

(** ** aobj: the signature envelope (aobj/aobj.go) *)

Definition AlgEdDSA : Z := -8.
Definition SignatureSize : Z := 64.
Definition PublicKeySize : Z := 32.
Definition PrivateKeySize : Z := 64.
Definition Sha256Size : Z := 32.

Record Envelope := mkEnvelope {
  env_SignerAID : bytes;
  env_KeyStateSeq : Z;
  env_Alg : Z;
  env_Sig : bytes;
  env_PreimageRef : bytes;
}.

Definition ErrEnvelope : error := Errf "aobj: invalid envelope".

Definition Validate (e : Envelope) : result unit :=
  refuse negb (e.(env_Alg) =? AlgEdDSA) with ErrEnvelope;
  refuse negb (len e.(env_Sig) =? SignatureSize) with ErrEnvelope;
  Ok tt.

(** [ed25519.Verify]: it panics on a public key that is not 32 bytes. *)
Definition ed25519_Verify `{Platform} (pub msg sig : bytes) : result bool :=
  if len pub =? PublicKeySize then Ok (ed25519_verify pub msg sig) else Err Panic.

Definition Verify `{Platform} (pub preimage sig : bytes) : result unit :=
  refuse negb (len pub =? PublicKeySize) with Errf "aobj: public key must be 32 bytes";
  refuse negb (len sig =? SignatureSize) with Errf "aobj: signature must be 64 bytes";
  ok ← ed25519_Verify pub preimage sig;
  refuse negb ok with Errf "aobj: signature verification failed";
  Ok tt.

(** ** SHA-256 (FIPS 180-4) *)

Module Sha256.
Definition w32 (z : Z) : Z := Z.land z 4294967295.
Definition rotr (n z : Z) : Z := w32 (Z.lor (Z.shiftr z n) (Z.shiftl z (32 - n))).
Definition add32 (l : list Z) : Z := w32 (fold_right Z.add 0 l).

Definition K : list Z :=
  [1116352408;1899447441;3049323471;3921009573;961987163;1508970993;2453635748;2870763221;
   3624381080;310598401;607225278;1426881987;1925078388;2162078206;2614888103;3248222580;
   3835390401;4022224774;264347078;604807628;770255983;1249150122;1555081692;1996064986;
   2554220882;2821834349;2952996808;3210313671;3336571891;3584528711;113926993;338241895;
   666307205;773529912;1294757372;1396182291;1695183700;1986661051;2177026350;2456956037;
   2730485921;2820302411;3259730800;3345764771;3516065817;3600352804;4094571909;275423344;
   430227734;506948616;659060556;883997877;958139571;1322822218;1537002063;1747873779;
   1955562222;2024104815;2227730452;2361852424;2428436474;2756734187;3204031479;3329325298].

Definition H0 : list Z :=
  [1779033703;3144134277;1013904242;2773480762;1359893119;2600822924;528734635;1541459225].

Fixpoint words (fuel : nat) (s : bytes) : list Z :=
  match fuel, s with
  | S f, a :: b :: c :: d :: s =>
      (((a * 256 + b) * 256 + c) * 256 + d) :: words f s
  | _, _ => []
  end.

(** The schedule, newest word first. *)
Fixpoint schedule (n : nat) (w : list Z) : list Z :=
  match n with
  | O => w
  | S n =>
      let x := nth 14 w 0 in let y := nth 1 w 0 in
      let s0 := Z.lxor (Z.lxor (rotr 7 x) (rotr 18 x)) (Z.shiftr x 3) in
      let s1 := Z.lxor (Z.lxor (rotr 17 y) (rotr 19 y)) (Z.shiftr y 10) in
      schedule n (add32 [nth 15 w 0; s0; nth 6 w 0; s1] :: w)
  end.

Definition round (st : list Z) (kw : Z * Z) : list Z :=
  match st with
  | [a; b; c; d; e; f; g; h] =>
      let s1 := Z.lxor (Z.lxor (rotr 6 e) (rotr 11 e)) (rotr 25 e) in
      let ch := Z.lxor (Z.land e f) (Z.land (4294967295 - e) g) in
      let t1 := add32 [h; s1; ch; kw.1; kw.2] in
      let s0 := Z.lxor (Z.lxor (rotr 2 a) (rotr 13 a)) (rotr 22 a) in
      let mj := Z.lxor (Z.lxor (Z.land a b) (Z.land a c)) (Z.land b c) in
      [add32 [t1; s0; mj]; a; b; c; add32 [d; t1]; e; f; g]
  | _ => st
  end.

Definition block (h : list Z) (b : bytes) : list Z :=
  let w := rev (schedule 48 (rev (words 16 b))) in
  zip_with (λ x y, w32 (x + y)) h (fold_left round (combine K w) h).

Definition pad (m : bytes) : bytes :=
  let n := length m in
  let z := Nat.modulo (119 - Nat.modulo n 64) 64 in
  m ++ [128] ++ repeat 0 z ++ be 8 (8 * Z.of_nat n).

Fixpoint blocks (fuel : nat) (h : list Z) (s : bytes) : list Z :=
  match fuel, s with
  | S f, _ :: _ => blocks f (block h (take 64 s)) (drop 64 s)
  | _, _ => h
  end.

Definition digest (m : bytes) : bytes :=
  let p := pad m in
  take 32 (concat (map (be 4) (blocks (length p) H0 p)) ++ repeat 0 32).
End Sha256.

(** ** Concrete platforms

    [keyed h] is a platform over a hash function [h]: multihash, CID strings and HMAC are the real
    constructions, and the signature scheme is a keyed hash with the interface and the laws of Ed25519,
    which is all the models see of it.  [Reference.platform] takes SHA-256; [Light.platform], for
    samples that hash a lot, a 32-bit checksum repeated to the length of a digest. *)
Section Keyed.
Context (h : bytes → bytes).

Definition keyed_hmac (k m : bytes) : bytes :=
  let k := take 64 ((if (64 <? len k) then h k else k) ++ repeat 0 64) in
  h (map (Z.lxor 92) k ++ h (map (Z.lxor 54) k ++ m)).

Definition keyed_mac (pub m : bytes) : bytes := let d := h (pub ++ m) in d ++ h d.

Definition keyed : Platform := {|
  sha256 := h;
  hmac_sha256 := keyed_hmac;
  ed25519_NewKeyFromSeed seed := seed ++ h seed;
  ed25519_sign k m := keyed_mac (drop 32 k) m;
  ed25519_verify pub m sig := beqb sig (keyed_mac pub m);
  mh_Sum m := Some ([18; 32] ++ h m);
  cid_string codec d := str "b" ++ EncodeToString ([1; codec] ++ d);
|}.

Lemma keyed_laws : (∀ m, length (h m) = 32%nat) → (∀ m, bytes_ok (h m)) → PlatformLaws keyed.
Proof.
  intros Hl Hb. constructor; intros; simpl.
  - apply Hl.
  - apply Hb.
  - rewrite length_app, Hl. lia.
  - unfold ed25519_Seed. by apply take_app_length'.
  - unfold keyed_mac. by rewrite length_app, !Hl.
  - apply beqb_refl.
  - eauto.
Qed.
End Keyed.

Module Reference.
#[export] Instance platform : Platform := keyed Sha256.digest.

Lemma digest_length m : length (Sha256.digest m) = 32%nat.
Proof. unfold Sha256.digest. rewrite length_take, length_app. cbn [length repeat]. lia. Qed.

Lemma digest_bytes m : bytes_ok (Sha256.digest m).
Proof.
  unfold Sha256.digest. apply Forall_take, Forall_app. split.
  - apply Forall_concat, Forall_map, Forall_true. intros z. apply (digits_range 256). lia.
  - vm_compute. repeat constructor; discriminate.
Qed.

#[export] Instance platform_laws : PlatformLaws platform.
Proof. apply keyed_laws; [apply digest_length|apply digest_bytes]. Qed.

(** The example of the README: the CID of the map [{1: "hello", 2: 42}]. *)
Example readme_bytes :
encode (CMap [(1, CText (str "hello")); (2, CUint 42)])
= [162; 1; 101; 104; 101; 108; 108; 111; 2; 24; 42].
Proof. vm_compute. reflexivity. Qed.

Example readme_cid :
Sum (encode (CMap [(1, CText (str "hello")); (2, CUint 42)]))
= Ok (str "bafyreidsnafaklrfgsm5a2uk5u3kdosvqlmf2v6a77yajzzuqxsybvmf3u").
Proof. vm_compute. reflexivity. Qed.
End Reference.

Module Light.
Definition checksum (m : bytes) : Z := fold_left (λ a b, Z.land (33 * a + b + 1) 4294967295) m 5381.
Definition digest (m : bytes) : bytes :=
  let d := be 4 (checksum m) in d ++ d ++ d ++ d ++ d ++ d ++ d ++ d.

Lemma light_length m : length (digest m) = 32%nat.
Proof. unfold digest, be. by rewrite !length_app, !length_digits. Qed.

Lemma light_bytes m : bytes_ok (digest m).
Proof.
  assert (bytes_ok (be 4 (checksum m))) as Hd by (apply (digits_range 256); lia).
  unfold digest, bytes_ok in *. by rewrite !Forall_app.
Qed.

#[export] Instance platform : Platform := keyed digest.
#[export] Instance light_laws : PlatformLaws platform.
Proof. apply keyed_laws; [apply light_length|apply light_bytes]. Qed.
#[export] Instance light_hmac : HmacLaws platform.
Proof. intros k m. cbn [hmac_sha256 platform keyed]. unfold keyed_hmac, len. by rewrite light_length. Qed.
End Light.
