(* ===== verification/Kel.v ===== *)
(** * Kel: key event logs, replay and verification (identity/identity.go, extend.go, smallorder.go)

    [KeyEvent], [SignedEvent] and [KeyState] are the structs of the source; [replay] is its loop,
    one [replay_step] per event, with [checkInception], [checkShape], [checkRotation] and
    [checkDeactivation] as they stand there and [markSuperseded] as the post-pass.  [ExtendsKEL],
    [CheckNewEvents], [VerifyObject], [RetiredUsableAt] and [SenderKeyUsable] are the decisions
    made on the result. *)

From S2P Require Import Prelude Platform Aid.

(** ** Data *)

Definition KELType : bytes := str "anet.kel/2".
Definition Inception : bytes := str "icp".
Definition Rotation : bytes := str "rot".
Definition Deactivation : bytes := str "dip".

Definition ToadHub : Z := 0.
Definition ToadAgent : Z := 1.

Definition RotationGrace : Z := 60 * 60 * 1000.
Definition EventClockWindow : Z := 5 * 60 * 1000.

Definition StatusActive : bytes := str "active".
Definition StatusRotated : bytes := str "rotated".
Definition StatusDeactivated : bytes := str "deactivated".

Record KeyEvent := mkKeyEvent {
  ke_KELType : bytes;
  ke_AID : bytes;
  ke_Seq : Z;
  ke_Prev : bytes;
  ke_Type : bytes;
  ke_Keys : list bytes;
  ke_NextDigest : bytes;
  ke_Threshold : Z;
  ke_Timestamp : Z;
  ke_Witnesses : list bytes;
  ke_Toad : option Z;
  ke_Emergency : bool;
}.

Record SignedEvent := mkSignedEvent {
  se_Event : KeyEvent;
  se_Sig : bytes;
  se_EventID : bytes;
}.

Record KeyState := mkKeyState {
  ks_AID : bytes;
  ks_CurrentKeys : list bytes;
  ks_KeyStateSeq : Z;
  ks_Status : bytes;
  ks_LastEventID : bytes;
  ks_Toad : Z;
  ks_Witness : bytes;
  ks_SupersededAt : Z;
  ks_RetiredUrgently : bool;
}.

(** The zero [KeyState]. *)
Definition zeroKeyState : KeyState := mkKeyState [] [] 0 [] [] 0 [] 0 false.

Definition ErrKELv1 : error := Errf "identity: KEL v1 (v0.2) is not accepted".
Definition errRotWitnessNotAID : error := Errf "identity: rot witness is not a valid AID".
Definition ErrKELRollback : error :=
  Errf "identity: KEL rollback (candidate is a strict prefix of the known KEL)".
Definition ErrKELFork : error := Errf "identity: KEL fork (the KELs disagree on a key event)".
Definition ErrEventFromFuture : error := Errf "identity: new KEL event is from the future".
Definition ErrEventTooOld : error := Errf "identity: new KEL event is too old for its witness".

(** ** Points of small order *)

Definition smallOrderY : list bytes :=
  [ [1] ++ repeat 0 31;
    [236] ++ repeat 255 30 ++ [127];
    repeat 0 32;
    [38;232;149;143;194;178;39;176;69;195;244;137;242;239;152;240;
     213;223;172;5;211;198;51;57;177;56;2;136;109;83;252;5];
    [199;23;106;112;61;77;216;79;186;60;11;118;13;16;103;15;
     42;32;83;250;44;57;204;198;78;199;253;119;146;172;3;122];
    [237] ++ repeat 255 30 ++ [127];
    [238] ++ repeat 255 30 ++ [127] ].

(** [SmallOrderKey]: the key, sign bit ignored, is one of the listed encodings; bytes are compared
    by accumulating their differences. *)
Definition key_diff (pub y : bytes) : Z :=
  foldl Z.lor (Z.lxor (Z.land (nth 31 pub 0) 127) (nth 31 y 0))
    (zip_with Z.lxor (take 31 pub) (take 31 y)).

Definition SmallOrderKey (pub : bytes) : bool :=
  if len pub =? PublicKeySize then existsb (λ y, key_diff pub y =? 0) smallOrderY else false.

Section Kel.
Context `{P : Platform} `{CE : Coredet KeyEvent}.

Definition nextDigest (pub : bytes) : bytes := sha256 pub.

(** [preimage e] is [coredet.Marshal(e)]. *)
Definition preimage (e : KeyEvent) : result bytes := Marshal e.

(** [e.Keys[0]]. *)
Definition key0 (e : KeyEvent) : result bytes := of_option (head (ke_Keys e)) Panic.

(** [*e.Toad]. *)
Definition toad_of (e : KeyEvent) : result Z := of_option (ke_Toad e) Panic.

Definition checkShape (e : KeyEvent) : result unit :=
  refuse negb (ke_Threshold e =? 1) with Errf "identity: kt must be 1";
  refuse negb (len (ke_Keys e) =? 1) ||
         match head (ke_Keys e) with Some k => negb (len k =? PublicKeySize) | None => true end
    with Errf "identity: needs exactly one 32-byte Ed25519 key";
  k ← key0 e;
  refuse SmallOrderKey k with Errf "identity: key is a point of small order";
  refuse (ke_Timestamp e =? 0) with Errf "identity: event ts must be greater than 0";
  Ok tt.

Definition checkInception (e : KeyEvent) : result unit :=
  refuse negb (beqb (ke_Type e) Inception) with Errf "identity: first event must be icp";
  refuse negb (ke_Seq e =? 0) with Errf "identity: icp seq must be 0";
  refuse negb (beqb (ke_AID e) []) || negb (beqb (ke_Prev e) [])
    with Errf "identity: icp must not carry aid or prev";
  _ ← checkShape e;
  refuse negb (len (ke_NextDigest e) =? Sha256Size)
    with Errf "identity: icp needs a 32-byte next-key digest";
  refuse negb (bool_decide (is_Some (ke_Toad e))) with Errf "identity: icp must carry toad";
  t ← toad_of e;
  refuse negb (t =? ToadHub) && negb (t =? ToadAgent)
    with Errf "identity: toad must be 0 or 1";
  refuse negb (len (ke_Witnesses e) =? 0) with Errf "identity: icp must not carry witnesses";
  refuse ke_Emergency e with Errf "identity: icp must not carry emergency";
  Ok tt.

Definition checkRotation (e : KeyEvent) (prior : KeyState) : result unit :=
  refuse negb (len (ke_NextDigest e) =? Sha256Size)
    with Errf "identity: rot needs a 32-byte next-key digest";
  refuse negb (bool_decide (is_Some (ke_Toad e))) with Errf "identity: rot must carry toad";
  t ← toad_of e;
  refuse negb (t =? ks_Toad prior) with Errf "identity: rot changes toad";
  if ks_Toad prior =? ToadHub then
    refuse negb (len (ke_Witnesses e) =? 0)
      with Errf "identity: rot of a toad-0 identity must not carry witnesses";
    Ok tt
  else
    match ke_Witnesses e with
    | [] => Err (Errf "identity: rot of a toad-1 identity must name its witness")
    | _ :: _ :: _ => Err (Errf "identity: rot must name exactly one witness")
    | [w] =>
        refuse negb (ValidAID w) with errRotWitnessNotAID;
        refuse beqb w (ks_AID prior) with Errf "identity: rot names its own AID as witness";
        Ok tt
    end.

Definition checkDeactivation (e : KeyEvent) : result unit :=
  refuse negb (len (ke_NextDigest e) =? 0) with Errf "identity: dip must not carry next";
  refuse negb (len (ke_Witnesses e) =? 0) with Errf "identity: dip must not carry witnesses";
  refuse bool_decide (is_Some (ke_Toad e)) with Errf "identity: dip must not carry toad";
  refuse ke_Emergency e with Errf "identity: dip must not carry emergency";
  Ok tt.

(** The loop variables of [replay]: the state after the last event, the digest it committed, its
    time, and the states so far. *)
Record replay_st := mkReplaySt {
  r_prior : KeyState;
  r_committed : bytes;
  r_lastTS : Z;
  r_states : list KeyState;
}.

Definition replay_init : replay_st := mkReplaySt zeroKeyState [] 0 [].

(** The checks of an event that is not the first. *)
Definition checkSuccessor (st : replay_st) (e : KeyEvent) : result unit :=
  let prior := r_prior st in
  refuse negb (beqb (ke_AID e) (ks_AID prior)) with Errf "identity: event AID mismatch";
  refuse negb (ke_Seq e =? u64 (ks_KeyStateSeq prior + 1)) with Errf "identity: non-monotonic seq";
  refuse negb (beqb (ke_Prev e) (ks_LastEventID prior))
    with Errf "identity: broken prev linkage";
  refuse beqb (ks_Status prior) StatusDeactivated
    with Errf "identity: event after deactivation";
  refuse negb (beqb (ke_Type e) Rotation) && negb (beqb (ke_Type e) Deactivation)
    with Errf "identity: unsupported event type";
  _ ← checkShape e;
  refuse (ke_Timestamp e <=? r_lastTS st)
    with Errf "identity: event ts must be greater than the previous event's";
  _ ← (if beqb (ke_Type e) Rotation then checkRotation e prior else checkDeactivation e);
  k ← key0 e;
  refuse negb (beqb (nextDigest k) (r_committed st))
    with Errf "identity: key does not match pre-committed digest";
  Ok tt.

(** The event's id and signature, checked against its own preimage and key; the result is the id. *)
Definition checkSigned (se : SignedEvent) : result bytes :=
  let e := se_Event se in
  pre ← preimage e;
  id ← Sum pre;
  refuse negb (beqb (se_EventID se) id)
    with Errf "identity: event_id is not the CID of the event";
  refuse negb (len (se_Sig se) =? SignatureSize)
    with Errf "identity: event signature is not 64 bytes";
  signer ← key0 e;
  ok ← ed25519_Verify signer pre (se_Sig se);
  refuse negb ok with (if beqb (ke_Type e) Inception
                       then Errf "identity: icp not self-signed by its key"
                       else Errf "identity: not signed by the key it reveals");
  Ok id.

(** The key state after event [e] with id [id], and the digest it commits. *)
Definition nextState (prior : KeyState) (e : KeyEvent) (id : bytes)
  : result (KeyState * bytes) :=
  if beqb (ke_Type e) Inception then
    t ← toad_of e;
    Ok (mkKeyState id (ke_Keys e) 0 StatusActive id t [] 0 false, ke_NextDigest e)
  else if beqb (ke_Type e) Rotation then
    Ok (mkKeyState (ks_AID prior) (ke_Keys e) (ke_Seq e) StatusActive id (ks_Toad prior)
          (match ke_Witnesses e with [w] => w | _ => [] end) 0 false, ke_NextDigest e)
  else if beqb (ke_Type e) Deactivation then
    Ok (mkKeyState (ks_AID prior) [] (ke_Seq e) StatusDeactivated id (ks_Toad prior)
          (ks_Witness prior) 0 false, [])
  else Ok (zeroKeyState, []).

(** One iteration; [i] is the index of the event. *)
Definition replay_step (i : nat) (st : replay_st) (se : SignedEvent) : result replay_st :=
  let e := se_Event se in
  refuse negb (beqb (ke_KELType e) KELType) with ErrKELv1;
  _ ← match i with O => checkInception e | S _ => checkSuccessor st e end;
  id ← checkSigned se;
  '(next, committed) ← nextState (r_prior st) e id;
  Ok (mkReplaySt next committed (ke_Timestamp e) (r_states st ++ [next])).

Fixpoint replay_loop (i : nat) (st : replay_st) (kel : list SignedEvent) : result replay_st :=
  match kel with
  | [] => Ok st
  | se :: kel => st ← replay_step i st se; replay_loop (S i) st kel
  end.

Definition supersede (s : KeyState) (e : KeyEvent) : KeyState :=
  mkKeyState (ks_AID s) (ks_CurrentKeys s) (ks_KeyStateSeq s)
    (if beqb (ks_Status s) StatusActive then StatusRotated else ks_Status s)
    (ks_LastEventID s) (ks_Toad s) (ks_Witness s) (ke_Timestamp e)
    (beqb (ke_Type e) Deactivation || ke_Emergency e).

(** State [i] is retired by event [i+1]. *)
Fixpoint markSuperseded (kel : list SignedEvent) (states : list KeyState) : list KeyState :=
  match kel, states with
  | _ :: ((se :: _) as kel), s :: ((_ :: _) as states) =>
      supersede s (se_Event se) :: markSuperseded kel states
  | _, _ => states
  end.

Definition replay (kel : list SignedEvent) : result (list KeyState) :=
  refuse (len kel =? 0) with Errf "identity: empty KEL";
  st ← replay_loop 0 replay_init kel;
  Ok (markSuperseded kel (r_states st)).

(** [Replay] without an installed cache ([ReplayCache] is modelled in its own file). *)
Definition Replay (kel : list SignedEvent) : result (list KeyState) := replay kel.

(** Key 6 of the last establishment event. *)
Definition committedNextDigest (kel : list SignedEvent) : bytes :=
  match List.find (λ se, beqb (ke_Type (se_Event se)) Inception
                         || beqb (ke_Type (se_Event se)) Rotation) (rev kel) with
  | Some se => ke_NextDigest (se_Event se)
  | None => []
  end.

(** ** Extension of a stored log *)

(** The comparison loop over the events both logs have. *)
Fixpoint compareEvents (old next : list SignedEvent) : result unit :=
  match old, next with
  | o :: old, n :: next =>
      a ← map_err (Wrap "identity: known KEL event does not encode") (preimage (se_Event o));
      b ← map_err (Wrap "identity: candidate KEL event does not encode") (preimage (se_Event n));
      refuse negb (beqb a b) with Wrap "event differs" ErrKELFork;
      compareEvents old next
  | _, _ => Ok tt
  end.

Definition ExtendsKEL (old next : list SignedEvent) : result unit :=
  _ ← map_err (Wrap "identity: candidate KEL does not replay") (Replay next);
  _ ← compareEvents old next;
  refuse (len next <? len old) with Wrap "candidate has fewer events" ErrKELRollback;
  Ok tt.

Fixpoint checkNewEvents_loop (new : list SignedEvent) (now : Z)
  (isFirstWitness : option (KeyEvent → bool)) : result unit :=
  match new with
  | [] => Ok tt
  | se :: new =>
      let e := se_Event se in
      refuse (now <? ke_Timestamp e) && (EventClockWindow <? ke_Timestamp e - now)
        with Wrap "event from the future" ErrEventFromFuture;
      refuse match isFirstWitness with Some f => f e | None => false end
             && (ke_Timestamp e <? now) && (EventClockWindow <? now - ke_Timestamp e)
        with Wrap "event too old" ErrEventTooOld;
      checkNewEvents_loop new now isFirstWitness
  end.

Definition CheckNewEvents (old next : list SignedEvent) (now : Z)
  (isFirstWitness : option (KeyEvent → bool)) : result unit :=
  checkNewEvents_loop (drop (length old) next) now isFirstWitness.

(** [MergedEmergency] (identity/notice.go): an appended event is an emergency rotation. *)
Definition MergedEmergency (old next : list SignedEvent) : bool :=
  existsb (λ se, beqb (ke_Type (se_Event se)) Rotation && ke_Emergency (se_Event se))
    (drop (length old) next).

(** ** Objects signed under a log *)

Definition VErr (reason detail : string) : error := Typed reason detail.

Definition VerifyObject (kel : list SignedEvent) (signerAID : bytes) (keyStateSeq msgTime : Z)
  (objPreimage sig : bytes) : result unit :=
  states ← map_err (λ _, VErr "UNKNOWN_AID" "replay") (Replay kel);
  final ← of_option (last states) Panic;
  refuse negb (beqb (ks_AID final) signerAID)
    with VErr "UNKNOWN_AID" "KEL AID does not match signer_aid";
  refuse (len states <=? keyStateSeq)
    with VErr "KEY_STATE_DOWNGRADE" "declared key_state_seq beyond KEL";
  ks ← of_option (states !! Z.to_nat keyStateSeq) Panic;
  refuse beqb (ks_Status ks) StatusDeactivated
    with VErr "REVOKED_KEY" "AID deactivated at this key_state_seq";
  k ← match ks_CurrentKeys ks with
      | [k] => refuse negb (len k =? PublicKeySize)
                 with VErr "UNKNOWN_AID" "no current key at declared key_state_seq"; Ok k
      | _ => Err (VErr "UNKNOWN_AID" "no current key at declared key_state_seq")
      end;
  ok ← ed25519_Verify k objPreimage sig;
  refuse negb ok
    with VErr "INVALID_SIGNATURE" "signature does not verify under key at key_state_seq";
  if beqb (ks_Status ks) StatusActive then Ok tt
  else
    refuse (msgTime =? 0) with VErr "REVOKED_KEY" "retired, and the object carries no time";
    refuse (ks_SupersededAt ks <=? msgTime)
      with VErr "REVOKED_KEY" "retired at or before the object's time";
    Ok tt.
End Kel.

Definition RetiredUsableAt (ks : KeyState) (arrival : Z) : bool :=
if beqb (ks_Status ks) StatusActive then true
else if beqb (ks_Status ks) StatusRotated then
  let grace := if ks_RetiredUrgently ks then 0 else RotationGrace in
  (arrival <=? ks_SupersededAt ks) || (arrival - ks_SupersededAt ks <=? grace)
else false.

Definition SenderKeyUsable (ks : KeyState) (arrival : Z) : bool :=
if ks_RetiredUrgently ks then false else RetiredUsableAt ks arrival.
