(* ===== verification/KelReference.v ===== *)
(** * KelReference: the encoding of a key event, and sample logs

    The CoreDet encoding of a [KeyEvent] (the struct tags of identity/identity.go) as an instance of
    the encoder parameter, and the logs the theorems about key event logs are run on. *)

From S2P Require Import Prelude Aid Cbor Platform Kel.
Import Light.

Definition event_cbor (e : KeyEvent) : cbor :=
  CMap (field 0 (CText (ke_KELType e)) ++
        omitempty 1 (beqb (ke_AID e) []) (CText (ke_AID e)) ++
        field 2 (CUint (ke_Seq e)) ++
        omitempty 3 (beqb (ke_Prev e) []) (CText (ke_Prev e)) ++
        field 4 (CText (ke_Type e)) ++
        field 5 (CArray (map CBytes (ke_Keys e))) ++
        omitempty 6 (beqb (ke_NextDigest e) []) (CBytes (ke_NextDigest e)) ++
        field 7 (CUint (ke_Threshold e)) ++
        field 8 (CUint (ke_Timestamp e)) ++
        omitempty 9 (bool_decide (ke_Witnesses e = [])) (CArray (map CText (ke_Witnesses e))) ++
        match ke_Toad e with Some t => field 11 (CUint t) | None => [] end ++
        omitempty 12 (negb (ke_Emergency e)) (CBool (ke_Emergency e))).

#[export] Instance event_coredet : Coredet KeyEvent := λ e, cbor_marshal (event_cbor e).

(** Reading the members back. *)
Definition as_text (o : option cbor) : bytes :=
  match o with Some (CText b) => b | _ => [] end.
Definition as_bytes (o : option cbor) : bytes :=
  match o with Some (CBytes b) => b | _ => [] end.
Definition as_uint (o : option cbor) : Z := match o with Some (CUint n) => n | _ => 0 end.
Definition as_list (f : option cbor → bytes) (o : option cbor) : list bytes :=
  match o with Some (CArray l) => map (λ c, f (Some c)) l | _ => [] end.

Definition event_of_cbor (c : cbor) : KeyEvent :=
  match c with
  | CMap l =>
      mkKeyEvent (as_text (member 0 l)) (as_text (member 1 l)) (as_uint (member 2 l))
        (as_text (member 3 l)) (as_text (member 4 l)) (as_list as_bytes (member 5 l))
        (as_bytes (member 6 l)) (as_uint (member 7 l)) (as_uint (member 8 l))
        (as_list as_text (member 9 l))
        (match member 11 l with Some (CUint n) => Some n | _ => None end)
        (match member 12 l with Some (CBool b) => b | _ => false end)
  | _ => mkKeyEvent [] [] 0 [] [] [] [] 0 0 [] None false
  end.

Lemma event_of_cbor_event e : event_of_cbor (event_cbor e) = e.
Proof.
  destruct e as [ty aid seq prev et keys nd kt ts wits toad em]. unfold event_cbor; simpl.
  assert (∀ l, as_list as_bytes (Some (CArray (map CBytes l))) = l) as Hb.
  { intros l. simpl. rewrite map_map. apply map_id. }
  assert (∀ l, as_list as_text (Some (CArray (map CText l))) = l) as Ht.
  { intros l. simpl. rewrite map_map. apply map_id. }
  unfold omitempty, beqb.
  destruct aid, prev, nd, wits, toad, em;
    repeat (case_bool_decide; [try discriminate|try done]); simpl in *;
    f_equal; first [apply Hb | apply (Ht (_ :: _)) | done].
Qed.

#[export] Instance event_coredet_inj : CoredetInj KeyEvent.
Proof.
  intros a b x. unfold marshal, event_coredet. intros Ha Hb.
  pose proof (cbor_marshal_inj (event_cbor a) (event_cbor b) x Ha Hb) as E.
  apply (f_equal event_of_cbor) in E. by rewrite !event_of_cbor_event in E.
Qed.

Definition signed_cbor (se : SignedEvent) : cbor :=
  CMap (field 1 (event_cbor (se_Event se)) ++ field 2 (CBytes (se_Sig se)) ++
        field 3 (CText (se_EventID se))).

#[export] Instance signed_coredet : Coredet SignedEvent := λ se, cbor_marshal (signed_cbor se).
#[export] Instance kel_coredet : Coredet (list SignedEvent) :=
  λ kel, cbor_marshal (CArray (map signed_cbor kel)).

Definition signed_of_cbor (c : cbor) : SignedEvent :=
  match c with
  | CMap l => mkSignedEvent (match member 1 l with Some e => event_of_cbor e | None => event_of_cbor CNull end)
                (as_bytes (member 2 l)) (as_text (member 3 l))
  | _ => mkSignedEvent (event_of_cbor CNull) [] []
  end.

#[local] Arguments event_cbor : simpl never.
#[local] Arguments event_of_cbor : simpl never.

Lemma signed_of_cbor_signed se : signed_of_cbor (signed_cbor se) = se.
Proof. destruct se. unfold signed_cbor. simpl. by rewrite event_of_cbor_event. Qed.

#[local] Arguments signed_cbor : simpl never.
#[local] Arguments signed_of_cbor : simpl never.

#[export] Instance signed_strict : Strict SignedEvent := λ b,
  match decode b with Some c => Some (signed_of_cbor c) | None => None end.
#[export] Instance kel_strict : Strict (list SignedEvent) := λ b,
  match decode b with Some (CArray l) => Some (map signed_of_cbor l) | _ => None end.

Lemma signed_marshal (se : SignedEvent) : marshal se = cbor_marshal (signed_cbor se).
Proof. reflexivity. Qed.
Lemma kel_marshal (kel : list SignedEvent) : marshal kel = cbor_marshal (CArray (map signed_cbor kel)).
Proof. reflexivity. Qed.

#[export] Instance signed_strict_inv : StrictInv SignedEvent.
Proof.
  intros se x H. unfold unmarshal, signed_strict. rewrite signed_marshal in H.
  rewrite (cbor_marshal_decode _ _ H). f_equal. apply signed_of_cbor_signed.
Qed.

#[export] Instance kel_strict_inv : StrictInv (list SignedEvent).
Proof.
  intros kel x H. unfold unmarshal, kel_strict. rewrite kel_marshal in H.
  rewrite (cbor_marshal_decode _ _ H). f_equal. rewrite map_map. rewrite <- (map_id kel) at 2.
  apply map_ext, signed_of_cbor_signed.
Qed.

Lemma signed_marshal_not_nil (se : SignedEvent) : marshal se ≠ Some [].
Proof.
  rewrite signed_marshal. unfold cbor_marshal. destruct (cbor_okb (signed_cbor se)); [|done].
  by intros [= E].
Qed.

(** ** Sample logs, over any platform *)

Section Samples.
Context `{P : Platform}.

Definition sign_event (e : KeyEvent) (k : bytes) : SignedEvent :=
  match preimage e with
  | Ok pre => mkSignedEvent e (ed25519_sign k pre)
                (match Sum pre with Ok id => id | Err _ => [] end)
  | Err _ => mkSignedEvent e [] []
  end.

(** Private keys, by the byte their seed repeats. *)
Definition sample_key (n : Z) : bytes := ed25519_NewKeyFromSeed (repeat n 32).
Definition sample_pub (n : Z) : bytes := ed25519_public (sample_key n).
Definition sample_hub : bytes :=
  str "bafyreidsnafaklrfgsm5a2uk5u3kdosvqlmf2v6a77yajzzuqxsybvmf3u".

Definition icp_event : SignedEvent :=
  sign_event (mkKeyEvent KELType [] 0 [] Inception [sample_pub 1] (sha256 (sample_pub 2)) 1
                1760000000000 [] (Some ToadAgent) false) (sample_key 1).
Definition rot_event : SignedEvent :=
  sign_event (mkKeyEvent KELType (se_EventID icp_event) 1 (se_EventID icp_event) Rotation
                [sample_pub 2] (sha256 (sample_pub 3)) 1 1760000100000 [sample_hub]
                (Some ToadAgent) false) (sample_key 2).
Definition emergency_event : SignedEvent :=
  sign_event (mkKeyEvent KELType (se_EventID icp_event) 2 (se_EventID rot_event) Rotation
                [sample_pub 3] (sha256 (sample_pub 4)) 1 1760000200000 [sample_hub]
                (Some ToadAgent) true) (sample_key 3).
Definition dip_event : SignedEvent :=
  sign_event (mkKeyEvent KELType (se_EventID icp_event) 2 (se_EventID rot_event) Deactivation
                [sample_pub 3] [] 1 1760000200000 [] None false) (sample_key 3).
End Samples.

(** The same events under the light platform, as values. *)
Definition sample_icp : SignedEvent := Eval vm_compute in icp_event.
Definition sample_rot : SignedEvent := Eval vm_compute in rot_event.
Definition sample_emergency : SignedEvent := Eval vm_compute in emergency_event.
Definition sample_dip : SignedEvent := Eval vm_compute in dip_event.

Definition sample_kel : list SignedEvent := [sample_icp; sample_rot; sample_emergency].
Definition sample_dead : list SignedEvent := [sample_icp; sample_rot; sample_dip].

Example sample_kel_replays :
  (map ks_Status <$> replay sample_kel) = Ok [StatusRotated; StatusRotated; StatusActive].
Proof. vm_compute. reflexivity. Qed.

Example sample_dead_replays :
  (map ks_Status <$> replay sample_dead) = Ok [StatusRotated; StatusRotated; StatusDeactivated].
Proof. vm_compute. reflexivity. Qed.
