(* ===== verification/Codec.v ===== *)
(** * Codec: concrete CoreDet encodings for the samples

    The theorems take the encoder and the decoder of a Go struct as parameters.  To run them on a
    sample, an encoding of the struct as a CBOR value that reads back is enough: [codec_marshal] and
    [codec_unmarshal] turn one into the two parameters, with their laws. *)

From S2P Require Import Prelude Cbor Platform KelReference.

Section Codec.
Context {A : Type} (to_cbor : A → cbor) (of_cbor : cbor → A).

Definition codec_marshal : Coredet A := λ a, cbor_marshal (to_cbor a).
Definition codec_unmarshal : Strict A := λ b, of_cbor <$> decode b.

Lemma codec_item : @CoredetItem A codec_marshal.
Proof.
  intros a. unfold marshal, codec_marshal, cbor_marshal. destruct (cbor_okb (to_cbor a)); [|done].
  intros [= E]. pose proof (encode_length (to_cbor a)) as Hl. rewrite E in Hl. simpl in Hl. lia.
Qed.

Context (of_to : ∀ a, of_cbor (to_cbor a) = a).

Lemma codec_inv : @StrictInv A codec_marshal codec_unmarshal.
Proof using of_to.
  intros a x Hm. unfold unmarshal, codec_unmarshal. unfold marshal, codec_marshal in Hm.
  rewrite (cbor_marshal_decode _ _ Hm). simpl. by rewrite of_to.
Qed.

Lemma codec_inj : @CoredetInj A codec_marshal.
Proof using of_to.
  intros a b x. unfold marshal, codec_marshal. intros Ha Hb.
  pose proof (cbor_marshal_inj _ _ _ Ha Hb) as E. rewrite <- (of_to a), <- (of_to b). by rewrite E.
Qed.
End Codec.

(** An [int], an [int64]. *)
Definition int_cbor (n : Z) : cbor := if 0 <=? n then CUint n else CNeg (-1 - n).
Definition as_int (o : option cbor) : Z :=
  match o with Some (CUint n) => n | Some (CNeg n) => -1 - n | _ => 0 end.

Lemma as_int_int n : as_int (Some (int_cbor n)) = n.
Proof. unfold int_cbor. destruct (0 <=? n); simpl; lia. Qed.

(** A text field left out when it is empty. *)
Lemma as_text_omitempty k s l : member k l = None → as_text (member k (omitempty k (beqb s []) (CText s) ++ l)) = s.
Proof.
  intros Hl. unfold omitempty, beqb. case_bool_decide as E; simpl; [by rewrite Hl, E|].
  by rewrite Z.eqb_refl.
Qed.

(** [aobj.Envelope], and a pointer to one. *)
Definition envelope_cbor (e : Envelope) : cbor :=
  CMap (field 1 (CText (env_SignerAID e)) ++ field 2 (CUint (env_KeyStateSeq e)) ++
        field 3 (int_cbor (env_Alg e)) ++ field 4 (CBytes (env_Sig e)) ++
        omitempty 5 (beqb (env_PreimageRef e) []) (CText (env_PreimageRef e))).
Definition envelope_of_cbor (c : cbor) : Envelope :=
  match c with
  | CMap l => mkEnvelope (as_text (member 1 l)) (as_uint (member 2 l)) (as_int (member 3 l))
                (as_bytes (member 4 l)) (as_text (member 5 l))
  | _ => mkEnvelope [] 0 0 [] []
  end.

Lemma envelope_of_cbor_envelope e : envelope_of_cbor (envelope_cbor e) = e.
Proof.
  destruct e as [aid seq alg sig ref]. unfold envelope_cbor, omitempty. cbn -[as_int int_cbor].
  unfold beqb. case_bool_decide; cbn -[as_int int_cbor]; rewrite as_int_int; by subst.
Qed.

Definition envelope_ptr_cbor (e : option Envelope) : cbor :=
  match e with Some e => envelope_cbor e | None => CNull end.
Definition envelope_ptr_of_cbor (o : option cbor) : option Envelope :=
  match o with Some CNull | None => None | Some c => Some (envelope_of_cbor c) end.

Lemma envelope_ptr_of_cbor_ptr e : envelope_ptr_of_cbor (Some (envelope_ptr_cbor e)) = e.
Proof.
  destruct e as [e|]; [|done].
  trans (Some (envelope_of_cbor (envelope_cbor e))); [reflexivity|by rewrite envelope_of_cbor_envelope].
Qed.

#[global] Arguments int_cbor : simpl never.
#[global] Arguments as_int : simpl never.
#[global] Arguments envelope_cbor : simpl never.
#[global] Arguments envelope_of_cbor : simpl never.
#[global] Arguments envelope_ptr_cbor : simpl never.
#[global] Arguments envelope_ptr_of_cbor : simpl never.
