(* ===== verification/KelSpec.v ===== *)
(** * KelSpec: the KEL v2 rules, and that replay implements them

    [kel_ok kel sts] is the rule book R-1 to R-6 of the repository as an inductive relation: one
    rule for the inception, one for a rotation, one for a deactivation; [sts] are the key states the
    events introduce, before any of them is superseded.  [replay_iff] is the refinement theorem:
    [replay] accepts exactly the logs of the relation and returns their states, each superseded by
    the event after it.  The other theorems are about the relation. *)

From S2P Require Import Prelude Platform Aid Kel.

Section KelSpec.
Context `{P : Platform} `{CE : Coredet KeyEvent}.

(** R-6: kt 1, one 32-byte key that is not of small order, a time. *)
Record shape_ok (e : KeyEvent) (k : bytes) : Prop := {
  shape_kt : ke_Threshold e = 1;
  shape_key : ke_Keys e = [k];
  shape_key_length : length k = 32%nat;
  shape_key_order : SmallOrderKey k = false;
  shape_ts : ke_Timestamp e ≠ 0;
}.

(** The event id is the CID of the event, and its one key signed the event. *)
Record signed_as (se : SignedEvent) (k pre : bytes) : Prop := {
  signed_preimage : marshal (se_Event se) = Some pre;
  signed_id : Sum pre = Ok (se_EventID se);
  signed_sig_length : length (se_Sig se) = 64%nat;
  signed_verifies : ed25519_verify k pre (se_Sig se) = true;
}.
Definition signed_ok (se : SignedEvent) (k : bytes) : Prop := ∃ pre, signed_as se k pre.

(** R-3, R-4: the witness a rotation names. *)
Definition witness_ok (toad : Z) (aid : bytes) (ws : list bytes) (w : bytes) : Prop :=
  if toad =? ToadHub then ws = [] ∧ w = []
  else ws = [w] ∧ ValidAID w = true ∧ w ≠ aid.

(** What links an event to the one before it and to the state before it. *)
Record succ_ok (prior : KeyState) (se : SignedEvent) (e : KeyEvent) (k : bytes) : Prop := {
  succ_type : ke_KELType e = KELType;
  succ_aid : ke_AID e = ks_AID prior;
  succ_seq : ke_Seq e = u64 (ks_KeyStateSeq prior + 1);
  succ_prev : ke_Prev e = se_EventID se;
  succ_alive : ke_Type (se_Event se) ≠ Deactivation;
  succ_shape : shape_ok e k;
  succ_ts : ke_Timestamp (se_Event se) < ke_Timestamp e;
  succ_committed : sha256 k = ke_NextDigest (se_Event se);
}.

(** R-1, R-3 and R-5: what each event type carries of its own. *)
Record icp_ok (e : KeyEvent) (k : bytes) (t : Z) : Prop := {
  icp_type : ke_Type e = Inception;
  icp_seq : ke_Seq e = 0;
  icp_aid : ke_AID e = [];
  icp_prev : ke_Prev e = [];
  icp_shape : shape_ok e k;
  icp_next : length (ke_NextDigest e) = 32%nat;
  icp_toad : ke_Toad e = Some t;
  icp_toad_range : t = ToadHub ∨ t = ToadAgent;
  icp_witnesses : ke_Witnesses e = [];
  icp_emergency : ke_Emergency e = false;
}.

Record rot_ok (e : KeyEvent) (prior : KeyState) (w : bytes) : Prop := {
  rot_next : length (ke_NextDigest e) = 32%nat;
  rot_toad : ke_Toad e = Some (ks_Toad prior);
  rot_witness : witness_ok (ks_Toad prior) (ks_AID prior) (ke_Witnesses e) w;
}.

Record dip_ok (e : KeyEvent) : Prop := {
  dip_next : ke_NextDigest e = [];
  dip_witnesses : ke_Witnesses e = [];
  dip_toad : ke_Toad e = None;
  dip_emergency : ke_Emergency e = false;
}.

(** The states the three event types introduce. *)
Definition icp_state (id k : bytes) (t : Z) : KeyState :=
  mkKeyState id [k] 0 StatusActive id t [] 0 false.
Definition rot_state (prior : KeyState) (e : KeyEvent) (id k w : bytes) : KeyState :=
  mkKeyState (ks_AID prior) [k] (ke_Seq e) StatusActive id (ks_Toad prior) w 0 false.
Definition dip_state (prior : KeyState) (e : KeyEvent) (id : bytes) : KeyState :=
  mkKeyState (ks_AID prior) [] (ke_Seq e) StatusDeactivated id (ks_Toad prior)
    (ks_Witness prior) 0 false.

Inductive kel_ok : list SignedEvent → list KeyState → Prop :=
  | kel_icp se k t :
      ke_KELType (se_Event se) = KELType → icp_ok (se_Event se) k t → signed_ok se k →
      kel_ok [se] [icp_state (se_EventID se) k t]
  | kel_rot kel sts se prior se' k w :
      kel_ok kel sts → last kel = Some se → last sts = Some prior →
      ke_Type (se_Event se') = Rotation → succ_ok prior se (se_Event se') k →
      rot_ok (se_Event se') prior w → signed_ok se' k →
      kel_ok (kel ++ [se'])
        (sts ++ [rot_state prior (se_Event se') (se_EventID se') k w])
  | kel_dip kel sts se prior se' k :
      kel_ok kel sts → last kel = Some se → last sts = Some prior →
      ke_Type (se_Event se') = Deactivation → succ_ok prior se (se_Event se') k →
      dip_ok (se_Event se') → signed_ok se' k →
      kel_ok (kel ++ [se']) (sts ++ [dip_state prior (se_Event se') (se_EventID se')]).

(** The loop state after [se], whose key state is the last of [sts]. *)
Definition loop_st (se : SignedEvent) (prior : KeyState) (sts : list KeyState) : replay_st :=
  mkReplaySt prior
    (if beqb (ke_Type (se_Event se)) Deactivation then [] else ke_NextDigest (se_Event se))
    (ke_Timestamp (se_Event se)) sts.

Lemma types_distinct :
  beqb Rotation Inception = false ∧ beqb Deactivation Inception = false ∧
  beqb Deactivation Rotation = false ∧ beqb Rotation Deactivation = false ∧
  beqb Inception Deactivation = false ∧ beqb Inception Rotation = false.
Proof. repeat split; vm_compute; reflexivity. Qed.

Lemma statuses_distinct :
  beqb StatusActive StatusDeactivated = false ∧ beqb StatusRotated StatusDeactivated = false ∧
  beqb StatusDeactivated StatusActive = false ∧ beqb StatusRotated StatusActive = false.
Proof. repeat split; vm_compute; reflexivity. Qed.

Lemma checkShape_iff e : checkShape e = Ok tt ↔ ∃ k, shape_ok e k.
Proof.
  unfold checkShape. split.
  - intros H. go_inv. destruct (ke_Keys e) as [|k [|]] eqn:Ek; unfold len in *; simpl in *; try lia.
    go_inv. exists k. unfold key0 in *. rewrite Ek in *. simpl in *. go_inv. simplify_eq/=.
    constructor; try done. unfold PublicKeySize in *. lia.
  - intros [k [Hkt Hk Hl Ho Hts]]. unfold key0. rewrite Hkt, Hk. simpl.
    unfold len. rewrite Hl. simpl. rewrite Ho. apply Z.eqb_neq in Hts. by rewrite Hts.
Qed.

Lemma shape_key0 e k : shape_ok e k → key0 e = Ok k.
Proof. intros [_ Hk _ _ _]. unfold key0. by rewrite Hk. Qed.

Lemma shape_inj e k k' : shape_ok e k → shape_ok e k' → k = k'.
Proof. intros [_ H _ _ _] [_ H' _ _ _]. congruence. Qed.

Lemma ed25519_Verify_32 k m sig :
  length k = 32%nat → ed25519_Verify k m sig = Ok (ed25519_verify k m sig).
Proof. intros Hk. unfold ed25519_Verify, len. by rewrite Hk. Qed.

Lemma checkSigned_iff se k id :
  shape_ok (se_Event se) k → checkSigned se = Ok id ↔ signed_ok se k ∧ id = se_EventID se.
Proof.
  intros Hs. pose proof (shape_key0 _ _ Hs) as Hk0. pose proof (shape_key_length _ _ Hs) as Hk.
  unfold checkSigned, preimage, Marshal. split.
  - intros H. go_inv. rewrite Hk0 in *. go_inv.
    match goal with V : ed25519_Verify _ _ _ = _ |- _ =>
      rewrite ed25519_Verify_32 in V by done end.
    go_inv. subst. split; [|done]. eexists. constructor; [done..| |done].
    unfold len, SignatureSize in *. lia.
  - intros [[pre [Hp Hid Hl Hv]] ->]. rewrite Hp. simpl. rewrite Hid. simpl.
    rewrite beqb_refl, Hk0. unfold len. rewrite Hl. simpl.
    rewrite ed25519_Verify_32, Hv by done. done.
Qed.

Lemma len_zero_nil {A} (l : list A) : (len l =? 0) = true ↔ l = [].
Proof. rewrite Z.eqb_eq. apply len_nil. Qed.

Lemma checkInception_iff e : checkInception e = Ok tt ↔ ∃ k t, icp_ok e k t.
Proof.
  unfold checkInception, toad_of. split.
  - destruct (ke_Toad e) as [t|] eqn:Ht; intros H; go_inv.
    destruct (proj1 (checkShape_iff e)) as [k Hk]; [by destruct x|].
    match goal with T : ke_Toad e = Some ?t |- _ => exists k, t end. constructor; try done.
    + unfold len, Sha256Size in *. lia.
    + repeat match goal with H : negb (?t =? ?c) && _ = false |- _ => destruct (Z.eqb_spec t c) end;
        [by left..|]. simpl in *. go_inv. by right.
    + by apply len_nil.
  - intros (k & t & [H1 H2 H3 H4 H5 H6 H7 H8 H9 H10]).
    rewrite H1, H2, H3, H4, H7, H9, H10. rewrite !beqb_refl. simpl.
    rewrite (proj2 (checkShape_iff e)) by eauto. simpl. unfold len. rewrite H6. simpl.
    by destruct H8 as [-> | ->].
Qed.

Lemma checkRotation_iff e prior : checkRotation e prior = Ok tt ↔ ∃ w, rot_ok e prior w.
Proof.
  unfold checkRotation, toad_of. split.
  - destruct (ke_Toad e) as [t|] eqn:Ht; intros H; go_inv.
    assert (length (ke_NextDigest e) = 32%nat) by (unfold len, Sha256Size in *; lia).
    destruct (ks_Toad prior =? ToadHub) eqn:Et.
    + go_inv. exists []. constructor; [done|congruence|]. unfold witness_ok. rewrite Et. simpl.
      split; [by apply len_nil | done].
    + destruct (ke_Witnesses e) as [|w [|]] eqn:Ew; [done| |done]. go_inv.
      exists w. constructor; [done|congruence|]. unfold witness_ok.
      rewrite Ew. by rewrite (proj2 (Z.eqb_neq _ _) Et).
  - intros [w [Hn Ht Hw]]. rewrite Ht. unfold len at 1. rewrite Hn. simpl. rewrite Z.eqb_refl. simpl.
    unfold witness_ok in Hw. destruct (ks_Toad prior =? ToadHub).
    + by destruct Hw as [-> _].
    + destruct Hw as (-> & -> & Hne%beqb_false). simpl. by rewrite Hne.
Qed.

Lemma checkDeactivation_iff e : checkDeactivation e = Ok tt ↔ dip_ok e.
Proof.
  unfold checkDeactivation. split.
  - intros H. go_inv. constructor; [by apply len_nil..| |done]. by destruct (ke_Toad e).
  - intros [-> -> -> ->]. done.
Qed.

(** [rot] and [dip] differ from [icp] and from each other. *)
Ltac by_type H := rewrite H; pose proof types_distinct; destruct_and!;
  repeat match goal with E : beqb _ _ = false |- _ => rewrite E end; rewrite ?beqb_refl; simpl.

Lemma checkSuccessor_iff se prior sts e :
  ks_LastEventID prior = se_EventID se →
  (beqb (ks_Status prior) StatusDeactivated = beqb (ke_Type (se_Event se)) Deactivation) →
  checkSuccessor (loop_st se prior sts) e = Ok tt ∧ ke_KELType e = KELType ↔
  ∃ k, succ_ok prior se e k ∧
       (ke_Type e = Rotation ∧ (∃ w, rot_ok e prior w) ∨ ke_Type e = Deactivation ∧ dip_ok e).
Proof.
  intros Hid Hst. unfold checkSuccessor, loop_st, nextDigest. simpl. rewrite Hid, Hst. split.
  - intros [H Hv]. go_inv. destruct (proj1 (checkShape_iff e)) as [k Hk]; [by destruct x|].
    rewrite (shape_key0 _ _ Hk) in *. go_inv.
    match goal with A : ke_Type (se_Event se) ≠ Deactivation |- _ =>
      rewrite (proj2 (beqb_false _ _) A) in * end.
    eexists. split; [by constructor|].
    destruct (beqb (ke_Type e) Rotation) eqn:Er; simpl in *; go_inv.
    + left. split; [done|]. apply checkRotation_iff. by destruct x0.
    + right. split; [done|]. apply checkDeactivation_iff. by destruct x0.
  - intros (k & [Hv Ha Hs Hp Hal Hsh Hts Hc] & Ht). split; [|done].
    rewrite Ha, Hs, Hp, !beqb_refl, Z.eqb_refl. simpl.
    apply beqb_false in Hal. rewrite Hal.
    rewrite (proj2 (checkShape_iff e)), (shape_key0 _ _ Hsh) by eauto. simpl.
    rewrite (proj2 (Z.leb_gt _ _)) by done. rewrite Hc, beqb_refl.
    destruct Ht as [[Ht Hw]|[Ht Hd]].
    + by_type Ht. by rewrite (proj2 (checkRotation_iff e prior)).
    + by_type Ht. by rewrite (proj2 (checkDeactivation_iff e)).
Qed.

(** ** The loop *)

Lemma nextState_icp prior e k t id :
  icp_ok e k t → nextState prior e id = Ok (icp_state id k t, ke_NextDigest e).
Proof.
  intros [Ht _ _ _ Hs _ Htd _ _ _]. unfold nextState, toad_of. by_type Ht. rewrite Htd. simpl.
  unfold icp_state. by rewrite (shape_key _ _ Hs).
Qed.

Lemma nextState_rot prior e k w id :
  ke_Type e = Rotation → shape_ok e k → rot_ok e prior w →
  nextState prior e id = Ok (rot_state prior e id k w, ke_NextDigest e).
Proof.
  intros Ht Hs [_ _ Hw]. unfold nextState. by_type Ht. unfold rot_state.
  rewrite (shape_key _ _ Hs). unfold witness_ok in Hw.
  destruct (ks_Toad prior =? ToadHub); [by destruct Hw as [-> ->] | by destruct Hw as [-> _]].
Qed.

Lemma nextState_dip prior e id :
  ke_Type e = Deactivation → nextState prior e id = Ok (dip_state prior e id, []).
Proof. intros Ht. unfold nextState. by_type Ht. done. Qed.

(** One iteration on the first event, and on an event after [se]. *)
Lemma replay_step_first st se :
  replay_step 0 replay_init se = Ok st ↔
  ∃ k t, ke_KELType (se_Event se) = KELType ∧ icp_ok (se_Event se) k t ∧ signed_ok se k ∧
         st = loop_st se (icp_state (se_EventID se) k t) [icp_state (se_EventID se) k t].
Proof.
  unfold replay_step. split.
  - intros H. go_inv. destruct (proj1 (checkInception_iff (se_Event se))) as (k & t & Hi);
      [by destruct x|].
    match goal with S : checkSigned _ = _ |- _ =>
      apply (checkSigned_iff se k) in S as [Hs ->]; [|apply Hi] end.
    match goal with N : nextState _ _ _ = _ |- _ => rewrite (nextState_icp _ _ k t) in N by done end.
    go_inv. exists k, t. split_and!; [done..|]. unfold loop_st. rewrite (icp_type _ _ _ Hi).
    by destruct types_distinct as (_ & _ & _ & _ & -> & _).
  - intros (k & t & Hv & Hi & Hs & ->). rewrite Hv, beqb_refl. simpl.
    rewrite (proj2 (checkInception_iff _)) by eauto. simpl.
    rewrite (proj2 (checkSigned_iff se k _ (icp_shape _ _ _ Hi))) by done. simpl.
    rewrite (nextState_icp _ _ k t) by done. simpl. unfold loop_st. rewrite (icp_type _ _ _ Hi).
    by destruct types_distinct as (_ & _ & _ & _ & -> & _).
Qed.

(** The state a rotation or a deactivation [se'] adds after [prior]. *)
Definition step_state (prior : KeyState) (se' : SignedEvent) (s : KeyState) : Prop :=
  ∃ k, shape_ok (se_Event se') k ∧
    (ke_Type (se_Event se') = Rotation ∧
       (∃ w, rot_ok (se_Event se') prior w ∧
             s = rot_state prior (se_Event se') (se_EventID se') k w) ∨
     ke_Type (se_Event se') = Deactivation ∧ dip_ok (se_Event se') ∧
       s = dip_state prior (se_Event se') (se_EventID se')).

Lemma replay_step_next i se prior sts se' st :
  ks_LastEventID prior = se_EventID se →
  beqb (ks_Status prior) StatusDeactivated = beqb (ke_Type (se_Event se)) Deactivation →
  replay_step (S i) (loop_st se prior sts) se' = Ok st ↔
  ∃ k s, succ_ok prior se (se_Event se') k ∧ signed_ok se' k ∧ step_state prior se' s ∧
         st = loop_st se' s (sts ++ [s]).
Proof.
  intros Hid Hst. unfold replay_step. split.
  - intros H. go_inv.
    destruct (proj1 (checkSuccessor_iff se prior sts (se_Event se') Hid Hst))
      as (k & Hsu & Ht); [by destruct x|].
    pose proof (succ_shape _ _ _ _ Hsu) as Hsh.
    match goal with S : checkSigned _ = _ |- _ =>
      apply (checkSigned_iff se' k) in S as [Hs ->]; [|done] end.
    destruct Ht as [[Ht [w Hw]]|[Ht Hd]].
    + match goal with N : nextState _ _ _ = _ |- _ => rewrite (nextState_rot _ _ k w) in N by done end.
      go_inv. eexists k, _. split_and!; [done..| |].
      * exists k. split; [done|]. left. eauto.
      * unfold loop_st. by_type Ht. done.
    + match goal with N : nextState _ _ _ = _ |- _ => rewrite nextState_dip in N by done end.
      go_inv. eexists k, _. split_and!; [done..| |].
      * exists k. split; [done|]. right. eauto.
      * unfold loop_st. by_type Ht. done.
  - intros (k & s & Hsu & Hs & (k' & Hsh & Ht) & ->).
    pose proof (succ_shape _ _ _ _ Hsu) as Hsh'. pose proof (shape_inj _ _ _ Hsh Hsh') as ->.
    rewrite (succ_type _ _ _ _ Hsu), beqb_refl. simpl.
    destruct (proj2 (checkSuccessor_iff se prior sts (se_Event se') Hid Hst)) as [Hc _].
    { exists k. split; [done|]. destruct Ht as [[? (w & ? & _)]|(? & ? & _)]; eauto. }
    rewrite Hc. simpl. rewrite (proj2 (checkSigned_iff se' k _ Hsh)) by done. simpl.
    destruct Ht as [[Ht (w & Hw & ->)]|(Ht & Hd & ->)].
    + rewrite (nextState_rot _ _ k w) by done. simpl. unfold loop_st. by_type Ht. done.
    + rewrite nextState_dip by done. simpl. unfold loop_st. by_type Ht. done.
Qed.

Lemma replay_loop_app i st a b :
  replay_loop i st (a ++ b) = (st' ← replay_loop i st a; replay_loop (i + length a) st' b).
Proof.
  revert i st. induction a as [|se a IH]; intros i st; simpl; [by rewrite Nat.add_0_r|].
  destruct (replay_step i st se) as [st'|]; simpl; [|done]. rewrite IH.
  by rewrite Nat.add_succ_r.
Qed.

Lemma last_snoc_inv {A} (l : list A) x y : last (l ++ [x]) = Some y → y = x.
Proof. rewrite last_snoc. by intros [= ->]. Qed.

(** What the last event of a log says about its last state. *)
Lemma kel_ok_last kel sts :
  kel_ok kel sts →
  ∃ se s, last kel = Some se ∧ last sts = Some s ∧ length sts = length kel ∧
    ks_LastEventID s = se_EventID se ∧
    beqb (ks_Status s) StatusDeactivated = beqb (ke_Type (se_Event se)) Deactivation.
Proof.
  pose proof types_distinct as T. destruct_and! T. pose proof statuses_distinct as S. destruct_and! S.
  induction 1 as [se k t Hv Hi Hs | kel sts se prior se' k w Hk IH Hl Hp Ht Hsu Hr Hs
                 | kel sts se prior se' k Hk IH Hl Hp Ht Hsu Hd Hs].
  - eexists _, _. split_and!; [done..|]. simpl. rewrite (icp_type _ _ _ Hi). congruence.
  - destruct IH as (_ & _ & _ & _ & Hlen & _). eexists _, _. rewrite !last_snoc, !length_app, Hlen.
    split_and!; [done..|]. simpl. rewrite Ht. congruence.
  - destruct IH as (_ & _ & _ & _ & Hlen & _). eexists _, _. rewrite !last_snoc, !length_app, Hlen.
    split_and!; [done..|]. simpl. by rewrite Ht, !beqb_refl.
Qed.

Lemma kel_ok_nil sts : ¬ kel_ok [] sts.
Proof. intros H. destruct (kel_ok_last _ _ H) as (? & ? & ? & _). done. Qed.

Lemma kel_ok_singleton se sts :
  kel_ok [se] sts ↔
  ∃ k t, ke_KELType (se_Event se) = KELType ∧ icp_ok (se_Event se) k t ∧ signed_ok se k ∧
         sts = [icp_state (se_EventID se) k t].
Proof.
  split.
  - inversion 1 as [? k t | kel ? ? ? ? ? ? Hk Hl | kel ? ? ? ? ? Hk Hl]; subst; [by eauto 10|..];
      destruct kel as [|? [|]]; simplify_eq/=; by destruct (kel_ok_nil _ Hk).
  - intros (k & t & ? & ? & ? & ->). by constructor.
Qed.

Lemma kel_ok_snoc kel se' sts' :
  kel ≠ [] →
  kel_ok (kel ++ [se']) sts' ↔
  ∃ sts se prior k s, kel_ok kel sts ∧ last kel = Some se ∧ last sts = Some prior ∧
    succ_ok prior se (se_Event se') k ∧ signed_ok se' k ∧ step_state prior se' s ∧
    sts' = sts ++ [s].
Proof.
  intros Hne. split.
  - inversion 1 as [se k t Hv Hi Hs E | kel0 sts se prior se0 k w Hk Hl Hp Ht Hsu Hr Hs E
                   | kel0 sts se prior se0 k Hk Hl Hp Ht Hsu Hd Hs E]; subst.
    + destruct kel as [|? [|]]; simplify_eq/=.
    + apply app_inj_tail in E as [-> ->]. eexists _, _, _, k, _. split_and!; [done..| |done].
      exists k. split; [apply Hsu|]. eauto 10.
    + apply app_inj_tail in E as [-> ->]. eexists _, _, _, k, _. split_and!; [done..| |done].
      exists k. split; [apply Hsu|]. eauto 10.
  - intros (sts & se & prior & k & s & Hk & Hl & Hp & Hsu & Hs & (k' & Hsh & Ht) & ->).
    pose proof (shape_inj _ _ _ Hsh (succ_shape _ _ _ _ Hsu)) as ->.
    destruct Ht as [[Ht (w & Hw & ->)]|(Ht & Hd & ->)]; [by eapply kel_rot | by eapply kel_dip].
Qed.

Lemma replay_loop_iff kel st :
  kel ≠ [] →
  replay_loop 0 replay_init kel = Ok st ↔
  ∃ sts se s, kel_ok kel sts ∧ last kel = Some se ∧ last sts = Some s ∧ st = loop_st se s sts.
Proof.
  revert st. induction kel as [|se' kel IH] using rev_ind; intros st Hne; [done|].
  rewrite replay_loop_app. destruct (decide (kel = [])) as [->|Hk].
  - simpl. rewrite bind_Ok. split.
    + intros (st' & Hf & [= ->]). apply replay_step_first in Hf as (k & t & Hv & Hi & Hs & ->).
      eexists _, _, _. split_and!; [apply kel_ok_singleton; by eauto 10|done..].
    + intros (sts & se & s & Hk & [= ->] & Hs & ->).
      apply kel_ok_singleton in Hk as (k & t & Hv & Hi & Hsg & ->). injection Hs as <-.
      eexists. split; [|done]. apply replay_step_first. eauto 10.
  - assert (∃ n, (0 + length kel)%nat = S n) as [n Hn].
    { destruct kel; [done|]. simpl. eauto. }
    rewrite Hn. cbn [replay_loop]. rewrite bind_Ok. split.
    + intros (st' & H' & Hb). apply bind_Ok in Hb as (st2 & Hb & [= ->]).
      apply IH in H' as (sts & se & prior & Hok & Hl & Hp & ->); [|done].
      destruct (kel_ok_last _ _ Hok) as (? & ? & ? & ? & _ & Hid & Hd). simplify_eq.
      apply replay_step_next in Hb as (k & s & Hsu & Hs & Hst & ->); [|done..].
      eexists _, _, _. split_and!; [|by rewrite last_snoc..|done].
      apply kel_ok_snoc; [done|]. eauto 20.
    + intros (sts' & se & s & Hok & Hl & Hp & ->).
      apply kel_ok_snoc in Hok as (sts & se0 & prior & k & s' & Hok & Hl' & Hp' & Hsu & Hs & Hst & ->);
        [|done].
      apply last_snoc_inv in Hl, Hp. subst.
      destruct (kel_ok_last _ _ Hok) as (? & ? & ? & ? & _ & Hid & Hd). simplify_eq.
      exists (loop_st se0 prior sts). split; [apply IH; [done|]; by eauto 10|].
      rewrite bind_Ok. eexists. split; [|done].
      apply replay_step_next; [done..|]. eauto 10.
Qed.
End KelSpec.
