(* ===== verification/KelFacts.v ===== *)
(** * KelFacts: what replay, extension and verification guarantee *)

From S2P Require Import Prelude Platform Aid Kel KelReference KelSpec.

(** ** The states of a log, position by position *)

(** The key state of event [se] of a log whose inception has id [aid], [i] events in, when the event
    after it (if any) is [next]. *)
Record describes (aid : bytes) (i : nat) (se : SignedEvent) (next : option SignedEvent)
  (s : KeyState) : Prop := {
  d_aid : ks_AID s = aid;
  d_seq : ks_KeyStateSeq s = u64 (Z.of_nat i);
  d_event : ks_LastEventID s = se_EventID se;
  d_keys : ks_CurrentKeys s = if beqb (ke_Type (se_Event se)) Deactivation then []
                              else ke_Keys (se_Event se);
  d_status : ks_Status s = if beqb (ke_Type (se_Event se)) Deactivation then StatusDeactivated
                           else match next with Some _ => StatusRotated | None => StatusActive end;
  d_superseded : ks_SupersededAt s =
    match next with Some n => ke_Timestamp (se_Event n) | None => 0 end;
  d_urgent : ks_RetiredUrgently s =
    match next with
    | Some n => beqb (ke_Type (se_Event n)) Deactivation || ke_Emergency (se_Event n)
    | None => false
    end;
}.

Section KelFacts.
Context `{P : Platform} `{CE : Coredet KeyEvent}.

#[local] Arguments markSuperseded : simpl never.

Lemma markSuperseded_cons se se' kel s s' sts :
  markSuperseded (se :: se' :: kel) (s :: s' :: sts) =
  supersede s (se_Event se') :: markSuperseded (se' :: kel) (s' :: sts).
Proof. done. Qed.

Lemma markSuperseded_lookup kel sts i :
  length kel = length sts →
  markSuperseded kel sts !! i =
    (s ← sts !! i;
     Some (match kel !! S i with Some se => supersede s (se_Event se) | None => s end)).
Proof.
  revert sts i. induction kel as [|se kel IH]; intros [|s sts] i Hl; simplify_eq/=.
  - by destruct i.
  - destruct kel as [|se' kel], sts as [|s' sts]; simplify_eq/=; [by destruct i as [|[|]]|].
    rewrite markSuperseded_cons. destruct i as [|i]; [done|]. simpl. rewrite IH; [done|].
    simpl. congruence.
Qed.

Lemma length_markSuperseded kel sts :
  length kel = length sts → length (markSuperseded kel sts) = length sts.
Proof.
  revert sts. induction kel as [|se kel IH]; intros [|s sts] Hl; simplify_eq/=; [done|].
  destruct kel as [|se' kel], sts as [|s' sts]; simplify_eq/=; [done|].
  f_equal. rewrite IH; [done|]. simpl. congruence.
Qed.

Lemma kel_ok_length kel sts : kel_ok kel sts → length sts = length kel.
Proof. intros H. by destruct (kel_ok_last _ _ H) as (? & ? & _ & _ & ? & _). Qed.

Lemma kel_ok_not_nil kel sts : kel_ok kel sts → kel ≠ [].
Proof. intros H ->. by destruct (kel_ok_nil sts). Qed.

(** [replay] in terms of the rules. *)
Lemma replay_spec kel sts :
  replay kel = Ok sts ↔ ∃ raw, kel_ok kel raw ∧ sts = markSuperseded kel raw.
Proof.
  unfold replay. destruct (decide (kel = [])) as [->|Hne].
  - split; [done|]. intros (raw & H & _). by destruct (kel_ok_nil _ H).
  - rewrite refuse_Ok, bind_Ok. split.
    + intros (_ & st & H & [= <-]).
      apply replay_loop_iff in H as (raw & se & s & Hk & _ & _ & ->); [|done]. eauto.
    + intros (raw & Hk & ->). destruct (kel_ok_last _ _ Hk) as (se & s & Hl & Hs & _).
      split; [apply Z.eqb_neq; by rewrite len_nil|].
      exists (loop_st se s raw). split; [|done]. apply replay_loop_iff; eauto 10.
Qed.

Lemma u64_succ n : u64 (u64 n + 1) = u64 (n + 1).
Proof. unfold u64. rewrite Zplus_mod_idemp_l. done. Qed.

(** The states before they are superseded. *)
Lemma kel_ok_describes kel sts i s se se0 :
  kel_ok kel sts → head kel = Some se0 → kel !! i = Some se → sts !! i = Some s →
  describes (se_EventID se0) i se None s.
Proof.
  intros Hk. revert i s se.
  induction Hk as [se1 k t Hv Hi Hs | kel sts se1 prior se' k w Hk IH Hl Hp Ht Hsu Hr Hs
                  | kel sts se1 prior se' k Hk IH Hl Hp Ht Hsu Hd Hs];
    intros i s se Hh Hse Hst.
  - destruct i; simplify_eq/=. pose proof (icp_shape _ _ _ Hi) as Hsh.
    constructor; simpl; rewrite ?(icp_type _ _ _ Hi), ?(shape_key _ _ Hsh); done.
  - pose proof (kel_ok_length _ _ Hk) as Hlen. pose proof (kel_ok_not_nil _ _ Hk) as Hne.
    assert (head kel = Some se0) as Hh' by (by destruct kel).
    destruct (decide (i < length kel)%nat) as [Hi|Hi].
    { rewrite lookup_app_l in Hse by lia. rewrite lookup_app_l in Hst by lia. by apply IH. }
    assert (i = length kel) as ->.
    { apply lookup_lt_Some in Hse. rewrite length_app in Hse. simpl in Hse. lia. }
    rewrite list_lookup_middle in Hse by done. rewrite list_lookup_middle in Hst by lia.
    simplify_eq. pose proof (succ_shape _ _ _ _ Hsu) as Hsh.
    assert (describes (se_EventID se0) (pred (length kel)) se1 None prior) as Hd.
    { apply IH; [done|by rewrite last_lookup in Hl|by rewrite <- Hlen, <- last_lookup]. }
    constructor; simpl; rewrite ?Ht, ?(shape_key _ _ Hsh); try done; [apply Hd|].
    rewrite (succ_seq _ _ _ _ Hsu), (d_seq _ _ _ _ _ Hd), u64_succ. f_equal.
    destruct kel; [done|simpl; lia].
  - pose proof (kel_ok_length _ _ Hk) as Hlen. pose proof (kel_ok_not_nil _ _ Hk) as Hne.
    assert (head kel = Some se0) as Hh' by (by destruct kel).
    destruct (decide (i < length kel)%nat) as [Hi|Hi].
    { rewrite lookup_app_l in Hse by lia. rewrite lookup_app_l in Hst by lia. by apply IH. }
    assert (i = length kel) as ->.
    { apply lookup_lt_Some in Hse. rewrite length_app in Hse. simpl in Hse. lia. }
    rewrite list_lookup_middle in Hse by done. rewrite list_lookup_middle in Hst by lia.
    simplify_eq.
    assert (describes (se_EventID se0) (pred (length kel)) se1 None prior) as Hd'.
    { apply IH; [done|by rewrite last_lookup in Hl|by rewrite <- Hlen, <- last_lookup]. }
    constructor; simpl; rewrite ?Ht; try done; [apply Hd'|].
    rewrite (succ_seq _ _ _ _ Hsu), (d_seq _ _ _ _ _ Hd'), u64_succ. f_equal.
    destruct kel; [done|simpl; lia].
Qed.

Lemma u64_seq i : Z.of_nat i < two64 → u64 (Z.of_nat i) = Z.of_nat i.
Proof. intros H. unfold u64. apply Z.mod_small. lia. Qed.

(** What [replay] returns, by position. *)
Lemma replay_describes kel sts se0 i se :
  replay kel = Ok sts → head kel = Some se0 → kel !! i = Some se →
  ∃ s, sts !! i = Some s ∧ describes (se_EventID se0) i se (kel !! S i) s.
Proof.
  intros (raw & Hk & ->)%replay_spec Hh Hi.
  pose proof (kel_ok_length _ _ Hk) as Hlen.
  destruct (lookup_lt_is_Some_2 raw i) as [s Hs].
  { rewrite Hlen. by eapply lookup_lt_Some. }
  rewrite markSuperseded_lookup by done. rewrite Hs. simpl. eexists. split; [done|].
  pose proof (kel_ok_describes _ _ _ _ _ _ Hk Hh Hi Hs) as [H1 H2 H3 H4 H5 H6 H7].
  destruct (kel !! S i) as [n|]; [|done].
  constructor; simpl; try done. rewrite H5.
  destruct statuses_distinct as (_ & _ & Hd & _).
  destruct (beqb (ke_Type (se_Event se)) Deactivation); [by rewrite Hd|by rewrite beqb_refl].
Qed.

Lemma replay_length kel sts : replay kel = Ok sts → length sts = length kel.
Proof.
  intros (raw & Hk & ->)%replay_spec. pose proof (kel_ok_length _ _ Hk) as Hl.
  by rewrite length_markSuperseded.
Qed.

Lemma replay_head kel sts : replay kel = Ok sts → ∃ se0, head kel = Some se0.
Proof. intros (raw & Hk & ->)%replay_spec. destruct kel; [by apply kel_ok_nil in Hk|by eexists]. Qed.

Lemma replay_last kel sts :
  replay kel = Ok sts → ∃ se s, last kel = Some se ∧ last sts = Some s.
Proof.
  intros H. pose proof (replay_length _ _ H) as Hl. destruct (replay_head _ _ H) as [se0 Hh].
  destruct (last kel) eqn:E; [|apply last_None in E; by subst].
  destruct (last sts) eqn:E'; [by eauto|]. apply last_None in E'. subst. by destruct kel.
Qed.

(** Nothing follows a deactivation, and every event was checked against its predecessor. *)
Lemma kel_ok_link kel sts i a b :
  kel_ok kel sts → kel !! i = Some a → kel !! S i = Some b →
  ∃ prior k, sts !! i = Some prior ∧ succ_ok prior a (se_Event b) k ∧ signed_ok b k ∧
    ks_LastEventID prior = se_EventID a.
Proof.
  induction 1 as [se k t Hv Hi Hs | kel sts se prior se' k w Hk IH Hl Hp Ht Hsu Hr Hs
                 | kel sts se prior se' k Hk IH Hl Hp Ht Hsu Hd Hs]; intros Ha Hb;
    [by destruct i|..].
  all: pose proof (kel_ok_length _ _ Hk) as Hlen;
    destruct (decide (S i < length kel)%nat) as [Hi|Hi];
    [rewrite lookup_app_l in Ha by lia; rewrite lookup_app_l in Hb by lia;
     destruct (IH Ha Hb) as (p & k' & ? & ? & ? & ?); exists p, k';
     rewrite lookup_app_l by lia; done|];
    assert (length kel = S i) as E
      by (apply lookup_lt_Some in Hb; rewrite length_app in Hb; simpl in Hb; lia);
    rewrite lookup_app_l in Ha by lia; rewrite list_lookup_middle in Hb by lia; simplify_eq;
    rewrite last_lookup, E in Hl; simpl in Hl; simplify_eq;
    rewrite last_lookup, Hlen, E in Hp; simpl in Hp;
    exists prior, k; rewrite lookup_app_l by lia; split_and!; try done;
    destruct (kel_ok_last _ _ Hk) as (x & y & Hx & Hy & _ & Hid & _);
    rewrite last_lookup, E in Hx; rewrite last_lookup, Hlen, E in Hy; simpl in Hx, Hy; congruence.
Qed.

Lemma kel_ok_signed kel sts i a :
  kel_ok kel sts → kel !! i = Some a → ∃ k, shape_ok (se_Event a) k ∧ signed_ok a k.
Proof.
  intros Hk Ha. destruct i as [|i].
  - assert (∀ l st, kel_ok l st → l !! 0%nat = Some a → ∃ k, shape_ok (se_Event a) k ∧ signed_ok a k)
      as H; [|by eapply H].
    clear. induction 1 as [se k t Hv Hi Hs | kel sts se prior se' k w Hk IH Hl Hp Ht Hsu Hr Hs
                 | kel sts se prior se' k Hk IH Hl Hp Ht Hsu Hd Hs]; intros Ha.
    + simplify_eq/=. exists k. split; [apply Hi|done].
    + apply IH. destruct kel; [by apply kel_ok_nil in Hk|done].
    + apply IH. destruct kel; [by apply kel_ok_nil in Hk|done].
  - destruct (lookup_lt_is_Some_2 kel i) as [p Hp]; [apply lookup_lt_Some in Ha; lia|].
    destruct (kel_ok_link _ _ _ _ _ Hk Hp Ha) as (? & k & _ & Hsu & Hs & _).
    exists k. split; [apply Hsu|done].
Qed.

(** A non-empty prefix of a log that replays, replays. *)
Lemma kel_ok_prefix a b sts : a ≠ [] → kel_ok (a ++ b) sts → kel_ok a (take (length a) sts).
Proof.
  intros Ha. revert sts. induction b as [|se b IH] using rev_ind; intros sts H.
  - rewrite app_nil_r in H. rewrite <- (kel_ok_length _ _ H). by rewrite firstn_all.
  - rewrite app_assoc in H.
    apply kel_ok_snoc in H as (sts' & ? & ? & ? & s & H & _ & _ & _ & _ & _ & ->);
      [|by destruct a].
    pose proof (kel_ok_length _ _ H) as Hl. rewrite length_app in Hl.
    rewrite take_app_le by lia. by apply IH.
Qed.

Lemma replay_prefix a b sts : a ≠ [] → replay (a ++ b) = Ok sts → ∃ sts', replay a = Ok sts'.
Proof.
  intros Ha (raw & Hk & ->)%replay_spec. eexists. apply replay_spec. eexists. split; [|done].
  by eapply kel_ok_prefix.
Qed.
End KelFacts.
