(* ===== verification/KelProps.v ===== *)
(** * KelProps: the guarantees of a key event log

    The theorems about identity/identity.go and identity/extend.go, each run on the sample logs. *)

From S2P Require Import Prelude Platform Aid Kel KelReference KelSpec KelFacts.

Section Objects.
Context `{P : Platform} `{CE : Coredet KeyEvent}.

(** What it takes for an object to verify, in terms of the events of the log. *)
Record object_ok (kel : list SignedEvent) (aid : bytes) (seq t : Z) (pre sig : bytes)
  (se : SignedEvent) (k : bytes) : Prop := {
  o_replays : is_Ok (replay kel) = true;
  o_aid : se_EventID <$> head kel = Some aid;
  o_event : kel !! Z.to_nat seq = Some se;
  o_alive : ke_Type (se_Event se) ≠ Deactivation;
  o_key : ke_Keys (se_Event se) = [k];
  o_sig : ed25519_verify k pre sig = true;
  o_time : ∀ n, kel !! S (Z.to_nat seq) = Some n → t ≠ 0 ∧ t < ke_Timestamp (se_Event n);
}.

Lemma replay_is_Ok kel : is_Ok (replay kel) = true ↔ ∃ sts, replay kel = Ok sts.
Proof. destruct (replay kel); simpl; split; [eauto|done|done|by intros [? ?]]. Qed.

Lemma replay_event_key kel sts i se :
  replay kel = Ok sts → kel !! i = Some se →
  ∃ k, ke_Keys (se_Event se) = [k] ∧ length k = 32%nat.
Proof.
  intros (raw & Hk & _)%replay_spec Hi. destruct (kel_ok_signed _ _ _ _ Hk Hi) as (k & Hs & _).
  exists k. split; apply Hs.
Qed.

Lemma replay_last_aid kel sts s se0 :
  replay kel = Ok sts → last sts = Some s → head kel = Some se0 → ks_AID s = se_EventID se0.
Proof.
  intros H Hl Hh. pose proof (replay_length _ _ H) as Hn.
  destruct (replay_last _ _ H) as (se & s' & Hk & _).
  rewrite last_lookup in Hk. rewrite last_lookup, Hn in Hl.
  destruct (replay_describes _ _ _ _ _ H Hh Hk) as (s2 & Hs' & Hd). simplify_eq. apply Hd.
Qed.

Lemma key_size (k : bytes) : length k = 32%nat → (len k =? PublicKeySize) = true.
Proof. intros H. apply Z.eqb_eq. by apply (len_length k 32). Qed.

Lemma VerifyObject_spec kel aid seq t pre sig :
  0 <= seq →
  VerifyObject kel aid seq t pre sig = Ok tt ↔ ∃ se k, object_ok kel aid seq t pre sig se k.
Proof.
  intros Hseq. unfold VerifyObject, Replay.
  destruct statuses_distinct as (SA & SB & SC & SD).
  split.
  - intros H. destruct (replay kel) as [sts|] eqn:Hr; [|done]. cbn [map_err mbind result_bind] in H.
    destruct (replay_last _ _ Hr) as (se & fin & Hl & Hf). rewrite Hf in H. cbn [of_option mbind result_bind] in H.
    destruct (replay_head _ _ Hr) as [se0 Hh]. pose proof (replay_length _ _ Hr) as Hn.
    rewrite (replay_last_aid _ _ _ _ Hr Hf Hh) in H.
    apply refuse_Ok in H as [Ha H]. apply negb_beqb_false in Ha.
    apply refuse_Ok in H as [Hb H]. apply Z.leb_gt in Hb. unfold len in Hb.
    destruct (lookup_lt_is_Some_2 kel (Z.to_nat seq)) as [e He]; [lia|].
    destruct (replay_describes _ _ _ _ _ Hr Hh He) as (ks & Hks & [D1 D2 D3 D4 D5 D6 D7]).
    rewrite Hks in H. cbn [of_option mbind result_bind] in H.
    apply refuse_Ok in H as [Hst H]. rewrite D5 in Hst.
    destruct (beqb (ke_Type (se_Event e)) Deactivation) eqn:Hty; [by rewrite beqb_refl in Hst|].
    destruct (replay_event_key _ _ _ _ Hr He) as (k & Hk & Hk32).
    rewrite D4, Hk in H. apply bind_Ok in H as (k' & Hkk & H).
    apply refuse_Ok in Hkk as [_ [= <-]]. rewrite ed25519_Verify_32 in H by done.
    cbn [mbind result_bind] in H. apply refuse_Ok in H as [Hv H]. apply negb_false_iff in Hv.
    exists e, k. constructor; try done.
    + by rewrite Hr.
    + rewrite Hh. simpl. by rewrite Ha.
    + by apply beqb_false.
    + intros n Hnext. rewrite D5, D6, Hnext in H. lazy beta iota in H. rewrite SD in H. by go_inv.
  - intros (e & k & [Hr Ha He Hty Hk Hv Ht]). apply replay_is_Ok in Hr as [sts Hr]. rewrite Hr. cbn [map_err mbind result_bind].
    destruct (replay_last _ _ Hr) as (se & fin & Hl & Hf). rewrite Hf. cbn [of_option mbind result_bind].
    destruct (replay_head _ _ Hr) as [se0 Hh]. pose proof (replay_length _ _ Hr) as Hn.
    rewrite (replay_last_aid _ _ _ _ Hr Hf Hh). rewrite Hh in Ha. simplify_eq/=.
    rewrite beqb_refl. cbn [negb]. pose proof (lookup_lt_Some _ _ _ He) as Hlt.
    rewrite (proj2 (Z.leb_gt _ _)) by (unfold len; lia).
    destruct (replay_describes _ _ _ _ _ Hr Hh He) as (ks & Hks & [D1 D2 D3 D4 D5 D6 D7]).
    apply beqb_false in Hty. rewrite Hty in *.
    rewrite Hks. cbn [of_option mbind result_bind]. rewrite D5, D4, Hk.
    destruct (replay_event_key _ _ _ _ Hr He) as (k' & Hk' & Hk32).
    rewrite Hk in Hk'. injection Hk' as <-.
    rewrite key_size by done. cbn [negb mbind result_bind].
    rewrite ed25519_Verify_32, Hv by done. cbn [negb mbind result_bind].
    destruct (kel !! S (Z.to_nat seq)) as [n|] eqn:Hnext.
    + destruct (Ht n eq_refl) as [Ht0 Htn]. lazy beta iota. rewrite SB, SD, D6.
      apply Z.eqb_neq in Ht0. rewrite Ht0. by rewrite (proj2 (Z.leb_gt _ _)).
    + lazy beta iota. rewrite SA. by rewrite beqb_refl.
Qed.

(** An object that verifies under a log verifies under its prefixes that have its key state. *)
Lemma object_ok_prefix a b aid seq t pre sig se k :
  0 <= seq < len a → object_ok (a ++ b) aid seq t pre sig se k → object_ok a aid seq t pre sig se k.
Proof.
  intros Hs [[sts Hr]%replay_is_Ok Ha He Hty Hk Hv Ht]. unfold len in Hs.
  assert (a ≠ []) as Hne by (intros ->; simpl in Hs; lia).
  constructor; try done.
  - apply replay_is_Ok. by eapply replay_prefix.
  - by destruct a.
  - by rewrite lookup_app_l in He by lia.
  - intros n Hn. apply Ht. by apply lookup_app_l_Some.
Qed.
End Objects.

(** ** Panics *)

Section Panics.
Context `{P : Platform} `{CE : Coredet KeyEvent}.

Lemma Marshal_Panic {A} `{Coredet A} (a : A) : Marshal a ≠ Err Panic.
Proof. unfold Marshal. by destruct (marshal a). Qed.

Lemma Sum_Panic pre : Sum pre ≠ Err Panic.
Proof. unfold Sum. by destruct (mh_Sum pre). Qed.

Lemma checkShape_Panic e : checkShape e ≠ Err Panic.
Proof.
unfold checkShape, key0. destruct (ke_Keys e) as [|k [|]]; simpl; repeat case_goal; done.
Qed.

Lemma checkInception_Panic e : checkInception e ≠ Err Panic.
Proof.
unfold checkInception, toad_of. do 3 (case_goal; [done|]).
apply bind_Panic; [apply checkShape_Panic|intros _ _]. destruct (ke_Toad e); simpl; repeat case_goal; done.
Qed.

Lemma checkSuccessor_Panic st e : checkSuccessor st e ≠ Err Panic.
Proof.
unfold checkSuccessor. do 5 (case_goal; [done|]).
apply bind_Panic; [apply checkShape_Panic|intros [] Hs].
apply checkShape_iff in Hs as [k Hs]. case_goal; [done|].
apply bind_Panic; [|intros _ _; rewrite (shape_key0 _ _ Hs); simpl; by case_goal].
unfold checkRotation, checkDeactivation, toad_of.
destruct (ke_Toad e); simpl; repeat case_goal; done.
Qed.

Lemma checkSigned_Panic se k : shape_ok (se_Event se) k → checkSigned se ≠ Err Panic.
Proof.
intros Hs. unfold checkSigned. apply bind_Panic; [apply Marshal_Panic|intros pre _].
apply bind_Panic; [apply Sum_Panic|intros id _]. do 2 (case_goal; [done|]).
rewrite (shape_key0 _ _ Hs). simpl. rewrite ed25519_Verify_32 by apply Hs. simpl.
by repeat case_goal.
Qed.

Lemma checkSuccessor_shape st e : checkSuccessor st e = Ok tt → ∃ k, shape_ok e k.
Proof.
unfold checkSuccessor. intros H. do 5 apply refuse_Ok in H as [_ H].
apply bind_Ok in H as ([] & H & _). by apply checkShape_iff.
Qed.

Lemma replay_step_Panic i st se : replay_step i st se ≠ Err Panic.
Proof.
unfold replay_step. case_goal; [done|]. destruct i as [|i].
- apply bind_Panic; [apply checkInception_Panic|intros [] Hi].
  apply checkInception_iff in Hi as (k & t & Hi).
  apply bind_Panic; [eapply checkSigned_Panic, Hi|intros id _].
  by rewrite (nextState_icp _ _ _ _ _ Hi).
- apply bind_Panic; [apply checkSuccessor_Panic|intros [] Hi].
  pose proof (checkSuccessor_shape _ _ Hi) as [k Hs].
  apply bind_Panic; [by eapply checkSigned_Panic|intros id _].
  unfold checkSuccessor in Hi. do 5 apply refuse_Ok in Hi as [? Hi].
  unfold nextState. destruct (beqb (ke_Type (se_Event se)) Inception) eqn:E.
  { apply beqb_true in E. rewrite E in *. done. }
  by repeat case_goal.
Qed.

Lemma replay_loop_Panic kel : ∀ i st, replay_loop i st kel ≠ Err Panic.
Proof.
induction kel as [|se kel IH]; intros i st; [done|]. simpl.
apply bind_Panic; [apply replay_step_Panic|intros; apply IH].
Qed.

(** The errors of [VerifyObject] are typed. *)
Lemma VerifyObject_errors kel aid seq t pre sig e :
VerifyObject kel aid seq t pre sig = Err e → e = Panic ∨ ∃ r d, e = Typed r d.
Proof.
unfold VerifyObject, ed25519_Verify, VErr. intros H.
repeat first [apply bind_Err in H as [H|(? & _ & H)]
| match type of H with
  | context [match ?x with _ => _ end] => destruct x; simplify_eq/=; eauto
  | of_option ?o _ = _ => destruct o; simplify_eq/=; eauto
  | map_err _ ?o = _ => destruct o; simplify_eq/=; eauto
  end].
Qed.

Lemma VerifyObject_Panic kel aid seq t pre sig :
0 <= seq → VerifyObject kel aid seq t pre sig ≠ Err Panic.
Proof.
intros Hseq. unfold VerifyObject, Replay. destruct (replay kel) as [sts|] eqn:Hr; [|done].
cbn [map_err mbind result_bind].
destruct (replay_last _ _ Hr) as (se & fin & _ & ->). cbn [of_option mbind result_bind].
case_goal; [done|]. destruct (len sts <=? seq) eqn:Hb; [done|]. apply Z.leb_gt in Hb. unfold len in Hb.
destruct (lookup_lt_is_Some_2 sts (Z.to_nat seq)) as [ks ->]; [lia|].
cbn [of_option mbind result_bind]. case_goal; [done|].
apply bind_Panic; [by repeat case_goal|intros k Hk].
assert (len k = PublicKeySize) as Hl.
{ destruct (ks_CurrentKeys ks) as [|? [|]]; [done| |done]. by go_inv. }
apply (len_length k 32) in Hl. rewrite ed25519_Verify_32 by done. cbn [mbind result_bind].
by repeat case_goal.
Qed.
End Panics.

(** ** Two logs *)

#[export] Instance KeyEvent_eq_dec : EqDecision KeyEvent.
Proof. solve_decision. Defined.

(** Two lists are prefixes one of the other, or part at a first position. *)
Lemma first_difference {A} `{EqDecision A} (l k : list A) :
l `prefix_of` k ∨ k `prefix_of` l ∨
∃ i x y, take i l = take i k ∧ l !! i = Some x ∧ k !! i = Some y ∧ x ≠ y.
Proof.
revert k. induction l as [|a l IH]; intros [|b k].
- left. done.
- left. apply prefix_nil.
- right. left. apply prefix_nil.
- destruct (decide (a = b)) as [->|Hab].
+ destruct (IH k) as [H|[H|(i & x & y & Ht & Hx & Hy & Hn)]].
  * left. by apply prefix_cons.
  * right. left. by apply prefix_cons.
  * right. right. exists (S i), x, y. simpl. by rewrite Ht.
+ right. right. exists 0%nat, a, b. done.
Qed.

Definition events (kel : list SignedEvent) : list KeyEvent := map se_Event kel.

Section Forks.
Context `{P : Platform} `{CE : Coredet KeyEvent}.

Lemma events_lookup kel i e : events kel !! i = Some e ↔ ∃ se, kel !! i = Some se ∧ se_Event se = e.
Proof.
unfold events. rewrite list_lookup_fmap. destruct (kel !! i); simpl; split;
[intros [= <-]; by eauto|intros (? & [= ->] & <-); done|done|by intros (? & ? & _)].
Qed.

(** Key 6 of the last event, for a log that can go on. *)
Lemma kel_ok_committed kel sts se :
kel_ok kel sts → last kel = Some se → ke_Type (se_Event se) ≠ Deactivation →
committedNextDigest kel = ke_NextDigest (se_Event se).
Proof.
pose proof types_distinct as T. destruct_and! T.
unfold committedNextDigest.
destruct 1 as [se0 k t Hv Hi Hs | kel sts se0 prior se' k w Hk Hl Hp Ht Hsu Hr Hs
            | kel sts se0 prior se' k Hk Hl Hp Ht Hsu Hd Hs]; intros E Hnd.
- injection E as ->. simpl. by rewrite (icp_type _ _ _ Hi), beqb_refl.
- apply last_snoc_inv in E as ->. rewrite rev_app_distr. simpl.
by rewrite Ht, beqb_refl, orb_true_r.
- apply last_snoc_inv in E as ->. done.
Qed.

(** Where two logs part after a common event, both reveal a key that event committed. *)
Lemma fork_key k1 k2 s1 s2 i a1 a2 b1 b2 :
  kel_ok k1 s1 → kel_ok k2 s2 → k1 !! i = Some a1 → k2 !! i = Some a2 →
  se_Event a1 = se_Event a2 → k1 !! S i = Some b1 → k2 !! S i = Some b2 →
  ∃ x y, ke_Keys (se_Event b1) = [x] ∧ ke_Keys (se_Event b2) = [y] ∧ signed_ok b1 x ∧ signed_ok b2 y ∧
    sha256 x = committedNextDigest (take (S i) k1) ∧ sha256 y = committedNextDigest (take (S i) k1).
Proof.
  intros H1 H2 Ha1 Ha2 He Hb1 Hb2.
  destruct (kel_ok_link _ _ _ _ _ H1 Ha1 Hb1) as (p1 & x & _ & Hs1 & Hg1 & _).
  destruct (kel_ok_link _ _ _ _ _ H2 Ha2 Hb2) as (p2 & y & _ & Hs2 & Hg2 & _).
  exists x, y. split_and!; [apply Hs1|apply Hs2|done..| |];
    rewrite ?(succ_committed _ _ _ _ Hs1), ?(succ_committed _ _ _ _ Hs2), <- ?He; symmetry;
    (eapply kel_ok_committed; [| |apply Hs1]).
  all: try by rewrite (take_S_r _ _ _ Ha1), last_snoc.
  all: rewrite <- (take_drop (S i) k1) in H1; eapply kel_ok_prefix; [|exact H1];
    intros E; apply (f_equal length) in E; apply lookup_lt_Some in Ha1;
    rewrite length_take in E; cbn [length] in E; lia.
Qed.

Lemma replay_inception_id kel sts se0 :
replay kel = Ok sts → head kel = Some se0 → ks_AID <$> last sts = Some (se_EventID se0).
Proof.
intros H Hh. destruct (replay_last _ _ H) as (_ & s & _ & Hs). rewrite Hs. simpl. f_equal.
by eapply replay_last_aid.
Qed.
End Forks.

Section Extension.
Context `{P : Platform} `{CE : Coredet KeyEvent}.

(** No position at which the logs hold different events. *)
Definition agree (old next : list SignedEvent) : Prop :=
∀ i x y, events old !! i = Some x → events next !! i = Some y → x = y.

Definition encodes (se : SignedEvent) : Prop := is_Some (marshal (se_Event se)).

Lemma agree_prefix old next :
agree old next → (length old <= length next)%nat → events old `prefix_of` events next.
Proof.
intros Hg Hl. destruct (first_difference (events old) (events next))
as [H|[H|(i & x & y & _ & Hx & Hy & Hn)]]; [done| |by destruct Hn; eapply Hg].
apply prefix_length_eq in H; [by rewrite H|]. unfold events. by rewrite !length_map.
Qed.

Lemma prefix_agree old next :
events old `prefix_of` events next ∨ events next `prefix_of` events old → agree old next.
Proof.
intros [[k E]|[k E]] i x y Hx Hy; rewrite E in *.
- rewrite (lookup_app_l_Some _ _ _ _ Hx) in Hy. congruence.
- rewrite (lookup_app_l_Some _ _ _ _ Hy) in Hx. congruence.
Qed.

Lemma replay_encodes kel sts : replay kel = Ok sts → Forall encodes kel.
Proof.
intros (raw & Hk & _)%replay_spec. apply Forall_lookup. intros i se Hi.
destruct (kel_ok_signed _ _ _ _ Hk Hi) as (k & _ & pre & Hs). exists pre. apply Hs.
Qed.
Context {CI : CoredetInj KeyEvent}.

Lemma same_event_id e1 e2 :
  se_EventID e1 = se_EventID e2 → ∀ k1 k2, signed_ok e1 k1 → signed_ok e2 k2 →
  se_Event e1 = se_Event e2 ∨
  ∃ p1 p2, marshal (se_Event e1) = Some p1 ∧ marshal (se_Event e2) = Some p2 ∧ p1 ≠ p2 ∧ Sum p1 = Sum p2.
Proof using CI.
  intros Hid k1 k2 [p1 [Hm1 Hs1 _ _]] [p2 [Hm2 Hs2 _ _]].
  destruct (decide (p1 = p2)) as [->|Hne]; [left; by eapply marshal_inj|].
  right. exists p1, p2. by rewrite Hs1, Hs2, Hid.
Qed.
Lemma compareEvents_spec old next :
Forall encodes old → Forall encodes next →
compareEvents old next = Ok tt ∧ agree old next ∨
compareEvents old next = Err (Wrap "event differs" ErrKELFork) ∧ ¬ agree old next.
Proof using CI.
intros Ho. revert next. induction Ho as [|o old [a Ha] Ho IH]; intros [|n next] Hn;
try (left; split; [done|]; by intros i x y).
apply Forall_cons in Hn as [[b Hb] Hn]. simpl. unfold preimage, Marshal. rewrite Ha, Hb. simpl.
destruct (beqb a b) eqn:E.
- apply beqb_true in E as ->. pose proof (marshal_inj _ _ _ Ha Hb) as He. simpl.
destruct (IH next Hn) as [[Hc Hg]|[Hc Hg]]; rewrite Hc; [left|right]; (split; [done|]).
+ intros [|i] x y; simpl; [congruence|]. apply Hg.
+ intros H. apply Hg. intros i x y. apply (H (S i)).
- right. split; [done|]. intros H. specialize (H 0%nat _ _ eq_refl eq_refl).
rewrite <- H in Hb. apply beqb_false in E. congruence.
Qed.

End Extension.
