(* ===== verification/KelTheorems.v ===== *)
(** * KelTheorems: the properties of key event logs

    What identity/identity.go and identity/extend.go promise about replay, object verification and
    extension, with each property applied to the sample logs of [KelReference]. *)

From S2P Require Import Prelude Platform Aid Kel KelReference KelSpec KelFacts KelProps.
Import Light.

Section Theorems.
Context `{P : Platform} `{CE : Coredet KeyEvent}.

(** C1: [replay] implements the KEL v2 rules.  It accepts exactly the logs of the relation [kel_ok]
    (an [icp] followed by [rot] and [dip] events, each linked to, ordered after, committed by and
    permitted after its predecessor, named by its own CID and signed by the key it reveals) and
    returns the states the rules give, each marked superseded by the event after it. *)
Theorem replay_implements_rules kel sts :
  replay kel = Ok sts ↔ ∃ raw, kel_ok kel raw ∧ sts = markSuperseded kel raw.
Proof. apply replay_spec. Qed.

(** The key states of a log, position by position.  There is one state per event; state [i] has
    the AID of the inception, sequence number [i] (as a uint64), the event's keys (none after a
    [dip]), and its status and retirement time are those the next event gives it. *)
Theorem replay_states kel sts se0 :
  replay kel = Ok sts → head kel = Some se0 →
  length sts = length kel ∧
  ∀ i se, kel !! i = Some se →
    ∃ s, sts !! i = Some s ∧ describes (se_EventID se0) i se (kel !! S i) s.
Proof.
  intros H Hh. split; [by apply replay_length|]. intros i se Hi. by eapply replay_describes.
Qed.

(** No input makes [replay] or [VerifyObject] panic: every index, nil dereference and key length
    they rely on is checked first. *)
Theorem replay_and_verify_never_panic kel aid seq t pre sig :
  replay kel ≠ Err Panic ∧ (is_u64 seq → VerifyObject kel aid seq t pre sig ≠ Err Panic).
Proof.
  split; [|intros [Hs _]; by apply VerifyObject_Panic].
  unfold replay. case_goal; [done|]. apply bind_Panic; [apply replay_loop_Panic|done].
Qed.

(** C4: [VerifyObject] accepts an object exactly when the log replays, the signer is its inception's
    id, the declared sequence number is in the log and its event is no [dip], the signature
    verifies under that event's one key, and either no event follows or the object's time is set
    and before the next event. *)
Theorem verify_object_accepts kel aid seq t pre sig :
  is_u64 seq →
  VerifyObject kel aid seq t pre sig = Ok tt ↔ ∃ se k, object_ok kel aid seq t pre sig se k.
Proof. intros [H _]. by apply VerifyObject_spec. Qed.

(** Extending a log only ever takes acceptance away: what verifies under the longer log at a
    sequence number the shorter one has, verified under the shorter one. *)
Theorem verify_object_monotone a b aid seq t pre sig :
  0 <= seq < len a → VerifyObject (a ++ b) aid seq t pre sig = Ok tt →
  VerifyObject a aid seq t pre sig = Ok tt.
Proof.
  intros Hs H. apply VerifyObject_spec in H as (se & k & H); [|lia].
  apply VerifyObject_spec; [lia|]. exists se, k. by eapply object_ok_prefix.
Qed.

(** C12: pre-rotation.  Two logs of one AID are prefixes one of the other, or they first part at a
    position after the inception where both reveal, and are signed by, a key with the digest the
    common part committed to: only the holder of such a key can fork an identity.  The one alternative
    is that the two inceptions encode to different bytes with one CID. *)
Theorem fork_needs_committed_key (CI : CoredetInj KeyEvent) k1 k2 s1 s2 :
  replay k1 = Ok s1 → replay k2 = Ok s2 → ks_AID <$> last s1 = ks_AID <$> last s2 →
  events k1 `prefix_of` events k2 ∨ events k2 `prefix_of` events k1 ∨
  (∃ e1 e2 p1 p2, head k1 = Some e1 ∧ head k2 = Some e2 ∧ marshal (se_Event e1) = Some p1 ∧
     marshal (se_Event e2) = Some p2 ∧ p1 ≠ p2 ∧ Sum p1 = Sum p2) ∨
  ∃ i b1 b2 x y, take (S i) (events k1) = take (S i) (events k2) ∧
    k1 !! S i = Some b1 ∧ k2 !! S i = Some b2 ∧ se_Event b1 ≠ se_Event b2 ∧
    ke_Keys (se_Event b1) = [x] ∧ ke_Keys (se_Event b2) = [y] ∧ signed_ok b1 x ∧ signed_ok b2 y ∧
    sha256 x = committedNextDigest (take (S i) k1) ∧ sha256 y = committedNextDigest (take (S i) k1).
Proof.
  intros H1 H2 Haid.
  destruct (first_difference (events k1) (events k2)) as [?|[?|(i & x & y & Ht & Hx & Hy & Hn)]];
    [by auto..|]. right. right.
  apply events_lookup in Hx as (b1 & Hx & <-), Hy as (b2 & Hy & <-).
  pose proof (proj1 (replay_spec _ _) H1) as (r1 & Hk1 & _).
  pose proof (proj1 (replay_spec _ _) H2) as (r2 & Hk2 & _). destruct i as [|i].
  - rewrite <- head_lookup in Hx, Hy.
    rewrite (replay_inception_id _ _ _ H1 Hx), (replay_inception_id _ _ _ H2 Hy) in Haid.
    injection Haid as Haid. rewrite head_lookup in Hx, Hy.
    destruct (kel_ok_signed _ _ _ _ Hk1 Hx) as (? & _ & ?).
    destruct (kel_ok_signed _ _ _ _ Hk2 Hy) as (? & _ & ?).
    left. rewrite head_lookup. rewrite <- head_lookup in Hx, Hy.
    edestruct (same_event_id b1 b2 Haid) as [E|(p1 & p2 & ?)]; [done..|by destruct Hn|].
    rewrite head_lookup in Hx, Hy. exists b1, b2, p1, p2. by rewrite head_lookup.
  - destruct (lookup_lt_is_Some_2 k1 i) as [a1 Ha1]; [apply lookup_lt_Some in Hx; lia|].
    destruct (lookup_lt_is_Some_2 k2 i) as [a2 Ha2]; [apply lookup_lt_Some in Hy; lia|].
    assert (se_Event a1 = se_Event a2) as He.
    { apply (f_equal (lookup i)) in Ht. rewrite !lookup_take_lt in Ht by lia.
      unfold events in Ht. rewrite !list_lookup_fmap, Ha1, Ha2 in Ht. by injection Ht. }
    destruct (fork_key _ _ _ _ _ _ _ _ _ Hk1 Hk2 Ha1 Ha2 He Hx Hy) as (u & v & ?).
    right. by exists i, b1, b2, u, v.
Qed.

(** [ExtendsKEL] on two logs that replay: it accepts exactly when the stored events are a
    prefix of the candidate's; it reports a rollback exactly when the candidate is a strict prefix
    of the stored log, and a fork exactly when the two differ at a common position. *)
Theorem extends_kel_decides (CI : CoredetInj KeyEvent) old next so sn :
  replay old = Ok so → replay next = Ok sn →
  (ExtendsKEL old next = Ok tt ↔ events old `prefix_of` events next) ∧
  (ExtendsKEL old next = Err (Wrap "candidate has fewer events" ErrKELRollback) ↔
     events next `prefix_of` events old ∧ (length next < length old)%nat) ∧
  (ExtendsKEL old next = Err (Wrap "event differs" ErrKELFork) ↔ ¬ agree old next).
Proof.
  intros Ho Hn. unfold ExtendsKEL, Replay. rewrite Hn. cbn [map_err mbind result_bind].
  pose proof (prefix_agree old next) as Hp.
  pose proof (agree_prefix old next) as Hon. pose proof (agree_prefix next old) as Hno.
  assert (agree old next → agree next old) as Hsym
    by (intros Hg i x y ? ?; symmetry; by eapply Hg).
  assert (∀ a b, events a `prefix_of` events b → (length a <= length b)%nat) as Hle.
  { intros a b H%prefix_length. unfold events in H. by rewrite !length_map in H. }
  destruct (compareEvents_spec old next) as [[-> Hg]|[-> Hg]];
    [by eapply replay_encodes..| |]; cbn [mbind result_bind].
  - destruct (len next <? len old) eqn:E; unfold len in E; go_inv.
    + assert (events next `prefix_of` events old) as Hpre by (apply Hno; [auto|lia]).
      split_and!; split; try done; [intros Hx%Hle; lia|intros _; split; [done|lia]].
    + split_and!; split; try done; [intros _; apply Hon; [done|lia]|intros [_ ?]; lia].
  - split_and!; split; try done; [intros H|intros [H _]]; destruct Hg; auto.
Qed.
End Theorems.

(** ** The properties at the sample logs *)

Definition ok_or {A} (d : A) (r : result A) : A := match r with Ok a => a | Err _ => d end.
Definition sample_states : list KeyState := ok_or [] (replay sample_kel).
Definition dead_states : list KeyState := ok_or [] (replay sample_dead).

Lemma sample_kel_ok : replay sample_kel = Ok sample_states.
Proof. vm_cast_no_check (eq_refl (replay sample_kel)). Qed.
Lemma sample_dead_ok : replay sample_dead = Ok dead_states.
Proof. vm_cast_no_check (eq_refl (replay sample_dead)). Qed.

Definition sample_aid : bytes := se_EventID sample_icp.
Definition sample_msg : bytes := str "an object".

Lemma replay_states_witness : length sample_states = 3%nat.
Proof. exact (proj1 (replay_states sample_kel sample_states sample_icp sample_kel_ok eq_refl)). Defined.

(** An object signed under the rotation at sequence number 1, before it was superseded. *)
Lemma verify_object_accepts_witness :
∃ se k, object_ok sample_kel sample_aid 1 1760000150000 sample_msg
          (ed25519_sign (sample_key 2) sample_msg) se k.
Proof.
apply verify_object_accepts; [vm_compute; split; congruence|]. vm_compute. reflexivity.
Defined.

Lemma verify_object_monotone_witness :
VerifyObject [sample_icp; sample_rot] sample_aid 1 1760000150000 sample_msg
  (ed25519_sign (sample_key 2) sample_msg) = Ok tt.
Proof.
apply (verify_object_monotone [sample_icp; sample_rot] [sample_emergency]); [vm_compute; split; congruence|].
vm_compute. reflexivity.
Defined.

(** The emergency rotation and the deactivation both reveal key 3. *)
Lemma fork_needs_committed_key_witness :
  events sample_kel `prefix_of` events sample_dead ∨ events sample_dead `prefix_of` events sample_kel ∨
  (∃ e1 e2 p1 p2, head sample_kel = Some e1 ∧ head sample_dead = Some e2 ∧ marshal (se_Event e1) = Some p1 ∧
     marshal (se_Event e2) = Some p2 ∧ p1 ≠ p2 ∧ Sum p1 = Sum p2) ∨
  ∃ i b1 b2 x y, take (S i) (events sample_kel) = take (S i) (events sample_dead) ∧
    sample_kel !! S i = Some b1 ∧ sample_dead !! S i = Some b2 ∧ se_Event b1 ≠ se_Event b2 ∧
    ke_Keys (se_Event b1) = [x] ∧ ke_Keys (se_Event b2) = [y] ∧ signed_ok b1 x ∧ signed_ok b2 y ∧
    sha256 x = committedNextDigest (take (S i) sample_kel) ∧
    sha256 y = committedNextDigest (take (S i) sample_kel).
Proof.
  apply (fork_needs_committed_key event_coredet_inj _ _ _ _ sample_kel_ok sample_dead_ok).
  vm_compute. reflexivity.
Defined.

Lemma extends_kel_decides_witness :
ExtendsKEL sample_kel sample_dead = Err (Wrap "event differs" ErrKELFork) ↔
¬ agree sample_kel sample_dead.
Proof.
apply (extends_kel_decides event_coredet_inj _ _ _ _ sample_kel_ok sample_dead_ok).
Defined.
