(* ===== verification/Controller.v ===== *)
(** * Controller: the signing side of an identity (identity/controller.go, signer.go)

    The [Controller] struct as a record, each transition as a function from the controller to a new
    one and its result; a transition that returns an error leaves the controller as it was. *)

From S2P Require Import Prelude Platform Aid Kel.

(** ** Data *)

Definition StateOK : bytes := str "ok".
Definition StateStopped : bytes := str "stopped".
Definition StateDeactivated : bytes := str "deactivated".

Definition PendingWitness : bytes := str "witness".
Definition PendingRot : bytes := str "rot".
Definition PendingDip : bytes := str "dip".

Definition ErrRecoveryMismatch : error :=
  Errf "identity: the revealed key is not the key the KEL committed".
Definition ErrEventPending : error :=
  Errf "identity: another key event is still being published".
Definition ErrNothingPending : error := Errf "identity: no key event is being published".
Definition ErrDiscardRefused : error :=
  Errf "identity: only a witness designation the hub refused for good can be discarded".
Definition errState : error := Errf "identity: the identity is not ok".

Record WitnessPush := mkWitnessPush {
  wp_HubAID : bytes;
  wp_HubURL : bytes;
  wp_AckedSeq : Z;
  wp_NextTry : Z;
}.

Record pending := mkPending {
  p_kind : bytes;
  p_revealed : bytes;
  p_next : bytes;
  p_hubURL : bytes;
  p_emergency : bool;
  p_since : Z;
  p_event : option SignedEvent;
}.

Record Controller := mkController {
  c_aid : bytes;
  c_kel : list SignedEvent;
  c_cur : option bytes;
  c_hot : option bytes;
  c_pending : option pending;
  c_push : list WitnessPush;
  c_state : bytes;
  c_localCommit : option bytes;
}.

Definition set_pending (c : Controller) (p : option pending) : Controller :=
  mkController (c_aid c) (c_kel c) (c_cur c) (c_hot c) p (c_push c) (c_state c) (c_localCommit c).
Definition with_event (p : pending) (ev : option SignedEvent) : pending :=
  mkPending (p_kind p) (p_revealed p) (p_next p) (p_hubURL p) (p_emergency p) (p_since p) ev.

Definition isSome {A} (o : option A) : bool := bool_decide (is_Some o).

(** [c.kel[len(c.kel)-1]] and [states[len(states)-1]]. *)
Definition lastOf {A} (l : list A) : result A := of_option (last l) Panic.

Section Controller.
Context `{P : Platform} `{CE : Coredet KeyEvent} `{CS : Coredet SignedEvent}.

(** [inceptWith]: keys from [ed25519.GenerateKey] are arguments. *)
Definition inceptWith (k0 k1 : bytes) (ts toad : Z) : result Controller :=
  let icp := mkKeyEvent KELType [] 0 [] Inception [ed25519_public k0]
               (nextDigest (ed25519_public k1)) 1 ts [] (Some toad) false in
  pre ← preimage icp;
  aid ← Sum pre;
  let kel := [mkSignedEvent icp (ed25519_sign k0 pre) aid] in
  _ ← replay kel;
  Ok (mkController aid kel (Some k0) (Some k1) None [] StateOK None).

Definition incept (k0 k1 : bytes) (ts toad : Z) : result Controller :=
  refuse (ts =? 0) with Errf "identity: an icp needs a time (ts > 0)";
  inceptWith k0 k1 ts toad.

(** ** Readers *)

Definition builtEvent (c : Controller) : option SignedEvent :=
  match c_pending c with Some p => p_event p | None => None end.

(** [kelLocked]: the accepted events and the event being published. *)
Definition KEL (c : Controller) : list SignedEvent :=
  c_kel c ++ match builtEvent c with Some ev => [ev] | None => [] end.

Definition signingLocked (c : Controller) : result (option bytes * Z) :=
  match c_pending c with
  | Some (mkPending _ revealed _ _ _ _ (Some ev)) => Ok (Some revealed, ke_Seq (se_Event ev))
  | _ => last ← lastOf (c_kel c); Ok (c_cur c, ke_Seq (se_Event last))
  end.

Definition Sign (c : Controller) (objPreimage : bytes) : result (bytes * Z) :=
  '(key, seq) ← signingLocked c;
  match key with
  | None => Ok ([], seq)
  | Some key => Ok (ed25519_sign key objPreimage, seq)
  end.

(** The immutable signer of signer.go. *)
Record snapshot := mkSnapshot {
  sn_aid : bytes;
  sn_seq : Z;
  sn_kel : list SignedEvent;
  sn_key : option bytes;
}.

Definition Snapshot (c : Controller) : result snapshot :=
  '(key, seq) ← signingLocked c;
  Ok (mkSnapshot (c_aid c) seq (KEL c) key).

Definition snapshot_Sign (s : snapshot) (preimage : bytes) : bytes * Z :=
  match sn_key s with
  | None => ([], sn_seq s)
  | Some key => (ed25519_sign key preimage, sn_seq s)
  end.

(** [SeqOf] on a signer with this KEL. *)
Definition SeqOf (kel : list SignedEvent) : result Z :=
  refuse (len kel =? 0) with Errf "identity: the signer has no KEL";
  last ← lastOf kel;
  Ok (ke_Seq (se_Event last)).

Definition toadLocked (c : Controller) : result Z :=
  first ← of_option (head (c_kel c)) Panic;
  Ok (match ke_Toad (se_Event first) with Some t => t | None => ToadHub end).

(** ** Transitions *)

Definition canBuildLocked (c : Controller) : result unit :=
  refuse negb (beqb (c_state c) StateOK) with errState;
  last ← lastOf (c_kel c);
  refuse beqb (ke_Type (se_Event last)) Deactivation with Errf "identity: the AID is deactivated";
  refuse isSome (c_pending c) with ErrEventPending;
  Ok tt.

Definition revealedLocked (c : Controller) (revealed : option bytes) : result bytes :=
  match revealed with
  | None =>
      match c_hot c with
      | Some hot =>
          refuse negb (len (c_kel c) =? 1)
            with Errf "identity: no hot key to reveal; pass the key the recovery seed derives";
          Ok hot
      | None => Err (Errf "identity: no hot key to reveal; pass the key the recovery seed derives")
      end
  | Some revealed =>
      refuse negb (len revealed =? PrivateKeySize)
        with Errf "identity: the revealed key is not an Ed25519 private key";
      refuse negb (beqb (nextDigest (ed25519_public revealed)) (committedNextDigest (c_kel c)))
        with ErrRecoveryMismatch;
      Ok revealed
  end.

(** The event the material [p] makes on the accepted log. *)
Definition pendingEvent (c : Controller) (p : pending) (witness : bytes) (ts toad : Z)
  (last : SignedEvent) : KeyEvent :=
  let dip := beqb (p_kind p) PendingDip in
  mkKeyEvent KELType (c_aid c) (u64 (ke_Seq (se_Event last) + 1)) (se_EventID last)
    (if dip then Deactivation else Rotation) [ed25519_public (p_revealed p)]
    (if dip then [] else p_next p) 1 ts
    (if dip then [] else if beqb witness [] then [] else [witness])
    (if dip then None else Some toad)
    (if dip then false else p_emergency p).

Definition buildEvent (c : Controller) (p : pending) (witness : bytes) (ts : Z)
  : result SignedEvent :=
  last ← lastOf (c_kel c);
  toad ← toadLocked c;
  let e := pendingEvent c p witness ts toad last in
  pre ← preimage e;
  id ← Sum pre;
  let ev := mkSignedEvent e (ed25519_sign (p_revealed p) pre) id in
  _ ← replay (c_kel c ++ [ev]);
  Ok ev.

Definition buildLocked (c : Controller) (p : pending) (witness : bytes) (ts : Z)
  : result (Controller * SignedEvent) :=
  refuse negb (beqb (p_kind p) PendingDip) && negb (len (p_next p) =? Sha256Size)
    with Errf "identity: the next-key digest is not 32 bytes";
  ev ← buildEvent c p witness ts;
  Ok (set_pending c (Some (with_event p (Some ev))), ev).

Definition BuildWitnessDesignation (c : Controller) (witness next : bytes) (ts : Z)
  : result (Controller * SignedEvent) :=
  _ ← canBuildLocked c;
  toad ← toadLocked c;
  refuse negb (toad =? ToadAgent)
    with Errf "identity: only an agent identity (toad 1) designates a witness";
  refuse negb (len (c_kel c) =? 1) with Errf "identity: the witness is already designated";
  match c_hot c with
  | None => Err (Errf "identity: the hot key the icp committed is not held")
  | Some hot =>
      refuse negb (ValidAID witness)
        with Errf "identity: a witness designation needs the witness hub's AID";
      buildLocked c (mkPending PendingWitness hot next [] false ts None) witness ts
  end.

Definition BuildRotation (c : Controller) (revealed : option bytes) (next witness : bytes)
  (emergency : bool) (ts : Z) : result (Controller * SignedEvent) :=
  _ ← canBuildLocked c;
  toad ← toadLocked c;
  refuse negb (isSome revealed) && (toad =? ToadAgent)
    with Errf "identity: an agent reveals the hot key only by designating its witness";
  key ← revealedLocked c revealed;
  refuse (toad =? ToadHub) && negb (beqb witness [])
    with Errf "identity: a hub identity (toad 0) names no witness";
  buildLocked c (mkPending PendingRot key next [] emergency ts None) witness ts.

Definition BuildDeactivation (c : Controller) (revealed : option bytes) (ts : Z)
  : result (Controller * SignedEvent) :=
  _ ← canBuildLocked c;
  key ← revealedLocked c revealed;
  buildLocked c (mkPending PendingDip key [] [] false ts None) [] ts.

(** The witness [Restamp] builds the pending event with. *)
Definition restampWitness (c : Controller) (p : pending) : result bytes :=
  toad ← toadLocked c;
  match p_event p with
  | Some ev => Ok (match ke_Witnesses (se_Event ev) with [w] => w | _ => [] end)
  | None =>
      if negb (beqb (p_kind p) PendingDip) && (toad =? ToadAgent) then
        states ← replay (c_kel c);
        tip ← lastOf states;
        Ok (ks_Witness tip)
      else Ok []
  end.

Definition Restamp (c : Controller) (ts : Z) : result (Controller * SignedEvent) :=
  p ← of_option (c_pending c) ErrNothingPending;
  refuse negb (beqb (c_state c) StateOK) with errState;
  witness ← restampWitness c p;
  ev ← buildEvent c p witness ts;
  Ok (set_pending c (Some (with_event p (Some ev))), ev).

Definition Adopt (c : Controller) (ev : SignedEvent) : result Controller :=
  p ← of_option (c_pending c) ErrNothingPending;
  built ← of_option (p_event p) ErrNothingPending;
  got ← Marshal ev;
  want ← Marshal built;
  refuse negb (beqb got want) with Errf "identity: the event to adopt is not the pending event";
  Ok (mkController (c_aid c) (c_kel c ++ [built]) (Some (p_revealed p)) None None (c_push c)
        (c_state c) (c_localCommit c)).

Definition DiscardPending (c : Controller) : result Controller :=
  p ← of_option (c_pending c) ErrNothingPending;
  last ← lastOf (c_kel c);
  refuse negb (beqb (p_kind p) PendingWitness) || negb (isSome (p_event p)) ||
         negb (isSome (c_hot c)) || negb (len (c_kel c) =? 1) ||
         match p_event p with
         | Some ev => negb (ke_Seq (se_Event ev) =? u64 (ke_Seq (se_Event last) + 1)) ||
                      negb (beqb (ke_Prev (se_Event ev)) (se_EventID last))
         | None => true
         end
    with ErrDiscardRefused;
  Ok (set_pending c None).

Definition SetPendingHubURL (c : Controller) (hubURL : bytes) : result Controller :=
  p ← of_option (c_pending c) ErrNothingPending;
  Ok (set_pending c (Some (mkPending (p_kind p) (p_revealed p) (p_next p) hubURL (p_emergency p)
                             (p_since p) (p_event p)))).

Definition validState (state : bytes) : bool :=
  beqb state StateOK || beqb state StateStopped || beqb state StateDeactivated.

Definition SetState (c : Controller) (state : bytes) : result Controller :=
  refuse negb (validState state) with Errf "identity: state";
  Ok (mkController (c_aid c) (c_kel c) (c_cur c) (c_hot c) (c_pending c) (c_push c) state
        (c_localCommit c)).

Definition SetLocalCommit (c : Controller) (digest : bytes) : result Controller :=
  refuse negb (len digest =? Sha256Size) with Errf "identity: local_commit is a 32-byte digest";
  Ok (mkController (c_aid c) (c_kel c) (c_cur c) (c_hot c) (c_pending c) (c_push c) (c_state c)
        (Some digest)).

Definition SetWitnessesToPush (c : Controller) (list : list WitnessPush) : result Controller :=
  refuse existsb (λ w, beqb (wp_HubAID w) []) list
    with Errf "identity: a witness to push needs its AID";
  Ok (mkController (c_aid c) (c_kel c) (c_cur c) (c_hot c) (c_pending c) list (c_state c)
        (c_localCommit c)).
End Controller.
