(* ===== verification/ControllerInv.v ===== *)
(** * ControllerInv: what every reachable controller satisfies

    [ctl_ok] is the invariant of a controller, [op] its operations and [step] one call; the
    lemmas here show that [inceptWith] establishes the invariant and every call keeps it. *)

From S2P Require Import Prelude Platform Aid Kel KelReference KelSpec KelFacts KelProps Controller.

(** ** Calls *)

Inductive op :=
  | OpWitness (witness next : bytes) (ts : Z)
  | OpRotate (revealed : option bytes) (next witness : bytes) (emergency : bool) (ts : Z)
  | OpDeactivate (revealed : option bytes) (ts : Z)
  | OpRestamp (ts : Z)
  | OpAdopt (ev : SignedEvent)
  | OpDiscard
  | OpHubURL (url : bytes)
  | OpState (state : bytes)
  | OpLocalCommit (digest : bytes)
  | OpPush (list : list WitnessPush).

Section Inv.
Context `{P : Platform} `{CE : Coredet KeyEvent} `{CS : Coredet SignedEvent}.

Definition exec (c : Controller) (o : op) : result Controller :=
  match o with
  | OpWitness w n ts => fst <$> BuildWitnessDesignation c w n ts
  | OpRotate r n w em ts => fst <$> BuildRotation c r n w em ts
  | OpDeactivate r ts => fst <$> BuildDeactivation c r ts
  | OpRestamp ts => fst <$> Restamp c ts
  | OpAdopt ev => Adopt c ev
  | OpDiscard => DiscardPending c
  | OpHubURL u => SetPendingHubURL c u
  | OpState s => SetState c s
  | OpLocalCommit d => SetLocalCommit c d
  | OpPush l => SetWitnessesToPush c l
  end.

(** A call that fails changes nothing. *)
Definition step (c : Controller) (o : op) : Controller :=
  match exec c o with Ok c' => c' | Err _ => c end.
Definition run (c : Controller) (ops : list op) : Controller := fold_left step ops c.

(** The keys a caller hands in are private keys made from a seed. *)
Definition op_ok (o : op) : Prop :=
  match o with
  | OpRotate (Some k) _ _ _ _ | OpDeactivate (Some k) _ => key_ok k
  | _ => True
  end.

(** ** The invariant *)

Definition designated (ev : SignedEvent) : bytes :=
  match ke_Witnesses (se_Event ev) with [w] => w | _ => [] end.

(** The material of an event, before and after the event is built. *)
Record material_ok (c : Controller) (p : pending) : Prop := {
  pk_key : key_ok (p_revealed p);
  pk_committed : sha256 (ed25519_public (p_revealed p)) = committedNextDigest (c_kel c);
  pk_alive : ∀ se, last (c_kel c) = Some se → ke_Type (se_Event se) ≠ Deactivation;
  pk_kind : p_kind p = PendingWitness ∨ p_kind p = PendingRot ∨ p_kind p = PendingDip;
  pk_witness : p_kind p = PendingWitness →
    toadLocked c = Ok ToadAgent ∧ length (c_kel c) = 1%nat ∧ p_emergency p = false;
  pk_dip : p_kind p = PendingDip → p_next p = [] ∧ p_emergency p = false;
  pk_next : p_kind p ≠ PendingDip → length (p_next p) = 32%nat;
}.

Record pending_ok (c : Controller) (p : pending) : Prop := {
  pk_material : material_ok c p;
  pk_built : p_kind p = PendingWitness → is_Some (p_event p);
  pk_event ev : p_event p = Some ev →
    buildEvent c p (designated ev) (ke_Timestamp (se_Event ev)) = Ok ev;
}.

Record ctl_ok (c : Controller) : Prop := {
  ck_replays : is_Ok (replay (c_kel c)) = true;
  ck_aid : se_EventID <$> head (c_kel c) = Some (c_aid c);
  ck_cur : match c_cur c with
           | Some k => key_ok k ∧
               ∃ se, last (c_kel c) = Some se ∧ ke_Keys (se_Event se) = [ed25519_public k]
           | None => is_Some (c_pending c)
           end;
  ck_hot k : c_hot c = Some k →
    key_ok k ∧ ∃ se, c_kel c = [se] ∧ sha256 (ed25519_public k) = ke_NextDigest (se_Event se);
  ck_pending p : c_pending c = Some p → pending_ok c p;
  ck_state : validState (c_state c) = true;
  ck_push : existsb (λ w, beqb (wp_HubAID w) []) (c_push c) = false;
  ck_commit d : c_localCommit c = Some d → length d = 32%nat;
}.

(** ** Building events *)

Lemma buildEvent_set_pending c q p w ts : buildEvent (set_pending c q) p w ts = buildEvent c p w ts.
Proof. done. Qed.

Lemma buildEvent_with_event c p e w ts : buildEvent c (with_event p e) w ts = buildEvent c p w ts.
Proof. done. Qed.

(** What [buildEvent] guarantees. *)
Lemma buildEvent_Ok c p w ts ev :
  buildEvent c p w ts = Ok ev →
  ∃ se toad, last (c_kel c) = Some se ∧ toadLocked c = Ok toad ∧
    se_Event ev = pendingEvent c p w ts toad se ∧
    is_Ok (replay (c_kel c ++ [ev])) = true.
Proof.
  unfold buildEvent, lastOf. intros H. go_inv.
  match goal with R : replay _ = Ok _ |- _ => exists x, x0; simpl; rewrite R end. done.
Qed.

(** The built event gives back the witness and time it was built with. *)
Lemma buildEvent_again c p w ts ev :
  buildEvent c p w ts = Ok ev →
  buildEvent c p (designated ev) (ke_Timestamp (se_Event ev)) = Ok ev.
Proof.
  intros H. destruct (buildEvent_Ok _ _ _ _ _ H) as (se & toad & Hl & Ht & He & _).
  rewrite <- H. unfold designated. rewrite He. unfold buildEvent, lastOf. rewrite Hl, Ht.
  cbn [of_option mbind result_bind].
  replace (pendingEvent c p _ _ toad se) with (pendingEvent c p w ts toad se); [done|].
  unfold pendingEvent. simpl. destruct (beqb (p_kind p) PendingDip); [done|].
  destruct (beqb w []) eqn:E; [|by rewrite E]. by rewrite beqb_refl.
Qed.

Lemma KEL_replays c : ctl_ok c → is_Ok (replay (KEL c)) = true.
Proof.
  intros Hc. unfold KEL, builtEvent. destruct (c_pending c) as [p|] eqn:Hp; [|rewrite app_nil_r; apply Hc].
  destruct (p_event p) as [ev|] eqn:He; [|rewrite app_nil_r; apply Hc].
  pose proof (pk_event _ _ (ck_pending _ Hc _ Hp) _ He) as Hb.
  destruct (buildEvent_Ok _ _ _ _ _ Hb) as (? & ? & _ & _ & _ & ?). done.
Qed.

Lemma buildEvent_last c p w ts ev :
  buildEvent c p w ts = Ok ev →
  ke_Keys (se_Event ev) = [ed25519_public (p_revealed p)] ∧
  ke_Type (se_Event ev) = (if beqb (p_kind p) PendingDip then Deactivation else Rotation).
Proof. intros H. by destruct (buildEvent_Ok _ _ _ _ _ H) as (? & ? & _ & _ & -> & _). Qed.

Lemma buildEvent_commits c p w ts ev :
  buildEvent c p w ts = Ok ev → p_kind p ≠ PendingDip →
  ke_NextDigest (se_Event ev) = p_next p.
Proof.
  intros H Hk%beqb_false. destruct (buildEvent_Ok _ _ _ _ _ H) as (? & ? & _ & _ & -> & _).
  unfold pendingEvent. simpl. by rewrite Hk.
Qed.

(** ** Each call keeps the invariant *)

Lemma set_pending_ok c p :
  ctl_ok c → pending_ok c p → ctl_ok (set_pending c (Some p)).
Proof.
  intros [H1 H2 H3 H4 H5 H6 H7 H8] Hp. constructor; try done.
  - simpl. destruct (c_cur c); [done|eauto].
  - intros p' [= <-]. destruct Hp as [Hm Hb He]. constructor; [by destruct Hm|done..].
Qed.

(** Building, or rebuilding, the event of sound material. *)
Lemma build_ok c p w ts ev :
  ctl_ok c → material_ok c p → buildEvent c p w ts = Ok ev →
  ctl_ok (set_pending c (Some (with_event p (Some ev)))).
Proof.
  intros Hc Hm Hb. apply set_pending_ok; [done|]. constructor.
  - by destruct Hm.
  - simpl. eauto.
  - intros e [= <-]. rewrite buildEvent_with_event. by eapply buildEvent_again.
Qed.

Lemma canBuildLocked_Ok c :
  canBuildLocked c = Ok tt →
  ∃ se, last (c_kel c) = Some se ∧ ke_Type (se_Event se) ≠ Deactivation ∧ c_pending c = None.
Proof.
  unfold canBuildLocked, lastOf, isSome. intros H. go_inv. exists x. split_and!; [done..|].
  by destruct (c_pending c).
Qed.

Lemma revealedLocked_Ok c r k :
  ctl_ok c → revealedLocked c r = Ok k → (∀ k, r = Some k → key_ok k) →
  (∀ se, last (c_kel c) = Some se → ke_Type (se_Event se) ≠ Deactivation) →
  key_ok k ∧ sha256 (ed25519_public k) = committedNextDigest (c_kel c).
Proof.
  intros Hc H Hr Ha. unfold revealedLocked, nextDigest in H. destruct r as [r|].
  - go_inv. split; [by apply Hr|done].
  - destruct (c_hot c) as [hot|] eqn:Hh; [|done]. go_inv.
    match goal with K : c_hot c = Some k |- _ => apply (ck_hot _ Hc) in K as (Hk & se & Hs & He) end.
    split; [done|]. rewrite He, Hs. symmetry.
    destruct (replay (c_kel c)) as [sts|] eqn:Hrep; [|by pose proof (ck_replays _ Hc) as R; rewrite Hrep in R].
    apply replay_spec in Hrep as (raw & Hraw & _). rewrite Hs in Hraw, Ha.
    eapply kel_ok_committed; [done|done|by apply Ha].
Qed.

Lemma last_eq_alive c se :
  last (c_kel c) = Some se → ke_Type (se_Event se) ≠ Deactivation →
  ∀ se', last (c_kel c) = Some se' → ke_Type (se_Event se') ≠ Deactivation.
Proof. intros -> Hd se' [= <-]. done. Qed.

Lemma buildLocked_Ok c p w ts c' ev :
  buildLocked c p w ts = Ok (c', ev) →
  buildEvent c p w ts = Ok ev ∧ c' = set_pending c (Some (with_event p (Some ev))) ∧
  (p_kind p ≠ PendingDip → length (p_next p) = 32%nat).
Proof.
  unfold buildLocked. intros H. go_inv. simplify_eq. split_and!; [done..|].
  intros Hk%beqb_false.
  match goal with E : _ && _ = false |- _ => rewrite Hk in E; simpl in E; go_inv end.
  by apply (len_length (p_next p) 32).
Qed.

Lemma BuildWitness_ok c w n ts c' ev :
  ctl_ok c → BuildWitnessDesignation c w n ts = Ok (c', ev) → ctl_ok c'.
Proof.
  intros Hc H. unfold BuildWitnessDesignation in H. go_inv.
  match goal with U : canBuildLocked c = Ok ?u |- _ => destruct u; apply canBuildLocked_Ok in U as (se & Hl & Hd & Hp) end.
  destruct (c_hot c) as [hot|] eqn:Hh; [|done]. go_inv.
  apply buildLocked_Ok in H as (Hb & -> & Hn). eapply build_ok; [done| |done].
  apply (ck_hot _ Hc) in Hh as Hh'. destruct Hh' as (Hk & se0 & Hs & He).
  assert (revealedLocked c None = Ok hot) as Hr.
  { unfold revealedLocked. rewrite Hh. by rewrite Hs. }
  constructor; simpl.
  - done.
  - by eapply revealedLocked_Ok, last_eq_alive.
  - by eapply last_eq_alive.
  - auto.
  - intros _. subst. split_and!; [congruence|by rewrite Hs|done].
  - done.
  - by apply Hn.
Qed.

Lemma BuildRotation_ok c r n w em ts c' ev :
  ctl_ok c → (∀ k, r = Some k → key_ok k) → BuildRotation c r n w em ts = Ok (c', ev) → ctl_ok c'.
Proof.
  intros Hc Hr H. unfold BuildRotation in H. go_inv.
  match goal with U : canBuildLocked c = Ok ?u |- _ => destruct u; apply canBuildLocked_Ok in U as (se & Hl & Hd & Hp) end.
  apply buildLocked_Ok in H as (Hb & -> & Hn). eapply build_ok; [done| |done].
  match goal with K : revealedLocked _ _ = Ok _ |- _ =>
    apply revealedLocked_Ok in K as [Hk Hc']; [|done|done|by eapply last_eq_alive] end.
  constructor; simpl; try done; [by eapply last_eq_alive|auto].
Qed.

Lemma BuildDeactivation_ok c r ts c' ev :
  ctl_ok c → (∀ k, r = Some k → key_ok k) → BuildDeactivation c r ts = Ok (c', ev) → ctl_ok c'.
Proof.
  intros Hc Hr H. unfold BuildDeactivation in H. go_inv.
  match goal with U : canBuildLocked c = Ok ?u |- _ => destruct u; apply canBuildLocked_Ok in U as (se & Hl & Hd & Hp) end.
  apply buildLocked_Ok in H as (Hb & -> & Hn). eapply build_ok; [done| |done].
  match goal with K : revealedLocked _ _ = Ok _ |- _ =>
    apply revealedLocked_Ok in K as [Hk Hc']; [|done|done|by eapply last_eq_alive] end.
  constructor; simpl; try done; [by eapply last_eq_alive|auto].
Qed.

Lemma Restamp_ok c ts c' ev : ctl_ok c → Restamp c ts = Ok (c', ev) → ctl_ok c'.
Proof.
  intros Hc H. unfold Restamp in H. go_inv. simplify_eq.
  eapply build_ok; [done| |done]. by apply (ck_pending _ Hc).
Qed.

Lemma Adopt_ok c ev c' : ctl_ok c → Adopt c ev = Ok c' → ctl_ok c' ∧ is_Some (c_cur c').
Proof.
  intros Hc H. unfold Adopt in H. go_inv.
  match goal with K : c_pending c = Some ?p, E : p_event ?p = Some ?e |- _ =>
    pose proof (ck_pending _ Hc _ K) as [Hm _ He]; specialize (He _ E) end.
  destruct (buildEvent_Ok _ _ _ _ _ He) as (se & toad & Hl & Ht & _ & Hr).
  destruct (buildEvent_last _ _ _ _ _ He) as [Hk _].
  split; [|by eexists]. destruct Hc. constructor; simpl; try done.
  - by destruct (c_kel c).
  - split; [apply Hm|]. eexists. by rewrite last_snoc.
Qed.

Lemma DiscardPending_ok c c' :
  ctl_ok c → is_Some (c_cur c) → DiscardPending c = Ok c' → ctl_ok c' ∧ is_Some (c_cur c').
Proof.
  intros [] [k Hk] H. unfold DiscardPending in H. go_inv.
  split; [|by eexists]. constructor; try done. simpl. by rewrite Hk in *.
Qed.

Lemma SetPendingHubURL_ok c u c' :
  ctl_ok c → SetPendingHubURL c u = Ok c' → ctl_ok c' ∧ c_cur c' = c_cur c.
Proof.
  intros Hc H. unfold SetPendingHubURL in H. go_inv. split; [|done]. apply set_pending_ok; [done|].
  match goal with K : c_pending c = Some _ |- _ => destruct (ck_pending _ Hc _ K) as [Hm Hb He] end.
  constructor; [by destruct Hm|done|done].
Qed.

Lemma pending_ok_same c c' p :
  c_kel c' = c_kel c → c_aid c' = c_aid c → pending_ok c p → pending_ok c' p.
Proof.
  intros Hk Ha [[] Hb He].
  assert (∀ w ts, buildEvent c' p w ts = buildEvent c p w ts) as E.
  { intros w ts. unfold buildEvent, toadLocked, pendingEvent. by rewrite Hk, Ha. }
  constructor; [|done|intros ev Hev; rewrite E; by apply He].
  constructor; rewrite ?Hk; try done. unfold toadLocked. by rewrite Hk.
Qed.

Lemma exec_ok c o c' :
  ctl_ok c → is_Some (c_cur c) → op_ok o → exec c o = Ok c' → ctl_ok c' ∧ is_Some (c_cur c').
Proof.
  intros Hc Hcur Ho H.
  assert (∀ r : result (Controller * SignedEvent), fst <$> r = Ok c' → ∃ ev, r = Ok (c', ev)) as Hfst.
  { intros [[c2 ev]|] E; simplify_eq/=; eauto. }
  assert (∀ (p : pending) w ts ev, buildLocked c p w ts = Ok (c', ev) → is_Some (c_cur c')) as Hb.
  { intros p w ts ev (_ & -> & _)%buildLocked_Ok. done. }
  destruct o; simpl in H, Ho; try (apply Hfst in H as [ev H]).
  - split; [by eapply BuildWitness_ok|].
    unfold BuildWitnessDesignation in H. go_inv. destruct (c_hot c); [|done]. go_inv. eauto.
  - split; [eapply BuildRotation_ok; [done| |done]; by intros k ->|].
    unfold BuildRotation in H. go_inv. eauto.
  - split; [eapply BuildDeactivation_ok; [done| |done]; by intros k ->|].
    unfold BuildDeactivation in H. go_inv. eauto.
  - split; [by eapply Restamp_ok|]. unfold Restamp in H. go_inv. by simplify_eq.
  - by eapply Adopt_ok.
  - by eapply DiscardPending_ok.
  - apply SetPendingHubURL_ok in H as [? ->]; done.
  - unfold SetState in H. go_inv. split; [|done]. destruct Hc. constructor; try done.
    intros p Hp. apply (pending_ok_same c); eauto.
  - unfold SetLocalCommit in H. go_inv. split; [|done]. destruct Hc. constructor; try done.
    + intros p Hp. apply (pending_ok_same c); eauto.
    + intros d [= <-]. by apply (len_length digest 32).
  - unfold SetWitnessesToPush in H. go_inv. split; [|done]. destruct Hc. constructor; try done.
    intros p Hp. apply (pending_ok_same c); eauto.
Qed.

Lemma step_ok c o :
  ctl_ok c → is_Some (c_cur c) → op_ok o → ctl_ok (step c o) ∧ is_Some (c_cur (step c o)).
Proof.
  intros Hc Hs Ho. unfold step. destruct (exec c o) eqn:E; [by eapply exec_ok|done].
Qed.

Lemma run_ok c ops :
  ctl_ok c → is_Some (c_cur c) → Forall op_ok ops → ctl_ok (run c ops) ∧ is_Some (c_cur (run c ops)).
Proof.
  intros Hc Hs Ho. revert c Hc Hs. induction Ho as [|o ops Ho _ IH]; intros c Hc Hs; [done|].
  apply IH; by apply step_ok.
Qed.

Lemma inceptWith_ok k0 k1 ts toad c :
  key_ok k0 → key_ok k1 → inceptWith k0 k1 ts toad = Ok c → ctl_ok c ∧ is_Some (c_cur c).
Proof.
  intros H0 H1 H. unfold inceptWith in H. go_inv. split; [|done]. constructor; simpl; try done.
  - match goal with R : replay _ = _ |- _ => by rewrite R end.
  - eauto.
  - intros k [= <-]. eauto.
Qed.
End Inv.
