(* ===== verification/ControllerTheorems.v ===== *)
(** * ControllerTheorems: the properties of the signing side *)

From S2P Require Import Prelude Aid Platform Kel KelReference KelSpec KelFacts KelProps Controller ControllerInv.
Import Light.

Section Lemmas.
Context `{P : Platform} `{CE : Coredet KeyEvent} `{CS : Coredet SignedEvent}.

(** An event's sequence number is its index. *)
Lemma kel_ok_event_seq kel sts i se :
  kel_ok kel sts → kel !! i = Some se → ke_Seq (se_Event se) = u64 (Z.of_nat i).
Proof.
  intros Hk Hi. destruct (replay_head kel (markSuperseded kel sts)) as [se0 Hh].
  { apply replay_spec. eauto. }
  destruct i as [|i].
  - assert (∀ l st, kel_ok l st → l !! 0%nat = Some se → ke_Seq (se_Event se) = 0) as H; [|by eapply H].
    clear. induction 1 as [se1 k t Hv Hi Hs | kel sts se1 prior se' k w Hk IH Hl Hp Ht Hsu Hr Hs
                 | kel sts se1 prior se' k Hk IH Hl Hp Ht Hsu Hd Hs]; intros Ha.
    + simplify_eq/=. apply Hi.
    + apply IH. destruct kel; [by apply kel_ok_nil in Hk|done].
    + apply IH. destruct kel; [by apply kel_ok_nil in Hk|done].
  - destruct (lookup_lt_is_Some_2 kel i) as [p Hp]; [apply lookup_lt_Some in Hi; lia|].
    destruct (kel_ok_link _ _ _ _ _ Hk Hp Hi) as (prior & k & Hpr & Hsu & _).
    pose proof (kel_ok_describes _ _ _ _ _ _ Hk Hh Hp Hpr) as Hd.
    rewrite (succ_seq _ _ _ _ Hsu), (d_seq _ _ _ _ _ Hd), u64_succ. f_equal. lia.
Qed.

Lemma replay_seq kel i se :
  is_Ok (replay kel) = true → kel !! i = Some se → Z.of_nat i < two64 →
  ke_Seq (se_Event se) = Z.of_nat i.
Proof.
  intros [sts (raw & Hk & _)%replay_spec]%replay_is_Ok Hi Hlt.
  rewrite (kel_ok_event_seq _ _ _ _ Hk Hi). by apply u64_seq.
Qed.

Lemma KEL_head c : ctl_ok c → se_EventID <$> head (KEL c) = Some (c_aid c).
Proof.
  intros Hc. pose proof (ck_aid _ Hc) as H. unfold KEL. by destruct (c_kel c).
Qed.

Lemma ctl_ok_last c : ctl_ok c → ∃ se, last (c_kel c) = Some se.
Proof.
  intros Hc. destruct (last (c_kel c)) eqn:E; [eauto|]. apply last_None in E.
  pose proof (ck_aid _ Hc) as H. by rewrite E in H.
Qed.

(** The key the controller signs with is the key of the last event of its log. *)
Lemma signing_key c :
  ctl_ok c → is_Some (c_cur c) →
  ∃ key se, signingLocked c = Ok (Some key, ke_Seq (se_Event se)) ∧ key_ok key ∧
    last (KEL c) = Some se ∧ ke_Keys (se_Event se) = [ed25519_public key].
Proof.
  intros Hc [k Hk]. destruct (ctl_ok_last _ Hc) as [se0 Hl].
  pose proof (ck_cur _ Hc) as Hcur. rewrite Hk in Hcur. destruct Hcur as (Hok & se' & Hl' & Hkeys).
  unfold signingLocked, KEL, builtEvent, lastOf. rewrite Hl.
  destruct (c_pending c) as [[kind rev next url em since [ev|]]|] eqn:Hp; simpl;
    [|rewrite app_nil_r, Hk; naive_solver..].
  pose proof (ck_pending _ Hc _ Hp) as [[Hrk _ _ _ _ _ _] _ He].
  exists rev, ev. rewrite last_snoc. split_and!; [done..|].
  by destruct (buildEvent_last _ _ _ _ _ (He _ eq_refl)).
Qed.

Lemma last_index {A} (l : list A) x : last l = Some x → l !! pred (length l) = Some x.
Proof. by rewrite last_lookup. Qed.

Lemma Sign_verifies `{!PlatformLaws P} c se pre :
  ctl_ok c → is_Some (c_cur c) → len (KEL c) <= two64 →
  last (KEL c) = Some se → ke_Type (se_Event se) ≠ Deactivation →
  ∃ sig, Sign c pre = Ok (sig, ke_Seq (se_Event se)) ∧
    ∀ t, VerifyObject (KEL c) (c_aid c) (ke_Seq (se_Event se)) t pre sig = Ok tt.
Proof.
  intros Hc Hcur Hlen Hl Hd. destruct (signing_key _ Hc Hcur) as (key & se' & Hs & Hk & Hl' & Hkeys).
  rewrite Hl in Hl'. injection Hl' as <-. exists (ed25519_sign key pre). unfold Sign. rewrite Hs. split; [done|].
  intros t. pose proof (KEL_replays _ Hc) as Hr. apply last_index in Hl as Hi.
  assert (ke_Seq (se_Event se) = Z.of_nat (pred (length (KEL c)))) as Hseq.
  { apply (replay_seq (KEL c)); [done..|]. unfold len in Hlen. destruct (KEL c); [done|simpl in *; lia]. }
  rewrite Hseq. apply VerifyObject_spec; [lia|]. exists se, (ed25519_public key).
  constructor; rewrite ?Nat2Z.id; try done.
  - by apply KEL_head.
  - by apply ed25519_sign_verify.
  - intros n Hn. apply lookup_lt_Some in Hn. lia.
Qed.

(** What the other components need of a signer: the snapshot [s] of a controller that holds its
    invariant, has a key and has not built its deactivation.  Everything it signs verifies. *)
Record speaks (c : Controller) (s : snapshot) : Prop := {
  sp_ok : ctl_ok c;
  sp_key : is_Some (c_cur c);
  sp_len : len (KEL c) <= two64;
  sp_alive se : last (KEL c) = Some se → ke_Type (se_Event se) ≠ Deactivation;
  sp_snapshot : Snapshot c = Ok s;
}.

Lemma speaks_signs `{!PlatformLaws P} c s pre :
  speaks c s →
  ∃ sig seq, snapshot_Sign s pre = (sig, seq) ∧ sn_aid s = c_aid c ∧ len sig = SignatureSize ∧
    ∀ t, VerifyObject (KEL c) (c_aid c) seq t pre sig = Ok tt.
Proof.
  intros [Hc Hs Hlen Ha Hsn]. destruct (signing_key c Hc Hs) as (key & se & Hk & Hko & Hl & _).
  destruct (Sign_verifies c se pre Hc Hs Hlen Hl (Ha _ Hl)) as (sig & Hsig & Hv).
  unfold Sign in Hsig. rewrite Hk in Hsig. injection Hsig as Hsig.
  unfold Snapshot in Hsn. rewrite Hk in Hsn. injection Hsn as <-.
  eexists _, _. unfold snapshot_Sign. cbn [sn_key sn_seq sn_aid]. split; [reflexivity|].
  rewrite Hsig. split_and!; [done| |exact Hv].
  rewrite <- Hsig. apply (len_length _ 64). by apply ed25519_sign_length.
Qed.

Lemma reachable_speaks k0 k1 ts toad c0 ops s :
  key_ok k0 → key_ok k1 → incept k0 k1 ts toad = Ok c0 → Forall op_ok ops →
  let c := run c0 ops in
  len (KEL c) <= two64 → (∀ se, last (KEL c) = Some se → ke_Type (se_Event se) ≠ Deactivation) →
  Snapshot c = Ok s → speaks c s.
Proof.
  intros H0 H1 H Ho c Hlen Hd Hs. unfold incept in H. go_inv.
  apply inceptWith_ok in H as [Hc0 Hs0]; [|done..].
  destruct (run_ok c0 ops Hc0 Hs0 Ho) as [Hc Hk]. by constructor.
Qed.

(** What a call does to the accepted log. *)
Lemma exec_kel c o c' : exec c o = Ok c' → c_kel c `prefix_of` c_kel c'.
Proof.
  assert (∀ r : result (Controller * SignedEvent), fst <$> r = Ok c' → ∃ ev, r = Ok (c', ev)) as Hfst.
  { intros [[c2 ev]|] E; simplify_eq/=; eauto. }
  assert (∀ (p : pending) w ts ev, buildLocked c p w ts = Ok (c', ev) → c_kel c `prefix_of` c_kel c') as Hb.
  { intros p w ts ev (_ & -> & _)%buildLocked_Ok. done. }
  intros H. destruct o; simpl in H; try (apply Hfst in H as [ev H]).
  - unfold BuildWitnessDesignation in H. go_inv. destruct (c_hot c); [|done]. go_inv. eauto.
  - unfold BuildRotation in H. go_inv. eauto.
  - unfold BuildDeactivation in H. go_inv. eauto.
  - unfold Restamp in H. go_inv. by simplify_eq.
  - unfold Adopt in H. go_inv. by apply prefix_app_r.
  - unfold DiscardPending in H. by go_inv.
  - unfold SetPendingHubURL in H. by go_inv.
  - unfold SetState in H. by go_inv.
  - unfold SetLocalCommit in H. by go_inv.
  - unfold SetWitnessesToPush in H. by go_inv.
Qed.

Lemma run_kel c ops : c_kel c `prefix_of` c_kel (run c ops).
Proof.
  revert c. induction ops as [|o ops IH]; intros c; [done|]. simpl. etrans; [|apply IH].
  unfold step. destruct (exec c o) eqn:E; [by eapply exec_kel|done].
Qed.
End Lemmas.

Section Theorems.
Context `{P : Platform} `{CE : Coredet KeyEvent} `{CS : Coredet SignedEvent}.

(** C5: the invariant of the controller.  From an inception under two real keys, whatever calls are
  made in whatever order, and whichever of them fail, the controller's log (with the event being
  published) replays under the controller's AID, the key it signs with is the one the last event
  reveals, the hot key is the committed one, and a pending event is exactly the event its
  material makes. *)
Theorem controller_invariant k0 k1 ts toad c ops :
key_ok k0 → key_ok k1 → incept k0 k1 ts toad = Ok c → Forall op_ok ops →
let c' := run c ops in
ctl_ok c' ∧ is_Ok (Replay (KEL c')) = true ∧ se_EventID <$> head (KEL c') = Some (c_aid c).
Proof.
intros H0 H1 H Ho c'. unfold incept in H. go_inv.
apply inceptWith_ok in H as [Hc Hs]; [|done..].
destruct (run_ok c ops Hc Hs Ho) as [Hc' _]. split; [done|].
split; [by apply KEL_replays|].
rewrite <- (ck_aid _ Hc). unfold c', KEL. destruct (run_kel c ops) as [k ->].
pose proof (ck_aid _ Hc). by destruct (c_kel c).
Qed.

(** C31: what the controller signs verifies.  [Sign] names the sequence number of the last event of
  the log it publishes, as [SeqOf] does, and until a deactivation is built the signature passes
  [VerifyObject] against that log, whatever time the object carries; a snapshot signs the same. *)
Theorem controller_signatures_verify `{!PlatformLaws P} k0 k1 ts toad c0 ops se pre :
key_ok k0 → key_ok k1 → incept k0 k1 ts toad = Ok c0 → Forall op_ok ops →
let c := run c0 ops in
len (KEL c) <= two64 → last (KEL c) = Some se → ke_Type (se_Event se) ≠ Deactivation →
∃ sig seq s, Sign c pre = Ok (sig, seq) ∧ SeqOf (KEL c) = Ok seq ∧
  Snapshot c = Ok s ∧ snapshot_Sign s pre = (sig, seq) ∧ sn_kel s = KEL c ∧
  ∀ t, VerifyObject (KEL c) (c_aid c) seq t pre sig = Ok tt.
Proof.
intros H0 H1 H Ho c Hlen Hl Hd. unfold incept in H. go_inv.
apply inceptWith_ok in H as [Hc0 Hs0]; [|done..].
destruct (run_ok c0 ops Hc0 Hs0 Ho) as [Hc Hs].
destruct (Sign_verifies c se pre Hc Hs Hlen Hl Hd) as (sig & Hsig & Hv).
destruct (signing_key c Hc Hs) as (key & se' & Hk & _ & Hl' & _).
rewrite Hl in Hl'. injection Hl' as <-. unfold Sign in Hsig. rewrite Hk in Hsig.
injection Hsig as Hsig. eexists sig, _, _. unfold Sign, Snapshot. rewrite Hk. split_and!.
- by rewrite <- Hsig.
- unfold SeqOf, lastOf. rewrite Hl. destruct (KEL c); [done|]. by rewrite (proj2 (Z.eqb_neq _ _)) by (unfold len; simpl; lia).
- done.
- unfold snapshot_Sign. simpl. by rewrite Hsig.
- done.
- exact Hv.
Qed.

(** The log a peer has accepted is never rewritten.  The accepted log after any calls extends
  the one before them, so [ExtendsKEL] accepts every log the controller publishes later. *)
Theorem accepted_log_only_grows (CI : CoredetInj KeyEvent) k0 k1 ts toad c0 ops1 ops2 :
key_ok k0 → key_ok k1 → incept k0 k1 ts toad = Ok c0 → Forall op_ok ops1 → Forall op_ok ops2 →
let c1 := run c0 ops1 in let c2 := run c1 ops2 in
c_kel c1 `prefix_of` c_kel c2 ∧ ExtendsKEL (c_kel c1) (KEL c2) = Ok tt.
Proof.
intros H0 H1 H Ho1 Ho2 c1 c2. unfold incept in H. go_inv.
apply inceptWith_ok in H as [Hc0 Hs0]; [|done..].
destruct (run_ok c0 ops1 Hc0 Hs0 Ho1) as [Hc1 Hs1].
destruct (run_ok c1 ops2 Hc1 Hs1 Ho2) as [Hc2 Hs2].
assert (c_kel c1 `prefix_of` c_kel c2) as Hp by apply run_kel. split; [done|].
pose proof (KEL_replays c2 Hc2) as [sts Hr]%replay_is_Ok.
pose proof (ck_replays c1 Hc1) as [sts1 Hr1]%replay_is_Ok.
unfold ExtendsKEL, Replay. rewrite Hr. cbn [map_err mbind result_bind].
assert (c_kel c1 `prefix_of` KEL c2) as [k Hk] by (etrans; [done|apply prefix_app_r; done]).
rewrite Hk in *. destruct (compareEvents_spec (c_kel c1) (c_kel c1 ++ k)) as [[-> _]|[_ Hg]].
- by eapply replay_encodes.
- by eapply replay_encodes.
- cbn [mbind result_bind]. by rewrite (proj2 (Z.ltb_ge _ _)) by (rewrite len_app; pose proof (len_nonneg k); lia).
- destruct Hg. apply prefix_agree. left. exists (events k). apply map_app.
Qed.

(** C32: a pending event is never replaced (KEL D-14).  A call leaves the pending material as it is
  (only its event's time may be restamped), or adopts it, appending its built event to the
  accepted log, or discards it, which only a witness designation on a log of one event allows. *)
Theorem pending_event_is_kept c o p :
c_pending c = Some p →
let c' := step c o in
(∃ p', c_pending c' = Some p' ∧ c_kel c' = c_kel c ∧ p_kind p' = p_kind p ∧
   p_revealed p' = p_revealed p ∧ p_next p' = p_next p ∧ p_emergency p' = p_emergency p ∧
   (∀ ev', p_event p' = Some ev' → p_event p = Some ev' ∨ ∃ ts, o = OpRestamp ts)) ∨
(∃ ev, o = OpAdopt ev ∧ c_pending c' = None ∧ c_cur c' = Some (p_revealed p) ∧
   ∃ built, p_event p = Some built ∧ c_kel c' = c_kel c ++ [built]) ∨
(o = OpDiscard ∧ c_pending c' = None ∧ p_kind p = PendingWitness ∧ len (c_kel c) = 1 ∧
   c_kel c' = c_kel c).
Proof.
intros Hp c'. unfold c', step. destruct (exec c o) as [c2|] eqn:E; [|left; by eauto 10].
assert (∀ r : result (Controller * SignedEvent), fst <$> r = Ok c2 → ∃ ev, r = Ok (c2, ev)) as Hfst.
{ intros [[c3 ev]|] E'; simplify_eq/=; eauto. }
assert (canBuildLocked c ≠ Ok tt) as Hno.
{ intros (? & _ & _ & ?)%canBuildLocked_Ok. congruence. }
destruct o; simpl in E; try (apply Hfst in E as [ev E]).
- unfold BuildWitnessDesignation in E. go_inv. by destruct x.
- unfold BuildRotation in E. go_inv. by destruct x.
- unfold BuildDeactivation in E. go_inv. by destruct x.
- unfold Restamp in E. go_inv. simplify_eq. left. eexists. split_and!; [done..|]. eauto.
- unfold Adopt in E. go_inv. simplify_eq. right. left. eauto 10.
- unfold DiscardPending in E. go_inv. simplify_eq. right. right. by split_and!.
- unfold SetPendingHubURL in E. go_inv. simplify_eq. left. eexists. split_and!; [done..|]. eauto.
- unfold SetState in E. go_inv. left. by eauto 10.
- unfold SetLocalCommit in E. go_inv. left. by eauto 10.
- unfold SetWitnessesToPush in E. go_inv. left. by eauto 10.
Qed.
End Theorems.

(** ** The properties on a sample run

An agent is incepted, designates its witness, has the designation adopted, and builds an
emergency rotation. *)

Definition sample_ctl : Controller := Eval vm_compute in
mkController (se_EventID sample_icp) [sample_icp] (Some (sample_key 1)) (Some (sample_key 2)) None []
StateOK None.
Definition sample_ops : list op :=
[OpWitness sample_hub (sha256 (sample_pub 3)) 1760000100000; OpAdopt sample_rot].
Definition sample_ops2 : list op :=
[OpRotate (Some (sample_key 3)) (sha256 (sample_pub 4)) sample_hub true 1760000200000; OpDiscard].

Lemma sample_key_ok n : key_ok (sample_key n).
Proof. exists (repeat n 32). by rewrite repeat_length. Qed.

Lemma sample_incept : incept (sample_key 1) (sample_key 2) 1760000000000 ToadAgent = Ok sample_ctl.
Proof. vm_cast_no_check (eq_refl (Ok sample_ctl)). Qed.

Lemma sample_ops_ok : Forall op_ok sample_ops ∧ Forall op_ok sample_ops2.
Proof. repeat constructor. apply (sample_key_ok 3). Qed.

Lemma sample_run_kel : KEL (run (run sample_ctl sample_ops) sample_ops2) = sample_kel.
Proof. vm_cast_no_check (eq_refl sample_kel). Qed.

Lemma controller_invariant_witness : ctl_ok (run sample_ctl sample_ops).
Proof.
apply (controller_invariant (P := platform) (CE := event_coredet) (CS := signed_coredet) (sample_key 1) (sample_key 2) 1760000000000 ToadAgent);
[apply sample_key_ok|apply sample_key_ok|exact sample_incept|apply sample_ops_ok].
Defined.

Lemma sample_run_last : last (KEL (run sample_ctl sample_ops)) = Some sample_rot.
Proof. vm_cast_no_check (eq_refl (Some sample_rot)). Qed.
Lemma sample_run_len : len (KEL (run sample_ctl sample_ops)) <= two64.
Proof. apply Z.leb_le. vm_compute. reflexivity. Qed.
Lemma sample_rot_type : ke_Type (se_Event sample_rot) ≠ Deactivation.
Proof. vm_compute. congruence. Qed.

Lemma controller_signatures_verify_witness :
let c := run sample_ctl sample_ops in
∃ sig seq s, Sign c sample_hub = Ok (sig, seq) ∧ SeqOf (KEL c) = Ok seq ∧
Snapshot c = Ok s ∧ snapshot_Sign s sample_hub = (sig, seq) ∧ sn_kel s = KEL c ∧
∀ t, VerifyObject (KEL c) (c_aid c) seq t sample_hub sig = Ok tt.
Proof.
exact (controller_signatures_verify (P := platform) (CE := event_coredet) (CS := signed_coredet)
       (sample_key 1) (sample_key 2) 1760000000000 ToadAgent
       sample_ctl sample_ops sample_rot sample_hub (sample_key_ok 1) (sample_key_ok 2)
       sample_incept (proj1 sample_ops_ok) sample_run_len sample_run_last sample_rot_type).
Defined.

Lemma accepted_log_only_grows_witness :
ExtendsKEL (c_kel (run sample_ctl sample_ops)) sample_kel = Ok tt.
Proof.
rewrite <- sample_run_kel.
exact (proj2 (accepted_log_only_grows (P := platform) (CE := event_coredet)
       (CS := signed_coredet) event_coredet_inj (sample_key 1) (sample_key 2)
       1760000000000 ToadAgent sample_ctl sample_ops sample_ops2 (sample_key_ok 1)
       (sample_key_ok 2) sample_incept (proj1 sample_ops_ok) (proj2 sample_ops_ok))).
Defined.

Definition sample_pending : pending :=
mkPending PendingWitness (sample_key 2) (sha256 (sample_pub 3)) [] false 1760000100000 (Some sample_rot).

Definition sample_designated : Controller := set_pending sample_ctl (Some sample_pending).

Lemma pending_event_is_kept_witness :
let o := OpAdopt sample_rot in let p := sample_pending in let c' := step sample_designated o in
(∃ p', c_pending c' = Some p' ∧ c_kel c' = c_kel sample_designated ∧ p_kind p' = p_kind p ∧
 p_revealed p' = p_revealed p ∧ p_next p' = p_next p ∧ p_emergency p' = p_emergency p ∧
 (∀ ev', p_event p' = Some ev' → p_event p = Some ev' ∨ ∃ ts, o = OpRestamp ts)) ∨
(∃ ev, o = OpAdopt ev ∧ c_pending c' = None ∧ c_cur c' = Some (p_revealed p) ∧
 ∃ built, p_event p = Some built ∧ c_kel c' = c_kel sample_designated ++ [built]) ∨
(o = OpDiscard ∧ c_pending c' = None ∧ p_kind p = PendingWitness ∧ len (c_kel sample_designated) = 1 ∧
 c_kel c' = c_kel sample_designated).
Proof.
exact (pending_event_is_kept (P := platform) (CE := event_coredet) (CS := signed_coredet)
       sample_designated (OpAdopt sample_rot) sample_pending eq_refl).
Defined.

(** The agent of the run and a hub, as signers. *)
Definition sample_agent : Controller := Eval vm_compute in run sample_ctl sample_ops.
Definition sample_signer : snapshot :=
  mkSnapshot (se_EventID sample_icp) 1 [sample_icp; sample_rot] (Some (sample_key 2)).

Lemma last_alive (kel : list SignedEvent) se0 :
  last kel = Some se0 → ke_Type (se_Event se0) ≠ Deactivation →
  ∀ se, last kel = Some se → ke_Type (se_Event se) ≠ Deactivation.
Proof. intros -> Hd se [= <-]. exact Hd. Qed.

Lemma agent_speaks : speaks sample_agent sample_signer.
Proof.
  apply (reachable_speaks (P := platform) (CE := event_coredet) (CS := signed_coredet) (sample_key 1) (sample_key 2)
           1760000000000 ToadAgent sample_ctl sample_ops).
  - apply sample_key_ok.
  - apply sample_key_ok.
  - exact sample_incept.
  - apply sample_ops_ok.
  - exact sample_run_len.
  - exact (last_alive _ _ sample_run_last sample_rot_type).
  - vm_compute. reflexivity.
Qed.

Definition hub0 : Controller := Eval vm_compute in
  match incept (sample_key 11) (sample_key 12) 1760000000000 ToadHub with
  | Ok c => c
  | Err _ => mkController [] [] None None None [] [] None
  end.
Definition hub_snapshot : snapshot := mkSnapshot (c_aid hub0) 0 (c_kel hub0) (Some (sample_key 11)).

Lemma hub0_facts :
  incept (sample_key 11) (sample_key 12) 1760000000000 ToadHub = Ok hub0 ∧
  Snapshot (run hub0 []) = Ok hub_snapshot ∧ last (KEL (run hub0 [])) = head (c_kel hub0) ∧
  (ke_Type ∘ se_Event <$> head (c_kel hub0)) = Some Inception ∧ Inception ≠ Deactivation ∧
  (len (KEL (run hub0 [])) <=? two64) = true.
Proof. split_and!; [vm_compute; reflexivity..|vm_compute; congruence|vm_compute; reflexivity]. Qed.

Lemma inception_alive (l : option SignedEvent) se :
  (ke_Type ∘ se_Event <$> l) = Some Inception → Inception ≠ Deactivation → l = Some se →
  ke_Type (se_Event se) ≠ Deactivation.
Proof. intros Ht Hd ->. simpl in Ht. injection Ht as ->. exact Hd. Qed.

Lemma hub_speaks : speaks hub0 hub_snapshot.
Proof.
  destruct hub0_facts as (Hi & Hs & Hl & Ht & Hd & Hn).
  apply (reachable_speaks (P := platform) (CE := event_coredet) (CS := signed_coredet) (sample_key 11) (sample_key 12)
           1760000000000 ToadHub hub0 []).
  - apply sample_key_ok.
  - apply sample_key_ok.
  - exact Hi.
  - constructor.
  - by apply Z.leb_le.
  - intros se Hse. rewrite Hl in Hse. exact (inception_alive _ se Ht Hd Hse).
  - exact Hs.
Qed.
