(* ===== verification/IdFile.v ===== *)
(** * IdFile: the identity file (identity/idfile.go)

    [Export] writes a controller as a file and [restoreFile] reads it back, checking that the parts
    agree.  An optional byte field of the file is empty when it is absent ([omitempty]; an empty
    one that is present is not canonical and [ParseIdentityFile] refuses it). *)

From S2P Require Import Prelude Platform Aid Kel Controller.

Definition IdentityFileType : bytes := str "anet.identity/2".
Definition ErrNotIdentityV2 : error := Errf "identity: the file is not an anet.identity/2 identity".
Definition ErrIdentityFileInconsistent : error := Errf "identity: identity file inconsistent".

(** [inconsistent(format, ...)]. *)
Definition inconsistent (why : string) : error := Wrap why ErrIdentityFileInconsistent.

Record Pending := mkPendingFile {
  fp_Kind : bytes;
  fp_Revealed : bytes;
  fp_Next : bytes;
  fp_HubURL : bytes;
  fp_Emergency : bool;
  fp_Event : bytes;
  fp_Since : Z;
}.

Record IdentityFile := mkIdentityFile {
  f_T : bytes;
  f_KEL : bytes;
  f_Cur : bytes;
  f_HotNext : bytes;
  f_Pending : option Pending;
  f_WitnessesToPush : list WitnessPush;
  f_State : bytes;
  f_LocalCommit : bytes;
}.

Section IdFile.
Context `{P : Platform} `{CE : Coredet KeyEvent} `{CS : Coredet SignedEvent}
        `{CK : Coredet (list SignedEvent)} `{CF : Coredet IdentityFile}
        `{DS : Strict SignedEvent} `{DK : Strict (list SignedEvent)} `{DF : Strict IdentityFile}.

Definition MarshalKEL (kel : list SignedEvent) : result bytes := Marshal kel.

(** identity.go [UnmarshalKEL]; the reasons of the decoder are not told apart. *)
Definition UnmarshalKEL (b : bytes) : result (list SignedEvent) :=
  kel ← map_err (Wrap "identity: KEL does not decode") (UnmarshalStrict b);
  refuse existsb (λ se, negb (beqb (ke_KELType (se_Event se)) KELType)) kel
    with Errf "identity: KEL does not decode: entry carries no event";
  Ok kel.

Definition exportPending (p : pending) : result Pending :=
  ev ← match p_event p with Some ev => Marshal ev | None => Ok [] end;
  Ok (mkPendingFile (p_kind p) (ed25519_Seed (p_revealed p)) (p_next p) (p_hubURL p)
        (p_emergency p) ev (p_since p)).

(** [Export] up to its final [f.Marshal()]. *)
Definition exportFile (c : Controller) : result IdentityFile :=
  kel ← MarshalKEL (c_kel c);
  pend ← match c_pending c with
         | Some p => fp ← exportPending p; Ok (Some fp)
         | None => Ok None
         end;
  Ok (mkIdentityFile IdentityFileType kel
        (match c_cur c with Some k => ed25519_Seed k | None => [] end)
        (match c_hot c with
         | Some k => if len (c_kel c) =? 1 then ed25519_Seed k else []
         | None => []
         end)
        pend (c_push c) (c_state c)
        (match c_localCommit c with Some d => d | None => [] end)).

Definition Export (c : Controller) : result bytes := f ← exportFile c; Marshal f.

(** [ParseIdentityFile]; [tag] is what a lenient decoding finds under key 0. *)
Definition ParseIdentityFile (tag : bytes → option bytes) (b : bytes) : result IdentityFile :=
  refuse negb (bool_decide (tag b = Some IdentityFileType)) with ErrNotIdentityV2;
  f ← map_err (Wrap "identity: identity file does not decode") (UnmarshalStrict b);
  match marshal f with
  | Some back => refuse negb (beqb back b) with inconsistent "not in its canonical encoding"; Ok f
  | None => Err (inconsistent "not in its canonical encoding")
  end.

Definition keyFromSeed (seed : bytes) (what : string) : result bytes :=
  refuse negb (len seed =? 32) with inconsistent what;
  Ok (ed25519_NewKeyFromSeed seed).

(** The kind-specific checks of [restorePending]. *)
Definition checkPendingKind (c : Controller) (fp : Pending) (head : KeyState) : result unit :=
  if beqb (fp_Kind fp) PendingWitness then
    refuse negb (ks_Toad head =? ToadAgent) || negb (len (c_kel c) =? 1) || fp_Emergency fp
      with inconsistent "a witness designation pending on an identity that is not an agent with only its icp";
    Ok tt
  else if beqb (fp_Kind fp) PendingRot then
    refuse (ks_Toad head =? ToadAgent) && (len (c_kel c) =? 1)
      with inconsistent "an agent's first rot is its witness designation, pending as kind witness";
    Ok tt
  else if beqb (fp_Kind fp) PendingDip then
    refuse negb (beqb (fp_Next fp) []) || fp_Emergency fp
      with inconsistent "a pending dip with a next key or the emergency flag";
    Ok tt
  else Err (inconsistent "pending kind").

Definition restorePending (c : Controller) (fp : Pending) (head : KeyState) : result pending :=
  refuse beqb (ks_Status head) StatusDeactivated
    with inconsistent "an event is pending after the deactivation";
  revealed ← keyFromSeed (fp_Revealed fp) "pending.revealed is not a 32-byte seed";
  refuse negb (beqb (nextDigest (ed25519_public revealed)) (committedNextDigest (c_kel c)))
    with inconsistent "the pending key is not the one the KEL head committed";
  _ ← checkPendingKind c fp head;
  refuse negb (beqb (fp_Kind fp) PendingDip) && negb (len (fp_Next fp) =? Sha256Size)
    with inconsistent "the pending next-key digest is not 32 bytes";
  let p := mkPending (fp_Kind fp) revealed
             (if beqb (fp_Kind fp) PendingDip then [] else fp_Next fp)
             (fp_HubURL fp) (fp_Emergency fp) (fp_Since fp) None in
  match fp_Event fp with
  | [] => refuse beqb (fp_Kind fp) PendingWitness
            with inconsistent "a witness designation pending without its event";
          Ok p
  | _ :: _ =>
      ev ← map_err (λ _, inconsistent "the pending event does not decode")
             (UnmarshalStrict (A := SignedEvent) (fp_Event fp));
      let witness := match ke_Witnesses (se_Event ev) with [w] => w | _ => [] end in
      want ← map_err (λ _, inconsistent "the pending event")
               (buildEvent c p witness (ke_Timestamp (se_Event ev)));
      wantBytes ← Marshal want;
      refuse negb (beqb wantBytes (fp_Event fp))
        with inconsistent "the pending event is not the event its material makes";
      Ok (with_event p (Some want))
  end.

(** Which key the file's [cur] is; the result is the controller's [cur]. *)
Definition restoreCur (c : Controller) (head : KeyState) (cur : bytes) : result (option bytes) :=
  let pub := ed25519_public cur in
  last ← lastOf (c_kel c);
  if (match ks_CurrentKeys head with [k] => beqb pub k | _ => false end) then Ok (Some cur)
  else if beqb (ke_Type (se_Event last)) Deactivation &&
          match ke_Keys (se_Event last) with k :: _ => beqb pub k | [] => false end
       then Ok (Some cur)
  else if match builtEvent c with
          | Some ev => match ke_Keys (se_Event ev) with k :: _ => beqb pub k | [] => false end
          | None => false
          end
       then Ok None
  else Err (inconsistent "cur is neither the key of the KEL head nor the key the pending event reveals").

Definition restoreHot (kel : list SignedEvent) (hotNext : bytes) : result (option bytes) :=
  match hotNext with
  | [] => Ok None
  | _ :: _ =>
      refuse negb (len kel =? 1) with inconsistent "hot_next is kept after the first rotation";
      hot ← keyFromSeed hotNext "hot_next is not a 32-byte seed";
      first ← of_option (head kel) Panic;
      refuse negb (beqb (nextDigest (ed25519_public hot)) (ke_NextDigest (se_Event first)))
        with inconsistent "hot_next is not the key the icp committed";
      Ok (Some hot)
  end.

Definition restoreFile (f : IdentityFile) : result Controller :=
  refuse negb (validState (f_State f)) with inconsistent "state";
  kel ← map_err (Wrap "identity: restore") (UnmarshalKEL (f_KEL f));
  states ← map_err (Wrap "identity: restore replay") (Replay kel);
  head ← lastOf states;
  refuse negb (beqb (f_LocalCommit f) []) && negb (len (f_LocalCommit f) =? Sha256Size)
    with inconsistent "local_commit is not 32 bytes";
  refuse existsb (λ w, beqb (wp_HubAID w) []) (f_WitnessesToPush f)
    with inconsistent "a witness to push has no AID";
  hot ← restoreHot kel (f_HotNext f);
  let c := mkController (ks_AID head) kel None hot None (f_WitnessesToPush f) (f_State f)
             (if beqb (f_LocalCommit f) [] then None else Some (f_LocalCommit f)) in
  pend ← match f_Pending f with
         | Some fp => p ← restorePending c fp head; Ok (Some p)
         | None => Ok None
         end;
  let c := set_pending c pend in
  match f_Cur f with
  | [] => refuse negb (isSome pend) with inconsistent "no current key and nothing pending"; Ok c
  | _ :: _ =>
      cur ← keyFromSeed (f_Cur f) "cur is not a 32-byte seed";
      cur ← restoreCur c head cur;
      Ok (mkController (c_aid c) (c_kel c) cur (c_hot c) (c_pending c) (c_push c) (c_state c)
            (c_localCommit c))
  end.

(** [Restore]. *)
Definition RestoreIdentity (tag : bytes → option bytes) (b : bytes) : result Controller :=
  f ← ParseIdentityFile tag b;
  restoreFile f.
End IdFile.
