(* ===== verification/IdFileTheorems.v ===== *)
(** * IdFileTheorems: writing an identity file and reading it back *)

From S2P Require Import Prelude Aid Cbor Platform Kel KelReference KelSpec KelFacts KelProps Controller ControllerInv ControllerTheorems IdFile.
Import Light.

Section RoundTrip.
Context `{P : Platform} `{CE : Coredet KeyEvent} `{CS : Coredet SignedEvent}
        `{CK : Coredet (list SignedEvent)} `{CF : Coredet IdentityFile}
        `{DS : Strict SignedEvent} `{DK : Strict (list SignedEvent)} `{DF : Strict IdentityFile}.

(** Every state has the toad of the inception. *)
Lemma kel_ok_toad kel sts s se0 :
  kel_ok kel sts → s ∈ sts → head kel = Some se0 → ke_Toad (se_Event se0) = Some (ks_Toad s).
Proof.
  intros Hk. revert s. induction Hk as [se k t Hv Hi Hs | kel sts se prior se' k w Hk IH Hl Hp Ht Hsu Hr Hs
                 | kel sts se prior se' k Hk IH Hl Hp Ht Hsu Hd Hs]; intros s Hin Hh.
  - apply list_elem_of_singleton in Hin as ->. simplify_eq/=. by apply (icp_toad _ _ _ Hi).
  - assert (head kel = Some se0) as Hh' by (by destruct kel; [apply kel_ok_nil in Hk|]).
    apply elem_of_app in Hin as [Hin|Hin]; [by apply IH|].
    apply list_elem_of_singleton in Hin as ->. apply (IH prior); [|done].
    apply (list_elem_of_lookup_2 _ (pred (length sts))). by rewrite <- last_lookup.
  - assert (head kel = Some se0) as Hh' by (by destruct kel; [apply kel_ok_nil in Hk|]).
    apply elem_of_app in Hin as [Hin|Hin]; [by apply IH|].
    apply list_elem_of_singleton in Hin as ->. apply (IH prior); [|done].
    apply (list_elem_of_lookup_2 _ (pred (length sts))). by rewrite <- last_lookup.
Qed.

Lemma kel_ok_types kel sts :
  kel_ok kel sts → existsb (λ se, negb (beqb (ke_KELType (se_Event se)) KELType)) kel = false.
Proof.
  induction 1 as [se k t Hv Hi Hs | kel sts se prior se' k w Hk IH Hl Hp Ht Hsu Hr Hs
                 | kel sts se prior se' k Hk IH Hl Hp Ht Hsu Hd Hs];
    rewrite ?existsb_app, ?IH; simpl; rewrite ?Hv, ?(succ_type _ _ _ _ Hsu); by rewrite beqb_refl.
Qed.

(** What the file cannot say: an agent's first rotation pending as a kind of its own. *)
Definition exportable (c : Controller) : Prop :=
  ∀ p, c_pending c = Some p → p_kind p = PendingRot →
    toadLocked c = Ok ToadAgent → length (c_kel c) ≠ 1%nat.

(** The last state of a sound controller's accepted log. *)
Record head_of (c : Controller) (sts : list KeyState) (head : KeyState) (se : SignedEvent) : Prop := {
  h_replay : replay (c_kel c) = Ok sts;
  h_last : last sts = Some head;
  h_event : last (c_kel c) = Some se;
  h_aid : ks_AID head = c_aid c;
  h_toad : toadLocked c = Ok (ks_Toad head);
  h_keys : ks_CurrentKeys head =
    if beqb (ke_Type (se_Event se)) Deactivation then [] else ke_Keys (se_Event se);
  h_dead : beqb (ks_Status head) StatusDeactivated = beqb (ke_Type (se_Event se)) Deactivation;
}.

Lemma ctl_head c : ctl_ok c → ∃ sts head se, head_of c sts head se.
Proof.
  intros Hc. pose proof (ck_replays _ Hc) as [sts Hr]%replay_is_Ok.
  destruct (replay_last _ _ Hr) as (se & head & Hl & Hs).
  destruct (replay_head _ _ Hr) as [se0 Hh]. exists sts, head, se.
  pose proof (ck_aid _ Hc) as Ha. rewrite Hh in Ha. injection Ha as Ha.
  pose proof (replay_length _ _ Hr) as Hn.
  pose proof (last_index _ _ Hl) as Hi. pose proof (last_index _ _ Hs) as Hj.
  destruct (replay_describes _ _ _ _ _ Hr Hh Hi) as (s & Hs' & [D1 D2 D3 D4 D5 D6 D7]).
  rewrite <- Hn, Hj in Hs'. injection Hs' as <-.
  assert (c_kel c !! S (pred (length (c_kel c))) = None) as Hnone.
  { apply lookup_ge_None. destruct (c_kel c); simpl; lia. }
  rewrite Hnone in *. constructor; try done; [congruence| |].
  - apply replay_spec in Hr as Hr'. destruct Hr' as (raw & Hraw & E).
    pose proof (kel_ok_length _ _ Hraw) as Hlr.
    assert (raw !! pred (length raw) = Some head) as Hrl.
    { rewrite E, markSuperseded_lookup in Hj by done.
      rewrite length_markSuperseded, Hlr, Hnone in Hj by done. rewrite Hlr.
      by destruct (raw !! pred (length (c_kel c))). }
    unfold toadLocked. rewrite Hh. simpl.
    rewrite (kel_ok_toad _ _ head _ Hraw) by (done || by eapply list_elem_of_lookup_2). done.
  - rewrite D5. destruct statuses_distinct as (H1 & _).
    destruct (beqb (ke_Type (se_Event se)) Deactivation); [by rewrite beqb_refl|done].
Qed.

Lemma key_of_seed (HL : PlatformLaws P) k what : key_ok k → keyFromSeed (ed25519_Seed k) what = Ok k.
Proof.
  intros (seed & Hl & ->). rewrite ed25519_key_seed by done. unfold keyFromSeed.
  by rewrite (proj2 (len_length seed 32) Hl).
Qed.

Lemma seed_not_nil (HL : PlatformLaws P) k : key_ok k → ed25519_Seed k ≠ [].
Proof. intros (seed & Hl & ->). rewrite ed25519_key_seed by done. by destruct seed. Qed.

Lemma restoreHot_export (HL : PlatformLaws P) c :
  ctl_ok c →
  restoreHot (c_kel c)
    (match c_hot c with
     | Some k => if len (c_kel c) =? 1 then ed25519_Seed k else []
     | None => []
     end) = Ok (c_hot c).
Proof.
  intros Hc. destruct (c_hot c) as [k|] eqn:Hh; [|done].
  destruct (ck_hot _ Hc _ Hh) as (Hk & se & Hs & Hd). rewrite Hs. simpl.
  pose proof (seed_not_nil HL k Hk) as Hne. unfold restoreHot.
  destruct (ed25519_Seed k) eqn:E; [done|]. simpl. rewrite <- E, key_of_seed by done. simpl.
  unfold nextDigest. by rewrite Hd, beqb_refl.
Qed.

Lemma kinds_distinct :
  beqb PendingRot PendingWitness = false ∧ beqb PendingDip PendingWitness = false ∧
  beqb PendingDip PendingRot = false ∧ beqb PendingWitness PendingDip = false ∧
  beqb PendingRot PendingDip = false.
Proof. repeat split; vm_compute; reflexivity. Qed.

Lemma checkPendingKind_export c c' p sts head se ev :
  c_kel c' = c_kel c → head_of c sts head se → exportable c → c_pending c = Some p →
  material_ok c p →
  checkPendingKind c' (mkPendingFile (p_kind p) (ed25519_Seed (p_revealed p)) (p_next p) (p_hubURL p)
                         (p_emergency p) ev (p_since p)) head = Ok tt.
Proof.
  intros Hkel Hh Hex Hp [_ _ _ Hkind Hw Hd _]. unfold checkPendingKind. simpl. rewrite Hkel.
  destruct kinds_distinct as (E1 & E2 & E3 & _).
  destruct Hkind as [Hk|[Hk|Hk]]; rewrite Hk, ?E1, ?E2, ?E3, beqb_refl.
  - destruct (Hw Hk) as (Ht & Hl & ->). rewrite (h_toad _ _ _ _ Hh) in Ht. injection Ht as ->.
    by rewrite (proj2 (len_length _ 1) Hl).
  - destruct (Z.eqb_spec (ks_Toad head) ToadAgent) as [Ht|]; [|done]. simpl.
    rewrite (proj2 (Z.eqb_neq _ _)); [done|].
    specialize (Hex p Hp Hk). rewrite (h_toad _ _ _ _ Hh), Ht in Hex. unfold len. specialize (Hex eq_refl). lia.
  - destruct (Hd Hk) as [-> ->]. by rewrite beqb_refl.
Qed.

Lemma restorePending_export (HL : PlatformLaws P) (HS : StrictInv SignedEvent) c c' p fp sts head se :
  (∀ ev : SignedEvent, marshal ev ≠ Some []) →
  c_kel c' = c_kel c → c_aid c' = c_aid c →
  head_of c sts head se → exportable c → c_pending c = Some p → pending_ok c p →
  exportPending p = Ok fp → restorePending c' fp head = Ok p.
Proof.
  intros Hne Hkel Haid Hh Hex Hp [Hm Hb He] H.
  destruct kinds_distinct as (_ & _ & _ & E4 & E5).
  unfold exportPending in H. go_inv. simplify_eq. unfold restorePending.
  rewrite (h_dead _ _ _ _ Hh). pose proof (pk_alive _ _ Hm _ (h_event _ _ _ _ Hh)) as Ha.
  apply beqb_false in Ha. rewrite Ha. cbn [fp_Revealed fp_Kind fp_Next fp_Event fp_HubURL fp_Emergency fp_Since].
  rewrite key_of_seed by (done || apply Hm). cbn [mbind result_bind].
  unfold nextDigest. rewrite Hkel, (pk_committed _ _ Hm), beqb_refl. cbn [negb].
  erewrite checkPendingKind_export by done. cbn [mbind result_bind].
  assert (negb (beqb (p_kind p) PendingDip) && negb (len (p_next p) =? Sha256Size) = false) as ->.
  { destruct (beqb (p_kind p) PendingDip) eqn:E; [done|]. apply beqb_false in E. simpl.
    apply negb_false_iff, Z.eqb_eq, (len_length (p_next p) 32). by apply Hm. }
  assert ((if beqb (p_kind p) PendingDip then [] else p_next p) = p_next p) as ->.
  { destruct (beqb (p_kind p) PendingDip) eqn:E; [|done]. apply beqb_true in E.
    symmetry. by apply (pk_dip _ _ Hm). }
  destruct (p_event p) as [ev|] eqn:Hev.
  - match goal with M : Marshal ev = Ok _ |- _ => unfold Marshal in M; go_inv; rename M into Hmar end.
    match type of Hmar with _ = Some ?b => destruct b as [|z b]; [by destruct (Hne ev)|] end.
    unfold UnmarshalStrict. rewrite (unmarshal_marshal _ _ Hmar). cbn [of_option map_err mbind result_bind].
    fold (designated ev).
    assert (∀ q, p_kind q = p_kind p → p_revealed q = p_revealed p → p_next q = p_next p →
              p_emergency q = p_emergency p →
              buildEvent c' q (designated ev) (ke_Timestamp (se_Event ev)) = Ok ev) as Hbe.
    { intros q Q1 Q2 Q3 Q4. rewrite <- (He _ eq_refl). unfold buildEvent, pendingEvent, toadLocked.
      by rewrite Hkel, Haid, Q1, Q2, Q3, Q4. }
    rewrite Hbe by done. cbn [map_err mbind result_bind]. unfold Marshal. rewrite Hmar.
    cbn [of_option mbind result_bind]. rewrite beqb_refl. cbn [negb].
    unfold with_event. simpl. f_equal. destruct p; simpl in *; by subst.
  - go_inv. destruct (beqb (p_kind p) PendingWitness) eqn:E.
    { apply beqb_true in E. destruct (Hb E); congruence. }
    f_equal. destruct p; simpl in *; by subst.
Qed.

Lemma restoreCur_export c c' cur sts head se :
  c_kel c' = c_kel c → head_of c sts head se → key_ok cur →
  ke_Keys (se_Event se) = [ed25519_public cur] → restoreCur c' head cur = Ok (Some cur).
Proof.
  intros Hkel Hh Hk Hkeys. unfold restoreCur, lastOf. rewrite Hkel, (h_event _ _ _ _ Hh), (h_keys _ _ _ _ Hh).
  cbn [of_option mbind result_bind]. rewrite Hkeys.
  destruct (beqb (ke_Type (se_Event se)) Deactivation); simpl; by rewrite beqb_refl.
Qed.
End RoundTrip.

(** ** The encoding of the file *)

Definition push_cbor (w : WitnessPush) : cbor :=
CMap (field 1 (CText (wp_HubAID w)) ++ field 2 (CText (wp_HubURL w)) ++
      field 3 (CUint (wp_AckedSeq w)) ++ field 4 (CUint (wp_NextTry w))).
Definition push_of_cbor (c : cbor) : WitnessPush :=
match c with
| CMap l => mkWitnessPush (as_text (member 1 l)) (as_text (member 2 l)) (as_uint (member 3 l))
              (as_uint (member 4 l))
| _ => mkWitnessPush [] [] 0 0
end.

Definition as_bool (o : option cbor) : bool := match o with Some (CBool b) => b | _ => false end.

Definition pending_cbor (p : Pending) : cbor :=
CMap (field 1 (CText (fp_Kind p)) ++ field 2 (CBytes (fp_Revealed p)) ++
      omitempty 3 (beqb (fp_Next p) []) (CBytes (fp_Next p)) ++ field 4 (CText (fp_HubURL p)) ++
      field 5 (CBool (fp_Emergency p)) ++
      omitempty 6 (beqb (fp_Event p) []) (CBytes (fp_Event p)) ++ field 7 (CUint (fp_Since p))).
Definition pending_of_cbor (c : cbor) : option Pending :=
match c with
| CMap l => Some (mkPendingFile (as_text (member 1 l)) (as_bytes (member 2 l)) (as_bytes (member 3 l))
                    (as_text (member 4 l)) (as_bool (member 5 l)) (as_bytes (member 6 l))
                    (as_uint (member 7 l)))
| _ => None
end.

Definition file_cbor (f : IdentityFile) : cbor :=
CMap (field 0 (CText (f_T f)) ++ field 1 (CBytes (f_KEL f)) ++
      omitempty 2 (beqb (f_Cur f) []) (CBytes (f_Cur f)) ++
      omitempty 3 (beqb (f_HotNext f) []) (CBytes (f_HotNext f)) ++
      match f_Pending f with Some p => field 4 (pending_cbor p) | None => [] end ++
      omitempty 5 (bool_decide (f_WitnessesToPush f = [])) (CArray (map push_cbor (f_WitnessesToPush f))) ++
      field 6 (CText (f_State f)) ++
      omitempty 7 (beqb (f_LocalCommit f) []) (CBytes (f_LocalCommit f))).
Definition file_of_cbor (c : cbor) : IdentityFile :=
match c with
| CMap l =>
    mkIdentityFile (as_text (member 0 l)) (as_bytes (member 1 l)) (as_bytes (member 2 l))
      (as_bytes (member 3 l)) (match member 4 l with Some p => pending_of_cbor p | None => None end)
      (match member 5 l with Some (CArray ws) => map push_of_cbor ws | _ => [] end)
      (as_text (member 6 l)) (as_bytes (member 7 l))
| _ => mkIdentityFile [] [] [] [] None [] [] []
end.

#[export] Instance push_eq_dec : EqDecision WitnessPush.
Proof. solve_decision. Defined.

Lemma file_of_cbor_file f : file_of_cbor (file_cbor f) = f.
Proof.
destruct f as [t kel cur hot pend push st lc]. unfold file_cbor; simpl.
assert (∀ l, map push_of_cbor (map push_cbor l) = l) as Hp.
{ intros l. rewrite map_map. rewrite <- (map_id l) at 2. apply map_ext. by intros []. }
assert (∀ p, pending_of_cbor (pending_cbor p) = Some p) as Hq.
{ intros [k r n u em ev si]. unfold pending_cbor, omitempty, beqb.
  destruct n, ev; repeat (case_bool_decide; [try discriminate|try done]); done. }
unfold omitempty, beqb.
destruct cur, hot, pend, push, lc; repeat (case_bool_decide; [try discriminate|try done]); simpl in *;
  f_equal; first [apply Hq | apply (Hp (_ :: _)) | done].
Qed.

#[local] Arguments file_cbor : simpl never.
#[local] Arguments file_of_cbor : simpl never.

#[export] Instance file_eq_dec : EqDecision IdentityFile.
Proof. assert (EqDecision Pending) by solve_decision. solve_decision. Defined.
#[export] Instance file_coredet : Coredet IdentityFile := λ f, cbor_marshal (file_cbor f).
#[export] Instance file_strict : Strict IdentityFile := λ b,
match decode b with Some c => Some (file_of_cbor c) | None => None end.
Lemma file_marshal (f : IdentityFile) : marshal f = cbor_marshal (file_cbor f).
Proof. reflexivity. Qed.

#[export] Instance file_strict_inv : StrictInv IdentityFile.
Proof.
intros f x H. unfold unmarshal, file_strict. rewrite file_marshal in H.
rewrite (cbor_marshal_decode _ _ H). f_equal. apply file_of_cbor_file.
Qed.
(** A lenient look at key 0. *)
Definition file_tag (b : bytes) : option bytes :=
match decode b with Some (CMap l) => match member 0 l with Some (CText t) => Some t | _ => None end | _ => None end.

Lemma localCommit_export `{Platform} `{Coredet KeyEvent} c :
ctl_ok c →
let lc := match c_localCommit c with Some d => d | None => [] end in
negb (beqb lc []) && negb (len lc =? Sha256Size) = false ∧
(if beqb lc [] then None else Some lc) = c_localCommit c.
Proof.
intros Hc lc. unfold lc. destruct (c_localCommit c) as [d|] eqn:E; [|done].
apply (ck_commit _ Hc) in E. rewrite (proj2 (len_length d 32) E), andb_false_r. split; [done|].
by destruct d.
Qed.

Section Theorems.
Context `{P : Platform} `{CE : Coredet KeyEvent} `{CS : Coredet SignedEvent}
      `{CK : Coredet (list SignedEvent)} `{CF : Coredet IdentityFile}
      `{DS : Strict SignedEvent} `{DK : Strict (list SignedEvent)} `{DF : Strict IdentityFile}.

(** C13: an identity survives its file.  Restoring what a sound controller exports gives that
  controller back: keys, logs, pending event and state.  The one controller left out is an agent
  whose first rotation is pending under another kind than [witness], which [Restore] refuses. *)
Theorem restore_inverts_export (HL : PlatformLaws P) (HS : StrictInv SignedEvent)
(HK : StrictInv (list SignedEvent)) (HF : StrictInv IdentityFile) tag c b :
(∀ ev : SignedEvent, marshal ev ≠ Some []) →
(∀ f x, marshal f = Some x → tag x = Some (f_T f)) →
ctl_ok c → exportable c →
Export c = Ok b → RestoreIdentity tag b = Ok c.
Proof.
intros Hne Htag Hc Hex H. destruct (ctl_head _ Hc) as (sts & head & se & Hh).
unfold Export, exportFile, MarshalKEL in H. go_inv.
match goal with M : Marshal (mkIdentityFile _ _ _ _ _ _ _ _) = Ok _ |- _ =>
  unfold Marshal in M; go_inv; rename M into Hf end.
match goal with M : Marshal (c_kel c) = Ok _ |- _ => unfold Marshal in M; go_inv; rename M into Hkel end.
unfold RestoreIdentity, ParseIdentityFile. rewrite (Htag _ _ Hf). simpl.
unfold UnmarshalStrict at 1. rewrite (unmarshal_marshal _ _ Hf).
cbn [of_option map_err mbind result_bind]. rewrite Hf, beqb_refl. cbn [negb mbind result_bind].
unfold restoreFile. cbn [f_State f_KEL f_LocalCommit f_WitnessesToPush f_HotNext f_Pending f_Cur].
rewrite (ck_state _ Hc). cbn [negb]. unfold UnmarshalKEL, UnmarshalStrict.
rewrite (unmarshal_marshal _ _ Hkel). cbn [of_option map_err mbind result_bind].
pose proof (h_replay _ _ _ _ Hh) as Hr. apply replay_spec in Hr as Hr'. destruct Hr' as (raw & Hraw & _).
rewrite (kel_ok_types _ _ Hraw). cbn [map_err mbind result_bind]. unfold Replay. rewrite Hr.
cbn [map_err mbind result_bind]. unfold lastOf at 1. rewrite (h_last _ _ _ _ Hh).
cbn [of_option mbind result_bind].
destruct (localCommit_export _ Hc) as [-> ->]. rewrite (ck_push _ Hc), restoreHot_export by done.
cbn [mbind result_bind]. rewrite (h_aid _ _ _ _ Hh).
set (c0 := mkController _ _ _ _ _ _ _ _).
match goal with |- (?m ≫= _) = _ => assert (m = Ok (c_pending c)) as -> end.
{ destruct (c_pending c) as [p|] eqn:Hp; go_inv; [|done].
  by rewrite (restorePending_export HL HS c c0 p x sts head se) by
    (done || exact (ck_pending _ Hc _ Hp)). }
cbn [mbind result_bind]. pose proof (ck_cur _ Hc) as Hcur. destruct (c_cur c) as [k|] eqn:Hk.
- destruct Hcur as (Hok & se' & Hl & Hkeys). rewrite (h_event _ _ _ _ Hh) in Hl. injection Hl as <-.
  pose proof (seed_not_nil HL k Hok) as Hn. destruct (ed25519_Seed k) as [|z l] eqn:Es; [done|].
  rewrite <- Es, key_of_seed by done. cbn [mbind result_bind].
  rewrite (restoreCur_export c (set_pending c0 (c_pending c)) k sts head se) by done.
  cbn [mbind result_bind]. f_equal. destruct c; simpl in *; by subst.
- destruct Hcur as [p Hp]. rewrite Hp. cbn [isSome].
  unfold isSome. rewrite bool_decide_true by by eexists. simpl. f_equal. destruct c; simpl in *; by subst.
Qed.
End Theorems.

(** ** On the sample run, and where the file and the controller disagree *)

Definition sample_published : Controller := run (run sample_ctl sample_ops) sample_ops2.
Definition sample_file : bytes := match Export sample_published with Ok b => b | Err _ => [] end.

Lemma sample_file_ok : Export sample_published = Ok sample_file.
Proof. vm_cast_no_check (eq_refl (Ok sample_file)). Qed.

Lemma sample_ctl_ok : ctl_ok sample_ctl ∧ is_Some (c_cur sample_ctl).
Proof.
exact (inceptWith_ok (P := platform) (CE := event_coredet) (sample_key 1)
       (sample_key 2) 1760000000000 ToadAgent sample_ctl (sample_key_ok 1) (sample_key_ok 2)
       sample_incept).
Qed.

Lemma sample_published_ok : ctl_ok sample_published.
Proof.
pose proof (run_ok (P := platform) (CE := event_coredet) (CS := signed_coredet) sample_ctl sample_ops
(proj1 sample_ctl_ok) (proj2 sample_ctl_ok) (proj1 sample_ops_ok)) as H.
exact (proj1 (run_ok (P := platform) (CE := event_coredet) (CS := signed_coredet)
(run sample_ctl sample_ops) sample_ops2 (proj1 H) (proj2 H) (proj2 sample_ops_ok))).
Qed.

Lemma sample_published_exportable : exportable sample_published.
Proof.
intros p _ _ _. assert (length (c_kel sample_published) = 2%nat) as -> by (vm_compute; reflexivity). done.
Qed.

Lemma file_tag_ok f x : marshal f = Some x → file_tag x = Some (f_T f).
Proof. rewrite file_marshal. intros H. unfold file_tag. by rewrite (cbor_marshal_decode _ _ H). Qed.

Lemma restore_inverts_export_witness : RestoreIdentity file_tag sample_file = Ok sample_published.
Proof.
exact (restore_inverts_export (P := platform) (CE := event_coredet) (CS := signed_coredet)
       (CK := kel_coredet) (CF := file_coredet) (DS := signed_strict) (DK := kel_strict)
       (DF := file_strict) light_laws signed_strict_inv kel_strict_inv file_strict_inv
       file_tag sample_published sample_file signed_marshal_not_nil file_tag_ok
       sample_published_ok sample_published_exportable sample_file_ok).
Defined.

(** An agent whose owner hands [BuildRotation] the hot key itself, rather than nil, gets a pending
event of kind [rot] on a log of one event; the file written then is one [Restore] refuses. *)
Definition rotated_by_hot_key : Controller :=
step sample_ctl (OpRotate (Some (sample_key 2)) (sha256 (sample_pub 3)) sample_hub false 1760000100000).

Theorem hot_key_rotation_is_not_restorable :
isSome (builtEvent rotated_by_hot_key) = true ∧
(b ← Export rotated_by_hot_key; RestoreIdentity file_tag b) =
Err (inconsistent "an agent's first rot is its witness designation, pending as kind witness").
Proof.
split; vm_compute; reflexivity.
Qed.

(** A file whose [cur] is the key its pending witness designation reveals restores to a controller
that holds no key of the accepted tip.  Discarding the designation is accepted, and leaves a
controller that signs nothing and whose file [Restore] refuses. *)
Definition pending_cur_file : result IdentityFile :=
f ← exportFile (set_pending sample_ctl (Some sample_pending));
Ok (mkIdentityFile (f_T f) (f_KEL f) (ed25519_Seed (sample_key 2)) (f_HotNext f) (f_Pending f)
    (f_WitnessesToPush f) (f_State f) (f_LocalCommit f)).

Theorem discard_can_leave_no_key :
(f ← pending_cur_file; c ← restoreFile f; c' ← DiscardPending c; '(sig, _) ← Sign c' sample_hub; Ok sig)
= Ok [] ∧
(f ← pending_cur_file; c ← restoreFile f; c' ← DiscardPending c;
b ← Export c'; RestoreIdentity file_tag b)
= Err (inconsistent "no current key and nothing pending").
Proof. split; vm_compute; reflexivity. Qed.
