(* ===== verification/Liabtree.v ===== *)
(** * Liabtree: the liabilities tree of a hub (liabtree/liabtree.go, wire.go)

    A Merkle tree that carries sums.  The random reader is the list of bytes it will give; reading
    past its end is the reader's error. *)

From S2P Require Import Prelude Platform.

(** ** Data *)

Definition MinLeaves : Z := 16.
Definition MinDepth : Z := 4.
Definition MaxDepth : Z := 32.
Definition MaxSum : Z := MaxInt64.
Definition SaltSize : Z := 32.

Definition leafLabel : bytes := str "anet-liab-leaf/v1".
Definition nodeLabel : bytes := str "anet-liab-node/v1".

Definition ErrMalformed : error := Errf "liabtree: the proof is malformed".
Definition ErrOverflow : error := Errf "liabtree: a balance or sum is over 2^63-1".
Definition ErrRoot : error := Errf "liabtree: the path does not reach the published root".
Definition ErrSum : error := Errf "liabtree: the root's sum is not the published outstanding".
Definition errShort : error := Errf "liabtree: reading from the random source".

Record leafContent := mkLeafContent { lc_AID : bytes; lc_ToDay : Z; lc_Balance : Z }.
Record Leaf := mkLeaf { l_AID : bytes; l_Balance : Z }.
Record Entry := mkEntry { e_AID : bytes; e_Balance : Z; e_Salt : bytes }.
Record Node := mkNode { n_Hash : bytes; n_Sum : Z }.

Definition Padding (e : Entry) : bool := beqb (e_AID e) [].

(** A [Side] is a byte; [Left] and [Right] are the two that mean something. *)
Definition Left : Z := 76.
Definition Right : Z := 82.

Record Step := mkStep { s_Hash : bytes; s_Sum : Z; s_Side : Z }.
Record Proof := mkProof {
  pf_AID : bytes;
  pf_ToDay : Z;
  pf_Balance : Z;
  pf_Salt : bytes;
  pf_Path : list Step;
}.

Record Tree := mkTree {
  t_toDay : Z;
  t_entries : list Entry;
  t_levels : list (list Node);
  t_pos : gmap bytes nat;
}.

Section Liabtree.
Context `{P : Platform} `{CL : Coredet leafContent}.

Definition LeafHash (aid : bytes) (toDay balance : Z) (salt : bytes) : result bytes :=
  content ← Marshal (mkLeafContent aid toDay balance);
  Ok (sha256 (leafLabel ++ [0] ++ salt ++ content)).

Definition NodeHash (l r : Node) : bytes :=
  sha256 (nodeLabel ++ [0] ++ n_Hash l ++ u64be (n_Sum l) ++ n_Hash r ++ u64be (n_Sum r)).

(** [a+b] in a uint64, refused when it or an operand is over [MaxSum]. *)
Definition addSum (a b : Z) : option Z :=
  if (MaxSum <? a) || (MaxSum <? b) || (MaxSum <? u64 (a + b)) then None else Some (u64 (a + b)).

(** ** Randomness *)

(** [io.ReadFull(rand, b)] with [len(b) = n]. *)
Definition ReadFull (n : nat) (rand : bytes) : result (bytes * bytes) :=
  if (length rand <? n)%nat then Err errShort else Ok (take n rand, drop n rand).

Definition uniform_limit (m : Z) : Z := MaxUint64 - (MaxUint64 mod m + 1) mod m.

(** The rejection loop; every round consumes eight bytes, so [length rand] rounds are enough. *)
Fixpoint uniform_loop (fuel : nat) (m : Z) (rand : bytes) : result (Z * bytes) :=
  match fuel with
  | O => Err errShort
  | S fuel =>
      '(b, rand) ← ReadFull 8 rand;
      let x := be_val b in
      if x <=? uniform_limit m then Ok (x mod m, rand) else uniform_loop fuel m rand
  end.
Definition uniform (rand : bytes) (m : Z) : result (Z * bytes) := uniform_loop (S (length rand)) m rand.

(** ** Building *)

(** [entries[i], entries[j] = entries[j], entries[i]]. *)
Definition swap {A} (i j : nat) (l : list A) : list A :=
  match l !! i, l !! j with
  | Some x, Some y => <[i := y]> (<[j := x]> l)
  | _, _ => l
  end.

(** The Fisher-Yates loop from [i] down to 1. *)
Fixpoint shuffle (i : nat) (entries : list Entry) (rand : bytes) : result (list Entry * bytes) :=
  match i with
  | O => Ok (entries, rand)
  | S i' =>
      '(j, rand) ← uniform rand (Z.of_nat i + 1);
      shuffle i' (swap i (Z.to_nat j) entries) rand
  end.

Fixpoint salts (entries : list Entry) (rand : bytes) : result (list Entry * bytes) :=
  match entries with
  | [] => Ok ([], rand)
  | e :: entries =>
      '(salt, rand) ← ReadFull 32 rand;
      '(entries, rand) ← salts entries rand;
      Ok (mkEntry (e_AID e) (e_Balance e) salt :: entries, rand)
  end.

(** The size doubles from 16 until the accounts fit; 32 doublings reach the largest tree. *)
Fixpoint grow (fuel : nat) (size n : Z) : Z :=
  match fuel with
  | O => size
  | S fuel => if size <? n then grow fuel (2 * size) n else size
  end.
Definition treeSize (n : Z) : Z := grow 32 MinLeaves n.

Definition zeroSalt : bytes := repeat 0 32.
Definition zeroEntry : Entry := mkEntry [] 0 zeroSalt.

Fixpoint checkLeaves (seen : gset bytes) (leaves : list Leaf) : result (list Entry) :=
  match leaves with
  | [] => Ok []
  | l :: leaves =>
      refuse beqb (l_AID l) []
        with Errf "liabtree: an account has the empty AID, which marks a padding leaf";
      refuse bool_decide (l_AID l ∈ seen) with Errf "liabtree: account appears twice";
      entries ← checkLeaves ({[ l_AID l ]} ∪ seen) leaves;
      Ok (mkEntry (l_AID l) (l_Balance l) zeroSalt :: entries)
  end.

(** One level up. *)
Fixpoint nextLevel (cur : list Node) : result (list Node) :=
  match cur with
  | l :: r :: cur =>
      sum ← of_option (addSum (n_Sum l) (n_Sum r)) ErrOverflow;
      next ← nextLevel cur;
      Ok (mkNode (NodeHash l r) sum :: next)
  | _ => Ok []
  end.

(** The levels from [cur] up to the root; a level of [n] nodes has fewer than [n] above it. *)
Fixpoint buildLevels (fuel : nat) (cur : list Node) : result (list (list Node)) :=
  match fuel with
  | O => Ok [cur]
  | S fuel =>
      if 1 <? len cur then
        next ← nextLevel cur;
        levels ← buildLevels fuel next;
        Ok (cur :: levels)
      else Ok [cur]
  end.

Fixpoint hashLeaves (toDay : Z) (entries : list Entry) : result (list Node) :=
  match entries with
  | [] => Ok []
  | e :: entries =>
      h ← LeafHash (e_AID e) toDay (e_Balance e) (e_Salt e);
      leaves ← hashLeaves toDay entries;
      Ok (mkNode h (e_Balance e) :: leaves)
  end.

Fixpoint positions (i : nat) (entries : list Entry) (pos : gmap bytes nat) : gmap bytes nat :=
  match entries with
  | [] => pos
  | e :: entries => positions (S i) entries (if Padding e then pos else <[e_AID e := i]> pos)
  end.

Definition build (toDay : Z) (entries : list Entry) : result Tree :=
  leaves ← hashLeaves toDay entries;
  levels ← buildLevels (length leaves) leaves;
  Ok (mkTree toDay entries levels (positions 0 entries ∅)).

Definition Build (leaves : list Leaf) (toDay : Z) (rand : bytes) : result Tree :=
  refuse (2 ^ MaxDepth <? len leaves) with Errf "liabtree: too many accounts";
  let size := Z.to_nat (treeSize (len leaves)) in
  entries ← checkLeaves ∅ leaves;
  let entries := entries ++ repeat zeroEntry (size - length leaves) in
  '(entries, rand) ← shuffle (size - 1) entries rand;
  '(entries, rand) ← salts entries rand;
  build toDay entries.

Fixpoint checkEntries (seen : gset bytes) (entries : list Entry) : result unit :=
  match entries with
  | [] => Ok tt
  | e :: entries =>
      if Padding e then
        refuse negb (e_Balance e =? 0) with Errf "liabtree: a padding leaf has a balance; padding is 0";
        checkEntries seen entries
      else
        refuse bool_decide (e_AID e ∈ seen) with Errf "liabtree: account appears twice";
        checkEntries ({[ e_AID e ]} ∪ seen) entries
  end.

Definition Rebuild (toDay : Z) (entries : list Entry) : result Tree :=
  let n := len entries in
  refuse (n <? MinLeaves) || (2 ^ MaxDepth <? n) || negb (Z.land n (n - 1) =? 0)
    with Errf "liabtree: a tree has a power of two of leaves";
  _ ← checkEntries ∅ entries;
  build toDay entries.

(** ** Reading a tree *)

Definition Depth (t : Tree) : Z := len (t_levels t) - 1.
Definition rootNode (t : Tree) : result Node :=
  top ← of_option (last (t_levels t)) Panic;
  of_option (head top) Panic.
Definition Root (t : Tree) : result bytes := n ← rootNode t; Ok (n_Hash n).
Definition Outstanding (t : Tree) : result Z := n ← rootNode t; Ok (n_Sum n).

(** The path of index [i]: its sibling on every level but the last. *)
Fixpoint pathAt (levels : list (list Node)) (i : nat) : result (list Step) :=
  match levels with
  | level :: ((_ :: _) as levels) =>
      let '(sib, side) := if Nat.odd i then ((i - 1)%nat, Left) else ((i + 1)%nat, Right) in
      n ← of_option (level !! sib) Panic;
      path ← pathAt levels (Nat.div i 2);
      Ok (mkStep (n_Hash n) (n_Sum n) side :: path)
  | _ => Ok []
  end.

Definition proofAt (t : Tree) (i : nat) : result Proof :=
  e ← of_option (t_entries t !! i) Panic;
  path ← pathAt (t_levels t) i;
  Ok (mkProof (e_AID e) (t_toDay t) (e_Balance e) (e_Salt e) path).

Definition ProofOf (t : Tree) (aid : bytes) : result (option Proof) :=
  match t_pos t !! aid with
  | Some i => if beqb aid [] then Ok None else p ← proofAt t i; Ok (Some p)
  | None => Ok None
  end.

(** ** Checking a proof *)

Fixpoint foldPath (cur : Node) (path : list Step) : result Node :=
  match path with
  | [] => Ok cur
  | s :: path =>
      sum ← of_option (addSum (n_Sum cur) (s_Sum s)) ErrOverflow;
      let sib := mkNode (s_Hash s) (s_Sum s) in
      if s_Side s =? Left then foldPath (mkNode (NodeHash sib cur) sum) path
      else if s_Side s =? Right then foldPath (mkNode (NodeHash cur sib) sum) path
      else Err ErrMalformed
  end.

Definition fold (p : Proof) : result Node :=
  h ← map_err (λ _, ErrMalformed) (LeafHash (pf_AID p) (pf_ToDay p) (pf_Balance p) (pf_Salt p));
  foldPath (mkNode h (pf_Balance p)) (pf_Path p).

Definition Verify (p : Proof) (root : bytes) (outstanding depth : Z) : result unit :=
  refuse (depth <? MinDepth) || (MaxDepth <? depth) with ErrMalformed;
  refuse negb (len (pf_Path p) =? depth) with ErrMalformed;
  refuse beqb (pf_AID p) [] with ErrMalformed;
  refuse (MaxSum <? outstanding) with ErrOverflow;
  top ← fold p;
  refuse negb (beqb (n_Hash top) root) with ErrRoot;
  refuse negb (n_Sum top =? outstanding) with ErrSum;
  Ok tt.
End Liabtree.

(** ** The wire form *)

Record WireStep := mkWireStep { ws_H : bytes; ws_Sum : Z; ws_Side : bytes }.
Record WireProof := mkWireProof {
  wpf_ToDay : Z;
  wpf_AID : bytes;
  wpf_Balance : Z;
  wpf_Salt : bytes;
  wpf_Path : list WireStep;
}.

Definition hexDigits : bytes := str "0123456789abcdef".
Definition hexDigit (v : Z) : Z := nth (Z.to_nat v) hexDigits 0.

(** [Hex]: the two digits of each byte. *)
Definition Hex (b : bytes) : bytes :=
  flat_map (λ c, [hexDigit (Z.shiftr c 4); hexDigit (Z.land c 15)]) b.

Definition hexValue (c : Z) : option Z :=
  if (48 <=? c) && (c <=? 57) then Some (c - 48)
  else if (97 <=? c) && (c <=? 102) then Some (c - 97 + 10)
  else None.

(** The loop of [ParseHex], two characters at a time: [out<<4 | v] in a byte. *)
Fixpoint parseHexPairs (s : bytes) : result bytes :=
  match s with
  | a :: b :: s =>
      v ← of_option (hexValue a) ErrMalformed;
      w ← of_option (hexValue b) ErrMalformed;
      out ← parseHexPairs s;
      Ok (Z.lor (Z.land (Z.shiftl (Z.lor 0 v) 4) 255) w :: out)
  | _ => Ok []
  end.

Definition ParseHex (s : bytes) : result bytes :=
  refuse negb (len s =? 64) with ErrMalformed;
  parseHexPairs s.

(** [string(rune(side))]: a byte below 128 is one byte, another one is two bytes of UTF-8. *)
Definition rune_string (c : Z) : bytes :=
  if c <? 128 then [c] else [192 + c / 64; 128 + c mod 64].

Definition Wire (p : Proof) : WireProof :=
  mkWireProof (pf_ToDay p) (pf_AID p) (pf_Balance p) (Hex (pf_Salt p))
    (map (λ s, mkWireStep (Hex (s_Hash s)) (s_Sum s) (rune_string (s_Side s))) (pf_Path p)).

Fixpoint parseSteps (path : list WireStep) : result (list Step) :=
  match path with
  | [] => Ok []
  | s :: path =>
      h ← map_err (Wrap "path step") (ParseHex (ws_H s));
      side ← (if beqb (ws_Side s) [Left] then Ok Left
              else if beqb (ws_Side s) [Right] then Ok Right
              else Err ErrMalformed);
      rest ← parseSteps path;
      Ok (mkStep h (ws_Sum s) side :: rest)
  end.

Definition Parse (w : WireProof) : result Proof :=
  refuse (MaxDepth <? len (wpf_Path w)) with ErrMalformed;
  salt ← map_err (Wrap "salt") (ParseHex (wpf_Salt w));
  path ← parseSteps (wpf_Path w);
  Ok (mkProof (wpf_AID w) (wpf_ToDay w) (wpf_Balance w) salt path).
