(* ===== verification/LiabtreeFacts.v ===== *)
(** * LiabtreeFacts: lemmas about the liabilities tree *)

From S2P Require Import Prelude Platform Liabtree.

Definition sum (l : list Z) : Z := fold_right Z.add 0 l.

Lemma sum_app l k : sum (l ++ k) = sum l + sum k.
Proof. unfold sum. induction l as [|a l IH]; simpl; lia. Qed.

Lemma sum_Permutation l k : l ≡ₚ k → sum l = sum k.
Proof. unfold sum. induction 1; simpl; lia. Qed.

Lemma sum_zeros n : sum (repeat 0 n) = 0.
Proof. induction n as [|n IH]; simpl; [done|]. fold (sum (repeat 0 n)). lia. Qed.

Lemma addSum_Some a b s :
  0 <= a → 0 <= b → addSum a b = Some s ↔ s = a + b ∧ a + b <= MaxSum.
Proof.
  unfold addSum, MaxSum, MaxInt64, u64, two63, two64. intros Ha Hb.
  destruct (Z.ltb_spec (9223372036854775808 - 1) a), (Z.ltb_spec (9223372036854775808 - 1) b); simpl;
    [split; [done|lia]..|].
  rewrite Z.mod_small by lia.
  destruct (Z.ltb_spec (9223372036854775808 - 1) (a + b)); simpl; (split; [|intros [-> ?]]); try done;
    [lia|intros [= <-]; lia].
Qed.

Lemma addSum_comm a b : addSum a b = addSum b a.
Proof. unfold addSum. rewrite (Z.add_comm b a). f_equal. by destruct (MaxSum <? a), (MaxSum <? b). Qed.

(** ** Powers of two *)

Lemma land_pred_pow2 n : 0 < n → Z.land n (n - 1) = 0 → ∃ d : nat, n = 2 ^ Z.of_nat d.
Proof.
  intros Hn H. exists (Z.to_nat (Z.log2 n)). pose proof (Z.log2_nonneg n) as Hl.
  rewrite Z2Nat.id by done. pose proof (Z.log2_spec n Hn) as [H1 H2].
  destruct (decide (n = 2 ^ Z.log2 n)) as [|Hne]; [done|exfalso].
  assert (Z.testbit (Z.land n (n - 1)) (Z.log2 n) = true) as Hb; [|by rewrite H, Z.bits_0 in Hb].
  rewrite Z.land_spec, Z.bit_log2 by done. simpl.
  replace (Z.log2 n) with (Z.log2 (n - 1)); [apply Z.bit_log2; lia|].
  apply Z.log2_unique; [lia|]. lia.
Qed.

Lemma grow_spec fuel (d : nat) n :
  n <= 2 ^ Z.of_nat (d + fuel) →
  ∃ d', (d <= d' <= d + fuel)%nat ∧ grow fuel (2 ^ Z.of_nat d) n = 2 ^ Z.of_nat d' ∧ n <= 2 ^ Z.of_nat d'.
Proof.
  revert d. induction fuel as [|fuel IH]; intros d Hn; simpl.
  - exists d. rewrite Nat.add_0_r in Hn. split; [lia|done].
  - destruct (Z.ltb_spec (2 ^ Z.of_nat d) n) as [Hlt|Hge].
    + destruct (IH (S d)) as (d' & Hd & Hg & Hle); [by rewrite <- plus_n_Sm in Hn|].
      exists d'. split; [lia|]. split; [|done]. rewrite <- Hg. f_equal.
      rewrite Nat2Z.inj_succ, Z.pow_succ_r by lia. done.
    + exists d. split; [lia|done].
Qed.

(** The fuel of [treeSize] is never what stops it. *)
Lemma treeSize_spec n :
  n <= 2 ^ MaxDepth → ∃ d : nat, (4 <= d <= 32)%nat ∧ treeSize n = 2 ^ Z.of_nat d ∧ n <= treeSize n.
Proof.
  intros Hn. unfold treeSize, MinLeaves. change 16 with (2 ^ Z.of_nat 4).
  assert (∃ d' : nat, (4 <= d' <= 36)%nat ∧ grow 32 (2 ^ Z.of_nat 4) n = 2 ^ Z.of_nat d' ∧ n <= 2 ^ Z.of_nat d')
    as (d' & Hd & Hg & Hle).
  { apply (grow_spec 32 4 n). etrans; [exact Hn|]. unfold MaxDepth. simpl. lia. }
  rewrite Hg. destruct (decide (d' <= 32)%nat); [exists d'; lia|exfalso].
  (* a size above 2^32 would mean n is above 2^32 *)
  assert (∀ fuel (d : nat), (d <= 32)%nat → ∃ e : nat, (e <= 32)%nat ∧ grow fuel (2 ^ Z.of_nat d) n = 2 ^ Z.of_nat e) as H.
  { induction fuel as [|fuel IH]; intros d Hd'; simpl; [eauto|].
    destruct (Z.ltb_spec (2 ^ Z.of_nat d) n) as [Hlt|]; [|eauto].
    destruct (IH (S d)) as (e & He & Hge).
    { enough (Z.of_nat d < 32) by lia. apply (Z.pow_lt_mono_r_iff 2); [lia..|]. unfold MaxDepth in Hn. lia. }
    exists e. split; [done|]. rewrite <- Hge. f_equal. rewrite Nat2Z.inj_succ, Z.pow_succ_r by lia. done. }
  destruct (H 32%nat 4%nat) as (e & He & Hge); [lia|]. rewrite Hg in Hge.
  apply Z.pow_inj_r in Hge; lia.
Qed.

(** ** Levels *)

Section Levels.
Context `{P : Platform} `{CL : Coredet leafContent}.

Lemma list_pair_ind {A} (Q : list A → Prop) :
  Q [] → (∀ a, Q [a]) → (∀ a b l, Q l → Q (a :: b :: l)) → ∀ l, Q l.
Proof.
  intros H0 H1 H2. fix IH 1. intros [|a [|b l]]; [done|apply H1|]. apply H2, IH.
Qed.

Definition sums (l : list Node) : Z := sum (map n_Sum l).
Definition nonneg (l : list Node) : Prop := Forall (λ n, 0 <= n_Sum n) l.

(** A level and the one above it: half as many nodes, each over two, with the same total. *)
Lemma nextLevel_spec cur next d :
  nonneg cur → length cur = (2 * d)%nat → nextLevel cur = Ok next →
  length next = d ∧ nonneg next ∧ sums next = sums cur ∧
  ∀ j, (j < d)%nat → ∃ l r s,
    cur !! (2 * j)%nat = Some l ∧ cur !! (2 * j + 1)%nat = Some r ∧
    addSum (n_Sum l) (n_Sum r) = Some s ∧ next !! j = Some (mkNode (NodeHash l r) s).
Proof.
  revert next d. induction cur as [|a|l r cur IH] using list_pair_ind; intros next d Hn Hl H.
  - simpl in H, Hl. simplify_eq. assert (d = 0%nat) as -> by lia. split_and!; try done. lia.
  - simpl in Hl. lia.
  - cbn [nextLevel] in H. go_inv. destruct d as [|d]; [simpl in Hl; lia|].
    apply Forall_cons in Hn as [Hl0 Hn]. apply Forall_cons in Hn as [Hr0 Hn].
    match goal with N : nextLevel cur = Ok ?y |- _ =>
      destruct (IH y d Hn) as (K1 & K2 & K3 & K4); [simpl in Hl; lia|done|] end.
    match goal with A : addSum _ _ = Some _ |- _ => pose proof A as Ha; apply addSum_Some in A as [-> Hle]; [|done..] end.
    split_and!.
    + simpl. by rewrite K1.
    + constructor; [simpl; lia|done].
    + unfold sums in *. simpl. rewrite K3. simpl. unfold sum. simpl. lia.
    + intros [|j] Hj; [by eauto 10|].
      destruct (K4 j) as (l' & r' & s & Hl' & Hr' & Hs & Hx); [lia|].
      exists l', r', s. replace (2 * S j)%nat with (S (S (2 * j))) by lia.
      by replace (S (S (2 * j)) + 1)%nat with (S (S (2 * j + 1))) by lia.
Qed.

Lemma pathAt_cons level levels i :
  levels ≠ [] →
  pathAt (level :: levels) i =
    let '(sib, side) := if Nat.odd i then ((i - 1)%nat, Left) else ((i + 1)%nat, Right) in
    n ← of_option (level !! sib) Panic;
    path ← pathAt levels (Nat.div i 2);
    Ok (mkStep (n_Hash n) (n_Sum n) side :: path).
Proof. by destruct levels. Qed.

(** A level of [2^d] nodes: [d] levels above it, one root that holds the total, and from every node a
    path that folds to the root. *)
Lemma buildLevels_spec d fuel cur levels :
  nonneg cur → length cur = (2 ^ d)%nat → (d <= fuel)%nat → buildLevels fuel cur = Ok levels →
  length levels = S d ∧
  ∃ root, last levels = Some [root] ∧ n_Sum root = sums cur ∧
    ∀ i n, cur !! i = Some n →
      ∃ path, pathAt levels i = Ok path ∧ length path = d ∧ foldPath n path = Ok root.
Proof.
  revert fuel cur levels. induction d as [|d IH]; intros fuel cur levels Hn Hl Hf H.
  - destruct cur as [|n [|]]; simpl in Hl; try lia.
    assert (levels = [[n]]) as -> by (by destruct fuel; simpl in H; simplify_eq).
    split; [done|]. exists n. split_and!; [done|unfold sums, sum; simpl; lia|].
    intros [|i] n' E; simplify_eq/=. by exists [].
  - destruct fuel as [|fuel]; [lia|]. cbn [buildLevels] in H.
    assert (0 < 2 ^ d)%nat as Hpos by (pose proof (Nat.pow_nonzero 2 d); lia).
    rewrite (proj2 (Z.ltb_lt 1 (len cur))) in H by (unfold len; rewrite Hl; simpl; lia).
    go_inv. match goal with N : nextLevel cur = Ok ?nx, B : buildLevels fuel ?nx = Ok ?lv |- _ =>
      destruct (nextLevel_spec cur nx (2 ^ d)%nat Hn) as (K1 & K2 & K3 & K4); [rewrite Hl; simpl; lia|done|];
      destruct (IH fuel nx lv K2 K1) as (K5 & root & K6 & K7 & K8); [lia|done|] end.
    split; [simpl; by rewrite K5|]. exists root. split_and!.
    + match goal with |- last (_ :: ?lv) = _ => by destruct lv end.
    + congruence.
    + intros i n Hi. assert (i / 2 < 2 ^ d)%nat as Hlt.
      { apply Nat.Div0.div_lt_upper_bound. apply lookup_lt_Some in Hi. rewrite Hl in Hi. simpl in Hi. lia. }
      destruct (K4 _ Hlt) as (l & r & s & Hcl & Hcr & Hs & Hx).
      destruct (K8 _ _ Hx) as (path & Hp & Hpl & Hf').
      pose proof (Nat.div_mod_eq i 2) as Hdm. pose proof (Nat.mod_upper_bound i 2) as Hmb.
      rewrite pathAt_cons by (by intros ->). destruct (Nat.odd i) eqn:Ho.
      * assert (i mod 2 = 1)%nat as Hm1.
        { apply Nat.odd_spec in Ho as [k ->]. rewrite Nat.add_comm, Nat.mul_comm.
          by rewrite Nat.Div0.mod_add. }
        assert (i - 1 = 2 * (i / 2))%nat as -> by lia. rewrite Hcl.
        assert (i = 2 * (i / 2) + 1)%nat as Hie by lia.
        rewrite Hie, Hcr in Hi. injection Hi as ->. cbn [of_option mbind result_bind]. rewrite Hp.
        eexists. split; [done|]. split; [simpl; by rewrite Hpl|]. cbn [foldPath s_Side s_Sum s_Hash].
        rewrite addSum_comm, Hs. by destruct l.
      * assert (i mod 2 = 0)%nat as Hm0.
        { rewrite <- Nat.negb_even in Ho. apply negb_false_iff, Nat.even_spec in Ho as [k ->].
          rewrite Nat.mul_comm. apply Nat.Div0.mod_mul. }
        assert (i + 1 = 2 * (i / 2) + 1)%nat as -> by lia. rewrite Hcr.
        assert (i = 2 * (i / 2))%nat as Hie by lia.
        rewrite Hie, Hcl in Hi. injection Hi as ->. cbn [of_option mbind result_bind]. rewrite Hp.
        eexists. split; [done|]. split; [simpl; by rewrite Hpl|]. cbn [foldPath s_Side s_Sum s_Hash].
        rewrite Hs. by destruct r.
Qed.
End Levels.

(** ** The shuffle *)

Lemma insert_other_Permutation {A} (l : list A) i x y :
  l !! i = Some x → y :: l ≡ₚ x :: <[i:=y]> l.
Proof.
  revert i. induction l as [|a l IH]; intros [|i] H; simplify_eq/=; [apply Permutation_swap|].
  rewrite Permutation_swap, (IH _ H). apply Permutation_swap.
Qed.

Lemma swap_Permutation {A} i j (l : list A) : swap i j l ≡ₚ l.
Proof.
  unfold swap. destruct (l !! i) as [x|] eqn:Hi; [|done]. destruct (l !! j) as [y|] eqn:Hj; [|done].
  apply (Permutation_cons_inv (a := x)).
  assert ((<[j:=x]> l) !! i = Some x) as Hi'.
  { destruct (decide (i = j)) as [->|]; [apply list_lookup_insert_eq; by eapply lookup_lt_Some|].
    by rewrite list_lookup_insert_ne. }
  rewrite <- (insert_other_Permutation _ _ _ y Hi'). symmetry. by apply insert_other_Permutation.
Qed.

Lemma shuffle_Permutation i es rand es' rand' : shuffle i es rand = Ok (es', rand') → es' ≡ₚ es.
Proof.
  revert es rand. induction i as [|i IH]; intros es rand H; cbn [shuffle] in H; [by simplify_eq|].
  go_inv. destruct x as [j r]. apply IH in H. by rewrite H, swap_Permutation.
Qed.

Definition account (e : Entry) : bytes * Z := (e_AID e, e_Balance e).

Lemma salts_spec es rand es' rand' :
  salts es rand = Ok (es', rand') →
  map account es' = map account es ∧ Forall (λ e, length (e_Salt e) = 32%nat) es'.
Proof.
  revert rand es'. induction es as [|e es IH]; intros rand es' H; cbn [salts] in H; [by simplify_eq|].
  go_inv. destruct x as [salt r]. go_inv. destruct x as [es2 r2]. go_inv. simplify_eq.
  match goal with S : salts _ _ = _ |- _ => apply IH in S as [E F] end.
  split; [simpl; by rewrite E|]. constructor; [|done]. simpl.
  match goal with R : ReadFull _ _ = _ |- _ => unfold ReadFull in R; case_match; simplify_eq end.
  rewrite length_take. match goal with L : (_ <? _)%nat = false |- _ => apply Nat.ltb_ge in L end. lia.
Qed.

(** ** The accounts of a tree *)

Definition accounts (es : list Entry) : list bytes := filter (λ a, a ≠ []) (map e_AID es).

Lemma accounts_cons e es :
  accounts (e :: es) = if Padding e then accounts es else e_AID e :: accounts es.
Proof.
  unfold accounts, Padding, beqb. cbn [map]. rewrite filter_cons. case_bool_decide; case_decide; done.
Qed.

Lemma accounts_elem es a : a ∈ accounts es ↔ a ≠ [] ∧ ∃ e, e ∈ es ∧ e_AID e = a.
Proof.
  unfold accounts. rewrite list_elem_of_filter, list_elem_of_fmap. naive_solver.
Qed.

Lemma accounts_Permutation es es' :
  map account es ≡ₚ map account es' → accounts es ≡ₚ accounts es'.
Proof.
  intros H. unfold accounts. apply (Permutation_map fst) in H. rewrite !map_map in H. by rewrite H.
Qed.

Lemma positions_notin k es pos a : a ∉ accounts es → positions k es pos !! a = pos !! a.
Proof.
  revert k pos. induction es as [|e es IH]; intros k pos Ha; [done|].
  rewrite accounts_cons in Ha. simpl. destruct (Padding e); [by apply IH|].
  apply not_elem_of_cons in Ha as [Hne Ha]. rewrite IH by done. by rewrite lookup_insert_ne.
Qed.

Lemma positions_lookup k es pos i e :
  NoDup (accounts es) → es !! i = Some e → Padding e = false →
  positions k es pos !! e_AID e = Some (k + i)%nat.
Proof.
  revert k pos i. induction es as [|e0 es IH]; intros k pos i Hn Hi Hp; [done|].
  rewrite accounts_cons in Hn. destruct i as [|i]; simplify_eq/=.
  - rewrite Hp in *. apply NoDup_cons in Hn as [Hn _]. rewrite positions_notin by done.
    rewrite lookup_insert_eq. f_equal. lia.
  - replace (k + S i)%nat with (S k + i)%nat by lia. apply IH; [|done..].
    destruct (Padding e0); [done|]. by apply NoDup_cons in Hn as [_ ?].
Qed.

Lemma checkLeaves_spec seen leaves es :
  checkLeaves seen leaves = Ok es →
  map account es = map (λ l, (l_AID l, l_Balance l)) leaves ∧
  NoDup (accounts es) ∧ (∀ a, a ∈ accounts es → a ∉ seen) ∧
  Forall (λ l, l_AID l ≠ []) leaves.
Proof.
  revert seen es. induction leaves as [|l leaves IH]; intros seen es H; cbn [checkLeaves] in H.
  - simplify_eq. split_and!; try done; [by apply NoDup_nil|by intros a ?%elem_of_nil].
  - go_inv. match goal with C : checkLeaves _ _ = Ok _ |- _ => apply IH in C as (E & N & S & F) end.
    match goal with B : bool_decide _ = false |- _ => apply bool_decide_eq_false in B as Hns end.
    match goal with B : l_AID l ≠ [] |- _ => rename B into Hne end.
    rewrite accounts_cons. unfold Padding. simpl. rewrite (proj2 (beqb_false _ _)) by done.
    split_and!; [by rewrite E| | |by constructor].
    + apply NoDup_cons. split; [|done]. intros Hin%S. set_solver.
    + intros a [->|Hin]%elem_of_cons; [done|]. apply S in Hin. set_solver.
Qed.

Lemma checkEntries_spec seen es :
  checkEntries seen es = Ok tt →
  NoDup (accounts es) ∧ (∀ a, a ∈ accounts es → a ∉ seen) ∧
  Forall (λ e, e_AID e = [] → e_Balance e = 0) es.
Proof.
  revert seen. induction es as [|e es IH]; intros seen H; cbn [checkEntries] in H.
  - split_and!; [by apply NoDup_nil|by intros a ?%elem_of_nil|done].
  - rewrite accounts_cons. destruct (Padding e) eqn:Hp; unfold Padding in Hp; go_inv.
    + apply IH in H as (N & S & F). split_and!; [done..|]. by constructor.
    + apply IH in H as (N & S & F).
      match goal with B : bool_decide _ = false |- _ => apply bool_decide_eq_false in B as Hns end.
      split_and!; [| |by constructor].
      * apply NoDup_cons. split; [|done]. intros Hin%S. set_solver.
      * intros a [->|Hin]%elem_of_cons; [done|]. apply S in Hin. set_solver.
Qed.
