(* ===== verification/LiabtreeTheorems.v ===== *)
(** * LiabtreeTheorems: the properties of the liabilities tree

    Every account finds a proof that verifies; proofs that verify against one root bind the hub to
    at least the sum of their balances; the wire form is a bijection. *)

From S2P Require Import Prelude Aid Cbor Platform KelReference Liabtree LiabtreeFacts.
Import Light.

Section Completeness.
Context `{P : Platform} `{CL : Coredet leafContent}.

Lemma hashLeaves_spec toDay es leaves :
  hashLeaves toDay es = Ok leaves →
  map n_Sum leaves = map e_Balance es ∧
  ∀ i e, es !! i = Some e →
    ∃ h, LeafHash (e_AID e) toDay (e_Balance e) (e_Salt e) = Ok h ∧
         leaves !! i = Some (mkNode h (e_Balance e)).
Proof.
  revert leaves. induction es as [|e es IH]; intros leaves H; cbn [hashLeaves] in H.
  - simplify_eq. done.
  - go_inv. match goal with L : hashLeaves _ _ = Ok _ |- _ => apply IH in L as [E F] end.
    split; [simpl; by rewrite E|]. intros [|i] e' Hi; simplify_eq/=; eauto.
Qed.

Lemma addSum_le a b s : addSum a b = Some s → s <= MaxSum.
Proof. unfold addSum. repeat case_match; intros [= <-]. go_inv. lia. Qed.

Lemma foldPath_le n path r : path ≠ [] → foldPath n path = Ok r → n_Sum r <= MaxSum.
Proof.
  revert n. induction path as [|s path IH]; intros n Hne H; [done|]. cbn [foldPath] in H. go_inv.
  match goal with A : addSum _ _ = Some _ |- _ => apply addSum_le in A as Hle end.
  destruct (decide (path = [])) as [->|Hp]; [|by repeat case_match; eauto].
  repeat case_match; simpl in H; by simplify_eq.
Qed.

(** Above the leaves every hash is of SHA-256. *)
Lemma foldPath_hash n path r : path ≠ [] → foldPath n path = Ok r → ∃ m, n_Hash r = sha256 m.
Proof.
  revert n. induction path as [|s path IH]; intros n Hne H; [done|]. cbn [foldPath] in H. go_inv.
  destruct (decide (path = [])) as [->|Hp]; [|by repeat case_match; eauto].
  repeat case_match; simpl in H; simplify_eq; eexists; reflexivity.
Qed.

(** The tree [build] makes of well-formed entries. *)
Lemma build_spec toDay es t (d : nat) :
  build toDay es = Ok t → NoDup (accounts es) → Forall (λ e, 0 <= e_Balance e) es →
  length es = (2 ^ d)%nat → (4 <= d <= 32)%nat →
  t_entries t = es ∧ Depth t = Z.of_nat d ∧
  ∃ root, rootNode t = Ok root ∧ n_Sum root = sum (map e_Balance es) ∧ n_Sum root <= MaxSum ∧ (∃ m, n_Hash root = sha256 m) ∧
    ∀ e, e ∈ es → e_AID e ≠ [] →
      ∃ p, ProofOf t (e_AID e) = Ok (Some p) ∧ pf_AID p = e_AID e ∧ pf_Balance p = e_Balance e ∧
        Verify p (n_Hash root) (n_Sum root) (Depth t) = Ok tt.
Proof.
  intros H Hnd Hb Hl Hd. unfold build in H. go_inv.
  match goal with L : hashLeaves _ _ = Ok ?lv, B : buildLevels _ ?lv = Ok ?ls |- _ =>
    apply hashLeaves_spec in L as [Hs Hlk]; rename B into Hbl; rename ls into levels; rename lv into leaves end.
  assert (length leaves = length es) as Hll by (apply (f_equal length) in Hs; by rewrite !length_map in Hs).
  assert (nonneg leaves) as Hnn.
  { unfold nonneg. apply (Forall_map n_Sum (λ z, 0 <= z)). rewrite Hs. by apply Forall_map. }
  destruct (buildLevels_spec d (length leaves) leaves levels Hnn) as (Hdl & root & Hlast & Hrs & Hpath);
    [congruence| |done|].
  { rewrite Hll, Hl. clear. induction d as [|d IH]; simpl; [lia|]. pose proof (Nat.pow_nonzero 2 d). lia. }
  assert (sums leaves = sum (map e_Balance es)) as Hsum by (unfold sums; by rewrite Hs).
  assert (Depth (mkTree toDay es levels (positions 0 es ∅)) = Z.of_nat d) as Hdep.
  { unfold Depth, len. simpl. rewrite Hdl. lia. }
  assert (0 < 2 ^ d)%nat as Hpos by (pose proof (Nat.pow_nonzero 2 d); lia).
  split; [done|]. split; [exact Hdep|]. exists root. unfold rootNode. simpl. rewrite Hlast. split; [done|].
  assert (n_Sum root <= MaxSum ∧ ∃ m, n_Hash root = sha256 m) as [Hmax Hhash].
  { destruct (lookup_lt_is_Some_2 leaves 0%nat) as [n0 Hn0]; [lia|].
    destruct (Hpath _ _ Hn0) as (path & _ & Hpl & Hf). assert (path ≠ []) as Hne by (intros ->; simpl in Hpl; lia).
    split; [by eapply foldPath_le|by eapply foldPath_hash]. }
  split; [congruence|]. split; [done|]. split; [done|]. intros e He Hne.
  apply list_elem_of_lookup_1 in He as [i Hi]. destruct (Hlk _ _ Hi) as (h & Hh & Hn).
  destruct (Hpath _ _ Hn) as (path & Hp & Hpl & Hf).
  assert (Padding e = false) as Hpad by (by apply beqb_false).
  unfold ProofOf. cbn [t_pos t_entries t_levels t_toDay].
  rewrite (positions_lookup 0 es ∅ i e) by done.
  rewrite (proj2 (beqb_false _ _) Hne). unfold proofAt. cbn [t_entries t_levels t_toDay Nat.add].
  rewrite Hi. cbn [of_option mbind result_bind]. rewrite Hp. cbn [mbind result_bind].
  eexists. split; [done|]. cbn [pf_AID pf_Balance]. split; [done|]. split; [done|].
  unfold Verify, MinDepth, MaxDepth. rewrite Hdep. cbn [pf_Path pf_AID].
  rewrite !(proj2 (Z.ltb_ge _ _)) by lia. unfold len. rewrite Hpl, Z.eqb_refl. cbn [negb orb].
  rewrite (proj2 (beqb_false _ _) Hne). unfold fold.
  cbn [pf_AID pf_Balance pf_ToDay pf_Salt pf_Path]. rewrite Hh. cbn [map_err mbind result_bind].
  rewrite Hf. cbn [mbind result_bind]. by rewrite beqb_refl, Z.eqb_refl.
Qed.

Lemma sum_accounts l k : map account l ≡ₚ map account k → sum (map e_Balance l) = sum (map e_Balance k).
Proof.
  intros H. apply (Permutation_map snd) in H. rewrite !map_map in H. by apply sum_Permutation.
Qed.

(** What [Build] hands to [build]: the accounts, padded, in some order, salted. *)
Lemma Build_entries leaves toDay rand t :
  Build leaves toDay rand = Ok t →
  ∃ es (d : nat), build toDay es = Ok t ∧ (4 <= d <= 32)%nat ∧ length es = (2 ^ d)%nat ∧
    (length leaves <= 2 ^ d)%nat ∧ NoDup (accounts es) ∧ Forall (λ l, l_AID l ≠ []) leaves ∧
    map account es ≡ₚ map (λ l, (l_AID l, l_Balance l)) leaves ++ repeat ([], 0) (2 ^ d - length leaves).
Proof.
  intros H. unfold Build in H. apply refuse_Ok in H as [Hlen%Z.ltb_ge H].
  destruct (treeSize_spec (len leaves) Hlen) as (d & Hd & Hsz & Hle). go_inv.
  repeat match goal with E : match ?x with (_, _) => _ end = Ok _ |- _ => destruct x; go_inv end.
  match goal with C : checkLeaves _ _ = Ok _ |- _ => apply checkLeaves_spec in C as (E & N & _ & F) end.
  match goal with S : shuffle _ _ _ = Ok _ |- _ => apply shuffle_Permutation in S as Hp end.
  match goal with S : salts _ _ = Ok _ |- _ => apply salts_spec in S as [Hac _] end.
  match goal with B : build _ ?es = Ok t |- _ => exists es, d; rename es into fin end.
  assert (Z.to_nat (treeSize (len leaves)) = (2 ^ d)%nat) as Hn.
  { rewrite Hsz, <- (Nat2Z.id (2 ^ d)), Nat2Z.inj_pow. done. }
  rewrite Hn in *.
  assert (length leaves <= 2 ^ d)%nat as Hfit.
  { rewrite Hsz in Hle. unfold len in Hle. apply Nat2Z.inj_le. rewrite Nat2Z.inj_pow. done. }
  assert (map account fin ≡ₚ map (λ l, (l_AID l, l_Balance l)) leaves ++ repeat ([], 0) (2 ^ d - length leaves))
    as Hperm.
  { rewrite Hac, (Permutation_map account Hp), map_app, E. f_equiv. by rewrite map_repeat. }
  split_and!; try done; try lia.
  - apply Permutation_length in Hperm. rewrite length_app, !length_map, repeat_length in Hperm. lia.
  - assert (accounts fin ≡ₚ accounts x) as ->; [|done].
    etrans; [apply (accounts_Permutation _ (x ++ repeat zeroEntry (2 ^ d - length leaves)))|].
    + rewrite Hac. apply (Permutation_map account Hp).
    + unfold accounts. rewrite map_app, filter_app, map_repeat.
      replace (filter (λ a, a ≠ []) (repeat (e_AID zeroEntry) _)) with (@nil bytes); [by rewrite app_nil_r|].
      generalize (2 ^ d - length leaves)%nat as k. clear. intros k.
      induction k as [|k IH]; [done|]. cbn [repeat]. rewrite filter_cons.
      rewrite decide_False by (intros Hx; by apply Hx). exact IH.
Qed.
End Completeness.

(** ** Soundness *)

Section Soundness.
Context `{P : Platform} `{CL : Coredet leafContent}.

(** The inputs a proof's check hashes. *)
Definition nodeInput (l r : Node) : bytes :=
  nodeLabel ++ [0] ++ n_Hash l ++ u64be (n_Sum l) ++ n_Hash r ++ u64be (n_Sum r).
Definition leafInput (p : Proof) : option bytes :=
  content ← marshal (mkLeafContent (pf_AID p) (pf_ToDay p) (pf_Balance p));
  Some (leafLabel ++ [0] ++ pf_Salt p ++ content).

(** The node a step leads to, and what is hashed there. *)
Definition stepInput (cur : Node) (s : Step) : bytes :=
  let sib := mkNode (s_Hash s) (s_Sum s) in
  if s_Side s =? Left then nodeInput sib cur else nodeInput cur sib.
Definition stepNode (cur : Node) (s : Step) : Node :=
  mkNode (sha256 (stepInput cur s)) (n_Sum cur + s_Sum s).
Fixpoint pathInputs (cur : Node) (path : list Step) : list bytes :=
  match path with
  | [] => []
  | s :: path => stepInput cur s :: pathInputs (stepNode cur s) path
  end.
Definition inputs (p : Proof) : list bytes :=
  match leafInput p with
  | Some i => i :: pathInputs (mkNode (sha256 i) (pf_Balance p)) (pf_Path p)
  | None => []
  end.

(** The sizes Go's types give the fields. *)
Definition node_wf (n : Node) : Prop := length (n_Hash n) = 32%nat ∧ is_u64 (n_Sum n).
Definition step_wf (s : Step) : Prop := length (s_Hash s) = 32%nat ∧ is_u64 (s_Sum s).
Definition proof_wf (p : Proof) : Prop :=
  length (pf_Salt p) = 32%nat ∧ is_u64 (pf_Balance p) ∧ Forall step_wf (pf_Path p).

Lemma nodeInput_inj l r l' r' :
  node_wf l → node_wf r → node_wf l' → node_wf r' → nodeInput l r = nodeInput l' r' → l = l' ∧ r = r'.
Proof.
  intros [H1 U1] [H2 U2] [H3 U3] [H4 U4] H. unfold nodeInput in H. apply app_inv_head in H.
  apply app_inv_head in H. apply app_inj_len in H as [E1 H]; [|congruence].
  apply app_inj_len in H as [E2 H]; [|by rewrite !length_u64be].
  apply app_inj_len in H as [E3 H]; [|congruence]. apply u64be_inj in E2, H; [|done..].
  destruct l, r, l', r'; simpl in *; by subst.
Qed.

(** One step of [foldPath]. *)
Lemma foldPath_step cur s path top :
  node_wf cur → step_wf s → foldPath cur (s :: path) = Ok top →
  (s_Side s = Left ∨ s_Side s = Right) ∧ n_Sum cur + s_Sum s <= MaxSum ∧
  foldPath (stepNode cur s) path = Ok top.
Proof.
  intros [_ [U1 _]] [_ [U2 _]] H. cbn [foldPath] in H. go_inv.
  match goal with A : addSum _ _ = Some _ |- _ => apply addSum_Some in A as [-> Hle]; [|done..] end.
  unfold stepNode, stepInput. unfold NodeHash, nodeInput in *.
  destruct (Z.eqb_spec (s_Side s) Left) as [Es|]; [by auto|].
  destruct (Z.eqb_spec (s_Side s) Right) as [Es|]; [by auto|done].
Qed.

Lemma stepNode_wf `{!PlatformLaws P} cur s :
  node_wf cur → step_wf s → n_Sum cur + s_Sum s <= MaxSum → node_wf (stepNode cur s).
Proof.
  intros [_ [U1 _]] [_ [U2 _]] Hle. split; [apply sha256_length|].
  unfold is_u64, MaxSum, MaxInt64, two63, two64 in *. simpl. lia.
Qed.

Lemma foldPath_app cur a b top :
  foldPath cur (a ++ b) = Ok top ↔ ∃ m, foldPath cur a = Ok m ∧ foldPath m b = Ok top.
Proof.
  revert cur. induction a as [|s a IH]; intros cur; simpl.
  - split; [eauto|]. by intros (m & [= ->] & ?).
  - destruct (addSum _ _); simpl; [|split; [done|by intros (? & ? & _)]].
    repeat case_match; try apply IH. split; [done|by intros (? & ? & _)].
Qed.

Lemma foldPath_wf `{!PlatformLaws P} cur path top :
  node_wf cur → Forall step_wf path → foldPath cur path = Ok top → node_wf top.
Proof.
  intros Hc Hp. revert cur Hc. induction Hp as [|s path Hs _ IH]; intros cur Hc H.
  - simpl in H. by simplify_eq.
  - apply foldPath_step in H as (_ & Hle & H); [|done..]. eapply IH; [|done]. by apply stepNode_wf.
Qed.

Lemma pathInputs_app `{!PlatformLaws P} cur a b m :
  node_wf cur → Forall step_wf a → foldPath cur a = Ok m →
  pathInputs cur (a ++ b) = pathInputs cur a ++ pathInputs m b.
Proof.
  intros Hc Hp. revert cur Hc. induction Hp as [|s path Hs _ IH]; intros cur Hc H.
  - simpl in H. by simplify_eq.
  - apply foldPath_step in H as (_ & Hle & H); [|done..]. simpl. f_equal.
    apply IH; [by apply stepNode_wf|done].
Qed.

(** A path, top step first, with the leaf it starts from, that folds to [top] hashing only inputs
    of [hs]. *)
Record climbs (hs : list bytes) (d : nat) (top : Node) (p : Node * list Step) : Prop := {
  cl_length : length p.2 = d;
  cl_leaf : node_wf p.1;
  cl_steps : Forall step_wf p.2;
  cl_fold : foldPath p.1 (rev p.2) = Ok top;
  cl_inputs x : x ∈ pathInputs p.1 (rev p.2) → x ∈ hs;
}.

(** The last step: the path reaches a node [m] below the top, and the top is the node over [m] and its
    sibling. *)
Lemma climbs_last `{!PlatformLaws P} hs d top n s q :
  climbs hs (S d) top (n, s :: q) →
  ∃ m, climbs hs d m (n, q) ∧ node_wf m ∧ step_wf s ∧ (s_Side s = Left ∨ s_Side s = Right) ∧
    n_Sum top = n_Sum m + s_Sum s ∧ n_Hash top = sha256 (stepInput m s) ∧ stepInput m s ∈ hs.
Proof.
  intros [Hl Hn Hs Hf Hi]. simpl in *. apply Forall_cons in Hs as [Hs Hq].
  apply foldPath_app in Hf as (m & Hm & Hf).
  assert (Forall step_wf (rev q)) as Hrq by (by apply Forall_rev).
  pose proof (foldPath_wf _ _ _ Hn Hrq Hm) as Hmw.
  rewrite (pathInputs_app n (rev q) [s] m) in Hi by done.
  apply foldPath_step in Hf as (Hside & Hle & Hf); [|done..]. simpl in Hf. simplify_eq.
  exists m. split_and!; try done.
  - constructor; simpl; try done; try lia. intros x Hx. apply Hi, elem_of_app. by left.
  - apply Hi, elem_of_app. right. simpl. by left.
Qed.

(** The paths whose top step has its sibling on side [c], without that step. *)
Definition below (c : Z) (ps : list (Node * list Step)) : list (Node * list Step) :=
  omap (λ p, match p.2 with
             | s :: q => if s_Side s =? c then Some (p.1, q) else None
             | [] => None
             end) ps.

Definition sides (p : Node * list Step) : list Z := map s_Side p.2.
Definition balance (ps : list (Node * list Step)) : Z := sum (map (λ p, n_Sum p.1) ps).

Lemma below_elem c ps n q :
  (n, q) ∈ below c ps ↔ ∃ s, s_Side s = c ∧ (n, s :: q) ∈ ps.
Proof.
  unfold below. rewrite list_elem_of_omap. split.
  - intros ([n' [|s q']] & Hin & E); simpl in E; [done|].
    destruct (Z.eqb_spec (s_Side s) c); [|done]. simplify_eq. eauto.
  - intros (s & Hc & Hin). exists (n, s :: q). simpl. by rewrite (proj2 (Z.eqb_eq _ _) Hc).
Qed.

Lemma below_NoDup c ps : NoDup (map sides ps) → NoDup (map sides (below c ps)).
Proof.
  induction ps as [|[n path] ps IH]; intros H; [done|]. simpl in H. apply NoDup_cons in H as [Hn H].
  unfold below. simpl. destruct path as [|s q]; [by apply IH|]. destruct (Z.eqb_spec (s_Side s) c) as [Hc|];
    [|by apply IH]. simpl. apply NoDup_cons. split; [|by apply IH].
  intros Hin. apply list_elem_of_fmap in Hin as ([n' q'] & E & Hin).
  apply below_elem in Hin as (s' & Hc' & Hin). apply Hn, list_elem_of_fmap.
  exists (n', s' :: q'). split; [|done]. unfold sides in *. simpl in *. congruence.
Qed.

Lemma below_cons c n s q ps :
  below c ((n, s :: q) :: ps) = if s_Side s =? c then (n, q) :: below c ps else below c ps.
Proof. unfold below. simpl. by destruct (s_Side s =? c). Qed.

Lemma balance_cons p ps : balance (p :: ps) = n_Sum p.1 + balance ps.
Proof. done. Qed.

Lemma below_balance ps :
  Forall (λ p, ∃ s q, p.2 = s :: q ∧ (s_Side s = Left ∨ s_Side s = Right)) ps →
  balance ps = balance (below Left ps) + balance (below Right ps).
Proof.
  induction 1 as [|[n path] ps (s & q & E & Hs) _ IH]; [done|].
  simpl in E. subst. rewrite !below_cons, balance_cons, IH.
  destruct Hs as [-> | ->]; unfold Left, Right; go_lit; rewrite balance_cons; simpl; lia.
Qed.

(** A top node covers the balances below it: the paths of distinct positions that fold to it start
    from balances whose sum is at most its own. *)
Lemma climbs_cover `{!PlatformLaws P} hs d :
  inj_on sha256 hs → ∀ top ps, Forall (climbs hs d top) ps → NoDup (map sides ps) →
  0 <= n_Sum top → balance ps <= n_Sum top.
Proof.
  intros Hinj. induction d as [|d IH]; intros top ps Hps Hnd Htop.
  - destruct ps as [|[n q] ps]; [done|]. apply Forall_cons in Hps as [[Hl _ _ Hf _] Hps].
    destruct q; [|done]. simpl in Hf. injection Hf as <-.
    destruct ps as [|[n' q'] ps]; [unfold balance, sum; simpl; lia|].
    apply Forall_cons in Hps as [[Hl' _ _ _ _] _]. destruct q'; [|done].
    apply NoDup_cons in Hnd as [Hnd _]. destruct Hnd. simpl. by left.
  - destruct ps as [|[n0 q0] ps0] eqn:Eps; [done|]. rewrite <- Eps in *.
    assert (climbs hs (S d) top (n0, q0)) as H0 by (rewrite Eps in Hps; by apply Forall_cons in Hps as [? _]).
    destruct q0 as [|s0 q0]; [by destruct H0|].
    destruct (climbs_last _ _ _ _ _ _ H0) as (m0 & Hm0 & Hw0 & Hs0 & Hside0 & Hsum0 & Hh0 & Hin0).
    assert (∃ l r, node_wf l ∧ node_wf r ∧ n_Sum top = n_Sum l + n_Sum r ∧
              n_Hash top = sha256 (nodeInput l r) ∧ nodeInput l r ∈ hs)
      as (l & r & Hlw & Hrw & Hlr & Hhash & Hin).
    { assert (node_wf (mkNode (s_Hash s0) (s_Sum s0))) as Hsib by done.
      unfold stepInput in Hh0, Hin0. destruct (s_Side s0 =? Left);
        eexists _, _; (split; [|split; [|split; [|split; [exact Hh0|exact Hin0]]]]); simpl; done || lia. }
    assert (∀ n s q, (n, s :: q) ∈ ps → ∃ m, climbs hs d m (n, q) ∧
              (s_Side s = Left ∧ m = r ∨ s_Side s = Right ∧ m = l)) as Hsub.
    { intros n s q Hp. rewrite Forall_forall in Hps.
      destruct (climbs_last _ _ _ _ _ _ (Hps _ Hp)) as (m & Hm & Hw & Hs & Hside & _ & Hh & Hi).
      exists m. split; [done|]. rewrite Hhash in Hh. apply Hinj in Hh; [|done..].
      assert (node_wf (mkNode (s_Hash s) (s_Sum s))) as Hsib by done. unfold stepInput in Hh.
      destruct Hside as [E|E]; rewrite E in Hh;
        [change (Left =? Left) with true in Hh; left|change (Right =? Left) with false in Hh; right];
        cbv iota in Hh; apply nodeInput_inj in Hh as [E1 E2]; done. }
    assert (∀ c m, (∀ n s q, (n, s :: q) ∈ ps → s_Side s = c → climbs hs d m (n, q)) → 0 <= n_Sum m →
              balance (below c ps) <= n_Sum m) as Hgroup.
    { intros c m Hc Hm. apply IH; [|by apply below_NoDup|done]. apply Forall_forall.
      intros [n q] (s & Hsc & Hp)%below_elem. by eapply Hc. }
    rewrite below_balance.
    + destruct Hlw as [_ [Hl0 _]], Hrw as [_ [Hr0 _]].
      assert (balance (below Left ps) <= n_Sum r) as H1.
      { apply Hgroup; [|done]. intros n s q Hp Hc. destruct (Hsub _ _ _ Hp) as (m & Hm & [[_ ->]|[E _]]); [done|].
        rewrite Hc in E. discriminate. }
      assert (balance (below Right ps) <= n_Sum l) as H2.
      { apply Hgroup; [|done]. intros n s q Hp Hc. destruct (Hsub _ _ _ Hp) as (m & Hm & [[E _]|[_ ->]]); [|done].
        rewrite Hc in E. discriminate. }
      lia.
    + apply Forall_forall. intros [n [|s q]] Hp; rewrite Forall_forall in Hps.
      * by destruct (Hps _ Hp).
      * exists s, q. split; [done|]. destruct (Hsub _ _ _ Hp) as (m & _ & [[? _]|[? _]]); auto.
Qed.

(** Paths of one position that fold to one node start from one leaf. *)
Lemma climbs_same `{!PlatformLaws P} hs d :
  inj_on sha256 hs → ∀ top p p', climbs hs d top p → climbs hs d top p' → sides p = sides p' → p.1 = p'.1.
Proof.
  intros Hinj. induction d as [|d IH]; intros top [n q] [n' q'] Hp Hp' E.
  - destruct Hp as [Hl _ _ Hf _], Hp' as [Hl' _ _ Hf' _]. destruct q, q'; simpl in *; try done. congruence.
  - destruct q as [|s q], q' as [|s' q']; try (by destruct Hp); try (by destruct Hp').
    unfold sides in E. simpl in E. injection E as Es Eq.
    destruct (climbs_last _ _ _ _ _ _ Hp) as (m & Hm & Hw & Hs & Hside & _ & Hh & Hi).
    destruct (climbs_last _ _ _ _ _ _ Hp') as (m' & Hm' & Hw' & Hs' & _ & _ & Hh' & Hi').
    rewrite Hh in Hh'. apply Hinj in Hh'; [|done..]. unfold stepInput in Hh'. rewrite <- Es in Hh'.
    assert (node_wf (mkNode (s_Hash s) (s_Sum s))) by done.
    assert (node_wf (mkNode (s_Hash s') (s_Sum s'))) by done.
    assert (m = m') as <-.
    { destruct (s_Side s =? Left); apply nodeInput_inj in Hh' as [? ?]; done. }
    by apply (IH m (n, q) (n', q')).
Qed.

End Soundness.

(** ** The wire form *)

Lemma hex_pair c :
  byte_ok c →
  ∃ v w, hexDigit (Z.shiftr c 4) = v ∧ hexDigit (Z.land c 15) = w ∧
    ∃ x y, hexValue v = Some x ∧ hexValue w = Some y ∧
      Z.lor (Z.land (Z.shiftl (Z.lor 0 x) 4) 255) y = c.
Proof.
  intros Hc. assert (∃ n : nat, (n < 256)%nat ∧ c = Z.of_nat n) as (n & Hn & ->).
  { unfold byte_ok in Hc. exists (Z.to_nat c). lia. }
  assert (forallb (λ n, match hexValue (hexDigit (Z.shiftr (Z.of_nat n) 4)),
                              hexValue (hexDigit (Z.land (Z.of_nat n) 15)) with
                        | Some x, Some y => Z.lor (Z.land (Z.shiftl (Z.lor 0 x) 4) 255) y =? Z.of_nat n
                        | _, _ => false
                        end) (seq 0 256) = true) as H by (vm_compute; reflexivity).
  rewrite forallb_forall in H. specialize (H n). rewrite in_seq in H. specialize (H ltac:(lia)).
  eexists _, _. split; [done|]. split; [done|].
  destruct (hexValue (hexDigit (Z.shiftr (Z.of_nat n) 4))) as [x|]; [|done].
  destruct (hexValue (hexDigit (Z.land (Z.of_nat n) 15))) as [y|]; [|done].
  apply Z.eqb_eq in H. eauto.
Qed.

(** A digit is determined by its value, so a pair of digits is the pair of its byte. *)
Lemma hexValue_digit c v : hexValue c = Some v → hexDigit v = c ∧ 0 <= v < 16.
Proof.
  unfold hexValue. intros H.
  assert (48 <= c < 58 ∨ 97 <= c < 103) as Hc.
  { destruct (Z.leb_spec 48 c), (Z.leb_spec c 57), (Z.leb_spec 97 c), (Z.leb_spec c 102); simpl in H;
      try done; lia. }
  assert (forallb (λ c, match hexValue c with
                        | Some v => (hexDigit v =? c) && (0 <=? v) && (v <? 16)
                        | None => false
                        end) (map Z.of_nat (seq 48 10 ++ seq 97 6)) = true) as Hall
    by (vm_compute; reflexivity).
  rewrite forallb_forall in Hall. specialize (Hall c).
  assert (In c (map Z.of_nat (seq 48 10 ++ seq 97 6))) as Hin.
  { apply in_map_iff. exists (Z.to_nat c). split; [lia|]. apply in_app_iff. rewrite !in_seq. lia. }
  specialize (Hall Hin). unfold hexValue in Hall. rewrite H in Hall. go_inv. lia.
Qed.

Lemma hex_byte x y :
  0 <= x < 16 → 0 <= y < 16 →
  let c := Z.lor (Z.land (Z.shiftl (Z.lor 0 x) 4) 255) y in
  byte_ok c ∧ Z.shiftr c 4 = x ∧ Z.land c 15 = y.
Proof.
  intros Hx Hy c.
  assert (forallb (λ p, let c := Z.lor (Z.land (Z.shiftl (Z.lor 0 p.1) 4) 255) p.2 in
                        (0 <=? c) && (c <? 256) && (Z.shiftr c 4 =? p.1) && (Z.land c 15 =? p.2))
            (list_prod (map Z.of_nat (seq 0 16)) (map Z.of_nat (seq 0 16))) = true) as Hall
    by (vm_compute; reflexivity).
  rewrite forallb_forall in Hall. specialize (Hall (x, y)).
  assert (In (x, y) (list_prod (map Z.of_nat (seq 0 16)) (map Z.of_nat (seq 0 16)))) as Hin.
  { apply in_prod; apply in_map_iff; [exists (Z.to_nat x)|exists (Z.to_nat y)]; rewrite in_seq; lia. }
  specialize (Hall Hin). cbn [fst snd] in Hall. fold c in Hall. go_inv. unfold byte_ok. lia.
Qed.

Lemma parseHexPairs_spec s b :
  Nat.even (length s) = true →
  parseHexPairs s = Ok b ↔ bytes_ok b ∧ Hex b = s.
Proof.
  revert b. induction s as [|c|c d s IH] using list_pair_ind; intros b He.
  - simpl. split; [intros [= <-]; by split; [apply Forall_nil_2|]|]. intros [_ H]. by destruct b.
  - done.
  - cbn [parseHexPairs]. split.
    + intros H. go_inv.
      match goal with A : hexValue c = Some _, B : hexValue d = Some _ |- _ =>
        apply hexValue_digit in A as [E1 R1], B as [E2 R2] end.
      match goal with A : parseHexPairs s = Ok _ |- _ => apply IH in A as [Hb Hh]; [|done] end.
      destruct (hex_byte _ _ R1 R2) as (Hc & Hx & Hy). split; [by constructor|].
      cbn [Hex flat_map]. rewrite Hx, Hy, E1, E2. cbn [app]. do 2 f_equal. exact Hh.
    + intros [Hb Hh]. destruct b as [|z b]; [done|]. apply Forall_cons in Hb as [Hz Hb].
      destruct (hex_pair z Hz) as (v & w & Hv & Hw & x & y & Hx & Hy & E).
      cbn [Hex flat_map app] in Hh. rewrite Hv, Hw in Hh. injection Hh as <- <- Hh.
      rewrite Hx, Hy. cbn [of_option mbind result_bind].
      rewrite (proj2 (IH b He)) by done. cbn [mbind result_bind]. by rewrite E.
Qed.

Lemma length_Hex b : length (Hex b) = (2 * length b)%nat.
Proof. unfold Hex. induction b as [|c b IH]; simpl; [done|]. rewrite IH. lia. Qed.

Lemma ParseHex_spec s b : ParseHex s = Ok b ↔ length b = 32%nat ∧ bytes_ok b ∧ Hex b = s.
Proof.
  unfold ParseHex. rewrite refuse_Ok, negb_Zeqb_false. split.
  - intros [Hl H]. apply (len_length s 64) in Hl. apply parseHexPairs_spec in H as [Hb Hh]; [|by rewrite Hl].
    split; [|done]. pose proof (length_Hex b) as E. rewrite Hh, Hl in E. lia.
  - intros (Hl & Hb & <-). pose proof (length_Hex b) as E. rewrite Hl in E.
    split; [by apply (len_length (Hex b) 64)|]. apply parseHexPairs_spec; [by rewrite E|done].
Qed.

Definition side_wf (s : Step) : Prop :=
  length (s_Hash s) = 32%nat ∧ bytes_ok (s_Hash s) ∧ (s_Side s = Left ∨ s_Side s = Right).

Definition wireStep (s : Step) : WireStep := mkWireStep (Hex (s_Hash s)) (s_Sum s) (rune_string (s_Side s)).

Lemma parseSteps_spec ws path :
  parseSteps ws = Ok path ↔ Forall side_wf path ∧ map wireStep path = ws.
Proof.
  revert path. induction ws as [|w ws IH]; intros path; cbn [parseSteps].
  - split; [intros [= <-]; done|]. intros [_ H]. by destruct path.
  - split.
    + intros H. go_inv. match goal with A : ParseHex _ = Ok _ |- _ => apply ParseHex_spec in A as (Hl & Hb & Hh) end.
      match goal with A : parseSteps ws = Ok _ |- _ => apply IH in A as [Hf Hm] end.
      destruct w as [wh wsum wside]; simpl in *.
      destruct (beqb wside [Left]) eqn:E1; [|destruct (beqb wside [Right]) eqn:E2; [|done]]; go_inv;
        (split; [constructor; [|done]; split_and!; simpl; auto|]); by simpl; subst.
    + intros [Hf Hm]. destruct path as [|s path]; [done|]. apply Forall_cons in Hf as [(Hl & Hb & Hs) Hf].
      simpl in Hm. injection Hm as <- Hm. cbn [wireStep ws_H ws_Side ws_Sum].
      rewrite (proj2 (ParseHex_spec (Hex (s_Hash s)) (s_Hash s))) by done. cbn [map_err mbind result_bind].
      rewrite (proj2 (IH path)) by done.
      destruct s as [h sm sd]; simpl in *. by destruct Hs as [-> | ->].
Qed.

(** ** The properties *)

Lemma NoDup_map_by {A B C} (f : A → B) (g : A → C) l :
  NoDup (map f l) → (∀ x y, x ∈ l → y ∈ l → g x = g y → f x = f y) → NoDup (map g l).
Proof.
  induction l as [|a l IH]; intros Hf Hg; [by apply NoDup_nil|]. simpl in *.
  apply NoDup_cons in Hf as [Hn Hf]. apply NoDup_cons. split.
  - intros (b & E & Hb)%list_elem_of_fmap. apply Hn, list_elem_of_fmap. exists b.
    split; [apply Hg; [by left|by right|done]|done].
  - apply IH; [done|]. intros x y Hx Hy. apply Hg; by right.
Qed.

(** The bytes the shuffle rejects leave every residue as likely as any other. *)
Lemma uniform_limit_spec m :
  0 < m < two64 → (uniform_limit m + 1) mod m = 0 ∧ MaxUint64 - m < uniform_limit m <= MaxUint64.
Proof.
  intros Hm. unfold uniform_limit. pose proof (Z.mod_pos_bound (MaxUint64 mod m + 1) m) as Hb.
  split; [|lia].
  replace (MaxUint64 - (MaxUint64 mod m + 1) mod m + 1) with ((MaxUint64 + 1) - (MaxUint64 mod m + 1) mod m) by lia.
  rewrite Zplus_mod_idemp_l, Zminus_mod_idemp_r, Z.sub_diag. apply Z.mod_0_l. lia.
Qed.

Lemma uniform_range rand m x rest : 0 < m → uniform rand m = Ok (x, rest) → 0 <= x < m.
Proof.
  unfold uniform. generalize (S (length rand)) as fuel. intros fuel Hm. revert rand.
  induction fuel as [|fuel IH]; intros rand H; [done|]. cbn [uniform_loop] in H. go_inv.
  destruct x0 as [b r]. case_match; [|eauto]. simplify_eq. by apply Z.mod_pos_bound.
Qed.

(** A proof that verifies, as a path to the published root. *)
Lemma Verify_climbs `{P : Platform} `{CL : Coredet leafContent} hs p root outstanding depth :
  PlatformLaws P → proof_wf p → Verify p root outstanding depth = Ok tt → (∀ x, x ∈ inputs p → x ∈ hs) →
  ∃ i, leafInput p = Some i ∧ i ∈ hs ∧
    climbs hs (Z.to_nat depth) (mkNode root outstanding)
      (mkNode (sha256 i) (pf_Balance p), rev (pf_Path p)).
Proof.
  intros HL (Hs & Hb & Hst) H Hin. unfold Verify, fold, LeafHash, Marshal in H. go_inv.
  unfold inputs, leafInput in *.
  match goal with M : marshal _ = Some ?c |- _ => rewrite M in *; cbn [of_option mbind option_bind] in * end.
  eexists. split; [done|]. split; [apply Hin; by left|].
  constructor; simpl; rewrite ?rev_involutive; try done.
  - rewrite length_rev. unfold len in *. lia.
  - split; [apply sha256_length|done].
  - by apply Forall_rev.
  - match goal with F : foldPath _ _ = Ok ?top |- _ => rewrite F; destruct top; simpl in *; by subst end.
  - intros z Hz. apply Hin. by right.
Qed.

Lemma leafInput_aid `{P : Platform} `{CL : Coredet leafContent} `{!CoredetInj leafContent} p p' i :
  proof_wf p → proof_wf p' → leafInput p = Some i → leafInput p' = Some i → pf_AID p = pf_AID p'.
Proof.
  intros (Hs & _) (Hs' & _) H H'. unfold leafInput in *.
  destruct (marshal (mkLeafContent (pf_AID p) _ _)) as [c|] eqn:E; [|done].
  destruct (marshal (mkLeafContent (pf_AID p') _ _)) as [c'|] eqn:E'; [|done].
  simpl in *. injection H as <-. injection H' as H'. 
  apply app_inj_len in H' as [_ <-]; [|congruence].
  pose proof (marshal_inj _ _ _ E E') as Heq. by injection Heq.
Qed.

Section Theorems.
Context `{P : Platform} `{CL : Coredet leafContent}.

(** Every account of a built tree can check it.  The tree [Build] makes holds the accounts,
    padded to a power of two from 16 to 2^32 and shuffled; its outstanding is the sum of the balances,
    at most 2^63-1; its root is a hash, and every account's proof
    carries its balance and verifies against the root. *)
Theorem build_proves_every_account leaves toDay rand t :
  Forall (λ l, is_u64 (l_Balance l)) leaves → Build leaves toDay rand = Ok t →
  let total := sum (map l_Balance leaves) in
  MinDepth <= Depth t <= MaxDepth ∧ total <= MaxSum ∧ Outstanding t = Ok total ∧
  map account (t_entries t) ≡ₚ
    map (λ l, (l_AID l, l_Balance l)) leaves ++ repeat ([], 0) (2 ^ Z.to_nat (Depth t) - length leaves) ∧
  ∃ root, Root t = Ok root ∧ (∃ m, root = sha256 m) ∧
    ∀ l, l ∈ leaves → ∃ p, ProofOf t (l_AID l) = Ok (Some p) ∧ pf_AID p = l_AID l ∧
      pf_Balance p = l_Balance l ∧ Verify p root total (Depth t) = Ok tt.
Proof.
  intros Hb H total. apply Build_entries in H as (es & d & Hbuild & Hd & Hl & Hfit & Hnd & Hne & Hperm).
  assert (Forall (λ e, 0 <= e_Balance e) es) as Hnn.
  { apply (Forall_map account (λ p, 0 <= p.2)). rewrite Hperm. apply Forall_app. split.
    - apply Forall_map. eapply Forall_impl; [exact Hb|]. intros l [? _]. done.
    - apply Forall_forall. intros p Hp%list_elem_of_In%repeat_spec. by subst. }
  destruct (build_spec _ _ _ d Hbuild Hnd Hnn Hl Hd) as (He & Hdep & root & Hroot & Hsum & Hmax & Hhash & Hp).
  assert (sum (map e_Balance es) = total) as Htot.
  { transitivity (sum (map snd (map account es))); [by rewrite map_map|].
    rewrite (sum_Permutation _ _ (Permutation_map snd Hperm)), map_app, sum_app, map_map, map_repeat.
    cbn [snd]. by rewrite sum_zeros, Z.add_0_r. }
  rewrite Htot in Hsum. rewrite Hdep, Nat2Z.id, He. unfold Outstanding, Root. rewrite Hroot. cbn [mbind result_bind]. rewrite Hsum in *.
  unfold MinDepth, MaxDepth. split_and!; try done; try lia. exists (n_Hash root). split; [done|]. split; [done|].
  intros l Hin. assert ((l_AID l, l_Balance l) ∈ map account es) as Hm.
  { rewrite Hperm. apply elem_of_app. left. apply list_elem_of_fmap. eauto. }
  apply list_elem_of_fmap in Hm as (e & Eacc & Hein).
  injection Eacc as E1 E2. rewrite Forall_forall in Hne.
  destruct (Hp e Hein) as (p & P1 & P2 & P3 & P4); [rewrite <- E1; by apply Hne|].
  exists p. rewrite E1, E2, <- Hdep. done.
Qed.

(** C14: a hub cannot understate.  Proofs for distinct accounts that verify against one root and
    outstanding have balances that sum to at most the outstanding, unless SHA-256 collides on the
    inputs their checks hash. *)
Theorem verified_balances_are_covered (HL : PlatformLaws P) (CI : CoredetInj leafContent)
  ps root outstanding depth :
  inj_on sha256 (flat_map inputs ps) → is_u64 outstanding →
  Forall (λ p, proof_wf p ∧ Verify p root outstanding depth = Ok tt) ps →
  NoDup (map pf_AID ps) →
  sum (map pf_Balance ps) <= outstanding.
Proof.
  intros Hinj Hout Hps Hnd. set (hs := flat_map inputs ps) in *.
  set (leaf := λ p, match leafInput p with Some i => i | None => [] end).
  set (path := λ p, (mkNode (sha256 (leaf p)) (pf_Balance p), rev (pf_Path p))).
  assert (∀ p, p ∈ ps → proof_wf p ∧ leafInput p = Some (leaf p) ∧ leaf p ∈ hs ∧
            climbs hs (Z.to_nat depth) (mkNode root outstanding) (path p)) as Hall.
  { intros p Hp. rewrite Forall_forall in Hps. destruct (Hps p Hp) as [Hwf Hv].
    destruct (Verify_climbs hs p root outstanding depth HL Hwf Hv) as (i & Hi & Hin & Hc).
    { intros x Hx. apply list_elem_of_In, in_flat_map. exists p. split; by apply list_elem_of_In. }
    unfold path, leaf. by rewrite Hi. }
  transitivity (balance (map path ps)).
  { unfold balance. rewrite map_map. done. }
  apply (climbs_cover hs (Z.to_nat depth) Hinj (mkNode root outstanding)); [| |apply Hout].
  - apply Forall_map, Forall_forall. intros p Hp. apply Hall, Hp.
  - rewrite map_map. eapply NoDup_map_by; [exact Hnd|]. intros x y Hx Hy E.
    destruct (Hall x Hx) as (Wx & Lx & Ix & Cx), (Hall y Hy) as (Wy & Ly & Iy & Cy).
    pose proof (climbs_same hs _ Hinj _ _ _ Cx Cy E) as Hleaf. unfold path in Hleaf. simpl in Hleaf.
    injection Hleaf as Hh _. apply Hinj in Hh; [|done..]. rewrite Hh in Lx. by eapply leafInput_aid.
Qed.
End Theorems.

(** The wire form of a proof is a bijection.  [Parse] accepts exactly the wire forms of proofs with
    32-byte salts and hashes, known sides and at most 32 steps, and gives back that proof: one proof,
    one spelling. *)
Theorem parse_inverts_wire w p :
  Parse w = Ok p ↔
  Wire p = w ∧ len (pf_Path p) <= MaxDepth ∧ length (pf_Salt p) = 32%nat ∧ bytes_ok (pf_Salt p) ∧
  Forall side_wf (pf_Path p).
Proof.
  unfold Parse. rewrite refuse_Ok, Z.ltb_ge. split.
  - intros [Hl H]. go_inv.
    match goal with A : ParseHex _ = Ok _ |- _ => apply ParseHex_spec in A as (Hs & Hb & Hh) end.
    match goal with A : parseSteps _ = Ok _ |- _ => apply parseSteps_spec in A as [Hf Hm] end.
    simpl. split_and!; try done.
    + unfold Wire. simpl. destruct w as [td a b s ps]. simpl in *. unfold wireStep in Hm. by subst.
    + rewrite <- Hm in Hl. unfold len in *. by rewrite length_map in Hl.
  - intros (<- & Hl & Hs & Hb & Hf). unfold Wire. simpl. split; [unfold len in *; by rewrite length_map|].
    rewrite (proj2 (ParseHex_spec (Hex (pf_Salt p)) (pf_Salt p))) by done. cbn [map_err mbind result_bind].
    change (parseSteps _) with (parseSteps (map wireStep (pf_Path p))).
    rewrite (proj2 (parseSteps_spec (map wireStep (pf_Path p)) (pf_Path p))) by done.
    by destruct p.
Qed.

(** ** On a sample tree *)

#[export] Instance leaf_coredet : Coredet leafContent := λ l,
  cbor_marshal (CMap (field 1 (CText (lc_AID l)) ++ field 2 (CUint (lc_ToDay l)) ++
                      field 3 (CUint (lc_Balance l)))).
#[export] Instance leaf_coredet_inj : CoredetInj leafContent.
Proof.
  intros [a t b] [a' t' b'] x. unfold marshal, leaf_coredet. intros H H'.
  pose proof (cbor_marshal_inj _ _ x H H') as E. simpl in E. by injection E as -> -> ->.
Qed.

Definition sample_leaves : list Leaf :=
  [mkLeaf (str "alice") 100; mkLeaf (str "bob") 20; mkLeaf (str "carol") 3].
Definition sample_rand : bytes := flat_map (λ i, be 8 (Z.of_nat i * 1000003)) (seq 1 80).
Definition sample_tree : Tree :=
  match Build sample_leaves 20000 sample_rand with Ok t => t | Err _ => mkTree 0 [] [] ∅ end.
Definition sample_root : bytes := match Root sample_tree with Ok r => r | Err _ => [] end.
Definition sample_proofs : list Proof :=
  flat_map (λ a, match ProofOf sample_tree a with Ok (Some p) => [p] | _ => [] end)
    [str "alice"; str "bob"].

Lemma sample_tree_ok : Build sample_leaves 20000 sample_rand = Ok sample_tree.
Proof. vm_cast_no_check (eq_refl (Ok sample_tree)). Qed.

Lemma build_proves_every_account_witness : Outstanding sample_tree = Ok 123.
Proof.
  refine (proj1 (proj2 (proj2 (build_proves_every_account sample_leaves 20000 sample_rand sample_tree _
            sample_tree_ok)))).
  repeat constructor; vm_compute; congruence.
Defined.

Lemma sample_proofs_ok : Forall (λ p, proof_wf p ∧ Verify p sample_root 123 4 = Ok tt) sample_proofs.
Proof.
  assert (length sample_proofs = 2%nat ∧ forallb (λ p, (len (pf_Salt p) =? 32) && (0 <=? pf_Balance p) &&
            (pf_Balance p <? two64) && forallb (λ s, (len (s_Hash s) =? 32) && (0 <=? s_Sum s) && (s_Sum s <? two64))
              (pf_Path p) && is_Ok (Verify p sample_root 123 4)) sample_proofs = true) as [_ H]
    by (vm_compute; split; reflexivity).
  rewrite forallb_forall in H. apply Forall_forall. intros p Hp%list_elem_of_In. specialize (H p Hp).
  clear Hp. go_inv. unfold proof_wf, is_u64. split.
  - split; [by apply (len_length (pf_Salt p) 32)|]. split; [split; assumption|].
    match goal with A : forallb _ _ = true |- _ => rename A into Hs end.
    rewrite forallb_forall in Hs. apply Forall_forall. intros s Hsin%list_elem_of_In. specialize (Hs s Hsin).
    go_inv. split; [by apply (len_length (s_Hash s) 32)|split; assumption].
  - match goal with A : is_Ok ?r = true |- _ => destruct r as [[]|]; [reflexivity|discriminate A] end.
Qed.

Lemma verified_balances_are_covered_witness : sum (map pf_Balance sample_proofs) <= 123.
Proof.
  apply (verified_balances_are_covered light_laws leaf_coredet_inj sample_proofs sample_root 123 4).
  - apply inj_onb_true. vm_compute. reflexivity.
  - vm_compute. split; congruence.
  - exact sample_proofs_ok.
  - apply (bool_decide_unpack _). vm_compute. exact I.
Defined.
