(* ===== verification/Ael.v ===== *)
(** * Ael: the agent event ledger (ael/ael.go, ael/witness.go)

    One hash chain per DID.  [Append] is the handler of one record: it returns the new ledger and the
    error, if any.  A chain's records are a list indexed by sequence number, its out-of-order records
    a map. *)

From S2P Require Import Prelude Cbor Platform Kel Controller.

(** ** Data *)

Definition VersionMajor2 : Z := 2.
Definition ImportBufferCap : Z := 1024.
Definition ChainActive : bytes := str "ACTIVE".
Definition ChainQuarantined : bytes := str "QUARANTINED".
Definition EvForkDetected : bytes := str "converge.fork_detected".

(** The payload is any CoreDet data item. *)
Record EventRecord := mkEventRecord {
  r_ChainDID : bytes;
  r_Seq : Z;
  r_PrevID : bytes;
  r_EventType : bytes;
  r_VersionMajor : Z;
  r_Payload : cbor;
  r_Timestamp : Z;
  r_SignerAID : bytes;
  r_KeyStateSeq : Z;
  r_CriticalExtensions : list bytes;
  r_ID : bytes;
  r_Sig : bytes;
  r_VersionMinor : Z;
  r_CorrID : bytes;
}.

Record EquivocationProof := mkEquivocation {
  q_ChainDID : bytes;
  q_Seq : Z;
  q_NodeA : EventRecord;
  q_NodeB : EventRecord;
}.

(** The error of [Append]: a typed error or the proof of an equivocation. *)
Inductive failure :=
  | Rejected (e : error)
  | Equivocation (p : EquivocationProof).

Record chain := mkChain {
  ch_events : list EventRecord;
  ch_state : bytes;
  ch_staged : gmap Z EventRecord;
}.

Abbreviation Ledger := (gmap bytes chain).

(** [newErr(code, detail)], by the code's label. *)
Definition newErr (code : string) : error := Typed code "".

(** An [int64] as a CBOR integer. *)
Definition int_item (n : Z) : cbor := if 0 <=? n then CUint n else CNeg (-1 - n).

Section Ael.
Context `{P : Platform} `{CE : Coredet KeyEvent} `{CC : Coredet cbor}.

(** [init]: the CID of the text "anet:ael:genesis". *)
Definition GenesisPrev : bytes :=
  match pre ← Marshal (CText (str "anet:ael:genesis")); Sum pre with Ok id => id | Err _ => [] end.

(** ** Records *)

Definition preimageMap (r : EventRecord) : cbor :=
  CMap ([(1, CText (r_ChainDID r)); (2, CUint (r_Seq r)); (3, CText (r_PrevID r));
         (4, CText (r_EventType r)); (5, CUint (r_VersionMajor r)); (6, r_Payload r);
         (7, int_item (r_Timestamp r)); (8, CText (r_SignerAID r)); (9, CUint (r_KeyStateSeq r))] ++
        match r_CriticalExtensions r with [] => [] | l => [(10, CArray (map CText l))] end).

Definition Preimage (r : EventRecord) : result bytes := Marshal (preimageMap r).
Definition ComputeID (r : EventRecord) : result bytes := pre ← Preimage r; Sum pre.

Definition set_signer (r : EventRecord) (aid : bytes) (seq : Z) : EventRecord :=
  mkEventRecord (r_ChainDID r) (r_Seq r) (r_PrevID r) (r_EventType r) (r_VersionMajor r) (r_Payload r)
    (r_Timestamp r) aid seq (r_CriticalExtensions r) (r_ID r) (r_Sig r) (r_VersionMinor r) (r_CorrID r).
Definition set_id (r : EventRecord) (id sig : bytes) : EventRecord :=
  mkEventRecord (r_ChainDID r) (r_Seq r) (r_PrevID r) (r_EventType r) (r_VersionMajor r) (r_Payload r)
    (r_Timestamp r) (r_SignerAID r) (r_KeyStateSeq r) (r_CriticalExtensions r) id sig (r_VersionMinor r)
    (r_CorrID r).

(** [EventRecord.Sign], under a snapshot of the signer. *)
Definition record_Sign (r : EventRecord) (s : snapshot) : result EventRecord :=
  seq ← SeqOf (sn_kel s);
  let r := set_signer r (sn_aid s) seq in
  pre ← Preimage r;
  id ← Sum pre;
  let '(sig, signedAt) := snapshot_Sign s pre in
  refuse negb (signedAt =? seq) with Errf "identity: the signer signed under another key state";
  Ok (set_id r id sig).

(** A run-time panic is not an error value and is not mapped. *)
Definition mapIdentityErr (e : error) : error :=
  match e with
  | Panic => Panic
  | Typed reason _ =>
      if String.eqb reason "UNKNOWN_AID" then newErr "UNKNOWN_AID"
      else if String.eqb reason "REVOKED_KEY" then newErr "REVOKED_KEY"
      else newErr "INVALID_SIGNATURE"
  | _ => newErr "INVALID_SIGNATURE"
  end.

(** [EventRecord.Verify]. *)
Definition record_Verify (r : EventRecord) (kel : list SignedEvent) : result unit :=
  pre ← map_err (λ _, newErr "ID_MISMATCH") (Preimage r);
  got ← map_err (λ _, newErr "ID_MISMATCH") (Sum pre);
  refuse negb (beqb got (r_ID r)) with newErr "ID_MISMATCH";
  map_err mapIdentityErr
    (VerifyObject kel (r_SignerAID r) (r_KeyStateSeq r) (u64 (r_Timestamp r)) pre (r_Sig r)).

(** ** The ledger *)

(** [drainStaged]; every round removes a staged record, so their number is fuel enough. *)
Fixpoint drain (fuel : nat) (ch : chain) : result chain :=
  match fuel with
  | O => Ok ch
  | S fuel =>
      head ← lastOf (ch_events ch);
      let at_ := u64 (r_Seq head + 1) in
      match ch_staged ch !! at_ with
      | None => Ok ch
      | Some next =>
          let staged := delete at_ (ch_staged ch) in
          if beqb (r_PrevID next) (r_ID head)
          then drain fuel (mkChain (ch_events ch ++ [next]) (ch_state ch) staged)
          else drain fuel (mkChain (ch_events ch) (ch_state ch) staged)
      end
  end.
Definition drainStaged (ch : chain) : result chain := drain (size (ch_staged ch)) ch.

(** [quarantine]: both records and the anchor stay on the chain. *)
Definition forkAnchor (existing incoming : EventRecord) : EventRecord :=
  mkEventRecord (r_ChainDID incoming) (r_Seq existing) [] EvForkDetected VersionMajor2
    (CMap [(1, CText (r_ChainDID existing)); (2, CUint (r_Seq existing)); (3, CText (r_ID existing));
           (4, CText (r_ID incoming))])
    (r_Timestamp incoming) [] 0 [] [] [] 0 [].
Definition quarantine (ch : chain) (existing incoming : EventRecord) : chain * failure :=
  (mkChain (ch_events ch ++ [incoming; forkAnchor existing incoming]) ChainQuarantined (ch_staged ch),
   Equivocation (mkEquivocation (r_ChainDID incoming) (r_Seq incoming) existing incoming)).

Definition appendToChain (ch : chain) (r : EventRecord) : result (chain * option failure) :=
  head ← lastOf (ch_events ch);
  if r_Seq r <=? r_Seq head then
    existing ← of_option (ch_events ch !! Z.to_nat (r_Seq r)) Panic;
    if negb (beqb (r_ID existing) (r_ID r)) then
      let '(ch, f) := quarantine ch existing r in Ok (ch, Some f)
    else Ok (ch, None)
  else if r_Seq r =? u64 (r_Seq head + 1) then
    if negb (beqb (r_PrevID r) (r_ID head)) then Ok (ch, Some (Rejected (newErr "PREV_LINK_BROKEN")))
    else
      ch ← drainStaged (mkChain (ch_events ch ++ [r]) (ch_state ch) (ch_staged ch));
      Ok (ch, None)
  else if match ch_staged ch !! r_Seq r with Some s => beqb (r_ID s) (r_ID r) | None => false end
  then Ok (ch, None)
  else if ImportBufferCap <=? Z.of_nat (size (ch_staged ch))
  then Ok (ch, Some (Rejected (newErr "IMPORT_BUFFER_FULL")))
  else Ok (mkChain (ch_events ch) (ch_state ch) (<[r_Seq r := r]> (ch_staged ch)), None).

(** [Append], with its gates in order. *)
Definition Append (l : Ledger) (r : EventRecord) (kel : list SignedEvent)
  : result (Ledger * option failure) :=
  let reject code := Ok (l, Some (Rejected (newErr code))) in
  if match l !! r_ChainDID r with
     | Some ch => beqb (ch_state ch) ChainQuarantined
     | None => false
     end then reject "CHAIN_QUARANTINED"%string
  else if negb (r_VersionMajor r =? VersionMajor2) then reject "VERSION_UNSUPPORTED"%string
  else
    match record_Verify r kel with
    | Err Panic => Err Panic
    | Err e => Ok (l, Some (Rejected e))
    | Ok _ =>
        match l !! r_ChainDID r with
        | Some (mkChain (_ :: _) _ _ as ch) =>
            '(ch, f) ← appendToChain ch r;
            Ok (<[r_ChainDID r := ch]> l, f)
        | _ =>
            if negb (r_Seq r =? 0) then reject "BAD_GENESIS_PREV"%string
            else if negb (beqb (r_PrevID r) GenesisPrev) then reject "BAD_GENESIS_PREV"%string
            else
              ch ← drainStaged (mkChain [r] ChainActive ∅);
              Ok (<[r_ChainDID r := ch]> l, None)
        end
    end.

Record ImportResult := mkImportResult { i_Applied : Z; i_Staged : Z; i_Dups : Z }.

Definition appliedAndStaged (l : Ledger) (did : bytes) : Z * Z :=
  match l !! did with
  | Some ch => (len (ch_events ch), Z.of_nat (size (ch_staged ch)))
  | None => (0, 0)
  end.

Fixpoint importLoop (l : Ledger) (recs : list EventRecord) (kel : list SignedEvent) (res : ImportResult)
  : result (Ledger * ImportResult * option failure) :=
  match recs with
  | [] => Ok (l, res, None)
  | r :: recs =>
      let '(applied, staged) := appliedAndStaged l (r_ChainDID r) in
      '(l, f) ← Append l r kel;
      match f with
      | Some f => Ok (l, res, Some f)
      | None =>
          let '(applied', staged') := appliedAndStaged l (r_ChainDID r) in
          importLoop l recs kel
            (if staged <? staged' then mkImportResult (i_Applied res) (i_Staged res + 1) (i_Dups res)
             else if applied <? applied'
                  then mkImportResult (i_Applied res + (applied' - applied)) (i_Staged res) (i_Dups res)
             else mkImportResult (i_Applied res) (i_Staged res) (i_Dups res + 1))
      end
  end.
Definition ImportBatch (l : Ledger) (recs : list EventRecord) (kel : list SignedEvent)
  : result (Ledger * ImportResult * option failure) :=
  importLoop l recs kel (mkImportResult 0 0 0).

(** [Head]: id and sequence number of the chain's head. *)
Definition Head (l : Ledger) (did : bytes) : option (bytes * Z) :=
  match l !! did with
  | Some (mkChain (_ :: _) _ _ as ch) =>
      h ← (if beqb (ch_state ch) ChainQuarantined
           then match List.find (λ r, negb (beqb (r_EventType r) EvForkDetected)) (rev (ch_events ch)) with
                | Some r => Some r
                | None => last (ch_events ch)
                end
           else last (ch_events ch));
      Some (r_ID h, r_Seq h)
  | _ => None
  end.

Definition State (l : Ledger) (did : bytes) : bytes :=
  match l !! did with Some ch => ch_state ch | None => [] end.
Definition Events (l : Ledger) (did : bytes) : list EventRecord :=
  match l !! did with Some ch => ch_events ch | None => [] end.
End Ael.

(** ** Attestations of a head (ael/witness.go) *)

Record HeadAttestation := mkHeadAttestation {
  a_ChainDID : bytes;
  a_Seq : Z;
  a_HeadID : bytes;
  a_ObservedAt : Z;
  a_Envelope : option Envelope;
}.

Section Attestation.
Context `{P : Platform} `{CE : Coredet KeyEvent} `{CC : Coredet cbor}.

Definition CanonicalPreimage (a : HeadAttestation) : result bytes :=
  Marshal (CMap [(1, CText (a_ChainDID a)); (2, CUint (a_Seq a)); (3, CText (a_HeadID a));
                 (4, int_item (a_ObservedAt a))]).

Definition WitnessAID (a : HeadAttestation) : bytes :=
  match a_Envelope a with Some e => env_SignerAID e | None => [] end.

Definition attestation_Sign (a : HeadAttestation) (s : snapshot) : result HeadAttestation :=
  refuse beqb (a_ChainDID a) (sn_aid s) with Errf "ael: a chain cannot witness itself";
  refuse beqb (a_HeadID a) [] with Errf "ael: an attestation must name a head";
  pre ← CanonicalPreimage a;
  let '(sig, seq) := snapshot_Sign s pre in
  Ok (mkHeadAttestation (a_ChainDID a) (a_Seq a) (a_HeadID a) (a_ObservedAt a)
        (Some (mkEnvelope (sn_aid s) seq AlgEdDSA sig []))).

Definition attestation_Verify (a : HeadAttestation) (kel : list SignedEvent) (expectWitness : bytes)
  (now : Z) : result unit :=
  e ← of_option (a_Envelope a) (Errf "ael: unsigned attestation");
  _ ← Validate e;
  refuse negb (beqb expectWitness []) && negb (beqb (env_SignerAID e) expectWitness)
    with Errf "ael: attestation not signed by the expected witness";
  refuse beqb (env_SignerAID e) (a_ChainDID a) with Errf "ael: a chain cannot witness itself";
  pre ← CanonicalPreimage a;
  VerifyObject kel (env_SignerAID e) (env_KeyStateSeq e) (u64 now) pre (env_Sig e).

Definition ContradictedBy (a : HeadAttestation) (r : EventRecord) : bool :=
  if negb (beqb (r_ChainDID r) (a_ChainDID a)) || negb (r_Seq r =? a_Seq a) then false
  else negb (beqb (r_ID r) (a_HeadID a)).
End Attestation.
