(* ===== verification/AelFacts.v ===== *)
(** * AelFacts: what the chains of a ledger satisfy *)

From S2P Require Import Prelude Cbor Platform Kel KelReference KelSpec KelProps Controller Ael.

Section Facts.
Context `{P : Platform} `{CE : Coredet KeyEvent} `{CC : Coredet cbor}.

(** A record that passed the verify-before-store gate. *)
Definition verified (r : EventRecord) : Prop := ∃ kel, record_Verify r kel = Ok tt.

(** A linear history of [did]: sequence numbers from 0, each record linked to the one before it, the
    first to the genesis sentinel, every record verified. *)
Record linear (did : bytes) (events : list EventRecord) : Prop := {
  lin_seq i r : events !! i = Some r → r_Seq r = Z.of_nat i;
  lin_did i r : events !! i = Some r → r_ChainDID r = did;
  lin_verified i r : events !! i = Some r → verified r;
  lin_genesis r : events !! 0%nat = Some r → r_PrevID r = GenesisPrev;
  lin_linked i a b : events !! i = Some a → events !! S i = Some b → r_PrevID b = r_ID a;
}.

(** The staging buffer: verified records beyond the next one. *)
Record staged_ok (did : bytes) (n : nat) (staged : gmap Z EventRecord) : Prop := {
  st_seq s r : staged !! s = Some r → r_Seq r = s;
  st_future s r : staged !! s = Some r → Z.of_nat n < s < two64;
  st_did s r : staged !! s = Some r → r_ChainDID r = did;
  st_verified s r : staged !! s = Some r → verified r;
  st_cap : Z.of_nat (size staged) <= ImportBufferCap;
}.

(** A chain is active and linear, or quarantined with the two records that fork it. *)
Inductive chain_ok (did : bytes) : chain → Prop :=
  | chain_active events staged :
      events ≠ [] → linear did events → staged_ok did (length events) staged →
      chain_ok did (mkChain events ChainActive staged)
  | chain_forked events staged existing incoming :
      linear did events → verified incoming → r_ChainDID incoming = did →
      events !! Z.to_nat (r_Seq incoming) = Some existing → 0 <= r_Seq incoming →
      r_ID existing ≠ r_ID incoming →
      chain_ok did (mkChain (events ++ [incoming; forkAnchor existing incoming]) ChainQuarantined staged).

Definition ledger_ok (l : Ledger) : Prop := ∀ did ch, l !! did = Some ch → chain_ok did ch.

(** ** Extending a linear history *)

Lemma linear_snoc did events head r :
  linear did events → last events = Some head → r_Seq r = r_Seq head + 1 → r_ChainDID r = did →
  verified r → r_PrevID r = r_ID head → linear did (events ++ [r]).
Proof.
  intros [L1 L2 L3 L4 L5] Hl Hs Hd Hv Hp. rewrite last_lookup in Hl.
  assert (length events ≠ 0%nat) as Hne by (intros E; apply nil_length_inv in E; by subst).
  assert (r_Seq r = Z.of_nat (length events)) as Hseq by (rewrite Hs, (L1 _ _ Hl); lia).
  assert (∀ i x, (events ++ [r]) !! i = Some x →
            events !! i = Some x ∨ i = length events ∧ x = r) as Hcase.
  { intros i x Hi. apply lookup_app_Some in Hi as [Hi|[Hi Hx]]; [by left|right].
    apply list_lookup_singleton_Some in Hx as [Hx <-]. split; [lia|done]. }
  constructor.
  - intros i x [Hi|[-> ->]]%Hcase; [by apply L1|done].
  - intros i x [Hi|[-> ->]]%Hcase; [by eapply L2|done].
  - intros i x [Hi|[-> ->]]%Hcase; [by eapply L3|done].
  - intros x [Hi|[E ->]]%Hcase; [by apply L4|by rewrite <- E in Hne].
  - intros i a b [Ha|[-> ->]]%Hcase [Hb|[E ->]]%Hcase.
    + by eapply L5.
    + rewrite Hp. rewrite <- E in Hl. simpl in Hl. congruence.
    + apply lookup_lt_Some in Hb. lia.
    + lia.
Qed.

Lemma linear_head did events head :
  linear did events → last events = Some head → r_Seq head = Z.of_nat (length events) - 1.
Proof.
  intros [L1 _ _ _ _] Hl. rewrite last_lookup in Hl. rewrite (L1 _ _ Hl).
  apply lookup_lt_Some in Hl. lia.
Qed.

Lemma staged_ok_empty did n : staged_ok did n ∅.
Proof.
  constructor; try (intros s r H; by rewrite lookup_empty in H). rewrite map_size_empty.
  by apply Z.leb_le.
Qed.

(** The next sequence number does not wrap where a record can have it. *)
Lemma next_seq n : 0 <= n → n + 1 < two64 → u64 (n + 1) = n + 1.
Proof. intros H1 H2. unfold u64. apply Z.mod_small. lia. Qed.

(** Draining keeps the history linear, extends it, and stops when the next record is not staged. *)
Lemma drain_ok did fuel events staged :
  events ≠ [] → linear did events → (size staged <= fuel)%nat →
  (∀ s r, staged !! s = Some r → r_Seq r = s ∧ Z.of_nat (length events) <= s < two64 ∧
     r_ChainDID r = did ∧ verified r) → Z.of_nat (size staged) <= ImportBufferCap →
  ∃ more staged', drain fuel (mkChain events ChainActive staged) =
      Ok (mkChain (events ++ more) ChainActive staged') ∧
    linear did (events ++ more) ∧ staged_ok did (length (events ++ more)) staged'.
Proof.
  revert events staged. induction fuel as [|fuel IH]; intros events staged Hne Hlin Hf Hst Hcap.
  - exists [], staged. rewrite app_nil_r. split; [done|]. split; [done|].
    assert (staged = ∅) as -> by (apply map_size_empty_iff; lia).
    constructor; intros; by rewrite ?lookup_empty in *.
  - destruct (last events) as [head|] eqn:Hl; [|by apply last_None in Hl].
    pose proof (linear_head _ _ _ Hlin Hl) as Hs.
    assert (length events ≠ 0%nat) as Hlen by (intros E; by apply nil_length_inv in E).
    cbn [drain ch_events ch_staged ch_state]. unfold lastOf. rewrite Hl. cbn [of_option mbind result_bind].
    destruct (staged !! u64 (r_Seq head + 1)) as [next|] eqn:Hnext.
    + destruct (Hst _ _ Hnext) as (Hns & Hrange & Hnd & Hnv).
      assert (u64 (r_Seq head + 1) = r_Seq head + 1) as Hu.
      { apply next_seq; [lia|]. lia. }
      rewrite Hu in *.
      assert (∀ s r, delete (r_Seq head + 1) staged !! s = Some r → staged !! s = Some r ∧ s ≠ r_Seq head + 1)
        as Hdel by (intros s r Hr; apply lookup_delete_Some in Hr as [? ?]; done).
      assert (size (delete (r_Seq head + 1)%Z staged) <= fuel)%nat as Hsz.
      { rewrite map_size_delete_Some by (by eexists). lia. }
      assert (Z.of_nat (size (delete (r_Seq head + 1) staged)) <= ImportBufferCap) as Hc'.
      { rewrite map_size_delete_Some by (by eexists). lia. }
      destruct (beqb (r_PrevID next) (r_ID head)) eqn:Hp.
      * apply beqb_true in Hp.
        destruct (IH (events ++ [next]) (delete (r_Seq head + 1) staged)) as (more & st' & E & L & S).
        -- by destruct events.
        -- by eapply linear_snoc.
        -- done.
        -- intros s r [Hr Hn]%Hdel. destruct (Hst _ _ Hr) as (? & ? & ? & ?).
           rewrite length_app. simpl. split_and!; try done; lia.
        -- done.
        -- exists ([next] ++ more), st'. by rewrite app_assoc.
      * destruct (IH events (delete (r_Seq head + 1) staged)) as (more & st' & E & L & S); try done.
        -- intros s r [Hr Hn]%Hdel. by apply Hst.
        -- by exists more, st'.
    + exists [], staged. rewrite app_nil_r. split; [done|]. split; [done|].
      constructor; try (intros s r Hr; by destruct (Hst _ _ Hr) as (? & ? & ? & ?)); [|done].
      intros s r Hr. destruct (Hst _ _ Hr) as (? & ? & ? & ?).
      assert (s ≠ Z.of_nat (length events)); [|lia]. intros ->.
      rewrite next_seq in Hnext by lia. replace (r_Seq head + 1) with (Z.of_nat (length events)) in Hnext by lia.
      congruence.
Qed.

Lemma drainStaged_ok did events staged :
  events ≠ [] → linear did events →
  (∀ s r, staged !! s = Some r → r_Seq r = s ∧ Z.of_nat (length events) <= s < two64 ∧
     r_ChainDID r = did ∧ verified r) → Z.of_nat (size staged) <= ImportBufferCap →
  ∃ more staged', drainStaged (mkChain events ChainActive staged) =
      Ok (mkChain (events ++ more) ChainActive staged') ∧
    linear did (events ++ more) ∧ staged_ok did (length (events ++ more)) staged'.
Proof. intros. unfold drainStaged. by apply drain_ok. Qed.

(** One record on an active chain. *)
Lemma appendToChain_ok did events staged r :
  events ≠ [] → linear did events → staged_ok did (length events) staged →
  is_u64 (r_Seq r) → r_ChainDID r = did → verified r →
  ∃ ch f, appendToChain (mkChain events ChainActive staged) r = Ok (ch, f) ∧ chain_ok did ch ∧
    events `prefix_of` ch_events ch ∧
    (∀ e, f = Some (Rejected e) → ch = mkChain events ChainActive staged).
Proof.
  intros Hne Hlin Hst Hu Hd Hv. pose proof Hst as [S1 S2 S3 S4 S5].
  destruct (last events) as [head|] eqn:Hl; [|by apply last_None in Hl].
  pose proof (linear_head _ _ _ Hlin Hl) as Hs.
  assert (length events ≠ 0%nat) as Hlen by (intros E; by apply nil_length_inv in E).
  unfold appendToChain, lastOf. cbn [ch_events ch_staged ch_state]. rewrite Hl. cbn [of_option mbind result_bind].
  destruct (Z.leb_spec (r_Seq r) (r_Seq head)) as [Hle|Hgt].
  - destruct (lookup_lt_is_Some_2 events (Z.to_nat (r_Seq r))) as [ex Hex]; [unfold is_u64 in Hu; lia|].
    rewrite Hex. cbn [of_option mbind result_bind]. destruct (beqb (r_ID ex) (r_ID r)) eqn:Hid; cbn [negb].
    + eexists _, _. split; [done|]. split; [by constructor|]. by split.
    + apply beqb_false in Hid. unfold quarantine. eexists _, _. split; [done|]. split.
      * constructor; try done. apply Hu.
      * split; [by apply prefix_app_r|done].
  - destruct (Z.eqb_spec (r_Seq r) (u64 (r_Seq head + 1))) as [Heq|Hne2].
    + unfold is_u64 in Hu. rewrite next_seq in Heq by lia.
      destruct (beqb (r_PrevID r) (r_ID head)) eqn:Hp; cbn [negb].
      * apply beqb_true in Hp.
        destruct (drainStaged_ok did (events ++ [r]) staged) as (more & st' & E & L & S).
        -- by destruct events.
        -- by eapply linear_snoc.
        -- intros s x Hx. rewrite length_app. simpl. specialize (S2 _ _ Hx).
           split_and!; eauto; lia.
        -- done.
        -- rewrite E. cbn [mbind result_bind]. eexists _, _. split; [done|].
           split; [constructor; [by destruct events|done..]|]. simpl. rewrite <- app_assoc.
           split; [by apply prefix_app_r|done].
      * eexists _, _. split; [done|]. split; [by constructor|]. split; [done|]. by intros e [= <-].
    + assert (r_Seq r ≠ r_Seq head + 1) as Hne3.
      { unfold is_u64 in Hu. intros E. rewrite next_seq in Hne2 by lia. congruence. }
      destruct (match staged !! r_Seq r with Some s => beqb (r_ID s) (r_ID r) | None => false end).
      { eexists _, _. split; [done|]. split; [by constructor|]. by split. }
      destruct (Z.leb_spec ImportBufferCap (Z.of_nat (size staged))).
      { eexists _, _. split; [done|]. split; [by constructor|]. split; [done|]. by intros e [= <-]. }
      eexists _, _. split; [done|]. split; [|by split]. constructor; [done|done|].
      unfold is_u64 in Hu.
      assert (∀ s x, <[r_Seq r:=r]> staged !! s = Some x → s = r_Seq r ∧ x = r ∨ staged !! s = Some x) as Hins.
      { intros s x Hx. apply lookup_insert_Some in Hx as [[<- <-]|[_ Hx]]; auto. }
      constructor.
      * intros s x [[-> ->]|Hx]%Hins; [done|by apply S1].
      * intros s x [[-> ->]|Hx]%Hins; [lia|by eapply S2].
      * intros s x [[-> ->]|Hx]%Hins; [done|by eapply S3].
      * intros s x [[-> ->]|Hx]%Hins; [done|by eapply S4].
      * rewrite map_size_insert. destruct (staged !! r_Seq r); cbn [id]; unfold id; lia.
Qed.

Lemma state_active : beqb ChainActive ChainQuarantined = false ∧ beqb ChainQuarantined ChainQuarantined = true.
Proof. split; vm_compute; reflexivity. Qed.

(** The gates before the chain: what passes them is verified. *)
Lemma record_Verify_Panic r kel : 0 <= r_KeyStateSeq r → record_Verify r kel ≠ Err Panic.
Proof.
  intros Hk. unfold record_Verify. apply bind_Panic.
  { unfold Preimage. pose proof (Marshal_Panic (preimageMap r)). by destruct (Marshal (preimageMap r)). }
  intros pre _. apply bind_Panic; [by destruct (Sum pre)|]. intros id _. case_goal; [done|].
  pose proof (VerifyObject_Panic kel (r_SignerAID r) (r_KeyStateSeq r) (u64 (r_Timestamp r)) pre (r_Sig r) Hk) as H.
  destruct (VerifyObject _ _ _ _ _ _) as [|e]; [done|]. simpl. destruct e; simpl; try done;
    repeat case_goal; done.
Qed.

(** What [Append] does: it leaves the ledger as it was and reports why, or it applies a verified record
    to its chain, whose events only grow. *)
Lemma Append_ok l r kel :
  ledger_ok l → is_u64 (r_Seq r) → 0 <= r_KeyStateSeq r →
  ∃ l' f, Append l r kel = Ok (l', f) ∧ ledger_ok l' ∧
    ((l' = l ∧ ∃ e, f = Some (Rejected e)) ∨
     (record_Verify r kel = Ok tt ∧ State l (r_ChainDID r) ≠ ChainQuarantined ∧
      ∃ ch', l' = <[r_ChainDID r := ch']> l ∧ Events l (r_ChainDID r) `prefix_of` ch_events ch')).
Proof.
  intros Hl Hu Hk. destruct state_active as [Sa Sq]. unfold Append.
  assert (∀ code, ∃ l' f, Ok (l, Some (Rejected (newErr code))) = Ok (A := Ledger * option failure) (l', f) ∧
            ledger_ok l' ∧
    ((l' = l ∧ ∃ e, f = Some (Rejected e)) ∨
     (record_Verify r kel = Ok tt ∧ State l (r_ChainDID r) ≠ ChainQuarantined ∧
      ∃ ch', l' = <[r_ChainDID r := ch']> l ∧ Events l (r_ChainDID r) `prefix_of` ch_events ch')))
    as Hrej by (intros code; eexists _, _; split; [done|]; split; [done|]; left; eauto).
  destruct (l !! r_ChainDID r) as [ch|] eqn:Hch.
  - destruct (Hl _ _ Hch) as [events staged Hne Hlin Hst|events staged ex inc Hlin]; cbn [ch_state].
    2: { rewrite Sq. apply Hrej. }
    rewrite Sa. destruct (negb (r_VersionMajor r =? VersionMajor2)); [apply Hrej|].
    destruct (record_Verify r kel) as [[]|e] eqn:Hv.
    2: { pose proof (record_Verify_Panic r kel Hk) as Hnp. rewrite Hv in Hnp.
         destruct e; try done; (eexists _, _; split; [done|]; split; [done|]; left; eauto). }
    destruct (appendToChain_ok (r_ChainDID r) events staged r) as (ch' & f & E & Hok & Hp & Hr); try done.
    { by exists kel. }
    destruct events as [|ev0 events]; [done|]. rewrite E. cbn [mbind result_bind].
    eexists _, _. split; [done|]. split.
    { intros did c [[<- <-]|[_ Hc]]%lookup_insert_Some; [done|by apply Hl]. }
    right. unfold State, Events. rewrite Hch. split; [done|]. split; [by vm_compute|]. eauto.
  - destruct (negb (r_VersionMajor r =? VersionMajor2)); [apply Hrej|].
    destruct (record_Verify r kel) as [[]|e] eqn:Hv.
    2: { pose proof (record_Verify_Panic r kel Hk) as Hnp. rewrite Hv in Hnp.
         destruct e; try done; (eexists _, _; split; [done|]; split; [done|]; left; eauto). }
    destruct (Z.eqb_spec (r_Seq r) 0) as [Hs|]; [|apply Hrej]. cbn [negb].
    destruct (beqb (r_PrevID r) GenesisPrev) eqn:Hp; [|apply Hrej]. cbn [negb]. apply beqb_true in Hp.
    change (drainStaged (mkChain [r] ChainActive ∅)) with (Ok (mkChain [r] ChainActive ∅)).
    cbn [mbind result_bind]. eexists _, _. split; [done|]. split.
    { intros did c [[<- <-]|[_ Hc]]%lookup_insert_Some; [|by apply Hl]. constructor; [done| |].
      - constructor.
        + by intros i x [-> <-]%list_lookup_singleton_Some.
        + by intros i x [-> <-]%list_lookup_singleton_Some.
        + intros i x [-> <-]%list_lookup_singleton_Some. by exists kel.
        + by intros x [_ <-]%list_lookup_singleton_Some.
        + by intros i a b _ [E _]%list_lookup_singleton_Some.
      - constructor; intros; by rewrite ?lookup_empty in *. }
    right. unfold State, Events. rewrite Hch. split; [done|]. split; [by vm_compute|].
    eexists. split; [done|]. by apply prefix_nil.
Qed.

(** A run of the ledger. *)
Fixpoint appends (l : Ledger) (ops : list (EventRecord * list SignedEvent)) : result Ledger :=
  match ops with
  | [] => Ok l
  | (r, kel) :: ops => '(l, _) ← Append l r kel; appends l ops
  end.

Definition sizes_ok (o : EventRecord * list SignedEvent) : Prop := is_u64 (r_Seq o.1) ∧ 0 <= r_KeyStateSeq o.1.

Lemma appends_ok l ops :
  ledger_ok l → Forall sizes_ok ops →
  ∃ l', appends l ops = Ok l' ∧ ledger_ok l' ∧ ∀ did, Events l did `prefix_of` Events l' did.
Proof.
  intros Hl Ho. revert l Hl. induction Ho as [|[r kel] ops [H1 H2] _ IH]; intros l Hl; [by exists l|].
  simpl. destruct (Append_ok l r kel Hl H1 H2) as (l1 & f & E & Hl1 & Hc). rewrite E.
  cbn [mbind result_bind]. destruct (IH l1 Hl1) as (l2 & E2 & Hl2 & Hp). exists l2. split_and!; [done..|].
  intros did. etrans; [|apply Hp]. destruct Hc as [[-> _]|(_ & _ & ch' & -> & Hpre)]; [done|].
  destruct (decide (did = r_ChainDID r)) as [->|Hne].
  - assert (Events (<[r_ChainDID r:=ch']> l) (r_ChainDID r) = ch_events ch') as ->; [|done].
    unfold Events. by rewrite lookup_insert_eq.
  - unfold Events. by rewrite lookup_insert_ne.
Qed.
End Facts.
