(* ===== verification/AelTheorems.v ===== *)
(** * AelTheorems: the properties of the ledger *)

From S2P Require Import Prelude Aid Cbor Platform Kel KelReference KelSpec KelProps Controller Ael AelFacts.
Import Light.

(** ** Delivery in any order *)

Section Delivery.
Context `{P : Platform} `{CE : Coredet KeyEvent} `{CC : Coredet cbor}.

(** A chain that holds the first [n] records of [rs], the others of [rs] that came being staged. *)
Record partial (did : bytes) (rs : list EventRecord) (n : nat) (ch : chain) : Prop := {
  pa_events : ch_events ch = take n rs;
  pa_state : ch_state ch = ChainActive;
  pa_pos : (0 < n <= length rs)%nat;
  pa_staged s x : ch_staged ch !! s = Some x → rs !! Z.to_nat s = Some x ∧ Z.of_nat n <= s;
  pa_next : ∀ x, ch_staged ch !! Z.of_nat n ≠ Some x;
}.

(** Record [i] of [rs] has arrived. *)
Definition arrived (n : nat) (ch : chain) (i : nat) : Prop :=
  (i < n)%nat ∨ is_Some (ch_staged ch !! Z.of_nat i).

Lemma drain_partial did rs fuel n ch :
  linear did rs → Z.of_nat (length rs) < two64 → ch_events ch = take n rs → ch_state ch = ChainActive →
  (0 < n <= length rs)%nat → (∀ s x, ch_staged ch !! s = Some x → rs !! Z.to_nat s = Some x ∧ Z.of_nat n <= s) →
  (size (ch_staged ch) <= fuel)%nat →
  ∃ n' ch', drain fuel ch = Ok ch' ∧ partial did rs n' ch' ∧ (n <= n')%nat ∧
    ∀ i, arrived n ch i → arrived n' ch' i.
Proof.
  intros Hlin Hlen. revert n ch. induction fuel as [|fuel IH]; intros n ch He Hs Hn Hst Hf.
  - exists n, ch. assert (ch_staged ch = ∅) as E by (apply map_size_empty_iff; lia).
    split; [done|]. split; [|split; [lia|done]]. constructor; try done. intros x. by rewrite E, lookup_empty.
  - destruct (lookup_lt_is_Some_2 rs (n - 1)) as [head Hh]; [lia|].
    assert (last (ch_events ch) = Some head) as Hl.
    { rewrite He, last_lookup, length_take, Nat.min_l by lia. rewrite lookup_take_lt by lia.
      by replace (pred n) with (n - 1)%nat by lia. }
    assert (u64 (r_Seq head + 1) = Z.of_nat n) as Hu.
    { rewrite (lin_seq _ _ Hlin _ _ Hh), next_seq by lia. lia. }
    cbn [drain]. unfold lastOf. rewrite Hl. cbn [of_option mbind result_bind]. rewrite Hu.
    destruct (ch_staged ch !! Z.of_nat n) as [next|] eqn:Hnext.
    + destruct (Hst _ _ Hnext) as [Hx _]. rewrite Nat2Z.id in Hx.
      assert (rs !! S (n - 1) = Some next) as Hx' by (by replace (S (n - 1)) with n by lia).
      rewrite (lin_linked _ _ Hlin _ _ _ Hh Hx'), beqb_refl.
      destruct (IH (S n) (mkChain (ch_events ch ++ [next]) (ch_state ch) (delete (Z.of_nat n) (ch_staged ch))))
        as (n' & ch' & E & Hp & Hle & Ha); cbn [ch_events ch_staged ch_state].
      * by rewrite He, (take_S_r _ _ _ Hx).
      * done.
      * apply lookup_lt_Some in Hx. lia.
      * intros s x [Hsn Hd]%lookup_delete_Some. destruct (Hst _ _ Hd). split; [done|lia].
      * rewrite map_size_delete_Some by (by eexists). lia.
      * exists n', ch'. split; [done|]. split; [done|]. split; [lia|]. intros i Hi. apply Ha.
        destruct Hi as [Hi|Hi]; [left; lia|]. unfold arrived. cbn [ch_staged].
        destruct (decide (i = n)) as [->|]; [left; lia|right]. by rewrite lookup_delete_ne by lia.
    + exists n, ch. split; [done|]. split; [|split; [lia|done]].
      constructor; try done. intros x. by rewrite Hnext.
Qed.

Lemma partial_size did rs n ch :
  linear did rs → partial did rs n ch → ∀ i r, rs !! i = Some r → ch_staged ch !! Z.of_nat i = None →
  (size (ch_staged ch) < length rs)%nat.
Proof.
  intros Hlin Hp i r Hi Hno.
  assert (size (dom (<[Z.of_nat i := r]> (ch_staged ch))) <= size (list_to_set (map r_Seq rs) : gset Z))%nat as H.
  { apply subseteq_size. intros s Hs. apply elem_of_dom in Hs as [x Hs].
    apply elem_of_list_to_set, list_elem_of_fmap.
    apply lookup_insert_Some in Hs as [[<- <-]|[_ Hs]].
    - exists r. rewrite (lin_seq _ _ Hlin _ _ Hi). split; [done|]. by eapply list_elem_of_lookup_2.
    - destruct (pa_staged _ _ _ _ Hp _ _ Hs) as [Hx H0]. exists x.
      rewrite (lin_seq _ _ Hlin _ _ Hx), Z2Nat.id by lia. split; [done|]. by eapply list_elem_of_lookup_2. }
  rewrite size_dom, map_size_insert_None in H by done.
  assert (∀ l : list Z, (size (list_to_set l : gset Z) <= length l)%nat) as Hls.
  { intros l. induction l as [|a l IHl]; [rewrite list_to_set_nil, size_empty; simpl; lia|].
    rewrite list_to_set_cons. cbn [length].
    destruct (decide (a ∈ (list_to_set l : gset Z))); [rewrite subseteq_union_1_L by set_solver; lia|].
    rewrite size_union, size_singleton by set_solver. lia. }
  specialize (Hls (map r_Seq rs)). rewrite length_map in Hls. lia.
Qed.

(** One delivery. *)
Lemma deliver did rs n ch i r :
  linear did rs → Z.of_nat (length rs) <= ImportBufferCap → partial did rs n ch → rs !! i = Some r →
  ∃ n' ch', appendToChain ch r = Ok (ch', None) ∧ partial did rs n' ch' ∧
    (∀ j, arrived n ch j → arrived n' ch' j) ∧ arrived n' ch' i.
Proof.
  intros Hlin Hcap Hp Hi. pose proof (pa_pos _ _ _ _ Hp) as Hn. pose proof (pa_events _ _ _ _ Hp) as He.
  pose proof (lookup_lt_Some _ _ _ Hi) as Hilt.
  destruct (lookup_lt_is_Some_2 rs (n - 1)) as [head Hh]; [lia|].
  assert (last (ch_events ch) = Some head) as Hl.
  { rewrite He, last_lookup, length_take, Nat.min_l by lia. rewrite lookup_take_lt by lia.
    by replace (pred n) with (n - 1)%nat by lia. }
  assert (two64 = 18446744073709551616 ∧ ImportBufferCap = 1024) as [E1 E2] by done.
  unfold appendToChain, lastOf. rewrite Hl. cbn [of_option mbind result_bind].
  rewrite (lin_seq _ _ Hlin _ _ Hi), (lin_seq _ _ Hlin _ _ Hh), Nat2Z.id.
  destruct (Z.leb_spec (Z.of_nat i) (Z.of_nat (n - 1))) as [Hle|Hgt].
  - rewrite He, lookup_take_lt, Hi by lia. cbn [of_option mbind result_bind]. rewrite beqb_refl. cbn [negb].
    exists n, ch. split; [done|]. split; [done|]. split; [done|]. left. lia.
  - rewrite next_seq by lia. destruct (Z.eqb_spec (Z.of_nat i) (Z.of_nat (n - 1) + 1)) as [Heq|Hne].
    + assert (i = n) as -> by lia. assert (rs !! S (n - 1) = Some r) as Hi' by (by replace (S (n - 1)) with n by lia).
      rewrite (lin_linked _ _ Hlin _ _ _ Hh Hi'), beqb_refl. cbn [negb].
      destruct (drain_partial did rs (size (ch_staged ch)) (S n)
                  (mkChain (ch_events ch ++ [r]) (ch_state ch) (ch_staged ch))) as (n' & ch' & E & Hp' & Hle & Ha);
        cbn [ch_events ch_state ch_staged]; try done.
      * lia.
      * by rewrite He, (take_S_r _ _ _ Hi).
      * apply Hp.
      * lia.
      * intros s x Hsx. destruct (pa_staged _ _ _ _ Hp _ _ Hsx) as [Hx Hs]. split; [done|].
        assert (s ≠ Z.of_nat n); [|lia]. intros ->. by apply (pa_next _ _ _ _ Hp x).
      * unfold drainStaged. cbn [ch_staged]. rewrite E. cbn [mbind result_bind]. exists n', ch'.
        split; [done|]. split; [done|]. split.
        -- intros j Hj. apply Ha. unfold arrived in *. cbn [ch_staged]. destruct Hj; [left; lia|by right].
        -- apply Ha. left. lia.
    + destruct (ch_staged ch !! Z.of_nat i) as [x|] eqn:Hx.
      * destruct (pa_staged _ _ _ _ Hp _ _ Hx) as [Hx' _]. rewrite Nat2Z.id, Hi in Hx'. injection Hx' as <-.
        rewrite beqb_refl. exists n, ch. split; [done|]. split; [done|]. split; [done|]. right. by eexists.
      * pose proof (partial_size _ _ _ _ Hlin Hp _ _ Hi Hx) as Hsz.
        rewrite (proj2 (Z.leb_gt _ _)) by lia. eexists n, _. split; [done|]. split; [|split].
        -- constructor; cbn [ch_events ch_state ch_staged]; try apply Hp.
           ++ intros s y [[<- <-]|[_ Hy]]%lookup_insert_Some; [rewrite Nat2Z.id; split; [done|lia]|by apply Hp].
           ++ intros y. rewrite lookup_insert_ne by lia. apply Hp.
        -- intros j [Hj|Hj]; [by left|right]. cbn [ch_staged].
           destruct (decide (i = j)) as [->|]; [rewrite lookup_insert_eq; by eexists|].
           by rewrite lookup_insert_ne by lia.
        -- right. cbn [ch_staged]. rewrite lookup_insert_eq. by eexists.
Qed.

Lemma Append_deliver did rs n ch i r kel l :
  linear did rs → Z.of_nat (length rs) <= ImportBufferCap → partial did rs n ch → rs !! i = Some r →
  r_VersionMajor r = VersionMajor2 → record_Verify r kel = Ok tt → l !! did = Some ch →
  ∃ n' ch', Append l r kel = Ok (<[did := ch']> l, None) ∧ partial did rs n' ch' ∧
    (∀ j, arrived n ch j → arrived n' ch' j) ∧ arrived n' ch' i.
Proof.
  intros Hlin Hcap Hp Hi Hver Hv Hl. destruct (deliver _ _ _ _ _ _ Hlin Hcap Hp Hi) as (n' & ch' & E & Hp' & Ha & Hai).
  exists n', ch'. split; [|done]. unfold Append. rewrite (lin_did _ _ Hlin _ _ Hi), Hl.
  rewrite (pa_state _ _ _ _ Hp). destruct state_active as [-> _].
  rewrite Hver, Z.eqb_refl. cbn [negb]. rewrite Hv.
  pose proof (pa_events _ _ _ _ Hp) as He. pose proof (pa_pos _ _ _ _ Hp) as Hn.
  destruct ch as [[|e0 es] st stg]; cbn [ch_events] in *; [destruct n, rs; simpl in *; by lia || done|].
  rewrite E. done.
Qed.

Lemma deliver_all did rs ops : ∀ l n ch,
  linear did rs → Z.of_nat (length rs) <= ImportBufferCap → partial did rs n ch → l !! did = Some ch →
  Forall (λ o, o.1 ∈ rs ∧ r_VersionMajor o.1 = VersionMajor2 ∧ record_Verify o.1 o.2 = Ok tt) ops →
  ∃ l' n' ch', appends l ops = Ok l' ∧ l' !! did = Some ch' ∧ partial did rs n' ch' ∧
    (∀ j, arrived n ch j → arrived n' ch' j) ∧
    (∀ i r, rs !! i = Some r → r ∈ map fst ops → arrived n' ch' i).
Proof.
  induction ops as [|[r kel] ops IH]; intros l n ch Hlin Hcap Hp Hl Hops.
  - exists l, n, ch. split_and!; try done. by intros i r _ ?%elem_of_nil.
  - apply Forall_cons in Hops as [(Hr & Hver & Hv) Hops]. simpl in Hr, Hver, Hv.
    apply list_elem_of_lookup_1 in Hr as [i Hi].
    destruct (Append_deliver _ _ _ _ _ _ kel l Hlin Hcap Hp Hi Hver Hv Hl) as (n1 & ch1 & E & Hp1 & Ha1 & Hai).
    destruct (IH (<[did := ch1]> l) n1 ch1) as (l' & n' & ch' & E' & Hl' & Hp' & Ha' & Hall); try done.
    { apply lookup_insert_eq. }
    exists l', n', ch'. simpl. rewrite E. cbn [mbind result_bind]. split_and!; try done; [auto|].
    intros j x Hj [->|Hin]%elem_of_cons; [|by eapply Hall]. apply Ha'.
    assert (Z.of_nat j = Z.of_nat i) as Hji by (by rewrite <- (lin_seq _ _ Hlin _ _ Hj), <- (lin_seq _ _ Hlin _ _ Hi)).
    by replace j with i by lia.
Qed.
End Delivery.

Section Theorems.
Context `{P : Platform} `{CE : Coredet KeyEvent} `{CC : Coredet cbor}.

Lemma active_chain did events staged :
  chain_ok did (mkChain events ChainActive staged) →
  events ≠ [] ∧ linear did events ∧ staged_ok did (length events) staged.
Proof.
  remember (mkChain events ChainActive staged) as ch eqn:E. intros H.
  pose proof (f_equal ch_events E) as E1. pose proof (f_equal ch_state E) as E2.
  pose proof (f_equal ch_staged E) as E3.
  destruct H as [ev st Hne Hlin Hst|ev st ex inc]; cbn [ch_events ch_state ch_staged] in *; [by subst|].
  by apply (f_equal (beqb ChainQuarantined)) in E2.
Qed.

Lemma ledger_ok_empty : ledger_ok ∅.
Proof. intros did ch H. by rewrite lookup_empty in H. Qed.

Lemma Append_quarantined l r kel l' f did ch :
  l !! did = Some ch → ch_state ch = ChainQuarantined → Append l r kel = Ok (l', f) → l' !! did = Some ch.
Proof.
  intros Hl Hq H. destruct state_active as [_ Sq]. destruct (decide (r_ChainDID r = did)) as [<-|Hne].
  - unfold Append in H. rewrite Hl, Hq, Sq in H. by simplify_eq.
  - unfold Append in H. repeat (case_match; try done); go_inv; simplify_eq; try done;
      repeat match goal with x : _ * _ |- _ => destruct x end; go_inv; simplify_eq;
      try done; by rewrite lookup_insert_ne.
Qed.

Lemma appends_quarantined l ops l' did ch :
  l !! did = Some ch → ch_state ch = ChainQuarantined → appends l ops = Ok l' → l' !! did = Some ch.
Proof.
  intros Hl Hq. revert l Hl. induction ops as [|[r kel] ops IH]; intros l Hl H; simpl in H; [by simplify_eq|].
  apply bind_Ok in H as ([l1 f] & H1 & H). eapply IH; [|exact H]. by eapply Append_quarantined.
Qed.

(** C21: the invariant of the ledger.  Whatever records are appended under whatever logs, in whatever
    order, no call panics and every chain is either active, a linear history of verified records from
    the genesis sentinel with verified records staged beyond its next one, or quarantined, a linear
    history with two records of one sequence number and different ids and the anchor of the fork. *)
Theorem ledger_invariant ops :
  Forall sizes_ok ops → ∃ l, appends ∅ ops = Ok l ∧ ledger_ok l.
Proof. intros Ho. destruct (appends_ok ∅ ops ledger_ok_empty Ho) as (l & ? & ? & _). eauto. Qed.

(** C22: the fork trap.  A verified record at a sequence number the active chain holds under another
    id yields the proof of the equivocation and quarantines the chain with both records on it; nothing
    appended afterwards changes that chain. *)
Theorem equivocation_quarantines l did events staged r kel existing ops l2 :
  ledger_ok l → l !! did = Some (mkChain events ChainActive staged) →
  r_ChainDID r = did → r_VersionMajor r = VersionMajor2 → record_Verify r kel = Ok tt →
  0 <= r_Seq r → events !! Z.to_nat (r_Seq r) = Some existing → r_ID existing ≠ r_ID r →
  let ch := mkChain (events ++ [r; forkAnchor existing r]) ChainQuarantined staged in
  Append l r kel = Ok (<[did := ch]> l, Some (Equivocation (mkEquivocation did (r_Seq r) existing r))) ∧
  verified existing ∧ r_Seq existing = r_Seq r ∧
  (appends (<[did := ch]> l) ops = Ok l2 → l2 !! did = Some ch).
Proof.
  intros Hok Hl Hd Hver Hv Hs He Hid ch. destruct state_active as [Sa _].
  subst did. destruct (active_chain _ _ _ (Hok _ _ Hl)) as (Hne & Hlin & Hst).
  assert (r_Seq existing = r_Seq r) as Hseq by (rewrite (lin_seq _ _ Hlin _ _ He); lia).
  split_and!; [|by eapply lin_verified|done|].
  - destruct (last events) as [head|] eqn:Hlast; [|by apply last_None in Hlast].
    pose proof (linear_head _ _ _ Hlin Hlast) as Hh. apply lookup_lt_Some in He as Hlt.
    unfold Append. rewrite Hl. cbn [ch_state]. rewrite Sa, Hver, Z.eqb_refl. cbn [negb]. rewrite Hv.
    destruct events as [|e0 es]; [done|]. set (events := e0 :: es) in *.
    unfold appendToChain, lastOf. cbn [ch_events ch_staged ch_state]. rewrite Hlast.
    cbn [of_option mbind result_bind]. rewrite (proj2 (Z.leb_le _ _)) by lia. rewrite He.
    cbn [of_option mbind result_bind]. rewrite (proj2 (beqb_false _ _) Hid). done.
  - intros H. eapply appends_quarantined; [|done|exact H]. apply lookup_insert_eq.
Qed.

(** History is append-only.  Whatever is appended to a ledger, the records a chain held stay where
    they were; re-delivering a record it holds changes nothing. *)
Theorem history_is_append_only l ops :
  ledger_ok l → Forall sizes_ok ops →
  ∃ l', appends l ops = Ok l' ∧ ledger_ok l' ∧ ∀ did, Events l did `prefix_of` Events l' did.
Proof. apply appends_ok. Qed.

(** C23: the order of delivery does not matter.  However the records of a linear history arrive after
    its genesis (in any order, each as often as one likes, as long as every one comes), the ledger ends
    with exactly that history, in order, and nothing staged. *)
Theorem delivery_order_is_irrelevant l did rs r0 ops :
  linear did rs → head rs = Some r0 → Z.of_nat (length rs) <= ImportBufferCap →
  l !! did = Some (mkChain [r0] ChainActive ∅) →
  Forall (λ o, o.1 ∈ rs ∧ r_VersionMajor o.1 = VersionMajor2 ∧ record_Verify o.1 o.2 = Ok tt) ops →
  (∀ r, r ∈ tail rs → r ∈ map fst ops) →
  ∃ l' ch, appends l ops = Ok l' ∧ l' !! did = Some ch ∧ ch_events ch = rs ∧ ch_state ch = ChainActive ∧
    ch_staged ch = ∅.
Proof.
  intros Hlin Hh Hcap Hl Hops Hall. destruct rs as [|r rs]; [done|]. injection Hh as ->.
  destruct (deliver_all did (r0 :: rs) ops l 1 (mkChain [r0] ChainActive ∅)) as (l' & n & ch & E & Hl' & Hp & _ & Ha);
    try done.
  { constructor; try done; simpl; try lia; intros; by rewrite ?lookup_empty in *. }
  exists l', ch. pose proof (pa_pos _ _ _ _ Hp) as Hn.
  assert (∀ i x, (r0 :: rs) !! S i = Some x → arrived n ch (S i)) as Harr.
  { intros i x Hx. eapply Ha; [exact Hx|]. apply Hall. simpl. by eapply list_elem_of_lookup_2. }
  assert (n = length (r0 :: rs)) as ->.
  { destruct (decide (n = length (r0 :: rs))) as [|Hne]; [done|exfalso].
    destruct (lookup_lt_is_Some_2 (r0 :: rs) n) as [x Hx]; [lia|]. destruct n as [|n]; [lia|].
    destruct (Harr n x Hx) as [?|[y Hy]]; [lia|]. by apply (pa_next _ _ _ _ Hp y). }
  split_and!; try done.
  - rewrite (pa_events _ _ _ _ Hp). by rewrite firstn_all.
  - apply Hp.
  - apply map_empty. intros s. destruct (ch_staged ch !! s) as [x|] eqn:Hs; [exfalso|done].
    destruct (pa_staged _ _ _ _ Hp _ _ Hs) as [Hx H0].
    apply lookup_lt_Some in Hx as Hlt. pose proof (lin_seq _ _ Hlin _ _ Hx) as Hsq.
    lia.
Qed.


(** The fork trap as a step. *)
Lemma fork_step l events staged r kel existing :
  l !! r_ChainDID r = Some (mkChain events ChainActive staged) → linear (r_ChainDID r) events →
  events ≠ [] → r_VersionMajor r = VersionMajor2 → record_Verify r kel = Ok tt →
  0 <= r_Seq r → events !! Z.to_nat (r_Seq r) = Some existing → r_ID existing ≠ r_ID r →
  Append l r kel =
    Ok (<[r_ChainDID r := mkChain (events ++ [r; forkAnchor existing r]) ChainQuarantined staged]> l,
        Some (Equivocation (mkEquivocation (r_ChainDID r) (r_Seq r) existing r))).
Proof.
  intros Hl Hlin Hne Hver Hv Hs He Hid. destruct state_active as [Sa _].
  destruct (last events) as [head|] eqn:Hlast; [|by apply last_None in Hlast].
  pose proof (linear_head _ _ _ Hlin Hlast) as Hh. apply lookup_lt_Some in He as Hlt.
  unfold Append. rewrite Hl. cbn [ch_state]. rewrite Sa, Hver, Z.eqb_refl. cbn [negb]. rewrite Hv.
  destruct events as [|e0 es]; [done|]. set (events := e0 :: es) in *.
  unfold appendToChain, lastOf. cbn [ch_events ch_staged ch_state]. rewrite Hlast.
  cbn [of_option mbind result_bind]. rewrite (proj2 (Z.leb_le _ _)) by lia. rewrite He.
  cbn [of_option mbind result_bind]. by rewrite (proj2 (beqb_false _ _) Hid).
Qed.

(** An honest chain keeps its attested head.  After any appends the record at the attested
    position still has the attested id, so no record the ledger holds there contradicts the
    attestation; a verified record that does contradict it is caught as an equivocation. *)
Theorem attested_head_is_kept l did id seq a ops :
  ledger_ok l → State l did = ChainActive → Head l did = Some (id, seq) → Forall sizes_ok ops →
  a_ChainDID a = did → a_Seq a = seq → a_HeadID a = id →
  (∃ l' r, appends l ops = Ok l' ∧ Events l' did !! Z.to_nat seq = Some r ∧ r_ID r = id ∧
     ContradictedBy a r = false) ∧
  ∀ r kel, ContradictedBy a r = true → r_VersionMajor r = VersionMajor2 → record_Verify r kel = Ok tt →
    ∃ l' p, Append l r kel = Ok (l', Some (Equivocation p)) ∧ q_NodeB p = r ∧ r_ID (q_NodeA p) = id.
Proof.
  intros Hok Hst Hhead Hops Ha1 Ha2 Ha3.
  unfold State, Head in *. destruct (l !! did) as [[events st staged]|] eqn:Hl; [|done]. cbn [ch_state] in Hst.
  subst st. destruct (active_chain _ _ _ (Hok _ _ Hl)) as (Hne & Hlin & Hstg).
  destruct state_active as [Sa _]. cbn [ch_state ch_events] in Hhead. rewrite Sa in Hhead.
  destruct (last events) as [h|] eqn:Hlast; [|by apply last_None in Hlast].
  assert (Some (r_ID h, r_Seq h) = Some (id, seq)) as E by (by destruct events).
  injection E as Hid Hseq. pose proof (linear_head _ _ _ Hlin Hlast) as Hh.
  assert (events !! Z.to_nat seq = Some h) as He.
  { rewrite last_lookup in Hlast. rewrite <- Hseq, Hh. replace (Z.to_nat _) with (pred (length events)) by lia. done. }
  assert (0 <= seq) as H0 by (pose proof (lin_seq _ _ Hlin _ _ He); lia).
  assert (ContradictedBy a h = false) as Hc.
  { unfold ContradictedBy. rewrite Ha3, Hid, beqb_refl. by case_goal. }
  split.
  - destruct (appends_ok l ops Hok Hops) as (l' & E & _ & Hp). exists l', h. split; [done|].
    split; [|done]. eapply prefix_lookup_Some; [|apply Hp]. unfold Events. by rewrite Hl.
  - intros r kel Hcr Hver Hv. unfold ContradictedBy in Hcr.
    destruct (negb (beqb (r_ChainDID r) (a_ChainDID a)) || negb (r_Seq r =? a_Seq a)) eqn:Hpos; [done|].
    apply orb_false_iff in Hpos as [Hd Hs]. apply negb_beqb_false in Hd. apply negb_Zeqb_false in Hs.
    apply negb_true_iff, beqb_false in Hcr.
    assert (did = r_ChainDID r) as Ed by congruence. assert (r_Seq r = seq) as Es by congruence.
    rewrite Ed in Hl, Hlin. eexists _, (mkEquivocation (r_ChainDID r) (r_Seq r) h r).
    split; [|split; [done|exact Hid]].
    apply (fork_step l events staged r kel h); try done; [by rewrite Es|by rewrite Es|congruence].
Qed.
End Theorems.

(** ** On a sample chain

    The sample identity appends a genesis and three records, and a second record 1. *)

#[export] Instance item_coredet : Coredet cbor := cbor_marshal.

Definition sample_snapshot : snapshot := mkSnapshot (se_EventID sample_icp) 1 [sample_icp; sample_rot] (Some (sample_key 2)).
Definition sample_record (seq : Z) (prev : bytes) (payload : cbor) : EventRecord :=
  let r := mkEventRecord (se_EventID sample_icp) seq prev (str "note") 2 payload 1760000150000 [] 0 [] [] [] 0 [] in
  match record_Sign r sample_snapshot with Ok r => r | Err _ => r end.
Definition rec0 : EventRecord := sample_record 0 GenesisPrev (CUint 0).
Definition rec1 : EventRecord := sample_record 1 (r_ID rec0) (CUint 1).
Definition rec2 : EventRecord := sample_record 2 (r_ID rec1) (CUint 2).
Definition rec3 : EventRecord := sample_record 3 (r_ID rec2) (CUint 3).
Definition rec1' : EventRecord := sample_record 1 (r_ID rec0) (CUint 7).
Definition sample_log : list SignedEvent := [sample_icp; sample_rot].

Definition ledger0 : Ledger := {[ se_EventID sample_icp := mkChain [rec0] ChainActive ∅ ]}.
Definition out_of_order : list (EventRecord * list SignedEvent) :=
  [(rec3, sample_log); (rec2, sample_log); (rec3, sample_log); (rec1, sample_log)].

Lemma sample_records_verify :
  record_Verify rec0 sample_log = Ok tt ∧ record_Verify rec1 sample_log = Ok tt ∧
  record_Verify rec2 sample_log = Ok tt ∧ record_Verify rec3 sample_log = Ok tt ∧
  record_Verify rec1' sample_log = Ok tt.
Proof. split_and!; vm_compute; reflexivity. Qed.

Lemma sample_seqs : r_Seq rec0 = 0 ∧ r_Seq rec1 = 1 ∧ r_Seq rec2 = 2 ∧ r_Seq rec3 = 3.
Proof. split_and!; vm_compute; reflexivity. Qed.
Lemma sample_dids :
  r_ChainDID rec0 = se_EventID sample_icp ∧ r_ChainDID rec1 = se_EventID sample_icp ∧
  r_ChainDID rec2 = se_EventID sample_icp ∧ r_ChainDID rec3 = se_EventID sample_icp.
Proof. split_and!; vm_compute; reflexivity. Qed.
Lemma sample_links :
  r_PrevID rec0 = GenesisPrev ∧ r_PrevID rec1 = r_ID rec0 ∧ r_PrevID rec2 = r_ID rec1 ∧
  r_PrevID rec3 = r_ID rec2.
Proof. split_and!; vm_compute; reflexivity. Qed.

(** The four records, as variables. *)
Lemma linear_four `{Platform} `{Coredet KeyEvent} `{Coredet cbor} did a b c d :
  (r_Seq a = 0 ∧ r_Seq b = 1 ∧ r_Seq c = 2 ∧ r_Seq d = 3) →
  (r_ChainDID a = did ∧ r_ChainDID b = did ∧ r_ChainDID c = did ∧ r_ChainDID d = did) →
  (r_PrevID a = GenesisPrev ∧ r_PrevID b = r_ID a ∧ r_PrevID c = r_ID b ∧ r_PrevID d = r_ID c) →
  verified a → verified b → verified c → verified d → linear did [a; b; c; d].
Proof.
  intros (S0 & S1 & S2 & S3) (D0 & D1 & D2 & D3) (P0 & P1 & P2 & P3) Va Vb Vc Vd. constructor.
  - by intros [|[|[|[|i]]]] r Hr; simplify_eq/=.
  - by intros [|[|[|[|i]]]] r Hr; simplify_eq/=.
  - by intros [|[|[|[|i]]]] r Hr; simplify_eq/=.
  - by intros r Hr; simplify_eq/=.
  - by intros [|[|[|[|i]]]] x y Hx Hy; simplify_eq/=.
Qed.

Lemma sample_linear : linear (se_EventID sample_icp) [rec0; rec1; rec2; rec3].
Proof.
  destruct sample_records_verify as (V0 & V1 & V2 & V3 & _).
  apply (linear_four _ _ _ _ _ sample_seqs sample_dids sample_links);
    [exact (ex_intro _ _ V0)|exact (ex_intro _ _ V1)|exact (ex_intro _ _ V2)|exact (ex_intro _ _ V3)].
Qed.

Lemma sizes_rec1' : Forall sizes_ok [(rec1', sample_log)].
Proof. repeat constructor; vm_compute; congruence. Qed.

Lemma ledger_invariant_witness : ∃ l, appends ∅ [(rec1', sample_log)] = Ok l ∧ ledger_ok l.
Proof. exact (ledger_invariant [(rec1', sample_log)] sizes_rec1'). Defined.

Definition full_chain : chain := mkChain [rec0; rec1; rec2; rec3] ChainActive ∅.
Definition full_ledger : Ledger := {[ se_EventID sample_icp := full_chain ]}.

Lemma full_ledger_ok : ledger_ok full_ledger.
Proof.
  intros did ch H. unfold full_ledger in H. apply lookup_singleton_Some in H as [<- <-].
  constructor; [done|apply sample_linear|].
  apply staged_ok_empty.
Qed.

Lemma full_lookup : full_ledger !! se_EventID sample_icp = Some full_chain.
Proof. unfold full_ledger. apply lookup_singleton_eq. Qed.

Lemma rec1'_facts :
  r_ChainDID rec1' = se_EventID sample_icp ∧ 0 <= r_Seq rec1' ∧
  [rec0; rec1; rec2; rec3] !! Z.to_nat (r_Seq rec1') = Some rec1 ∧ r_ID rec1 ≠ r_ID rec1'.
Proof. split_and!; try (vm_compute; congruence). Qed.

Lemma equivocation_quarantines_witness :
  State (match Append full_ledger rec1' sample_log with Ok (l, _) => l | Err _ => ∅ end)
    (se_EventID sample_icp) = ChainQuarantined.
Proof.
  destruct rec1'_facts as (F1 & F2 & F3 & F4).
  rewrite (proj1 (equivocation_quarantines full_ledger (se_EventID sample_icp) [rec0; rec1; rec2; rec3] ∅
    rec1' sample_log rec1 [] ∅ full_ledger_ok full_lookup F1 eq_refl
    (proj2 (proj2 (proj2 (proj2 sample_records_verify)))) F2 F3 F4)).
  unfold State. by rewrite lookup_insert_eq.
Defined.

Lemma history_is_append_only_witness :
  ∃ l', appends full_ledger [(rec1', sample_log)] = Ok l' ∧ ledger_ok l' ∧
    ∀ did, Events full_ledger did `prefix_of` Events l' did.
Proof. exact (history_is_append_only full_ledger [(rec1', sample_log)] full_ledger_ok sizes_rec1'). Defined.

Lemma out_of_order_any `{Platform} `{Coredet KeyEvent} `{Coredet cbor} (a b c d : EventRecord) kel :
  record_Verify b kel = Ok tt → record_Verify c kel = Ok tt → record_Verify d kel = Ok tt →
  r_VersionMajor b = VersionMajor2 → r_VersionMajor c = VersionMajor2 → r_VersionMajor d = VersionMajor2 →
  Forall (λ o, o.1 ∈ [a; b; c; d] ∧ r_VersionMajor o.1 = VersionMajor2 ∧ record_Verify o.1 o.2 = Ok tt)
    [(d, kel); (c, kel); (d, kel); (b, kel)] ∧
  (∀ r, r ∈ tail [a; b; c; d] → r ∈ map fst [(d, kel); (c, kel); (d, kel); (b, kel)]).
Proof.
  intros. split.
  - rewrite !Forall_cons. split_and!; try done; cbn [fst snd]; rewrite !elem_of_cons; tauto.
  - cbn [tail map fst]. intros r. rewrite !elem_of_cons. tauto.
Qed.

Lemma sample_versions :
  r_VersionMajor rec1 = VersionMajor2 ∧ r_VersionMajor rec2 = VersionMajor2 ∧
  r_VersionMajor rec3 = VersionMajor2.
Proof. split_and!; vm_compute; reflexivity. Qed.

Lemma out_of_order_ok :
  Forall (λ o, o.1 ∈ [rec0; rec1; rec2; rec3] ∧ r_VersionMajor o.1 = VersionMajor2 ∧
               record_Verify o.1 o.2 = Ok tt) out_of_order ∧
  (∀ r, r ∈ tail [rec0; rec1; rec2; rec3] → r ∈ map fst out_of_order).
Proof.
  destruct sample_records_verify as (_ & V1 & V2 & V3 & _).
  destruct sample_versions as (W1 & W2 & W3).
  exact (out_of_order_any rec0 rec1 rec2 rec3 sample_log V1 V2 V3 W1 W2 W3).
Qed.

Lemma delivery_order_is_irrelevant_witness :
  ∃ l' ch, appends ledger0 out_of_order = Ok l' ∧ l' !! se_EventID sample_icp = Some ch ∧
    ch_events ch = [rec0; rec1; rec2; rec3] ∧ ch_state ch = ChainActive ∧ ch_staged ch = ∅.
Proof.
  exact (delivery_order_is_irrelevant ledger0 (se_EventID sample_icp) [rec0; rec1; rec2; rec3] rec0 out_of_order
           sample_linear eq_refl ltac:(by vm_compute) (lookup_singleton_eq _ _)
           (proj1 out_of_order_ok) (proj2 out_of_order_ok)).
Defined.

(** An attestation of the head, and the ledger receiving the second record 1. *)
Definition sample_attestation : HeadAttestation :=
  mkHeadAttestation (se_EventID sample_icp) 3 (r_ID rec3) 1760000160000 None.

Lemma full_head :
  State full_ledger (se_EventID sample_icp) = ChainActive ∧
  Head full_ledger (se_EventID sample_icp) = Some (r_ID rec3, 3).
Proof. split; vm_compute; reflexivity. Qed.

Lemma attestation_fields :
  a_ChainDID sample_attestation = se_EventID sample_icp ∧ a_Seq sample_attestation = 3 ∧
  a_HeadID sample_attestation = r_ID rec3.
Proof. split_and!; reflexivity. Qed.

Lemma attested_head_is_kept_witness :
  ∃ l' r, appends full_ledger [(rec1', sample_log)] = Ok l' ∧
    Events l' (se_EventID sample_icp) !! Z.to_nat 3 = Some r ∧ r_ID r = r_ID rec3 ∧
    ContradictedBy sample_attestation r = false.
Proof.
  exact (proj1 (attested_head_is_kept (P := platform) (CE := event_coredet) (CC := item_coredet)
    full_ledger (se_EventID sample_icp) (r_ID rec3) 3 sample_attestation
    [(rec1', sample_log)] full_ledger_ok (proj1 full_head) (proj2 full_head) sizes_rec1'
    (proj1 attestation_fields) (proj1 (proj2 attestation_fields)) (proj2 (proj2 attestation_fields)))).
Defined.

(** ** Two behaviours worth knowing *)

(** After an equivocation [Head] is the record that arrived second. *)
Lemma quarantined_head_is_the_competitor :
  match Append full_ledger rec1' sample_log with
  | Ok (l, Some (Equivocation _)) => Head l (se_EventID sample_icp) = Some (r_ID rec1', 1)
  | _ => False
  end.
Proof. vm_compute. reflexivity. Qed.

(** Two verified records with one staged sequence number: the second replaces the first, and no
    equivocation is reported. *)
Definition rec3' : EventRecord := sample_record 3 (r_ID rec2) (CUint 9).
Lemma staged_equivocation_is_silent :
  match ImportBatch ledger0 [rec3; rec3'] sample_log with
  | Ok (l, res, f) =>
      res = mkImportResult 0 1 1 ∧ f = None ∧
      State l (se_EventID sample_icp) = ChainActive ∧
      (ch ← l !! se_EventID sample_icp; ch_staged ch !! 3) = Some rec3'
  | Err _ => False
  end.
Proof. vm_compute. repeat split. Qed.
