(* ===== verification/Notice.v ===== *)
(** * Notice: witness notices (identity/notice.go)

    A hub signs what it holds as the tip of an agent's log; a recipient accepts a message only with
    a fresh notice about the tip of the log the message carries, signed by the hub that tip names.
    [decodeNotice], [VerifyNotice] and [SignNotice] are the functions of the source; the CBOR codecs
    of the two structs are parameters. *)

From S2P Require Import Prelude Platform Aid Kel Controller.

Definition NoticeType : bytes := str "anet.ksn/1".
Definition NoticeMaxAge : Z := 6 * 60 * 60 * 1000.

Record NoticeBody := mkNoticeBody {
  nb_Type : bytes;
  nb_AID : bytes;
  nb_Seq : Z;
  nb_Head : bytes;
  nb_ObservedAt : Z;
  nb_Witness : bytes;
}.

Record NoticeWire := mkNoticeWire {
  nw_Body : bytes;
  nw_Env : Envelope;
}.

(** The logs a node holds for hubs. *)
Definition HubKELSource := bytes → option (list SignedEvent).

Definition ErrNoticeInvalid : error := Errf "identity: the witness notice is not valid".
Definition ErrNoticeMissing : error :=
  Errf "identity: the KEL names no witness, so no witness notice confirms it".
Definition ErrNoticeMismatch : error :=
  Errf "identity: the witness notice is about another key state than the KEL's tip".
Definition ErrNoticeUnknownWitness : error :=
  Errf "identity: this node does not hold the witness hub's KEL as far as the notice's key state".
Definition ErrNoticeStale : error := Errf "identity: the witness notice is not fresh".
Definition ErrSignerSeq : error := Errf "identity: the signer signed under another key state".

Definition noticeError (kind : error) (why : string) : error := Wrap why kind.

Section Notice.
Context `{P : Platform} `{CE : Coredet KeyEvent} `{CB : Coredet NoticeBody} `{CW : Coredet NoticeWire}
        `{DB : Strict NoticeBody} `{DW : Strict NoticeWire}.

(** Strict decoding into one type, and the decoded value encodes back to the input. *)
Definition decodeCanonical {A} `{Coredet A, Strict A} (b : bytes) : result A :=
  a ← map_err (λ _, noticeError ErrNoticeInvalid "it does not decode") (UnmarshalStrict b);
  refuse negb (bool_decide (marshal a = Some b))
    with noticeError ErrNoticeInvalid "it is not in its CoreDet form";
  Ok a.

Definition decodeNotice (b : bytes) : result (NoticeWire * NoticeBody) :=
  w ← decodeCanonical b;
  refuse negb (beqb (env_PreimageRef (nw_Env w)) [])
    with noticeError ErrNoticeInvalid "its signature names a preimage reference";
  _ ← map_err (λ _, noticeError ErrNoticeInvalid "its signature is not an EdDSA signature")
        (Validate (nw_Env w));
  body ← decodeCanonical (nw_Body w);
  refuse negb (beqb (nb_Type body) NoticeType) with noticeError ErrNoticeInvalid "the type of its body";
  Ok (w, body).

Definition DecodeNotice (b : bytes) : result (NoticeBody * Envelope) :=
  '(w, body) ← decodeNotice b; Ok (body, nw_Env w).

(** Steps 2 to 4: the notice against the tip of the log the message carries. *)
Definition checkTip (w : NoticeWire) (body : NoticeBody) (tip : KeyState) : result unit :=
  refuse negb (ks_Toad tip =? ToadAgent) with noticeError ErrNoticeMissing "the KEL is a hub's";
  refuse beqb (ks_Witness tip) [] with noticeError ErrNoticeMissing "the KEL has not named its witness yet";
  refuse negb (beqb (nb_AID body) (ks_AID tip)) with noticeError ErrNoticeMismatch "the notice's AID";
  refuse negb (nb_Seq body =? ks_KeyStateSeq tip) || negb (beqb (nb_Head body) (ks_LastEventID tip))
    with noticeError ErrNoticeMismatch "the notice's seq and head";
  refuse negb (beqb (nb_Witness body) (ks_Witness tip)) with noticeError ErrNoticeInvalid "the notice's witness";
  refuse negb (beqb (env_SignerAID (nw_Env w)) (nb_Witness body))
    with noticeError ErrNoticeInvalid "the notice's signer";
  Ok tt.

(** Step 5: the signature, under the log held for the witness hub. *)
Definition checkWitness (w : NoticeWire) (body : NoticeBody) (hubKELs : option HubKELSource) (arrival : Z)
  : result unit :=
  let wkel := match (f ← hubKELs; f (nb_Witness body)) with Some kel => kel | None => [] end in
  let seq := env_KeyStateSeq (nw_Env w) in
  refuse len wkel =? 0 with noticeError ErrNoticeUnknownWitness "no KEL is held for the witness hub";
  refuse len wkel <=? seq with noticeError ErrNoticeUnknownWitness "the KEL held ends before the notice's seq";
  wstates ← map_err (λ _, noticeError ErrNoticeInvalid "the KEL held for the witness does not replay")
              (Replay wkel);
  final ← of_option (last wstates) Panic;
  refuse negb (ks_Toad final =? ToadHub) with noticeError ErrNoticeInvalid "the witness is not a hub";
  _ ← map_err (λ e, match e with Panic => Panic | _ => noticeError ErrNoticeInvalid "the signature" end)
        (VerifyObject wkel (nb_Witness body) seq (nb_ObservedAt body) (nw_Body w) (env_Sig (nw_Env w)));
  ws ← of_option (wstates !! Z.to_nat seq) Panic;
  refuse negb (beqb (ks_Status ws) StatusActive) && negb (RetiredUsableAt ws arrival)
    with noticeError ErrNoticeInvalid "the witness hub's key state was retired before the arrival";
  Ok tt.

(** Step 6. *)
Definition checkFresh (body : NoticeBody) (arrival : Z) : result unit :=
  let at_ := nb_ObservedAt body in
  refuse (arrival <? at_) && (EventClockWindow <? at_ - arrival)
    with noticeError ErrNoticeStale "observed after the arrival";
  refuse (at_ <? arrival) && (NoticeMaxAge <? arrival - at_)
    with noticeError ErrNoticeStale "observed too long before the arrival";
  Ok tt.

Definition VerifyNotice (b : bytes) (subjectKEL : list SignedEvent) (hubKELs : option HubKELSource)
  (arrival : Z) : result unit :=
  '(w, body) ← decodeNotice b;
  states ← map_err (λ e, match e with
                         | Panic => Panic
                         | _ => Wrap "identity: the KEL the notice is checked against does not replay" e
                         end) (Replay subjectKEL);
  tip ← of_option (last states) Panic;
  _ ← checkTip w body tip;
  _ ← checkWitness w body hubKELs arrival;
  checkFresh body arrival.

(** [SignNotice] under a snapshot of the signer. *)
Definition fillBody (s : snapshot) (body : NoticeBody) : NoticeBody :=
  mkNoticeBody (if beqb (nb_Type body) [] then NoticeType else nb_Type body) (nb_AID body) (nb_Seq body)
    (nb_Head body) (nb_ObservedAt body) (if beqb (nb_Witness body) [] then sn_aid s else nb_Witness body).

Definition SignNotice (s : snapshot) (body : NoticeBody) : result bytes :=
  refuse len (sn_kel s) =? 0 with Errf "identity: the notice signer has no KEL";
  first ← of_option (head (sn_kel s)) Panic;
  refuse negb (bool_decide (ke_Toad (se_Event first) = Some ToadHub))
    with Errf "identity: only a hub identity (toad 0) signs witness notices";
  refuse negb (beqb (nb_Type body) []) && negb (beqb (nb_Type body) NoticeType)
    with Errf "identity: the type of a notice body";
  refuse negb (beqb (nb_Witness body) []) && negb (beqb (nb_Witness body) (sn_aid s))
    with Errf "identity: the notice names another witness";
  let body := fillBody s body in
  refuse negb (ValidAID (nb_AID body)) with Errf "identity: a notice is about an AID";
  refuse beqb (nb_Head body) [] with Errf "identity: a notice names the event id of the KEL's tip";
  refuse nb_ObservedAt body =? 0 with Errf "identity: a notice needs the time the witness observed the tip";
  pre ← Marshal body;
  seq ← SeqOf (sn_kel s);
  let '(sig, signed) := snapshot_Sign s pre in
  refuse negb (signed =? seq) with ErrSignerSeq;
  refuse negb (len sig =? SignatureSize) with Errf "identity: the notice signer holds no key";
  Marshal (mkNoticeWire pre (mkEnvelope (sn_aid s) seq AlgEdDSA sig [])).
End Notice.
