(* ===== verification/NoticeTheorems.v ===== *)
(** * NoticeTheorems: what a witness notice confirms *)

From S2P Require Import Prelude Aid Cbor Platform Kel KelReference Codec KelSpec KelFacts KelProps Controller ControllerInv ControllerTheorems Notice.
Import Light.

(** ** The tip of a log *)

(** The mode of a log is its inception's; its witness is the one its last rotation names. *)
Definition log_toad (kel : list SignedEvent) : option Z :=
  match head kel with Some se => ke_Toad (se_Event se) | None => None end.
Definition log_witness (kel : list SignedEvent) : bytes :=
  match List.find (λ se, beqb (ke_Type (se_Event se)) Rotation) (rev kel) with
  | Some se => designated se
  | None => []
  end.

Section Tip.
Context `{P : Platform} `{CE : Coredet KeyEvent}.

Lemma log_toad_app kel se : kel ≠ [] → log_toad (kel ++ [se]) = log_toad kel.
Proof. by destruct kel. Qed.

Lemma log_witness_snoc kel se :
  log_witness (kel ++ [se]) =
    if beqb (ke_Type (se_Event se)) Rotation then designated se else log_witness kel.
Proof. unfold log_witness. rewrite rev_app_distr. simpl. by case_goal. Qed.

Lemma kel_ok_mode kel sts s :
  kel_ok kel sts → last sts = Some s → log_toad kel = Some (ks_Toad s) ∧ log_witness kel = ks_Witness s.
Proof.
  destruct types_distinct as (_ & _ & T3 & _ & _ & T6). intros H. revert s.
  induction H as [se k t Hv Hi Hs | kel sts se prior se' k w Hk IH Hl Hp Ht Hsu Hr Hs
                 | kel sts se prior se' k Hk IH Hl Hp Ht Hsu Hd Hs]; intros s Hlast.
  - simplify_eq/=. unfold log_toad, log_witness. simpl. rewrite (icp_type _ _ _ Hi), T6.
    split; [apply Hi|done].
  - rewrite last_snoc in Hlast. injection Hlast as <-. destruct (IH _ Hp) as [Ht0 _].
    rewrite log_toad_app by (by eapply kel_ok_not_nil). split; [done|].
    rewrite log_witness_snoc, Ht, beqb_refl. destruct Hr as [_ _ Hw]. unfold designated, witness_ok in *.
    destruct (ks_Toad prior =? ToadHub); [by destruct Hw as [-> ->]|by destruct Hw as (-> & _)].
  - rewrite last_snoc in Hlast. injection Hlast as <-. destruct (IH _ Hp) as [Ht0 Hw0].
    rewrite log_toad_app by (by eapply kel_ok_not_nil). split; [done|].
    by rewrite log_witness_snoc, Ht, T3.
Qed.

Lemma supersede_last kel sts : length kel = length sts → last (markSuperseded kel sts) = last sts.
Proof.
  intros Hl. rewrite !last_lookup, length_markSuperseded, markSuperseded_lookup by done.
  destruct (sts !! pred (length sts)) as [s|] eqn:E; [|done]. simpl. f_equal.
  destruct (kel !! S (pred (length sts))) eqn:E2; [|done].
  apply lookup_lt_Some in E2, E. lia.
Qed.

(** The last key state of a log that replays, read off the log. *)
Lemma replay_tip kel sts :
  replay kel = Ok sts →
  ∃ se0 se tip, head kel = Some se0 ∧ last kel = Some se ∧ last sts = Some tip ∧
    ks_AID tip = se_EventID se0 ∧ ks_LastEventID tip = se_EventID se ∧
    ks_KeyStateSeq tip = u64 (len kel - 1) ∧ log_toad kel = Some (ks_Toad tip) ∧
    log_witness kel = ks_Witness tip.
Proof.
  intros H. destruct (replay_head _ _ H) as [se0 Hh]. destruct (replay_last _ _ H) as (se & tip & Hl & Ht).
  exists se0, se, tip. pose proof (proj1 (replay_spec _ _) H) as (raw & Hk & E).
  assert (last raw = Some tip) as Hraw.
  { rewrite E, supersede_last in Ht; [done|]. symmetry. by apply kel_ok_length in Hk. }
  destruct (kel_ok_mode _ _ _ Hk Hraw) as [H1 H2].
  pose proof (replay_length _ _ H) as Hn. pose proof Hl as Hl'. rewrite last_lookup in Hl'.
  destruct (replay_describes _ _ _ _ _ H Hh Hl') as (s & Hs & Hd).
  pose proof Ht as Ht'. rewrite last_lookup, Hn, Hs in Ht'. injection Ht' as ->.
  split_and!; try done; [apply Hd|apply Hd|].
  rewrite (d_seq _ _ _ _ _ Hd). apply lookup_lt_Some in Hl'. f_equal. unfold len. lia.
Qed.
End Tip.

(** ** What an accepted notice is *)

Section Spec.
Context `{P : Platform} `{CE : Coredet KeyEvent} `{CB : Coredet NoticeBody} `{CW : Coredet NoticeWire}
        `{DB : Strict NoticeBody} `{DW : Strict NoticeWire}.

(** The grace a retired key state has (KEL D-20). *)
Definition grace (n : SignedEvent) : Z :=
  if beqb (ke_Type (se_Event n)) Deactivation || ke_Emergency (se_Event n) then 0 else RotationGrace.

Record notice_ok (b : bytes) (subj wkel : list SignedEvent) (arrival : Z) (w : NoticeWire)
  (body : NoticeBody) (se : SignedEvent) (k : bytes) : Prop := {
  n_wire : marshal w = Some b;
  n_body : marshal body = Some (nw_Body w);
  n_ref : env_PreimageRef (nw_Env w) = [];
  n_alg : env_Alg (nw_Env w) = AlgEdDSA;
  n_sig_length : length (env_Sig (nw_Env w)) = 64%nat;
  n_type : nb_Type body = NoticeType;
  n_replays : is_Ok (replay subj) = true;
  n_agent : log_toad subj = Some ToadAgent;
  n_witness : log_witness subj = nb_Witness body;
  n_named : nb_Witness body ≠ [];
  n_signer : env_SignerAID (nw_Env w) = nb_Witness body;
  n_aid : se_EventID <$> head subj = Some (nb_AID body);
  n_head : se_EventID <$> last subj = Some (nb_Head body);
  n_seq : nb_Seq body = u64 (len subj - 1);
  n_hub : log_toad wkel = Some ToadHub;
  n_signed : object_ok wkel (nb_Witness body) (env_KeyStateSeq (nw_Env w)) (nb_ObservedAt body)
               (nw_Body w) (env_Sig (nw_Env w)) se k;
  n_usable : ∀ n, wkel !! S (Z.to_nat (env_KeyStateSeq (nw_Env w))) = Some n →
               arrival <= ke_Timestamp (se_Event n) + grace n;
  n_fresh : nb_ObservedAt body - EventClockWindow <= arrival <= nb_ObservedAt body + NoticeMaxAge;
}.

Lemma decodeCanonical_Ok {A} `{Coredet A, Strict A} b (a : A) :
  decodeCanonical b = Ok a ↔ unmarshal b = Some a ∧ marshal a = Some b.
Proof.
  unfold decodeCanonical, UnmarshalStrict. destruct (unmarshal b) as [a'|]; simpl.
  - case_bool_decide; simpl; split; [by intros [= ->]|by intros [[= ->] _]|done|by intros [[= ->] ?]].
  - split; [done|by intros [? _]].
Qed.

Lemma Validate_Ok e : Validate e = Ok tt ↔ env_Alg e = AlgEdDSA ∧ length (env_Sig e) = 64%nat.
Proof.
  unfold Validate, SignatureSize. rewrite !refuse_Ok, !negb_Zeqb_false, (len_length _ 64). tauto.
Qed.

Lemma decodeNotice_Ok b w body :
  decodeNotice b = Ok (w, body) ↔
  unmarshal b = Some w ∧ marshal w = Some b ∧ env_PreimageRef (nw_Env w) = [] ∧
  env_Alg (nw_Env w) = AlgEdDSA ∧ length (env_Sig (nw_Env w)) = 64%nat ∧
  unmarshal (nw_Body w) = Some body ∧ marshal body = Some (nw_Body w) ∧ nb_Type body = NoticeType.
Proof.
  unfold decodeNotice. split.
  - intros Hd. apply bind_Ok in Hd as (w' & Hw & Hd). apply decodeCanonical_Ok in Hw as [Hw1 Hw2].
    apply refuse_Ok in Hd as [Href Hd]. apply bind_Ok in Hd as ([] & Hv & Hd).
    apply map_err_Ok, Validate_Ok in Hv as [Hv1 Hv2].
    apply bind_Ok in Hd as (body' & Hb & Hd). apply decodeCanonical_Ok in Hb as [Hb1 Hb2].
    apply refuse_Ok in Hd as [Hty Hd]. injection Hd as <- <-.
    split_and!; try done; by apply negb_beqb_false.
  - intros (H1 & H2 & H3 & H4 & H5 & H6 & H7 & H8).
    rewrite (proj2 (decodeCanonical_Ok b w)) by done. cbn [mbind result_bind]. rewrite H3, beqb_refl. cbn [negb].
    rewrite (proj2 (Validate_Ok _)) by done. cbn [map_err mbind result_bind].
    rewrite (proj2 (decodeCanonical_Ok (nw_Body w) body)) by done. cbn [mbind result_bind].
    by rewrite H8, beqb_refl.
Qed.

Lemma checkTip_Ok w body tip :
  checkTip w body tip = Ok tt ↔
  ks_Toad tip = ToadAgent ∧ ks_Witness tip = nb_Witness body ∧ nb_Witness body ≠ [] ∧
  nb_AID body = ks_AID tip ∧ nb_Seq body = ks_KeyStateSeq tip ∧ nb_Head body = ks_LastEventID tip ∧
  env_SignerAID (nw_Env w) = nb_Witness body.
Proof.
  unfold checkTip.
  rewrite !refuse_Ok, orb_false_iff, !negb_Zeqb_false, !negb_beqb_false, beqb_false.
  split; [intros; destruct_and!; split_and!; congruence|intros; destruct_and!; split_and!; congruence].
Qed.

Lemma checkFresh_Ok body arrival :
  checkFresh body arrival = Ok tt ↔
  nb_ObservedAt body - EventClockWindow <= arrival <= nb_ObservedAt body + NoticeMaxAge.
Proof.
  unfold checkFresh, EventClockWindow, NoticeMaxAge.
  rewrite !refuse_Ok, !andb_false_iff, !Z.ltb_ge. split; [lia|]. intros. split_and!; [lia..|done].
Qed.

(** The key state the hub signed under, at the arrival. *)
Lemma usable_Ok kel sts i se ws arrival :
  replay kel = Ok sts → kel !! i = Some se → sts !! i = Some ws → ke_Type (se_Event se) ≠ Deactivation →
  negb (beqb (ks_Status ws) StatusActive) && negb (RetiredUsableAt ws arrival) = false ↔
  (∀ n, kel !! S i = Some n → arrival <= ke_Timestamp (se_Event n) + grace n).
Proof.
  intros Hr Hi Hs Hd. destruct (replay_head _ _ Hr) as [se0 Hh].
  destruct (replay_describes _ _ _ _ _ Hr Hh Hi) as (s & Hs' & D). rewrite Hs in Hs'. injection Hs' as <-.
  destruct statuses_distinct as (SA & SB & SC & SD). destruct D as [_ _ _ _ D5 D6 D7].
  apply beqb_false in Hd. rewrite Hd in D5. unfold RetiredUsableAt, grace.
  destruct (kel !! S i) as [n|]; rewrite D5.
  - rewrite SD. rewrite beqb_refl, D6, D7. cbn [negb andb].
    rewrite negb_false_iff, orb_true_iff, !Z.leb_le. unfold RotationGrace.
    split; [intros H ? [= <-]; destruct (_ || _); lia|].
    intros H. specialize (H n eq_refl). destruct (_ || _); lia.
  - rewrite beqb_refl. cbn [negb andb]. by split.
Qed.

Lemma checkWitness_Ok w body hubs arrival :
  0 <= env_KeyStateSeq (nw_Env w) →
  checkWitness w body (Some hubs) arrival = Ok tt ↔
  ∃ wkel se k, hubs (nb_Witness body) = Some wkel ∧ log_toad wkel = Some ToadHub ∧
    object_ok wkel (nb_Witness body) (env_KeyStateSeq (nw_Env w)) (nb_ObservedAt body)
      (nw_Body w) (env_Sig (nw_Env w)) se k ∧
    ∀ n, wkel !! S (Z.to_nat (env_KeyStateSeq (nw_Env w))) = Some n →
      arrival <= ke_Timestamp (se_Event n) + grace n.
Proof.
  intros H0. unfold checkWitness. cbn [mbind option_bind]. split.
  - destruct (hubs (nb_Witness body)) as [wkel|]; [|done]. intros H.
    do 2 apply refuse_Ok in H as [_ H]. apply bind_Ok in H as (sts & Hr & H). apply map_err_Ok in Hr.
    unfold Replay in Hr. destruct (replay_tip _ _ Hr) as (se0 & se1 & tip & _ & _ & Ht & _ & _ & _ & Htoad & _).
    rewrite Ht in H. cbn [of_option mbind result_bind] in H. apply refuse_Ok in H as [Hhub H].
    apply negb_Zeqb_false in Hhub. apply bind_Ok in H as ([] & Hv & H). apply map_err_Ok in Hv.
    apply VerifyObject_spec in Hv as (se & k & Ho); [|done].
    apply bind_Ok in H as (ws & Hws & H). apply of_option_Ok in Hws. apply refuse_Ok in H as [Hu _].
    exists wkel, se, k. rewrite Htoad, Hhub. split_and!; try done.
    by eapply usable_Ok, Hu; [|apply Ho| |apply Ho].
  - intros (wkel & se & k & -> & Htoad & Ho & Hu).
    pose proof (o_replays _ _ _ _ _ _ _ _ Ho) as [sts Hr]%replay_is_Ok.
    pose proof (o_event _ _ _ _ _ _ _ _ Ho) as He. pose proof (lookup_lt_Some _ _ _ He) as Hlt.
    rewrite (proj2 (Z.eqb_neq _ _)) by (unfold len; lia). rewrite (proj2 (Z.leb_gt _ _)) by (unfold len; lia).
    unfold Replay. rewrite Hr. cbn [map_err mbind result_bind].
    destruct (replay_tip _ _ Hr) as (se0 & se1 & tip & _ & _ & Ht & _ & _ & _ & Htoad' & _).
    rewrite Ht. cbn [of_option mbind result_bind]. rewrite Htoad in Htoad'. injection Htoad' as <-.
    cbn [negb Z.eqb ToadHub]. change (negb (ToadHub =? ToadHub)) with false. lazy iota.
    rewrite (proj2 (VerifyObject_spec _ _ _ _ _ _ H0)) by eauto. cbn [map_err mbind result_bind].
    destruct (lookup_lt_is_Some_2 sts (Z.to_nat (env_KeyStateSeq (nw_Env w)))) as [ws Hws].
    { by rewrite (replay_length _ _ Hr). }
    rewrite Hws. cbn [of_option mbind result_bind].
    rewrite (proj2 (usable_Ok _ _ _ _ _ _ Hr He Hws (o_alive _ _ _ _ _ _ _ _ Ho))) by done. done.
Qed.
End Spec.

Section Theorems.
Context `{P : Platform} `{CE : Coredet KeyEvent} `{CS : Coredet SignedEvent} `{CB : Coredet NoticeBody}
        `{CW : Coredet NoticeWire} `{DB : Strict NoticeBody} `{DW : Strict NoticeWire}.

Lemma VerifyNotice_steps b subj hubs arrival :
  VerifyNotice b subj hubs arrival = Ok tt ↔
  ∃ w body sts tip, decodeNotice b = Ok (w, body) ∧ replay subj = Ok sts ∧ last sts = Some tip ∧
    checkTip w body tip = Ok tt ∧ checkWitness w body hubs arrival = Ok tt ∧ checkFresh body arrival = Ok tt.
Proof.
  unfold VerifyNotice, Replay. split.
  - intros Hv. apply bind_Ok in Hv as ([w body] & Hd & Hv). apply bind_Ok in Hv as (sts & Hr & Hv).
    apply map_err_Ok in Hr. apply bind_Ok in Hv as (tip & Ht & Hv). apply of_option_Ok in Ht.
    apply bind_Ok in Hv as ([] & Hc & Hv). apply bind_Ok in Hv as ([] & Hw & Hv). by exists w, body, sts, tip.
  - intros (w & body & sts & tip & -> & -> & Ht & Hc & Hw & Hf). cbn [map_err mbind result_bind].
    rewrite Ht. cbn [of_option mbind result_bind]. rewrite Hc. cbn [mbind result_bind]. by rewrite Hw.
Qed.

(** C24: [VerifyNotice] accepts exactly the notices that confirm the tip of the log: canonical bytes
    about the last event of an agent's log, from the hub its last rotation names and signed by that
    hub's key at the declared state (as [VerifyObject] requires, at the time observed), with a
    retired state still in its grace at the arrival, observed at most [NoticeMaxAge] before the
    arrival and at most [EventClockWindow] after it. *)
Theorem verify_notice_accepts (SB : StrictInv NoticeBody) (SW : StrictInv NoticeWire) b subj hubs arrival :
  (∀ w, unmarshal b = Some w → is_u64 (env_KeyStateSeq (nw_Env w))) →
  VerifyNotice b subj (Some hubs) arrival = Ok tt ↔
  ∃ w body wkel se k, hubs (nb_Witness body) = Some wkel ∧ notice_ok b subj wkel arrival w body se k.
Proof.
  intros Hu. rewrite VerifyNotice_steps. split.
  - intros (w & body & sts & tip & Hd & Hr & Ht & Hc & Hw & Hf).
    apply decodeNotice_Ok in Hd as (D1 & D2 & D3 & D4 & D5 & D6 & D7 & D8).
    apply checkTip_Ok in Hc as (T1 & T2 & T3 & T4 & T5 & T6 & T7). apply checkFresh_Ok in Hf.
    apply checkWitness_Ok in Hw as (wkel & se & k & W1 & W2 & W3 & W4); [|by apply Hu].
    destruct (replay_tip _ _ Hr) as (se0 & se1 & tip' & R1 & R2 & R3 & R4 & R5 & R6 & R7 & R8).
    rewrite Ht in R3. injection R3 as <-. exists w, body, wkel, se, k. split; [done|].
    constructor; try done.
    + by rewrite Hr.
    + by rewrite R7, T1.
    + by rewrite R8, T2.
    + rewrite R1. simpl. congruence.
    + rewrite R2. simpl. congruence.
    + congruence.
  - intros (w & body & wkel & se & k & Hh & N). pose proof (n_wire _ _ _ _ _ _ _ _ N) as Hw.
    pose proof (unmarshal_marshal _ _ Hw) as Hu'. pose proof (Hu _ Hu') as Hseq.
    pose proof (n_replays _ _ _ _ _ _ _ _ N) as [sts Hr]%replay_is_Ok.
    destruct (replay_tip _ _ Hr) as (se0 & se1 & tip & R1 & R2 & R3 & R4 & R5 & R6 & R7 & R8).
    destruct N as [N1 N2 N3 N4 N5 N6 N7 N8 N9 N10 N11 N12 N13 N14 N15 N16 N17 N18].
    rewrite R1 in N12. rewrite R2 in N13. rewrite R7 in N8. simplify_eq/=.
    exists w, body, sts, tip. split_and!; try done.
    + apply decodeNotice_Ok. split_and!; try done. by apply unmarshal_marshal.
    + apply checkTip_Ok. split_and!; congruence.
    + apply checkWitness_Ok; [apply Hseq|]. by exists wkel, se, k.
    + by apply checkFresh_Ok.
Qed.

(** ** Refusals *)

(** A step that refuses does so with one of these kinds. *)
Definition of_kind (kinds : list error) (e : error) : Prop := ∃ kind why, kind ∈ kinds ∧ e = noticeError kind why.
#[local] Notation refuses_with kinds := (errs_in (of_kind kinds)).

Lemma refuses_if {A} kinds (c : bool) kind why (k : result A) :
  kind ∈ kinds → (c = false → refuses_with kinds k) →
  refuses_with kinds (refuse c with noticeError kind why; k).
Proof. intros Hk Hc e. destruct c; [intros [= <-]; by exists kind, why|by apply Hc]. Qed.

Lemma refuses_map {A} kinds kind why (r : result A) :
  kind ∈ kinds → refuses_with kinds (map_err (λ _, noticeError kind why) r).
Proof. intros Hk e. destruct r; [done|]. intros [= <-]. by exists kind, why. Qed.

Lemma decodeCanonical_refuses {A} `{Coredet A, Strict A} b :
  refuses_with [ErrNoticeInvalid] (decodeCanonical (A := A) b).
Proof.
  unfold decodeCanonical. apply errs_bind; [apply refuses_map; by left|intros a _].
  apply refuses_if; [by left|intros _; apply errs_Ok].
Qed.

Ltac not_kind :=
  let E := fresh in rewrite ?not_elem_of_cons; split_and?; try (intros E; discriminate E);
  apply not_elem_of_nil.
Ltac refuses := repeat first [apply refuses_if; [set_solver|intros _] | apply errs_Ok].

Lemma decodeNotice_refuses b : refuses_with [ErrNoticeInvalid] (decodeNotice b).
Proof.
  unfold decodeNotice. apply errs_bind; [apply decodeCanonical_refuses|intros w _]. refuses.
  apply errs_bind; [apply refuses_map; by left|intros [] _].
  apply errs_bind; [apply decodeCanonical_refuses|intros body _]. refuses.
Qed.

Lemma checkTip_refuses w body tip :
  refuses_with [ErrNoticeInvalid; ErrNoticeMissing; ErrNoticeMismatch] (checkTip w body tip).
Proof. unfold checkTip. refuses. Qed.

Lemma checkFresh_refuses body arrival : refuses_with [ErrNoticeStale] (checkFresh body arrival).
Proof. unfold checkFresh. refuses. Qed.

Lemma checkWitness_refuses w body hubs arrival :
  0 <= env_KeyStateSeq (nw_Env w) →
  refuses_with [ErrNoticeInvalid; ErrNoticeUnknownWitness] (checkWitness w body hubs arrival).
Proof.
  intros Hs. unfold checkWitness.
  set (wkel := match _ with Some kel => kel | None => [] end).
  apply refuses_if; [set_solver|intros _]. apply refuses_if; [set_solver|intros Hb]. apply Z.leb_gt in Hb.
  apply errs_bind; [apply refuses_map; set_solver|intros sts Hr]. apply map_err_Ok in Hr. unfold Replay in Hr.
  destruct (replay_tip _ _ Hr) as (_ & _ & tip & _ & _ & -> & _). cbn [of_option mbind result_bind].
  apply refuses_if; [set_solver|intros _]. apply errs_bind.
  - pose proof (VerifyObject_Panic wkel (nb_Witness body) (env_KeyStateSeq (nw_Env w)) (nb_ObservedAt body)
                  (nw_Body w) (env_Sig (nw_Env w)) Hs) as Hp.
    intros e. destruct (VerifyObject _ _ _ _ _ _) as [|e']; [done|]. cbn [map_err]. intros [= <-].
    exists ErrNoticeInvalid, "the signature"%string. split; [set_solver|]. by destruct e'.
  - intros [] _. destruct (lookup_lt_is_Some_2 sts (Z.to_nat (env_KeyStateSeq (nw_Env w)))) as [ws ->].
    { rewrite (replay_length _ _ Hr). unfold len in Hb. lia. }
    cbn [of_option mbind result_bind]. refuses.
Qed.

Lemma replay_Panic kel : replay kel ≠ Err Panic.
Proof. unfold replay. case_goal; [done|]. apply bind_Panic; [apply replay_loop_Panic|done]. Qed.

Lemma kind_not_stale {A} kinds (r : result A) why :
  refuses_with kinds r → ErrNoticeStale ∉ kinds → r ≠ Err (noticeError ErrNoticeStale why).
Proof.
  intros H Hs E. destruct (H _ E) as (kind & why' & Hk & [= _ <-]). by apply Hs.
Qed.

Lemma witness_at_observed w body hubs arrival :
  0 <= env_KeyStateSeq (nw_Env w) → checkWitness w body hubs arrival = Ok tt →
  checkWitness w body hubs (nb_ObservedAt body) = Ok tt.
Proof.
  intros Hs Hw. destruct hubs as [hubs|]; [|done].
  apply checkWitness_Ok in Hw as (wkel & se & k & W1 & W2 & W3 & W4); [|done].
  apply checkWitness_Ok; [done|]. exists wkel, se, k. split_and!; try done.
  intros n Hn. destruct (o_time _ _ _ _ _ _ _ _ W3 n Hn). unfold grace, RotationGrace. case_goal; lia.
Qed.

(** How [VerifyNotice] refuses.  It never panics; its error is the replay's when the log it is
    given does not replay, and else one of the five kinds; and a notice refused as stale is one that
    is otherwise good: it is accepted at an arrival equal to the time it was observed. *)
Theorem verify_notice_refusals b subj hubs arrival e :
  (∀ w, unmarshal b = Some w → is_u64 (env_KeyStateSeq (nw_Env w))) →
  VerifyNotice b subj hubs arrival = Err e →
  ((∃ e', replay subj = Err e' ∧
      e = Wrap "identity: the KEL the notice is checked against does not replay" e') ∨
   ∃ kind why, e = noticeError kind why ∧
     kind ∈ [ErrNoticeInvalid; ErrNoticeMissing; ErrNoticeMismatch; ErrNoticeUnknownWitness; ErrNoticeStale]) ∧
  (∀ sts why, replay subj = Ok sts → e = noticeError ErrNoticeStale why →
     ∃ w body, decodeNotice b = Ok (w, body) ∧ VerifyNotice b subj hubs (nb_ObservedAt body) = Ok tt).
Proof.
  intros Hu Hv. pose proof (decodeNotice_refuses b) as Hd. unfold VerifyNotice in Hv.
  apply bind_Err in Hv as [Hv|([w body] & Hdec & Hv)].
  { split; [right; destruct (Hd _ Hv) as (kind & why & ? & ->); exists kind, why; split; [done|set_solver]|].
    intros sts why _ ->. exfalso. eapply kind_not_stale, Hv; [done|]. not_kind. }
  assert (0 <= env_KeyStateSeq (nw_Env w)) as H0 by (apply decodeNotice_Ok in Hdec as [? _]; by apply Hu).
  destruct (replay subj) as [sts|e'] eqn:Hr; unfold Replay in Hv; rewrite Hr in Hv; cbn [map_err mbind result_bind] in Hv.
  2: { injection Hv as <-. pose proof (replay_Panic subj) as Hp.
       split; [left; exists e'; split; [done|destruct e'; congruence]|by intros]. }
  destruct (replay_tip _ _ Hr) as (_ & _ & tip & _ & _ & Ht & _). rewrite Ht in Hv.
  cbn [of_option mbind result_bind] in Hv.
  pose proof (checkTip_refuses w body tip) as Htip. pose proof (checkWitness_refuses w body hubs arrival H0) as Hwit.
  pose proof (checkFresh_refuses body arrival) as Hfr.
  apply bind_Err in Hv as [Hv|([] & Htok & Hv)]; [|apply bind_Err in Hv as [Hv|([] & Hwok & Hv)]].
  - split; [right; destruct (Htip _ Hv) as (kind & why & ? & ->); exists kind, why; split; [done|set_solver]|].
    intros _ why _ ->. exfalso. eapply kind_not_stale, Hv; [done|]. not_kind.
  - split; [right; destruct (Hwit _ Hv) as (kind & why & ? & ->); exists kind, why; split; [done|set_solver]|].
    intros _ why _ ->. exfalso. eapply kind_not_stale, Hv; [done|]. not_kind.
  - split; [right; destruct (Hfr _ Hv) as (kind & why & ? & ->); exists kind, why; split; [done|set_solver]|].
    intros _ why _ ->. exists w, body. split; [done|]. apply VerifyNotice_steps.
    exists w, body, sts, tip. split_and!; try done; [by eapply witness_at_observed|].
    apply checkFresh_Ok. unfold EventClockWindow, NoticeMaxAge. lia.
Qed.

(** What [SignNotice] signed. *)
Lemma SignNotice_Ok `{!PlatformLaws P} (SB : StrictInv NoticeBody) (SW : StrictInv NoticeWire) key aid seq kel body b :
  key_ok key → SignNotice (mkSnapshot aid seq kel (Some key)) body = Ok b →
  ∃ w body', decodeNotice b = Ok (w, body') ∧ log_toad kel = Some ToadHub ∧ SeqOf kel = Ok seq ∧
    nb_Witness body' = aid ∧ nb_AID body' = nb_AID body ∧ nb_Seq body' = nb_Seq body ∧
    nb_Head body' = nb_Head body ∧ nb_ObservedAt body' = nb_ObservedAt body ∧
    env_SignerAID (nw_Env w) = aid ∧ env_KeyStateSeq (nw_Env w) = seq ∧
    ed25519_verify (ed25519_public key) (nw_Body w) (env_Sig (nw_Env w)) = true.
Proof.
  intros Hkey Hsign. unfold SignNotice in Hsign. cbn [sn_kel sn_aid] in Hsign.
  apply refuse_Ok in Hsign as [_ Hsign].
  apply bind_Ok in Hsign as (first & Hfirst & Hsign). apply of_option_Ok in Hfirst.
  apply refuse_Ok in Hsign as [Hhub Hsign]. apply refuse_Ok in Hsign as [Hty0 Hsign].
  apply refuse_Ok in Hsign as [Hwit0 Hsign].
  do 3 (apply refuse_Ok in Hsign as [_ Hsign]). apply bind_Ok in Hsign as (pre & Hpre & Hsign).
  apply bind_Ok in Hsign as (sq & Hso & Hsign). cbn [snapshot_Sign sn_key sn_seq] in Hsign.
  apply refuse_Ok in Hsign as [Hsq Hsign]. apply refuse_Ok in Hsign as [Hsl Hsign].
  apply negb_Zeqb_false in Hsq. subst sq. apply of_option_Ok in Hpre, Hsign.
  exists (mkNoticeWire pre (mkEnvelope aid seq AlgEdDSA (ed25519_sign key pre) [])),
    (fillBody (mkSnapshot aid seq kel (Some key)) body).
  unfold fillBody. cbn [nb_Witness nb_AID nb_Seq nb_Head nb_ObservedAt nw_Env nw_Body env_SignerAID
                        env_KeyStateSeq env_Sig sn_aid].
  split; [apply decodeNotice_Ok; cbn [nw_Env nw_Body env_PreimageRef env_Alg env_Sig nb_Type]; split_and!|];
    try done; try by apply unmarshal_marshal.
  - apply negb_Zeqb_false in Hsl. by apply (len_length _ 64) in Hsl.
  - destruct (beqb (nb_Type body) []); [done|]. by apply negb_beqb_false in Hty0.
  - split_and!; try done.
    + unfold log_toad. rewrite Hfirst. apply negb_false_iff in Hhub. by apply bool_decide_eq_true in Hhub.
    + destruct (beqb (nb_Witness body) []); [done|]. by apply negb_beqb_false in Hwit0.
    + by apply ed25519_sign_verify.
Qed.

(** What a hub signs confirms.  A notice [SignNotice] makes, under a snapshot of any reachable
    hub that is not deactivated, about the tip of an agent's log that names the hub, is accepted
    with that log at every arrival in the window by every node that holds the hub's log. *)
Theorem signed_notice_verifies `{!PlatformLaws P} (SB : StrictInv NoticeBody) (SW : StrictInv NoticeWire)
  k0 k1 ts toad c0 ops se s body b subj hubs arrival :
  key_ok k0 → key_ok k1 → incept k0 k1 ts toad = Ok c0 → Forall op_ok ops →
  let c := run c0 ops in
  len (KEL c) <= two64 → last (KEL c) = Some se → ke_Type (se_Event se) ≠ Deactivation → c_aid c ≠ [] →
  Snapshot c = Ok s → SignNotice s body = Ok b →
  is_Ok (replay subj) = true → log_toad subj = Some ToadAgent → log_witness subj = c_aid c →
  se_EventID <$> head subj = Some (nb_AID body) → se_EventID <$> last subj = Some (nb_Head body) →
  nb_Seq body = u64 (len subj - 1) → hubs (c_aid c) = Some (KEL c) →
  nb_ObservedAt body - EventClockWindow <= arrival <= nb_ObservedAt body + NoticeMaxAge →
  VerifyNotice b subj (Some hubs) arrival = Ok tt.
Proof.
  intros Hk0 Hk1 Hi Hops c Hlen Hl Hd Hne Hsnap Hsign Hr Hta Hw Haid Hhead Hseq Hh Hf.
  unfold incept in Hi. apply refuse_Ok in Hi as [_ Hi]. apply inceptWith_ok in Hi as [Hc0 Hs0]; [|done..].
  destruct (run_ok c0 ops Hc0 Hs0 Hops) as [Hc Hcur]. fold c in Hc, Hcur.
  destruct (signing_key c Hc Hcur) as (key & se' & Hk & Hkey & Hl' & Hpub).
  rewrite Hl in Hl'. injection Hl' as <-. unfold Snapshot in Hsnap. rewrite Hk in Hsnap.
  injection Hsnap as <-. apply replay_is_Ok in Hr as [sts Hr].
  destruct (replay_tip _ _ Hr) as (se0 & se1 & tip & R1 & R2 & R3 & R4 & R5 & R6 & R7 & R8).
  destruct (SignNotice_Ok SB SW _ _ _ _ _ _ Hkey Hsign)
    as (w & body' & Hdec & Hhub & _ & B1 & B2 & B3 & B4 & B5 & W1 & W2 & Hv).
  pose proof (last_index _ _ Hl) as Hi.
  assert (ke_Seq (se_Event se) = Z.of_nat (pred (length (KEL c)))) as Hs.
  { apply (replay_seq (KEL c)); [by apply KEL_replays|done|].
    unfold len in Hlen. destruct (KEL c); [done|simpl in *; lia]. }
  rewrite Hs in W2. apply VerifyNotice_steps. exists w, body', sts, tip. split_and!; try done.
  - rewrite R1 in Haid. rewrite R2 in Hhead. rewrite Hta in R7. simpl in Haid, Hhead.
    injection Haid as Haid. injection Hhead as Hhead. injection R7 as R7.
    apply checkTip_Ok. split_and!; congruence.
  - apply checkWitness_Ok; [rewrite W2; lia|]. exists (KEL c), se, (ed25519_public key).
    rewrite W2, B1, Nat2Z.id. split_and!; [done..| |intros n Hn; apply lookup_lt_Some in Hn; lia].
    constructor; rewrite ?Nat2Z.id; try done; [by apply KEL_replays|by apply KEL_head|].
    intros n Hn. apply lookup_lt_Some in Hn. lia.
  - apply checkFresh_Ok. by rewrite B5.
Qed.
End Theorems.

(** ** The encodings of a notice, and a sample notice *)

Definition body_cbor (b : NoticeBody) : cbor :=
  CMap (field 0 (CText (nb_Type b)) ++ field 1 (CText (nb_AID b)) ++ field 2 (CUint (nb_Seq b)) ++
        field 3 (CText (nb_Head b)) ++ field 4 (CUint (nb_ObservedAt b)) ++
        field 5 (CText (nb_Witness b))).
Definition body_of_cbor (c : cbor) : NoticeBody :=
  match c with
  | CMap l => mkNoticeBody (as_text (member 0 l)) (as_text (member 1 l)) (as_uint (member 2 l))
                (as_text (member 3 l)) (as_uint (member 4 l)) (as_text (member 5 l))
  | _ => mkNoticeBody [] [] 0 [] 0 []
  end.

Definition wire_cbor (w : NoticeWire) : cbor :=
  CMap (field 1 (CBytes (nw_Body w)) ++ field 2 (envelope_cbor (nw_Env w))).
Definition wire_of_cbor (c : cbor) : NoticeWire :=
  match c with
  | CMap l => mkNoticeWire (as_bytes (member 1 l)) (envelope_of_cbor (default CNull (member 2 l)))
  | _ => mkNoticeWire [] (envelope_of_cbor CNull)
  end.

Lemma body_of_cbor_body b : body_of_cbor (body_cbor b) = b.
Proof. by destruct b. Qed.
Lemma wire_of_cbor_wire w : wire_of_cbor (wire_cbor w) = w.
Proof. destruct w. unfold wire_cbor. simpl. by rewrite envelope_of_cbor_envelope. Qed.

#[export] Instance body_coredet : Coredet NoticeBody := codec_marshal body_cbor.
#[export] Instance wire_coredet : Coredet NoticeWire := codec_marshal wire_cbor.
#[export] Instance body_strict : Strict NoticeBody := codec_unmarshal body_of_cbor.
#[export] Instance wire_strict : Strict NoticeWire := codec_unmarshal wire_of_cbor.
#[export] Instance body_strict_inv : StrictInv NoticeBody := codec_inv _ _ body_of_cbor_body.
#[export] Instance wire_strict_inv : StrictInv NoticeWire := codec_inv _ _ wire_of_cbor_wire.

(** A hub, an agent whose second event names it, and the hub's notice about that event. *)
Definition named_rot : SignedEvent :=
  sign_event (mkKeyEvent KELType (se_EventID sample_icp) 1 (se_EventID sample_icp) Rotation
                [sample_pub 2] (sha256 (sample_pub 3)) 1 1760000100000 [c_aid hub0]
                (Some ToadAgent) false) (sample_key 2).
Definition agent_log : list SignedEvent := [sample_icp; named_rot].
Definition sample_body : NoticeBody :=
  mkNoticeBody [] (se_EventID sample_icp) 1 (se_EventID named_rot) 1760000200000 [].
Definition sample_notice : bytes :=
  match SignNotice hub_snapshot sample_body with Ok b => b | Err _ => [] end.
Definition sample_hubs : HubKELSource := λ aid, if beqb aid (c_aid hub0) then Some (c_kel hub0) else None.

Lemma sample_notice_ok :
  incept (sample_key 11) (sample_key 12) 1760000000000 ToadHub = Ok hub0 ∧
  Snapshot hub0 = Ok hub_snapshot ∧ SignNotice hub_snapshot sample_body = Ok sample_notice ∧
  KEL hub0 = c_kel hub0.
Proof. split_and!; vm_compute; reflexivity. Qed.

Lemma sample_notice_verdicts :
  VerifyNotice sample_notice agent_log (Some sample_hubs) 1760000200000 = Ok tt ∧
  VerifyNotice sample_notice agent_log (Some sample_hubs) (1760000200000 + NoticeMaxAge + 1) =
    Err (noticeError ErrNoticeStale "observed too long before the arrival").
Proof. split; vm_compute; reflexivity. Qed.

Lemma decoded_u64 (b : bytes) :
  from_option (λ w, (0 <=? env_KeyStateSeq (nw_Env w)) && (env_KeyStateSeq (nw_Env w) <? two64)) true
    (unmarshal b) = true →
  ∀ w, unmarshal b = Some w → is_u64 (env_KeyStateSeq (nw_Env w)).
Proof. intros Hb w Hw. rewrite Hw in Hb. simpl in Hb. go_inv. by split. Qed.

Lemma sample_u64 : ∀ w, unmarshal sample_notice = Some w → is_u64 (env_KeyStateSeq (nw_Env w)).
Proof. apply decoded_u64. vm_compute. reflexivity. Qed.

Lemma verify_notice_accepts_witness :
  ∃ w body wkel se k, sample_hubs (nb_Witness body) = Some wkel ∧
    notice_ok (CB := body_coredet) (CW := wire_coredet) sample_notice agent_log wkel 1760000200000 w body se k.
Proof.
  exact (proj1 (verify_notice_accepts (P := platform) (CE := event_coredet) (CB := body_coredet)
    (CW := wire_coredet) (DB := body_strict) (DW := wire_strict) body_strict_inv wire_strict_inv
    sample_notice agent_log sample_hubs 1760000200000 sample_u64) (proj1 sample_notice_verdicts)).
Defined.

Lemma verify_notice_refusals_witness :
  (∃ e', replay agent_log = Err e' ∧ noticeError ErrNoticeStale "observed too long before the arrival" =
      Wrap "identity: the KEL the notice is checked against does not replay" e') ∨
   ∃ kind why, noticeError ErrNoticeStale "observed too long before the arrival" = noticeError kind why ∧
     kind ∈ [ErrNoticeInvalid; ErrNoticeMissing; ErrNoticeMismatch; ErrNoticeUnknownWitness; ErrNoticeStale].
Proof.
  exact (proj1 (verify_notice_refusals (P := platform) (CE := event_coredet) (CB := body_coredet)
    (CW := wire_coredet) (DB := body_strict) (DW := wire_strict)
    sample_notice agent_log (Some sample_hubs) (1760000200000 + NoticeMaxAge + 1) _ sample_u64
    (proj2 sample_notice_verdicts))).
Defined.

Lemma sample_hub_log :
  c_kel hub0 = [hd sample_icp (c_kel hub0)] ∧ ke_Type (se_Event (hd sample_icp (c_kel hub0))) = Inception.
Proof. split; vm_compute; reflexivity. Qed.

Lemma sample_hub_alive :
  last (KEL (run hub0 [])) = Some (hd sample_icp (c_kel hub0)) ∧
  ke_Type (se_Event (hd sample_icp (c_kel hub0))) ≠ Deactivation ∧ len (KEL (run hub0 [])) <= two64 ∧
  c_aid (run hub0 []) ≠ [].
Proof. split_and!; [vm_compute; reflexivity|vm_compute; congruence..]. Qed.

Lemma sample_agent_log :
  is_Ok (replay agent_log) = true ∧ log_toad agent_log = Some ToadAgent ∧
  log_witness agent_log = c_aid (run hub0 []) ∧
  se_EventID <$> head agent_log = Some (nb_AID sample_body) ∧
  se_EventID <$> last agent_log = Some (nb_Head sample_body) ∧
  nb_Seq sample_body = u64 (len agent_log - 1) ∧
  sample_hubs (c_aid (run hub0 [])) = Some (KEL (run hub0 [])).
Proof. split_and!; vm_compute; reflexivity. Qed.

Lemma sample_window :
  nb_ObservedAt sample_body - EventClockWindow <= 1760010000000 <= nb_ObservedAt sample_body + NoticeMaxAge.
Proof. vm_compute. split; congruence. Qed.

Lemma signed_notice_verifies_witness :
  VerifyNotice sample_notice agent_log (Some sample_hubs) 1760010000000 = Ok tt.
Proof.
  destruct sample_hub_alive as (A1 & A2 & A3 & A4).
  destruct sample_agent_log as (L1 & L2 & L3 & L4 & L5 & L6 & L7).
  destruct sample_notice_ok as (N1 & N2 & N3 & _).
  exact (signed_notice_verifies (P := platform) (CE := event_coredet) (CS := signed_coredet)
    (CB := body_coredet) (CW := wire_coredet) (DB := body_strict) (DW := wire_strict)
    body_strict_inv wire_strict_inv (sample_key 11) (sample_key 12) 1760000000000 ToadHub hub0 []
    (hd sample_icp (c_kel hub0)) hub_snapshot sample_body sample_notice agent_log sample_hubs 1760010000000
    (sample_key_ok 11) (sample_key_ok 12) N1 (Forall_nil_2 _) A3 A1 A2 A4 N2 N3 L1 L2 L3 L4 L5 L6 L7
    sample_window).
Defined.
