(* ===== verification/ReplayCache.v ===== *)
(** * ReplayCache: remembering what logs replay to (identity/replaycache.go)

    A call looks the log up under the lock, replays it without the lock when it is not there, and
    takes the lock again to store the answer: [cache_begin] and [cache_finish] are the two critical
    sections, and any interleaving of calls is a sequence of them ([cache_steps]).  [byKEL] and the
    list are kept side by side, as in the source.  Sizes the Go compiler fixes ([unsafe.Sizeof]) and
    the identity of slices ([sameKeys] compares addresses) are parameters. *)

From S2P Require Import Prelude Platform Kel IdFile.

(** What [unsafe.Sizeof] gives for a slice and a [KeyState], and whether two key lists are one slice. *)
Class Sizes := {
  sizeof_slice : Z;
  sizeof_KeyState : Z;
  sameKeys : list bytes → list bytes → bool;
}.

Record replayEntry := mkEntry {
  en_key : bytes;
  en_states : list KeyState;
  en_err : option error;
  en_cost : Z;
}.

Record ReplayCache := mkReplayCache {
  rc_byKEL : gmap bytes replayEntry;
  rc_lru : list replayEntry;
  rc_bytes : Z;
  rc_max : Z;
  rc_hits : Z;
  rc_misses : Z;
}.

Definition NewReplayCache (maxBytes : Z) : ReplayCache := mkReplayCache ∅ [] 0 maxBytes 0 0.
Definition Stats (c : ReplayCache) : Z * Z := (rc_hits c, rc_misses c).

(** [c.lru.MoveToFront(el)]. *)
Definition moveToFront (e : replayEntry) (lru : list replayEntry) : list replayEntry :=
  e :: List.filter (λ x, negb (beqb (en_key x) (en_key e))) lru.

Section Cache.
Context `{P : Platform} `{CE : Coredet KeyEvent} `{CK : Coredet (list SignedEvent)} `{SZ : Sizes}.

Definition keys_cost (keys : list bytes) : Z := foldr (λ k n, len k + sizeof_slice + n) 0 keys.

(** The cost of the states after the first, each beside the one before it. *)
Fixpoint states_cost (prev : KeyState) (states : list KeyState) : Z :=
  match states with
  | [] => 0
  | s :: states =>
      (if sameKeys (ks_CurrentKeys s) (ks_CurrentKeys prev) then 0 else keys_cost (ks_CurrentKeys s)) +
        len (ks_LastEventID s) + len (ks_Witness s) + states_cost s states
  end.

(** A copy holds the values it copies. *)
Definition compactStates (states : list KeyState) : option (list KeyState * Z) :=
  match states with
  | [] => None
  | s :: rest =>
      Some (states, len states * sizeof_KeyState + keys_cost (ks_CurrentKeys s) + len (ks_LastEventID s) +
                      len (ks_Witness s) + states_cost s rest + len (ks_AID s))
  end.

Definition entry_answer (e : replayEntry) : result (list KeyState) :=
  match en_err e with Some err => Err err | None => Ok (en_states e) end.

(** The first critical section: the answer of a hit, or of a log that does not encode. *)
Definition cache_begin (c : ReplayCache) (kel : list SignedEvent)
  : ReplayCache * option (result (list KeyState)) :=
  match MarshalKEL kel with
  | Err _ => (c, Some (replay kel))
  | Ok enc =>
      match rc_byKEL c !! sha256 enc with
      | Some e =>
          (mkReplayCache (rc_byKEL c) (moveToFront e (rc_lru c)) (rc_bytes c) (rc_max c)
             (u64 (rc_hits c + 1)) (rc_misses c), Some (entry_answer e))
      | None =>
          (mkReplayCache (rc_byKEL c) (rc_lru c) (rc_bytes c) (rc_max c) (rc_hits c)
             (u64 (rc_misses c + 1)), None)
      end
  end.

(** The eviction loop over the list from its back; [Remove(nil)] panics. *)
Fixpoint evict (byKEL : gmap bytes replayEntry) (back : list replayEntry) (used cost max : Z)
  : result (gmap bytes replayEntry * list replayEntry * Z) :=
  if max <? used + cost then
    match back with
    | [] => Err Panic
    | old :: back => evict (delete (en_key old) byKEL) back (used - en_cost old) cost max
    end
  else Ok (byKEL, back, used).

(** What the replay of a log leaves to store, before the cost of the entry itself. *)
Definition newEntry (key : bytes) (r : result (list KeyState)) : option replayEntry :=
  match r with
  | Ok states => '(copy, cost) ← compactStates states; Some (mkEntry key copy None (cost + 256))
  | Err err => Some (mkEntry key [] (Some err) 256)
  end.

Definition cache_insert (c : ReplayCache) (e : replayEntry) : result ReplayCache :=
  if bool_decide (is_Some (rc_byKEL c !! en_key e)) || (rc_max c <? en_cost e) then Ok c
  else
    '(byKEL, back, used) ← evict (rc_byKEL c) (rev (rc_lru c)) (rc_bytes c) (en_cost e) (rc_max c);
    Ok (mkReplayCache (<[en_key e := e]> byKEL) (e :: rev back) (used + en_cost e) (rc_max c)
          (rc_hits c) (rc_misses c)).

(** The replay and the second critical section; the outer result is that of the section. *)
Definition cache_finish (c : ReplayCache) (kel : list SignedEvent)
  : result (ReplayCache * result (list KeyState)) :=
  let r := replay kel in
  match MarshalKEL kel with
  | Err _ => Ok (c, r)
  | Ok enc =>
      match newEntry (sha256 enc) r with
      | None => Ok (c, r)
      | Some e => c ← cache_insert c e; Ok (c, r)
      end
  end.

(** [ReplayCache.replay] of one call with nothing in between. *)
Definition cache_replay (c : ReplayCache) (kel : list SignedEvent)
  : result (ReplayCache * result (list KeyState)) :=
  match cache_begin c kel with
  | (c, Some r) => Ok (c, r)
  | (c, None) => cache_finish c kel
  end.

(** [Replay]: through the installed cache, if any. *)
Definition installedReplay (installed : option ReplayCache) (kel : list SignedEvent)
  : result (option ReplayCache * result (list KeyState)) :=
  match installed with
  | None => Ok (None, replay kel)
  | Some c => '(c, r) ← cache_replay c kel; Ok (Some c, r)
  end.

(** Critical sections of any calls in any order, with their answers. *)
Inductive cache_step := Begin (kel : list SignedEvent) | Finish (kel : list SignedEvent).
Definition step_kel (s : cache_step) : list SignedEvent := match s with Begin kel | Finish kel => kel end.

Fixpoint cache_steps (c : ReplayCache) (ss : list cache_step)
  : result (ReplayCache * list (cache_step * option (result (list KeyState)))) :=
  match ss with
  | [] => Ok (c, [])
  | Begin kel :: ss =>
      let '(c, r) := cache_begin c kel in
      '(c, out) ← cache_steps c ss; Ok (c, (Begin kel, r) :: out)
  | Finish kel :: ss =>
      '(c, r) ← cache_finish c kel;
      '(c, out) ← cache_steps c ss; Ok (c, (Finish kel, Some r) :: out)
  end.
End Cache.
