(* ===== verification/ReplayCacheTheorems.v ===== *)
(** * ReplayCacheTheorems: the replay cache changes no answer and keeps its bound *)

From S2P Require Import Prelude Aid Platform Cbor Kel KelReference KelSpec KelFacts KelProps IdFile ReplayCache.
Import Light.

Lemma rev_perm {A} (l : list A) : rev l ≡ₚ l.
Proof. symmetry. apply Permutation_rev. Qed.

Definition total (es : list replayEntry) : Z := foldr (λ e n, en_cost e + n) 0 es.

Lemma total_app a b : total (a ++ b) = total a + total b.
Proof. unfold total. induction a as [|e a IH]; simpl; [lia|]. rewrite IH. lia. Qed.

Lemma total_Permutation a b : a ≡ₚ b → total a = total b.
Proof. unfold total. induction 1; simpl; lia. Qed.

(** The map and the list hold the same entries. *)
Record indexed (m : gmap bytes replayEntry) (es : list replayEntry) : Prop := {
  ix_nodup : NoDup (map en_key es);
  ix_lookup : ∀ k e, m !! k = Some e ↔ e ∈ es ∧ en_key e = k;
}.

Lemma indexed_nil : indexed ∅ [].
Proof. constructor; [constructor|]. intros k e. rewrite lookup_empty. set_solver. Qed.

Lemma indexed_perm m a b : a ≡ₚ b → indexed m a → indexed m b.
Proof.
  intros Hp [H1 H2]. constructor; [by rewrite <- Hp|]. intros k e. by rewrite H2, Hp.
Qed.

Lemma map_elem (e : replayEntry) es : e ∈ es → en_key e ∈ map en_key es.
Proof. intros He. apply (list_elem_of_fmap_2 en_key). done. Qed.

Lemma indexed_tail m e es : indexed m (e :: es) → indexed (delete (en_key e) m) es.
Proof.
  intros [H1 H2]. simpl in H1. apply NoDup_cons in H1 as [Hn Hd]. constructor; [done|].
  intros k x. rewrite lookup_delete_Some, H2, elem_of_cons. split.
  - intros (Hk & [->|Hx] & <-); done.
  - intros [Hx <-]. split_and!; [|by right|done]. intros E. apply Hn. rewrite E. by apply map_elem.
Qed.

Lemma indexed_cons m e es : m !! en_key e = None → indexed m es → indexed (<[en_key e := e]> m) (e :: es).
Proof.
  intros Hm [H1 H2]. assert (en_key e ∉ map en_key es) as Hn.
  { intros (x & Hk & Hx)%list_elem_of_fmap. pose proof (proj2 (H2 (en_key e) x) (conj Hx (eq_sym Hk))). congruence. }
  constructor; [simpl; by constructor|]. intros k x. rewrite elem_of_cons.
  destruct (decide (k = en_key e)) as [->|Hk].
  - rewrite lookup_insert_eq. split; [intros [= ->]; auto|]. intros [[->|Hx] Hk]; [done|].
    destruct Hn. rewrite <- Hk. by apply map_elem.
  - rewrite lookup_insert_ne by done. rewrite H2. naive_solver.
Qed.

Lemma filter_all {A} (f : A → bool) l : (∀ x, x ∈ l → f x = true) → List.filter f l = l.
Proof.
  induction l as [|x l IH]; simpl; intros Hf; [done|]. rewrite (Hf x) by by left.
  f_equal. apply IH. intros y Hy. apply Hf. by right.
Qed.

Lemma moveToFront_perm m e es : indexed m es → e ∈ es → moveToFront e es ≡ₚ es.
Proof.
  intros [Hd _] He. unfold moveToFront. revert Hd He. induction es as [|x es IH]; simpl; intros Hd He; [set_solver|].
  apply NoDup_cons in Hd as [Hn Hd]. destruct (negb (beqb (en_key x) (en_key e))) eqn:E; go_inv.
  - apply elem_of_cons in He as [->|He]; [done|]. by rewrite Permutation_swap, IH.
  - assert (e = x) as ->.
    { apply elem_of_cons in He as [->|He]; [done|]. destruct Hn. rewrite E. by apply map_elem. }
    rewrite filter_all; [done|]. intros y Hy. apply negb_true_iff, beqb_false. intros E'. apply Hn.
    rewrite <- E'. by apply map_elem.
Qed.

(** The eviction: it forgets just enough entries from the back. *)
Lemma evict_spec back : ∀ m used cost max,
  indexed m back → used = total back → cost <= max →
  ∃ gone kept m', evict m back used cost max = Ok (m', kept, total kept) ∧ back = gone ++ kept ∧
    indexed m' kept ∧ total kept + cost <= max ∧ m' ⊆ m ∧
    (∀ g e, gone = g ++ [e] → max < total (e :: kept) + cost).
Proof.
  induction back as [|e back IH]; intros m used cost max Hm -> Hc; cbn [evict].
  - change (total []) with 0. rewrite (proj2 (Z.ltb_ge _ _)) by lia.
    exists [], [], m. split_and!; try done. intros g e E. by destruct g.
  - destruct (max <? total (e :: back) + cost) eqn:E; go_inv.
    + destruct (IH (delete (en_key e) m) (total (e :: back) - en_cost e) cost max)
        as (gone & kept & m' & He & -> & Hi & Hb & Hs & Hmin); [by apply indexed_tail|unfold total; simpl; lia|done|].
      exists (e :: gone), kept, m'. split; [exact He|].
      split_and!; try done; [etrans; [done|apply delete_subseteq]|].
      intros g x Hg. destruct g as [|y g]; simpl in Hg; injection Hg as -> Hg; [subst; done|by eapply Hmin].
    + exists [], (e :: back), m. split_and!; try done. intros g x Hg. by destruct g.
Qed.

Section Cache.
Context `{P : Platform} `{CE : Coredet KeyEvent} `{CK : Coredet (list SignedEvent)} `{SZ : Sizes}.

(** The sizes the compiler fixes are not negative. *)
Context (S1 : 0 <= sizeof_slice) (S2 : 0 <= sizeof_KeyState).

Definition encoding (kel : list SignedEvent) : option bytes := marshal kel.

(** An entry of the cache answers for some log of [U]. *)
Definition entry_ok (U : list (list SignedEvent)) (e : replayEntry) : Prop :=
  256 <= en_cost e ∧
  ∃ kel enc, kel ∈ U ∧ encoding kel = Some enc ∧ en_key e = sha256 enc ∧ entry_answer e = replay kel.

Record cache_ok (U : list (list SignedEvent)) (c : ReplayCache) : Prop := {
  co_indexed : indexed (rc_byKEL c) (rc_lru c);
  co_bytes : rc_bytes c = total (rc_lru c);
  co_bound : total (rc_lru c) <= rc_max c;
  co_entries : ∀ e, e ∈ rc_lru c → entry_ok U e;
}.

Lemma MarshalKEL_Ok kel enc : MarshalKEL kel = Ok enc ↔ encoding kel = Some enc.
Proof. unfold MarshalKEL, Marshal. apply of_option_Ok. Qed.

Lemma keys_cost_nonneg l : 0 <= keys_cost l.
Proof using S1. unfold keys_cost. induction l as [|k l IH]; simpl; [lia|]. pose proof (len_nonneg k). lia. Qed.

Lemma states_cost_nonneg states : ∀ prev, 0 <= states_cost prev states.
Proof using S1.
  induction states as [|s states IH]; intros prev; simpl; [lia|]. specialize (IH s).
  pose proof (keys_cost_nonneg (ks_CurrentKeys s)). pose proof (len_nonneg (ks_LastEventID s)).
  pose proof (len_nonneg (ks_Witness s)). destruct (sameKeys _ _); lia.
Qed.

Lemma compactStates_spec states copy cost : compactStates states = Some (copy, cost) → copy = states ∧ 0 <= cost.
Proof using S1 S2.
  destruct states as [|s rest]; [done|]. cbn [compactStates]. intros [= <- <-]. split; [done|].
  pose proof (keys_cost_nonneg (ks_CurrentKeys s)). pose proof (states_cost_nonneg rest s).
  pose proof (len_nonneg (ks_LastEventID s)). pose proof (len_nonneg (ks_Witness s)).
  pose proof (len_nonneg (ks_AID s)). pose proof (len_nonneg (s :: rest)). nia.
Qed.

Lemma newEntry_ok U kel enc e :
  kel ∈ U → encoding kel = Some enc → newEntry (sha256 enc) (replay kel) = Some e →
  entry_ok U e ∧ en_key e = sha256 enc.
Proof using S1 S2.
  intros Hk Henc He. unfold newEntry in He. unfold entry_ok.
  destruct (replay kel) as [states|err] eqn:Hr.
  - destruct (compactStates states) as [[copy cost]|] eqn:Hc; [|done]. injection He as <-.
    apply compactStates_spec in Hc as [-> Hc]. simpl. split; [|done]. split; [lia|].
    exists kel, enc. by split_and!.
  - injection He as <-. simpl. split; [|done]. split; [lia|]. exists kel, enc. by split_and!.
Qed.

(** What storing an entry does: it goes to the front, and just enough of the entries least recently
    used make room for it. *)
Lemma cache_insert_spec U c e :
  cache_ok U c → entry_ok U e →
  ∃ c', cache_insert c e = Ok c' ∧ cache_ok U c' ∧ rc_max c' = rc_max c ∧
    (c' = c ∨ ∃ kept gone, rc_lru c = kept ++ gone ∧ rc_lru c' = e :: kept ∧
       ∀ x g, gone = x :: g → rc_max c < total (kept ++ [x]) + en_cost e).
Proof.
  intros Hc He. unfold cache_insert.
  destruct (bool_decide (is_Some (rc_byKEL c !! en_key e)) || (rc_max c <? en_cost e)) eqn:Hif;
    [exists c; split_and!; [done..|by left]|].
  apply orb_false_iff in Hif as [Hn Hm]. apply bool_decide_eq_false in Hn. apply Z.ltb_ge in Hm.
  destruct Hc as [Hix Hb Hbd Hes].
  destruct (evict_spec (rev (rc_lru c)) (rc_byKEL c) (rc_bytes c) (en_cost e) (rc_max c))
    as (gone & kept & m' & -> & Hrev & Hi & Hbound & Hsub & Hmin).
  - eapply indexed_perm, Hix. by rewrite rev_perm.
  - rewrite Hb. apply total_Permutation. by rewrite rev_perm.
  - done.
  - cbn [mbind result_bind]. eexists. split; [done|].
    assert (rc_lru c = rev kept ++ rev gone) as Hl by (by rewrite <- rev_app_distr, <- Hrev, rev_involutive).
    pose proof (total_Permutation kept (rev kept) ltac:(by rewrite rev_perm)) as Htot.
    split; [|split; [done|right]].
    + constructor; cbn [rc_byKEL rc_lru rc_bytes rc_max].
      * apply indexed_cons; [|eapply indexed_perm, Hi; by rewrite rev_perm].
        destruct (m' !! en_key e) eqn:E; [|done]. destruct Hn. eapply lookup_weaken in E; [|done]. eauto.
      * unfold total at 2. simpl. fold (total (rev kept)). lia.
      * unfold total. simpl. fold (total (rev kept)). lia.
      * intros x [->|Hx]%elem_of_cons; [done|]. apply Hes. rewrite Hl. apply elem_of_app. by left.
    + exists (rev kept), (rev gone). split_and!; [done..|]. intros x g Hg.
      apply (f_equal (@rev replayEntry)) in Hg. rewrite rev_involutive in Hg. simpl in Hg.
      specialize (Hmin _ _ Hg). rewrite (total_Permutation (rev kept ++ [x]) (x :: kept)); [done|].
      rewrite rev_perm. by rewrite Permutation_app_comm.
Qed.

Lemma cache_finish_spec U c kel :
  kel ∈ U → cache_ok U c →
  ∃ c', cache_finish c kel = Ok (c', replay kel) ∧ cache_ok U c' ∧ rc_max c' = rc_max c ∧
    (c' = c ∨ ∃ e enc kept gone, encoding kel = Some enc ∧ en_key e = sha256 enc ∧
       rc_lru c = kept ++ gone ∧ rc_lru c' = e :: kept ∧
       ∀ x g, gone = x :: g → rc_max c < total (kept ++ [x]) + en_cost e).
Proof using S1 S2.
  intros Hk Hc. unfold cache_finish. destruct (MarshalKEL kel) as [enc|] eqn:Henc; [|exists c; split_and!; auto].
  apply MarshalKEL_Ok in Henc. destruct (newEntry (sha256 enc) (replay kel)) as [e|] eqn:He;
    [|exists c; split_and!; auto].
  destruct (newEntry_ok U _ _ _ Hk Henc He) as [Hok Hkey].
  destruct (cache_insert_spec U c e Hc Hok) as (c' & -> & Hc' & Hmax & Hl). cbn [mbind result_bind].
  exists c'. split_and!; try done. destruct Hl as [->|(kept & gone & ?)]; [by left|right].
  exists e, enc, kept, gone. destruct_and!. by split_and!.
Qed.

Lemma cache_begin_spec (CI : CoredetInj (list SignedEvent)) U c kel :
  kel ∈ U → inj_on sha256 (omap encoding U) → cache_ok U c →
  cache_ok U (cache_begin c kel).1 ∧ rc_max (cache_begin c kel).1 = rc_max c ∧
  ∀ r, (cache_begin c kel).2 = Some r → r = replay kel.
Proof.
  intros Hk Hinj Hc. unfold cache_begin. destruct (MarshalKEL kel) as [enc|] eqn:Henc;
    [|simpl; split_and!; [done..|by intros r [= <-]]].
  apply MarshalKEL_Ok in Henc. destruct Hc as [Hix Hb Hbd Hes].
  destruct (rc_byKEL c !! sha256 enc) as [e|] eqn:He; cbn [fst snd rc_max]; [|split_and!; [by constructor|done..]].
  apply (ix_lookup _ _ Hix) in He as [He Hkey]. pose proof (moveToFront_perm _ _ _ Hix He) as Hp.
  destruct (Hes e He) as (_ & kel' & enc' & Hk' & Henc' & Hkey' & Ha). split_and!; [|done|].
  - constructor; cbn [rc_byKEL rc_lru rc_bytes rc_max].
    + eapply indexed_perm, Hix. by symmetry.
    + rewrite Hb. symmetry. by apply total_Permutation.
    + by rewrite (total_Permutation _ _ Hp).
    + intros x Hx. apply Hes. by rewrite <- Hp.
  - intros r [= <-]. rewrite Ha. f_equal.
    assert (enc' = enc) as ->; [|by eapply marshal_inj].
    apply Hinj; [| |congruence]; apply list_elem_of_omap; eauto.
Qed.

Lemma cache_steps_spec (CI : CoredetInj (list SignedEvent)) U ss : ∀ c,
  (∀ s, s ∈ ss → step_kel s ∈ U) → inj_on sha256 (omap encoding U) → cache_ok U c →
  ∃ c' out, cache_steps c ss = Ok (c', out) ∧ cache_ok U c' ∧ rc_max c' = rc_max c ∧ map fst out = ss ∧
    ∀ s r, (s, Some r) ∈ out → r = replay (step_kel s).
Proof using S1 S2.
  induction ss as [|s ss IH]; intros c HU Hinj Hc.
  { exists c, []. split_and!; try done. intros s r Hs. by apply not_elem_of_nil in Hs. }
  assert (step_kel s ∈ U) as Hs by (apply HU; by left).
  assert (∀ s, s ∈ ss → step_kel s ∈ U) as HU' by (intros; apply HU; by right).
  destruct s as [kel|kel]; simpl in Hs; cbn [cache_steps].
  - destruct (cache_begin_spec CI U c kel Hs Hinj Hc) as (H1 & H2 & H3).
    destruct (cache_begin c kel) as [c1 r1]. cbn [fst snd] in *.
    destruct (IH c1 HU' Hinj H1) as (c' & out & -> & H4 & H5 & H6 & H7). cbn [mbind result_bind].
    exists c', ((Begin kel, r1) :: out). split_and!; [done..|congruence|simpl; congruence|].
    intros s r [[= -> <-]|Hr]%elem_of_cons; [by apply H3|by apply H7].
  - destruct (cache_finish_spec U c kel Hs Hc) as (c1 & -> & H1 & H2 & _). cbn [mbind result_bind].
    destruct (IH c1 HU' Hinj H1) as (c' & out & -> & H4 & H5 & H6 & H7). cbn [mbind result_bind].
    exists c', ((Finish kel, Some (replay kel)) :: out). split_and!; [done..|congruence|simpl; congruence|].
    intros s r [[= -> ->]|Hr]%elem_of_cons; [done|by apply H7].
Qed.

Lemma NewReplayCache_ok U maxBytes : 0 <= maxBytes → cache_ok U (NewReplayCache maxBytes).
Proof.
  intros Hm. constructor; [apply indexed_nil|done|done|]. intros e He. by apply not_elem_of_nil in He.
Qed.

Lemma step_kels ss s : s ∈ ss → step_kel s ∈ map step_kel ss.
Proof. intros Hs. by apply (list_elem_of_fmap_2 step_kel). Qed.

(** C33: the cache changes no answer.  However the critical sections of concurrent calls interleave,
    none panics, and every answer, from a hit or a replay, is the result [replay] gives for the log
    that was asked for, errors included, unless SHA-256 collides on two of the encodings. *)
Theorem replay_cache_is_transparent (CI : CoredetInj (list SignedEvent)) maxBytes ss :
  0 <= maxBytes → inj_on sha256 (omap encoding (map step_kel ss)) →
  ∃ c out, cache_steps (NewReplayCache maxBytes) ss = Ok (c, out) ∧ map fst out = ss ∧
    ∀ s r, (s, Some r) ∈ out → r = replay (step_kel s).
Proof using S1 S2.
  intros Hm Hinj.
  destruct (cache_steps_spec CI (map step_kel ss) ss (NewReplayCache maxBytes) (step_kels ss) Hinj
              (NewReplayCache_ok _ _ Hm)) as (c & out & ? & _ & _ & ? & ?).
  by exists c, out.
Qed.

Lemma total_min U es : (∀ e, e ∈ es → entry_ok U e) → 256 * len es <= total es.
Proof.
  induction es as [|e es IH]; intros He; [done|]. unfold len, total in *. simpl.
  destruct (He e (list_elem_of_here _ _)) as [? _].
  assert (256 * Z.of_nat (length es) <= foldr (λ e n, en_cost e + n) 0 es); [|lia].
  apply IH. intros x Hx. apply He. by right.
Qed.

(** The cache keeps its bound and forgets in order of use.  After any interleaving its byte count
    is the sum of its entries' costs and at most the maximum (so there are at most a 256th as many
    entries), the map and the list hold the same entries under distinct keys, and storing an answer
    drops only entries at the back of the list, and no more of them than the new one needs. *)
Theorem replay_cache_is_bounded (CI : CoredetInj (list SignedEvent)) maxBytes ss c out :
  0 <= maxBytes → inj_on sha256 (omap encoding (map step_kel ss)) →
  cache_steps (NewReplayCache maxBytes) ss = Ok (c, out) →
  rc_bytes c = total (rc_lru c) ∧ rc_bytes c <= maxBytes ∧ 256 * len (rc_lru c) <= maxBytes ∧
  NoDup (map en_key (rc_lru c)) ∧ (∀ k e, rc_byKEL c !! k = Some e ↔ e ∈ rc_lru c ∧ en_key e = k) ∧
  ∀ kel, kel ∈ map step_kel ss → ∃ c', cache_finish c kel = Ok (c', replay kel) ∧
    (c' = c ∨ ∃ e enc kept gone, encoding kel = Some enc ∧ en_key e = sha256 enc ∧
       rc_lru c = kept ++ gone ∧ rc_lru c' = e :: kept ∧
       ∀ x g, gone = x :: g → maxBytes < total (kept ++ [x]) + en_cost e).
Proof using S1 S2.
  intros Hm Hinj Hrun.
  destruct (cache_steps_spec CI (map step_kel ss) ss (NewReplayCache maxBytes) (step_kels ss) Hinj
              (NewReplayCache_ok _ _ Hm)) as (c' & out' & Hrun' & Hc & Hmax & _).
  rewrite Hrun in Hrun'. injection Hrun' as <- <-. simpl in Hmax.
  pose proof (total_min _ _ (co_entries _ _ Hc)). pose proof Hc as [Hix Hb Hbd Hes]. rewrite Hmax in Hbd.
  split_and!; [done|lia|lia|apply Hix|apply Hix|]. intros kel Hk.
  destruct (cache_finish_spec _ c kel Hk Hc) as (c1 & Hf & _ & _ & Hl). exists c1. split; [done|].
  by rewrite <- Hmax.
Qed.
End Cache.

(** ** On the sample logs *)

#[export] Instance go_sizes : Sizes := {|
  sizeof_slice := 24;
  sizeof_KeyState := 120;
  sameKeys a b := bool_decide (a = [] ∧ b = []);
|}.

Lemma kel_coredet_inj : CoredetInj (list SignedEvent).
Proof.
  intros a b x. rewrite !kel_marshal. intros Ha Hb.
  pose proof (cbor_marshal_inj _ _ x Ha Hb) as E. injection E as E.
  apply (f_equal (map signed_of_cbor)) in E. rewrite !map_map in E.
  assert (∀ l, map (λ se, signed_of_cbor (signed_cbor se)) l = l) as Hid.
  { intros l. rewrite <- (map_id l) at 2. apply map_ext, signed_of_cbor_signed. }
  by rewrite !Hid in E.
Qed.

(** Two callers race on one log, and a third one is stored over the first. *)
Definition sample_steps : list cache_step :=
  let short := [sample_icp] in let long := [sample_icp; sample_rot] in
  [Begin long; Begin long; Finish long; Begin short; Finish long; Finish short; Begin []; Finish []; Begin []].

Lemma sample_steps_inj : inj_on sha256 (omap encoding (map step_kel sample_steps)).
Proof. apply inj_onb_true. vm_compute. reflexivity. Qed.

(** Which calls are answered at once, and how many entries are left when the cache has room for two. *)
Lemma sample_steps_run :
  match cache_steps (NewReplayCache 1500) sample_steps with
  | Ok (c, out) => map (λ o, bool_decide (is_Some o.2)) out =
                     [false; false; true; false; true; true; false; true; true] ∧
                   length (rc_lru c) = 2%nat ∧ Stats c = (1, 4)
  | Err _ => False
  end.
Proof. vm_compute. repeat split. Qed.

Lemma replay_cache_is_transparent_witness :
  ∃ c out, cache_steps (NewReplayCache 1500) sample_steps = Ok (c, out) ∧ map fst out = sample_steps ∧
    ∀ s r, (s, Some r) ∈ out → r = replay (step_kel s).
Proof.
  exact (replay_cache_is_transparent (P := platform) (CE := event_coredet) (CK := kel_coredet) (SZ := go_sizes)
    ltac:(by vm_compute) ltac:(by vm_compute) kel_coredet_inj 1500 sample_steps ltac:(by vm_compute)
    sample_steps_inj).
Defined.

Definition sample_cache := Eval vm_compute in
  match cache_steps (NewReplayCache 1500) sample_steps with
  | Ok p => p
  | Err _ => (NewReplayCache 1500, [])
  end.
Lemma sample_cache_ok : cache_steps (NewReplayCache 1500) sample_steps = Ok sample_cache.
Proof. vm_compute. reflexivity. Qed.
Lemma sample_cache_pair : cache_steps (NewReplayCache 1500) sample_steps = Ok (sample_cache.1, sample_cache.2).
Proof. rewrite sample_cache_ok. apply f_equal. apply surjective_pairing. Qed.

Lemma replay_cache_is_bounded_witness : rc_bytes sample_cache.1 = total (rc_lru sample_cache.1).
Proof.
  exact (proj1 (replay_cache_is_bounded (P := platform) (CE := event_coredet) (CK := kel_coredet) (SZ := go_sizes)
    ltac:(by vm_compute) ltac:(by vm_compute) kel_coredet_inj 1500 sample_steps sample_cache.1 sample_cache.2
    ltac:(by vm_compute) sample_steps_inj sample_cache_pair)).
Defined.
