(* ===== verification/Relayauth.v ===== *)
(** * Relayauth: authenticating a request to a hub (relayauth/)

    The preimage a request signature covers (relayauth.go), the session key and the session MAC
    (session.go) and the clock that spaces timestamps (monoclock.go).  [EncodeToString] and
    [DecodeString] are Go's [encoding/base64] with the URL alphabet, no padding, in strict mode. *)

From S2P Require Import Prelude Platform.

(** ** base64.RawURLEncoding.Strict() *)

Definition b64_alphabet : bytes :=
  str "ABCDEFGHIJKLMNOPQRSTUVWXYZabcdefghijklmnopqrstuvwxyz0123456789-_".
Definition b64_char (v : Z) : Z := nth (Z.to_nat v) b64_alphabet 0.
Definition b64_val (c : Z) : option Z :=
  if (65 <=? c) && (c <=? 90) then Some (c - 65)
  else if (97 <=? c) && (c <=? 122) then Some (c - 71)
  else if (48 <=? c) && (c <=? 57) then Some (c + 4)
  else if c =? 45 then Some 62
  else if c =? 95 then Some 63
  else None.

Fixpoint b64_digits (s : bytes) : list Z :=
  match s with
  | [] => []
  | [a] => [a / 4; a mod 4 * 16]
  | [a; b] => [a / 4; a mod 4 * 16 + b / 16; b mod 16 * 4]
  | a :: b :: c :: s => [a / 4; a mod 4 * 16 + b / 16; b mod 16 * 4 + c / 64; c mod 64] ++ b64_digits s
  end.

(** Strict: the unused bits of a last quantum of two or three digits are zero. *)
Fixpoint b64_bytes (d : list Z) : option bytes :=
  match d with
  | [] => Some []
  | [_] => None
  | [x; y] => if y mod 16 =? 0 then Some [x * 4 + y / 16] else None
  | [x; y; z] => if z mod 4 =? 0 then Some [x * 4 + y / 16; y mod 16 * 16 + z / 4] else None
  | x :: y :: z :: w :: d =>
      ([x * 4 + y / 16; y mod 16 * 16 + z / 4; z mod 4 * 64 + w] ++.) <$> b64_bytes d
  end.

Definition EncodeToString (s : bytes) : bytes := map b64_char (b64_digits s).

(** The decoder skips CR and LF. *)
Definition skip_newlines (s : bytes) : bytes :=
  List.filter (λ c, negb ((c =? 13) || (c =? 10))) s.
Definition DecodeString (s : bytes) : option bytes := mapM b64_val (skip_newlines s) ≫= b64_bytes.
Definition EncodedLen (n : Z) : Z := n / 3 * 4 + (n mod 3 * 8 + 5) / 6.

(** ** Request signatures *)

Definition ValidActions : list bytes :=
  [str "poll"; str "ack"; str "register"; str "profile"; str "visibility"; str "deregister";
   str "balance"; str "ledger"; str "redemptions"; str "keys"; str "session"; str "revoke";
   str "review"; str "liab_proof"; str "fed_forward"; str "fed_bucket"; str "fed_status";
   str "fed_cards"; str "fed_settle"; str "fed_reviews"; str "fed_clear"].
Definition ValidAction (action : bytes) : bool := existsb (beqb action) ValidActions.

Definition MaxSkewMillis : Z := 5 * 60 * 1000.

Definition escapeByte (c : Z) : bytes :=
  if c =? 37 then [37; 50; 53] else if c =? 47 then [37; 50; 70] else [c].
Definition escapeField (s : bytes) : bytes :=
  if negb (has_byte 47 s || has_byte 37 s) then s else concat (map escapeByte s).

Section Preimage.
Context `{P : Platform}.

Definition PreimageV2 (action aid hubAID : bytes) (ts : Z) (method pathAndQuery body : bytes) : bytes :=
  let digest := EncodeToString (sha256 (method ++ [0] ++ pathAndQuery ++ [0] ++ body)) in
  str "anet-relay/v2/" ++ escapeField action ++ str "/" ++ escapeField aid ++ str "/" ++
    escapeField hubAID ++ str "/" ++ decimal ts ++ str "/" ++ digest.
End Preimage.

Definition ErrBadSig : error :=
  Errf "relayauth: X-ANet-Sig is not an unpadded base64url 64-byte signature".
Definition ErrBadSessionHeader : error :=
  Errf "relayauth: X-ANet-Session or X-ANet-MAC is not an unpadded base64url value of the right length".

Definition decodeExact (err : error) (s : bytes) (encodedLen n : Z) : result bytes :=
  refuse negb (len s =? encodedLen) with err;
  b ← of_option (DecodeString s) err;
  refuse negb (len b =? n) with err;
  Ok b.

Definition EncodeSig (sig : bytes) : bytes := EncodeToString sig.
Definition DecodeSig (s : bytes) : result bytes :=
  decodeExact ErrBadSig s (EncodedLen SignatureSize) SignatureSize.

(** ** Sessions *)

Definition SessionIDLen : Z := 16.
Definition SessionKeyLen : Z := 32.
Definition SessionMACLen : Z := 32.
Definition SessionPublicKeyLen : Z := 32.
Definition sessionEncLen : Z := 32.
Definition sessionCTLen : Z := SessionKeyLen + 16.
Definition sessionKeyLabel : bytes := str "anet-sess-key/v1".
Definition sessionMACLabel : bytes := str "anet-sess-mac/v1".

Definition ErrNUL : error := Errf "relayauth: a field holds U+0000".
Definition ErrSessionInput : error := Errf "relayauth: malformed session input".
Definition ErrSessionKey : error := Errf "relayauth: the session key does not open".
Definition ErrSessionMAC : error := Errf "relayauth: the session MAC does not match the request".

Definition EncodeSessionID (sid : bytes) : bytes := EncodeToString sid.
Definition DecodeSessionID (s : bytes) : result bytes :=
  decodeExact ErrBadSessionHeader s (EncodedLen SessionIDLen) SessionIDLen.
Definition EncodeMAC (mac : bytes) : bytes := EncodeToString mac.
Definition DecodeMAC (s : bytes) : result bytes :=
  decodeExact ErrBadSessionHeader s (EncodedLen SessionMACLen) SessionMACLen.

Definition sessionKeyInfo (hubAID sid : bytes) : result bytes :=
  refuse beqb hubAID [] with Wrap "empty hub AID" ErrSessionInput;
  refuse has_byte 0 hubAID with Wrap "hub AID" ErrNUL;
  refuse negb (len sid =? SessionIDLen) with Wrap "session id" ErrSessionInput;
  Ok (sessionKeyLabel ++ [0] ++ hubAID ++ [0] ++ sid).

(** HPKE with X25519, HKDF-SHA256 and ChaCha20-Poly1305 ([crypto/hpke]): sealing draws an ephemeral
    key from [seed] and fails on a public key that is not a point it accepts. *)
Class Hpke := {
  x25519_public : bytes → bytes;
  hpke_seal : bytes → bytes → bytes → bytes → option (bytes * bytes);
  hpke_open : bytes → bytes → bytes → bytes → option bytes;
}.

Section Session.
Context `{P : Platform} `{H : Hpke}.

Definition SealSessionKey (seed epk hubAID sid k : bytes) : result (bytes * bytes) :=
  refuse negb (len epk =? SessionPublicKeyLen) with Wrap "epk" ErrSessionInput;
  refuse negb (len k =? SessionKeyLen) with Wrap "session key" ErrSessionInput;
  info ← sessionKeyInfo hubAID sid;
  of_option (hpke_seal seed epk info k) (Wrap "epk" ErrSessionInput).

Definition OpenSessionKey (esk hubAID sid enc ct : bytes) : result bytes :=
  info ← sessionKeyInfo hubAID sid;
  refuse negb (len enc =? sessionEncLen) || negb (len ct =? sessionCTLen)
    with Wrap "the lengths of enc and ct" ErrSessionKey;
  k ← of_option (hpke_open esk info enc ct) (Wrap "open" ErrSessionKey);
  refuse negb (len k =? SessionKeyLen) with Wrap "the length of the key" ErrSessionKey;
  Ok k.

Definition sessionMACInput (sid : bytes) (ts : Z) (method pathAndQuery home body : bytes) : result bytes :=
  refuse negb (len sid =? SessionIDLen) with Wrap "session id" ErrSessionInput;
  refuse has_byte 0 method with Wrap "method" ErrNUL;
  refuse has_byte 0 pathAndQuery with Wrap "request target" ErrNUL;
  refuse has_byte 0 home with Wrap "X-ANet-Home" ErrNUL;
  Ok (sessionMACLabel ++ [0] ++ sid ++ [0] ++ decimal ts ++ [0] ++ method ++ [0] ++ pathAndQuery ++ [0] ++
        home ++ [0] ++ sha256 body).

Definition SessionMAC (k sid : bytes) (ts : Z) (method pathAndQuery home body : bytes) : result bytes :=
  refuse negb (len k =? SessionKeyLen) with Wrap "session key" ErrSessionInput;
  input ← sessionMACInput sid ts method pathAndQuery home body;
  Ok (hmac_sha256 k input).

Definition VerifySessionMAC (k sid : bytes) (ts : Z) (method pathAndQuery home body mac : bytes)
  : result unit :=
  want ← SessionMAC k sid ts method pathAndQuery home body;
  refuse negb (beqb want mac) with ErrSessionMAC;
  Ok tt.
End Session.

(** ** Timestamps *)

Definition FloorClampMillis : Z := 60 * 1000.

(** The last timestamp of each target. *)
Abbreviation MonoClock := (gmap bytes Z).

Definition Next (c : MonoClock) (target : bytes) (now : Z) : MonoClock * Z :=
  let ts := match c !! target with
            | Some last => if now <=? last then (if last <? MaxInt64 then last + 1 else last) else now
            | None => now
            end in
  (<[target := ts]> c, ts).

Definition raiseLimit (now : Z) : Z :=
  if now <=? MaxInt64 - (MaxSkewMillis - FloorClampMillis)
  then now + (MaxSkewMillis - FloorClampMillis) else MaxInt64.

Definition Raise (c : MonoClock) (target : bytes) (floor now : Z) : MonoClock * bool :=
  if raiseLimit now <? floor then (c, false)
  else
    (match c !! target with
     | Some last => if last <? floor then <[target := floor]> c else c
     | None => <[target := floor]> c
     end, true).
