(* ===== verification/RelayauthTheorems.v ===== *)
(** * RelayauthTheorems: what request signatures, session MACs and timestamps guarantee *)

From S2P Require Import Prelude Platform Relayauth.

(** ** base64 *)

Definition digit (d : Z) : Prop := 0 <= d < 64.

Lemma b64_val_char v : digit v → b64_val (b64_char v) = Some v.
Proof.
  intros Hv. assert (v ∈ seqZ 0 64) as Hin by (apply elem_of_seqZ; unfold digit in *; lia). revert Hin.
  assert (Forall (λ v, b64_val (b64_char v) = Some v) (seqZ 0 64)) as HF by (vm_compute; by repeat constructor).
  intros Hin. by apply (proj1 (Forall_forall _ _) HF).
Qed.

Lemma b64_char_plain v : digit v → (b64_char v =? 13) || (b64_char v =? 10) || (b64_char v =? 47) = false.
Proof.
  intros Hv. assert (v ∈ seqZ 0 64) as Hin by (apply elem_of_seqZ; unfold digit in *; lia). revert Hin.
  assert (Forall (λ v, ((b64_char v =? 13) || (b64_char v =? 10) || (b64_char v =? 47)) = false) (seqZ 0 64)) as HF
    by (vm_compute; by repeat constructor).
  intros Hin. by apply (proj1 (Forall_forall _ _) HF).
Qed.

Lemma b64_char_val c v : b64_val c = Some v → digit v ∧ b64_char v = c.
Proof.
  intros Hc. assert (digit v) as Hv.
  { unfold digit, b64_val in *. repeat case_match; go_inv; simplify_eq; lia. }
  split; [done|]. pose proof (b64_val_char v Hv) as Hv2. revert Hc Hv2. unfold b64_val.
  generalize (b64_char v). intros c'. repeat case_match; intros; simplify_eq; go_inv; lia.
Qed.

Lemma triple_ind (Q : bytes → Prop) :
  Q [] → (∀ a, Q [a]) → (∀ a b, Q [a; b]) → (∀ a b c s, Q s → Q (a :: b :: c :: s)) → ∀ s, Q s.
Proof.
  intros H0 H1 H2 H3. fix IH 1. intros [|a [|b [|c s]]]; [apply H0|apply H1|apply H2|apply H3, IH].
Qed.

Lemma quad_ind (Q : list Z → Prop) :
  Q [] → (∀ x, Q [x]) → (∀ x y, Q [x; y]) → (∀ x y z, Q [x; y; z]) →
  (∀ x y z w d, Q d → Q (x :: y :: z :: w :: d)) → ∀ d, Q d.
Proof.
  intros H0 H1 H2 H3 H4. fix IH 1.
  intros [|x [|y [|z [|w d]]]]; [apply H0|apply H1|apply H2|apply H3|apply H4, IH].
Qed.

(** The two identities behind a quantum: splitting a byte over two digits and putting it back. *)
Lemma byte_split m a : 0 < m → a / m * m + a mod m = a.
Proof. intros. pose proof (Z.div_mod a m). lia. Qed.

Ltac b64_arith := unfold digit, byte_ok in *; Z.to_euclidean_division_equations; lia.

Lemma b64_digits_range s : bytes_ok s → Forall digit (b64_digits s).
Proof.
  induction s as [|a|a b|a b c s IH] using triple_ind; intros Hs; simpl; [done|..];
    repeat (apply Forall_cons in Hs as [? Hs]);
    repeat (apply Forall_cons; split; [b64_arith|]); [done..|by apply IH].
Qed.

Lemma b64_bytes_digits s : bytes_ok s → b64_bytes (b64_digits s) = Some s.
Proof.
  induction s as [|a|a b|a b c s IH] using triple_ind; intros Hs; [done|..];
    repeat (apply Forall_cons in Hs as [? Hs]); cbn [b64_digits b64_bytes app].
  - rewrite (proj2 (Z.eqb_eq _ _)) by b64_arith. do 2 f_equal. b64_arith.
  - rewrite (proj2 (Z.eqb_eq _ _)) by b64_arith. do 2 f_equal; [b64_arith|f_equal; b64_arith].
  - rewrite IH by done. simpl. do 2 f_equal; [b64_arith|f_equal; [b64_arith|f_equal; b64_arith]].
Qed.

Lemma b64_digits_bytes d s : Forall digit d → b64_bytes d = Some s → b64_digits s = d ∧ bytes_ok s.
Proof.
  revert s. induction d as [|x|x y|x y z|x y z w d IH] using quad_ind; intros s Hd Hs; cbn [b64_bytes] in Hs;
    repeat (apply Forall_cons in Hd as [? Hd]).
  - injection Hs as <-. split; [done|apply Forall_nil_2].
  - done.
  - destruct (y mod 16 =? 0) eqn:E; [|done]. apply Z.eqb_eq in E. injection Hs as <-. simpl. split.
    + f_equal; [b64_arith|f_equal; b64_arith].
    + repeat constructor; b64_arith.
  - destruct (z mod 4 =? 0) eqn:E; [|done]. apply Z.eqb_eq in E. injection Hs as <-. simpl. split.
    + f_equal; [b64_arith|f_equal; [b64_arith|f_equal; b64_arith]].
    + repeat constructor; b64_arith.
  - destruct (b64_bytes d) as [t|] eqn:Ht; [|done]. injection Hs as <-.
    destruct (IH t Hd eq_refl) as [<- Hok]. simpl. split.
    + f_equal; [b64_arith|f_equal; [b64_arith|f_equal; [b64_arith|f_equal; b64_arith]]].
    + apply Forall_cons; split; [b64_arith|]. apply Forall_cons; split; [b64_arith|].
      apply Forall_cons; split; [b64_arith|done].
Qed.

Lemma length_b64_digits s : len (b64_digits s) = EncodedLen (len s).
Proof.
  unfold EncodedLen, len. induction s as [|a|a b|a b c s IH] using triple_ind; [done..|].
  cbn [b64_digits app length]. b64_arith.
Qed.

Lemma length_EncodeToString s : len (EncodeToString s) = EncodedLen (len s).
Proof. rewrite <- length_b64_digits. unfold EncodeToString, len. by rewrite length_map. Qed.

Lemma skip_newlines_chars d : Forall digit d → skip_newlines (map b64_char d) = map b64_char d.
Proof.
  induction 1 as [|v d Hv Hd IH]; simpl; [done|].
  pose proof (b64_char_plain v Hv) as Hp. apply orb_false_iff in Hp as [-> _]. simpl. by rewrite IH.
Qed.

Lemma mapM_b64_chars d : Forall digit d → mapM b64_val (map b64_char d) = Some d.
Proof. induction 1 as [|v d Hv Hd IH]; simpl; [done|]. by rewrite b64_val_char, IH. Qed.

Lemma mapM_b64_val s d : mapM b64_val s = Some d → Forall digit d ∧ map b64_char d = s.
Proof.
  intros Hm%mapM_Some. induction Hm as [|c v s d Hc Hs [IH1 IH2]]; [done|].
  apply b64_char_val in Hc as [Hv Hc]. simpl. split; [by constructor|congruence].
Qed.

Lemma base64_decode_encode s : bytes_ok s → DecodeString (EncodeToString s) = Some s.
Proof.
  intros Hs. unfold DecodeString, EncodeToString. pose proof (b64_digits_range _ Hs).
  rewrite skip_newlines_chars, mapM_b64_chars by done. simpl. by apply b64_bytes_digits.
Qed.

(** What decodes is an encoding with CR and LF thrown in. *)
Lemma EncodeToString_DecodeString s b :
  DecodeString s = Some b → EncodeToString b = skip_newlines s ∧ bytes_ok b.
Proof.
  unfold DecodeString. destruct (mapM b64_val (skip_newlines s)) as [d|] eqn:Hd; [|done]. simpl. intros Hb.
  apply mapM_b64_val in Hd as [Hd <-]. destruct (b64_digits_bytes _ _ Hd Hb) as [<- ?]. done.
Qed.

Lemma skip_newlines_length s : len (skip_newlines s) = len s → skip_newlines s = s.
Proof.
  unfold len. intros Hl%Nat2Z.inj. revert Hl. induction s as [|c s IH]; simpl; [done|].
  pose proof (List.filter_length_le (λ c, negb ((c =? 13) || (c =? 10))) s) as Hle. unfold skip_newlines in *.
  destruct (negb _); simpl; intros Hl; [f_equal; apply IH; lia|lia].
Qed.

(** A header value of the exact encoded length is the one spelling of its bytes. *)
Lemma decodeExact_Ok err s n b :
  decodeExact err s (EncodedLen n) n = Ok b ↔ s = EncodeToString b ∧ len b = n ∧ bytes_ok b.
Proof.
  unfold decodeExact. split.
  - intros Hd. apply refuse_Ok in Hd as [Hl Hd]. apply negb_Zeqb_false in Hl.
    apply bind_Ok in Hd as (b' & Hb & Hd). apply of_option_Ok, EncodeToString_DecodeString in Hb as [He Hok].
    apply refuse_Ok in Hd as [Hn Hd]. apply negb_Zeqb_false in Hn. injection Hd as <-.
    split; [|done]. rewrite He. symmetry. apply skip_newlines_length.
    by rewrite <- He, length_EncodeToString, Hn, Hl.
  - intros (-> & <- & Hok). rewrite length_EncodeToString, Z.eqb_refl. cbn [negb].
    rewrite base64_decode_encode by done. simpl. by rewrite Z.eqb_refl.
Qed.

Lemma EncodeToString_inj a b : bytes_ok a → bytes_ok b → EncodeToString a = EncodeToString b → a = b.
Proof.
  intros Ha Hb He. pose proof (base64_decode_encode a Ha) as H1.
  rewrite He, base64_decode_encode in H1 by done. by injection H1.
Qed.

(** ** The preimage of a request *)

Lemma escape_no_slash s : 47 ∉ concat (map escapeByte s).
Proof.
  induction s as [|c s IH]; simpl; [apply not_elem_of_nil|]. rewrite not_elem_of_app. split; [|done].
  unfold escapeByte. destruct (c =? 37) eqn:E1; [|destruct (c =? 47) eqn:E2; go_inv];
    rewrite ?not_elem_of_cons; split_and?; try done; try apply not_elem_of_nil.
Qed.

Lemma escape_plain s : has_byte 47 s || has_byte 37 s = false → concat (map escapeByte s) = s.
Proof.
  induction s as [|c s IH]; [done|]. unfold has_byte in *. cbn [existsb map concat]. intros Hs. go_inv.
  rewrite IH by (by apply orb_false_iff).
  unfold escapeByte. rewrite (proj2 (Z.eqb_neq c 37)), (proj2 (Z.eqb_neq c 47)) by lia. done.
Qed.

Lemma escapeField_concat s : escapeField s = concat (map escapeByte s).
Proof.
  unfold escapeField. destruct (has_byte 47 s || has_byte 37 s) eqn:E; [done|]. simpl.
  symmetry. by apply escape_plain.
Qed.

Lemma escape_inj s t : concat (map escapeByte s) = concat (map escapeByte t) → s = t.
Proof.
  revert t. induction s as [|c s IH]; intros [|d t]; cbn [map concat]; unfold escapeByte; [done|..].
  - by repeat case_match.
  - by repeat case_match.
  - repeat case_match; go_inv; intros Hi; simplify_eq/=; try done; f_equal; by apply IH.
Qed.

Lemma slash_not_digit : ¬ is_digit 47.
Proof. unfold is_digit. lia. Qed.

Lemma escapeField_inj s t : escapeField s = escapeField t → s = t.
Proof. rewrite !escapeField_concat. apply escape_inj. Qed.

Lemma escapeField_no_slash s : 47 ∉ escapeField s.
Proof. rewrite escapeField_concat. apply escape_no_slash. Qed.
#[local] Hint Resolve escapeField_no_slash : go.

Section Theorems.
Context `{P : Platform}.

(** What a request signature covers. *)
Record request := mkRequest {
  q_action : bytes; q_aid : bytes; q_hub : bytes; q_ts : Z; q_method : bytes; q_target : bytes; q_body : bytes;
}.
Definition hashed (q : request) : bytes := q_method q ++ [0] ++ q_target q ++ [0] ++ q_body q.
Definition preimage_of (q : request) : bytes :=
  PreimageV2 (q_action q) (q_aid q) (q_hub q) (q_ts q) (q_method q) (q_target q) (q_body q).

(** HTTP's precondition on a request, and the type of its time. *)
Definition request_ok (q : request) : Prop := (0 ∉ q_method q) ∧ (0 ∉ q_target q) ∧ is_u64 (q_ts q).

(** Two requests with the same signed bytes are the same request, unless SHA-256 collides on the
    two.  So a signature made for one action, agent, hub, time, method, target and body proves
    nothing about another, even when a caller puts slashes or percent signs in the fields. *)
Theorem preimage_v2_injective `{!PlatformLaws P} q q' :
  request_ok q → request_ok q' → inj_on sha256 [hashed q; hashed q'] →
  preimage_of q = preimage_of q' ↔ q = q'.
Proof.
  intros (Hm & Ht & Hts) (Hm' & Ht' & Hts') Hinj. split; [intros He|by intros ->].
  unfold preimage_of, PreimageV2 in He. apply app_inj_1 in He as [_ He]; [|done].
  apply app_sep_inj in He as [Ea He]; [|apply escapeField_no_slash..].
  apply app_sep_inj in He as [Ed He]; [|apply escapeField_no_slash..].
  apply app_sep_inj in He as [Eh He]; [|apply escapeField_no_slash..].
  apply app_sep_inj in He as [Et He]; [|apply decimal_not_in; [destruct Hts, Hts'; done|exact slash_not_digit]..].
  apply decimal_inj in Et; [|done..]. apply escapeField_inj in Ea, Ed, Eh.
  apply EncodeToString_inj in He; [|apply sha256_bytes..]. apply Hinj in He; [|by left|by right; left].
  unfold hashed in He. apply app_sep_inj in He as [Em He]; [|done..].
  apply app_sep_inj in He as [Eg Eb]; [|done..]. destruct q, q'; simpl in *; congruence.
Qed.

(** ** The session MAC *)

Record send := mkSend {
  s_sid : bytes; s_ts : Z; s_method : bytes; s_target : bytes; s_home : bytes; s_body : bytes;
}.
Definition mac_input (r : send) : result bytes :=
  sessionMACInput (s_sid r) (s_ts r) (s_method r) (s_target r) (s_home r) (s_body r).
Definition mac_of (k : bytes) (r : send) : result bytes :=
  SessionMAC k (s_sid r) (s_ts r) (s_method r) (s_target r) (s_home r) (s_body r).
Definition verify_mac (k : bytes) (r : send) (mac : bytes) : result unit :=
  VerifySessionMAC k (s_sid r) (s_ts r) (s_method r) (s_target r) (s_home r) (s_body r) mac.

Lemma mac_input_Ok r x :
  mac_input r = Ok x ↔
  len (s_sid r) = SessionIDLen ∧ (0 ∉ s_method r) ∧ (0 ∉ s_target r) ∧ (0 ∉ s_home r) ∧
  x = sessionMACLabel ++ [0] ++ s_sid r ++ [0] ++ decimal (s_ts r) ++ [0] ++ s_method r ++ [0] ++
        s_target r ++ [0] ++ s_home r ++ [0] ++ sha256 (s_body r).
Proof.
  unfold mac_input, sessionMACInput. rewrite !refuse_Ok, negb_Zeqb_false, !has_byte_false.
  split; [intros (? & ? & ? & ? & [= <-]); by split_and!|intros (? & ? & ? & ? & ->); by split_and!].
Qed.

Lemma mac_input_inj r r' x :
  is_u64 (s_ts r) → is_u64 (s_ts r') → inj_on sha256 [s_body r; s_body r'] →
  mac_input r = Ok x → mac_input r' = Ok x → r = r'.
Proof.
  intros Ht Ht' Hinj (Hs & Hm & Hg & Hh & ->)%mac_input_Ok (Hs' & Hm' & Hg' & Hh' & He)%mac_input_Ok.
  assert (∀ t, is_u64 t → 0 ∉ decimal t) as Hd.
  { intros t [? _]. apply decimal_not_in; [done|unfold is_digit; lia]. }
  apply app_inj_1 in He as [_ He]; [|done]. apply app_inj_1 in He as [_ He]; [|done].
  apply app_inj_1 in He as [Es He]; [|unfold len in *; lia]. apply app_inj_1 in He as [_ He]; [|done].
  apply app_sep_inj in He as [Et He]; [|by apply Hd..]. apply decimal_inj in Et; [|done..].
  apply app_sep_inj in He as [Em He]; [|done..]. apply app_sep_inj in He as [Eg He]; [|done..].
  apply app_sep_inj in He as [Eh He]; [|done..]. apply Hinj in He; [|by left|by right; left].
  destruct r, r'; simpl in *; congruence.
Qed.

(** A session MAC authenticates the whole send.  The MAC of a send verifies for it, and for no
    send that differs in session id, time, method, target, home hint or body, unless SHA-256 collides
    on the two bodies or HMAC under the session key on the two inputs; a field holding a NUL, which
    would shift the separators, has no MAC at all. *)
Theorem session_mac_authenticates k r mac r' :
  is_u64 (s_ts r) → is_u64 (s_ts r') → mac_of k r = Ok mac →
  inj_on sha256 [s_body r; s_body r'] →
  (∀ x x', mac_input r = Ok x → mac_input r' = Ok x' → inj_on (hmac_sha256 k) [x; x']) →
  (verify_mac k r' mac = Ok tt ↔ r' = r) ∧ (0 ∉ s_method r) ∧ (0 ∉ s_target r) ∧ (0 ∉ s_home r).
Proof.
  intros Ht Ht' Hmac Hsha Hinj. unfold mac_of, SessionMAC in Hmac. apply refuse_Ok in Hmac as [Hk Hmac].
  apply bind_Ok in Hmac as (x & Hx & [= Hmac]). pose proof Hx as Hx'. fold (mac_input r) in Hx, Hx'.
  apply mac_input_Ok in Hx' as (_ & ? & ? & ? & _). split; [|done].
  unfold verify_mac, VerifySessionMAC, SessionMAC. rewrite Hk. fold (mac_input r'). split.
  - intros Hv. apply bind_Ok in Hv as (want & Hw & Hv). apply bind_Ok in Hw as (x' & Hx2 & [= Hw]).
    apply refuse_Ok in Hv as [Hv _]. apply negb_beqb_false in Hv. subst.
    assert (x' = x) as -> by (apply (Hinj x x'); [done|done|by right; left|by left|done]).
    symmetry. by eapply mac_input_inj.
  - intros ->. rewrite Hx. cbn [mbind result_bind]. by rewrite Hmac, beqb_refl.
Qed.
End Theorems.

(** ** Timestamps *)

(** The calls on one clock, and what they answer. *)
Inductive tick :=
  | TNext (target : bytes) (now : Z)
  | TRaise (target : bytes) (floor now : Z).
Inductive answer :=
  | Stamp (target : bytes) (now ts : Z)
  | Raised (target : bytes) (floor now : Z) (ok : bool).

Definition tick_step (c : MonoClock) (t : tick) : MonoClock * answer :=
  match t with
  | TNext target now => let '(c, ts) := Next c target now in (c, Stamp target now ts)
  | TRaise target floor now => let '(c, ok) := Raise c target floor now in (c, Raised target floor now ok)
  end.
Fixpoint ticks (c : MonoClock) (ts : list tick) : list answer :=
  match ts with
  | [] => []
  | t :: ts => let '(c, a) := tick_step c t in a :: ticks c ts
  end.

Definition time_of (t : tick) : Z := match t with TNext _ now | TRaise _ _ now => now end.

(** How far a hub can push the clock ahead. *)
Definition Push : Z := MaxSkewMillis - FloorClampMillis.

(** No counter of the clock is above [b]. *)
Definition clock_le (c : MonoClock) (b : Z) : Prop := ∀ t v, c !! t = Some v → v <= b.

Lemma raiseLimit_le now : raiseLimit now <= now + 240000.
Proof. unfold raiseLimit, MaxSkewMillis, FloorClampMillis. case_match; go_inv; lia. Qed.

Lemma raiseLimit_eq now : now + Push <= MaxInt64 → raiseLimit now = now + Push.
Proof. unfold raiseLimit, Push. intros. by rewrite (proj2 (Z.leb_le _ _)) by lia. Qed.

Lemma tick_step_le c t b T :
  clock_le c b → time_of t <= T → T + Push <= b → b < MaxInt64 → clock_le (tick_step c t).1 (b + 1).
Proof.
  unfold clock_le, Push, MaxSkewMillis, FloorClampMillis. intros Hc Ht HT Hb t' v.
  destruct t as [target now|target floor now]; simpl in *.
  - destruct (c !! target) as [last|] eqn:Hl.
    + pose proof (Hc _ _ Hl). destruct (decide (target = t')) as [->|];
        [rewrite lookup_insert_eq|rewrite lookup_insert_ne by done; intros Hv; pose proof (Hc _ _ Hv); lia].
      intros [= <-]. repeat case_match; go_inv; lia.
    + destruct (decide (target = t')) as [->|];
        [rewrite lookup_insert_eq; intros [= <-]; lia
        |rewrite lookup_insert_ne by done; intros Hv; pose proof (Hc _ _ Hv); lia].
  - unfold Raise. pose proof (raiseLimit_le now) as Hlim.
    destruct (raiseLimit now <? floor) eqn:E; simpl; [intros Hv; pose proof (Hc _ _ Hv); lia|]. go_inv.
    assert (floor <= b + 1) by lia.
    assert (∀ w, <[target:=floor]> c !! t' = Some w → w <= b + 1) as Hins.
    { intros w. destruct (decide (target = t')) as [->|];
        [rewrite lookup_insert_eq; intros [= <-]; lia
        |rewrite lookup_insert_ne by done; intros Hv; pose proof (Hc _ _ Hv); lia]. }
    destruct (c !! target) as [last|] eqn:Hl; [case_match; go_inv|]; try apply Hins.
    intros Hv. pose proof (Hc _ _ Hv). lia.
Qed.

(** A counter never goes down, and a stamp is above the counter it moves. *)
Lemma tick_step_mono c t target v :
  c !! target = Some v → v < MaxInt64 →
  (∃ w, (tick_step c t).1 !! target = Some w ∧ v <= w) ∧
  ∀ now ts, (tick_step c t).2 = Stamp target now ts → v < ts.
Proof.
  intros Hc Hv. destruct t as [tg now|tg floor now]; simpl.
  - split.
    + destruct (decide (tg = target)) as [->|];
        [rewrite lookup_insert_eq, Hc; eexists; split; [done|]; repeat case_match; go_inv; lia
        |rewrite lookup_insert_ne by done; eauto with lia].
    + intros now' ts [= -> <- <-]. rewrite Hc. repeat case_match; go_inv; lia.
  - unfold Raise. destruct (raiseLimit now <? floor); simpl; [split; [eauto with lia|done]|]. split; [|done].
    destruct (decide (tg = target)) as [->|Hne].
    + rewrite Hc. destruct (v <? floor) eqn:E; go_inv; rewrite ?lookup_insert_eq; eauto with lia.
    + destruct (c !! tg) as [last|]; [destruct (last <? floor)|]; rewrite ?lookup_insert_ne by done;
        eauto with lia.
Qed.

Lemma ticks_above ts : ∀ c b T target v j now y,
  clock_le c b → Forall (λ t, time_of t <= T) ts → T + Push <= b → b + len ts < MaxInt64 →
  c !! target = Some v → ticks c ts !! j = Some (Stamp target now y) → v < y.
Proof.
  induction ts as [|t ts IH]; intros c b T target v j now y Hc HT Hb Hlen Hv Hj; [done|].
  apply Forall_cons in HT as [Ht HT]. unfold len in Hlen. cbn [length] in Hlen.
  pose proof (Hc _ _ Hv) as Hvb.
  destruct (tick_step_mono c t target v Hv) as [(w & Hw & Hvw) Hs]; [lia|].
  pose proof (tick_step_le c t b T Hc Ht Hb) as Hle. simpl in Hj.
  destruct (tick_step c t) as [c' a]. simpl in *. destruct j as [|j]; simpl in Hj.
  - injection Hj as ->. by eapply Hs.
  - assert (w < y); [|lia]. eapply (IH c' (b + 1) T); try done; unfold len; try lia. apply Hle. lia.
Qed.

(** The counter an answer leaves behind. *)
Lemma tick_step_counter c t :
  match (tick_step c t).2 with
  | Stamp target now ts => (tick_step c t).1 !! target = Some ts ∧ now <= ts
  | Raised target floor _ true => ∃ v, (tick_step c t).1 !! target = Some v ∧ floor <= v
  | Raised _ _ _ false => (tick_step c t).1 = c
  end.
Proof.
  destruct t as [tg now|tg floor now]; simpl.
  - rewrite lookup_insert_eq. split; [done|]. repeat case_match; go_inv; lia.
  - unfold Raise. destruct (raiseLimit now <? floor); simpl; [done|].
    destruct (c !! tg) as [last|] eqn:Hl; [destruct (last <? floor) eqn:E; go_inv|];
      rewrite ?lookup_insert_eq; eauto with lia.
Qed.

(** An answer is below every later stamp of its target. *)
Definition answer_floor (a : answer) : option (bytes * Z) :=
  match a with
  | Stamp target _ ts => Some (target, ts)
  | Raised target floor _ true => Some (target, floor)
  | Raised _ _ _ false => None
  end.

Lemma ticks_order ts : ∀ c b T i j target f a now y,
  clock_le c b → Forall (λ t, time_of t <= T) ts → T + Push <= b → b + len ts < MaxInt64 →
  (i < j)%nat → ticks c ts !! i = Some a → answer_floor a = Some (target, f) →
  ticks c ts !! j = Some (Stamp target now y) → f < y.
Proof.
  induction ts as [|t ts IH]; intros c b T i j target f a now y Hc HT Hb Hlen Hij Hi Ha Hj; [done|].
  apply Forall_cons in HT as [Ht HT]. unfold len in Hlen. cbn [length] in Hlen.
  pose proof (tick_step_le c t b T Hc Ht Hb ltac:(lia)) as Hle. pose proof (tick_step_counter c t) as Hcnt.
  simpl in Hi, Hj. destruct (tick_step c t) as [c' a']. simpl in *.
  destruct j as [|j]; [lia|]. simpl in Hj. destruct i as [|i]; simpl in Hi.
  - injection Hi as ->. assert (∃ v, c' !! target = Some v ∧ f <= v) as (v & Hv & Hf).
    { destruct a as [tg n x|tg n x []]; simpl in Ha; simplify_eq; [|done].
      exists f. split; [apply Hcnt|lia]. }
    assert (v < y); [|lia]. eapply (ticks_above ts c' (b + 1) T); try done; unfold len; lia.
  - eapply (IH c' (b + 1) T i j); try done; unfold len; lia.
Qed.

Lemma ticks_bounds ts : ∀ c b T i target now x,
  clock_le c b → Forall (λ t, time_of t <= T) ts → T + Push <= b → b + len ts < MaxInt64 →
  ticks c ts !! i = Some (Stamp target now x) → now <= x <= b + 1 + Z.of_nat i.
Proof.
  induction ts as [|t ts IH]; intros c b T i target now x Hc HT Hb Hlen Hi; [done|].
  apply Forall_cons in HT as [Ht HT]. unfold len in Hlen. cbn [length] in Hlen.
  pose proof (tick_step_le c t b T Hc Ht Hb ltac:(lia)) as Hle. pose proof (tick_step_counter c t) as Hcnt.
  simpl in Hi. destruct (tick_step c t) as [c' a']. simpl in *. destruct i as [|i]; simpl in Hi.
  - injection Hi as ->. destruct Hcnt as [Hx Hn]. pose proof (Hle _ _ Hx). lia.
  - assert (now <= x <= b + 1 + 1 + Z.of_nat i); [|lia].
    apply (IH c' (b + 1) T i target); try done; unfold len; lia.
Qed.

Lemma ticks_Raised ts : ∀ c i target floor now ok,
  ticks c ts !! i = Some (Raised target floor now ok) → now + Push <= MaxInt64 →
  ok = bool_decide (floor <= now + Push).
Proof.
  induction ts as [|t ts IH]; intros c i target floor now ok Hi Hn; [done|]. simpl in Hi.
  destruct i as [|i].
  - destruct t as [tg n|tg f n]; simpl in Hi; [done|]. unfold Raise in Hi.
    destruct (raiseLimit n <? f) eqn:E; simpl in Hi; injection Hi as -> -> -> <-;
      rewrite raiseLimit_eq in E by done; go_inv; symmetry;
      [apply bool_decide_eq_false|apply bool_decide_eq_true]; lia.
  - destruct (tick_step c t) as [c' a']. by eapply (IH c').
Qed.

(** The calls and the answers about one target. *)
Definition tick_target (t : tick) : bytes := match t with TNext tg _ | TRaise tg _ _ => tg end.
Definition answer_target (a : answer) : bytes := match a with Stamp tg _ _ | Raised tg _ _ _ => tg end.

Lemma tick_step_target c t : answer_target (tick_step c t).2 = tick_target t.
Proof. destruct t as [tg n|tg f n]; simpl; [done|]. unfold Raise. by case_goal. Qed.

Lemma tick_step_other c t target :
  tick_target t ≠ target → (tick_step c t).1 !! target = c !! target.
Proof.
  destruct t as [tg n|tg f n]; simpl; intros Hne; [by rewrite lookup_insert_ne|].
  unfold Raise. destruct (raiseLimit n <? f); simpl; [done|].
  destruct (c !! tg) as [last|]; [destruct (last <? f)|]; by rewrite ?lookup_insert_ne.
Qed.

Lemma tick_step_same c d t target :
  tick_target t = target → c !! target = d !! target →
  (tick_step c t).2 = (tick_step d t).2 ∧ (tick_step c t).1 !! target = (tick_step d t).1 !! target.
Proof.
  destruct t as [tg n|tg f n]; simpl; intros -> He; [rewrite He, !lookup_insert_eq; by split|].
  unfold Raise. destruct (raiseLimit n <? f); simpl; [done|]. rewrite He. split; [done|].
  destruct (d !! target) as [last|] eqn:Hd; [destruct (last <? f)|]; rewrite ?lookup_insert_eq; congruence.
Qed.

Lemma ticks_independent target ts : ∀ c d,
  c !! target = d !! target →
  List.filter (λ a, beqb (answer_target a) target) (ticks c ts) =
  ticks d (List.filter (λ t, beqb (tick_target t) target) ts).
Proof.
  induction ts as [|t ts IH]; intros c d He; [done|]. simpl.
  pose proof (tick_step_target c t) as Ht. pose proof (tick_step_other c t target) as Ho.
  pose proof (tick_step_same c d t target) as Hs.
  destruct (tick_step c t) as [c' a]. simpl in *. rewrite Ht.
  destruct (beqb (tick_target t) target) eqn:E; go_inv.
  - destruct (Hs E He) as [-> Hc]. simpl. destruct (tick_step d t) as [d' a']. simpl in *. f_equal. by apply IH.
  - apply IH. by rewrite Ho.
Qed.

(** The timestamps of one process.  Over any calls at times up to [T] (and well below the end of
    time), the stamps given for one hub are strictly increasing, each is at least the time it was
    asked at and above every floor of that hub adopted before; a floor is adopted exactly when it is
    at most four minutes ahead, so the n-th answer is never more than four minutes and n milliseconds
    ahead of [T], whatever hubs claim; and what one hub is sent does not depend on the others. *)
Theorem timestamps_increase calls T :
  Forall (λ t, time_of t <= T) calls → T + Push + len calls < MaxInt64 →
  let tr := ticks ∅ calls in
  (∀ i j target n x n' y, (i < j)%nat → tr !! i = Some (Stamp target n x) →
     tr !! j = Some (Stamp target n' y) → x < y) ∧
  (∀ i j target f n n' y, (i < j)%nat → tr !! i = Some (Raised target f n true) →
     tr !! j = Some (Stamp target n' y) → f < y) ∧
  (∀ i target n x, tr !! i = Some (Stamp target n x) → n <= x <= T + Push + 1 + Z.of_nat i) ∧
  (∀ i target f n ok, tr !! i = Some (Raised target f n ok) → n + Push <= MaxInt64 →
     ok = bool_decide (f <= n + Push)) ∧
  (∀ target, List.filter (λ a, beqb (answer_target a) target) tr =
             ticks ∅ (List.filter (λ t, beqb (tick_target t) target) calls)).
Proof.
  intros HT Hlen tr. assert (clock_le ∅ (T + Push)) as He by (intros t v; by rewrite lookup_empty).
  split_and!.
  - intros i j target n x n' y Hij Hi Hj. eapply (ticks_order calls ∅ (T + Push) T i j); [done..|lia| | | | |]; try done.
  - intros i j target f n n' y Hij Hi Hj. eapply (ticks_order calls ∅ (T + Push) T i j); try done; lia.
  - intros i target n x Hi. eapply (ticks_bounds calls ∅ (T + Push) T); try done; lia.
  - intros i target f n ok Hi Hn. by eapply (ticks_Raised calls ∅).
  - intros target. by apply ticks_independent.
Qed.

(** ** Headers and session keys *)

(** A header value has one spelling.  [DecodeSig], [DecodeSessionID] and [DecodeMAC] accept
    exactly the encodings of 64, 16 and 32 bytes and give those bytes back; in particular no value
    with a CR or LF, which Go's decoder skips, passes. *)
Theorem headers_have_one_spelling s b :
  (DecodeSig s = Ok b ↔ s = EncodeSig b ∧ len b = 64 ∧ bytes_ok b) ∧
  (DecodeSessionID s = Ok b ↔ s = EncodeSessionID b ∧ len b = 16 ∧ bytes_ok b) ∧
  (DecodeMAC s = Ok b ↔ s = EncodeMAC b ∧ len b = 32 ∧ bytes_ok b).
Proof. split_and!; apply decodeExact_Ok. Qed.

(** What [crypto/hpke] promises: what is sealed to a public key opens under its private key with the
    same info, and the lengths of the two parts. *)
Class HpkeLaws (H : Hpke) : Prop := {
  hpke_opens seed esk info pt enc ct :
    hpke_seal seed (x25519_public esk) info pt = Some (enc, ct) → hpke_open esk info enc ct = Some pt;
  hpke_lengths seed epk info pt enc ct :
    hpke_seal seed epk info pt = Some (enc, ct) → len enc = 32 ∧ len ct = len pt + 16;
}.

Section Sessions.
Context `{H : Hpke}.

Lemma sessionKeyInfo_Ok hub sid info :
  sessionKeyInfo hub sid = Ok info ↔
  hub ≠ [] ∧ (0 ∉ hub) ∧ len sid = 16 ∧ info = sessionKeyLabel ++ [0] ++ hub ++ [0] ++ sid.
Proof.
  unfold sessionKeyInfo, SessionIDLen. rewrite !refuse_Ok, negb_Zeqb_false, has_byte_false, beqb_false.
  split; [intros (? & ? & ? & [= <-]); by split_and!|intros (? & ? & ? & ->); by split_and!].
Qed.

(** The session key arrives.  What a hub seals to a one-time public key, the holder of the
    private key opens to the same 32 bytes under the same hub and session id; and the info that binds
    the key to its hub and session tells any two of them apart. *)
Theorem session_key_arrives `{!HpkeLaws H} seed esk hub sid k enc ct :
  SealSessionKey seed (x25519_public esk) hub sid k = Ok (enc, ct) →
  OpenSessionKey esk hub sid enc ct = Ok k ∧ len k = 32 ∧
  ∀ hub' sid', sessionKeyInfo hub' sid' = sessionKeyInfo hub sid → hub' = hub ∧ sid' = sid.
Proof.
  unfold SealSessionKey. intros Hs. apply refuse_Ok in Hs as [_ Hs]. apply refuse_Ok in Hs as [Hk Hs].
  apply negb_Zeqb_false in Hk. apply bind_Ok in Hs as (info & Hi & Hs). apply of_option_Ok in Hs.
  destruct (hpke_lengths _ _ _ _ _ _ Hs) as [He Hc]. split_and!; [|done|].
  - unfold OpenSessionKey. rewrite Hi. cbn [mbind result_bind]. unfold sessionEncLen, sessionCTLen.
    rewrite He, Hc, Hk. change (negb (32 =? 32) || negb (SessionKeyLen + 16 =? SessionKeyLen + 16)) with false.
    lazy iota. rewrite (hpke_opens _ _ _ _ _ _ Hs). cbn [of_option mbind result_bind].
    by rewrite Hk, Z.eqb_refl.
  - intros hub' sid' E. rewrite Hi in E. apply sessionKeyInfo_Ok in Hi as (_ & Hn & _ & ->).
    apply sessionKeyInfo_Ok in E as (_ & Hn' & _ & E).
    apply app_inj_1 in E as [_ E]; [|done]. apply app_inj_1 in E as [_ E]; [|done].
    by apply app_sep_inj in E as [-> ->].
Qed.
End Sessions.

(** ** On sample requests *)

Import Light.

Definition sample_request : request :=
  mkRequest (str "poll") (str "aid/1%") (str "hub") 1760000000000 (str "POST") (str "/relay?x=1") [0; 1; 2].

Lemma sample_request_ok : request_ok sample_request.
Proof. split_and!; [apply has_byte_false; vm_compute; reflexivity..|vm_compute; split; congruence]. Qed.

(** Another way to cut the same text into fields. *)
Definition recut_request : request :=
  mkRequest (str "poll") (str "aid") (str "1%/hub") 1760000000000 (str "POST") (str "/relay?x=1") [0; 1; 2].
Lemma recut_request_ok : request_ok recut_request.
Proof. split_and!; [apply has_byte_false; vm_compute; reflexivity..|vm_compute; split; congruence]. Qed.

Lemma preimage_v2_injective_witness :
  preimage_of sample_request = preimage_of recut_request ↔ sample_request = recut_request.
Proof.
  apply (preimage_v2_injective (P := platform) sample_request recut_request sample_request_ok recut_request_ok).
  apply inj_onb_true. vm_compute. reflexivity.
Defined.

Definition sample_send : send := mkSend (repeat 7 16) 1760000000000 (str "POST") (str "/send") [] [1; 2].
Definition moved_send : send := mkSend (repeat 7 16) 1760000000000 (str "POST") (str "/send") (str "hub2") [1; 2].
Definition sample_skey : bytes := repeat 9 32.
Definition sample_mac : bytes := match mac_of sample_skey sample_send with Ok m => m | Err _ => [] end.

Lemma sample_mac_ok : mac_of sample_skey sample_send = Ok sample_mac.
Proof. vm_compute. reflexivity. Qed.

Lemma sample_mac_inputs x x' :
  mac_input sample_send = Ok x → mac_input moved_send = Ok x' → inj_on (hmac_sha256 sample_skey) [x; x'].
Proof.
  assert (match mac_input sample_send, mac_input moved_send with
          | Ok x, Ok x' => inj_onb (hmac_sha256 sample_skey) [x; x']
          | _, _ => true
          end = true) as Hi by (vm_compute; reflexivity).
  intros Hx Hx'. rewrite Hx, Hx' in Hi. by apply inj_onb_true.
Qed.

(** A relay that adds a home hint to a send is found out. *)
Lemma session_mac_authenticates_witness :
  verify_mac sample_skey moved_send sample_mac = Ok tt ↔ moved_send = sample_send.
Proof.
  refine (proj1 (session_mac_authenticates (P := platform) sample_skey sample_send sample_mac moved_send
    _ _ sample_mac_ok _ sample_mac_inputs)).
  - vm_compute; split; congruence.
  - vm_compute; split; congruence.
  - apply inj_onb_true. vm_compute. reflexivity.
Defined.

Definition sample_ticks : list tick :=
  [TNext (str "a") 1000; TNext (str "a") 1000; TRaise (str "a") 5000 1000; TNext (str "b") 900;
   TNext (str "a") 999; TRaise (str "a") 300000 1000].

Example sample_ticks_answers :
  ticks ∅ sample_ticks =
  [Stamp (str "a") 1000 1000; Stamp (str "a") 1000 1001; Raised (str "a") 5000 1000 true;
   Stamp (str "b") 900 900; Stamp (str "a") 999 5001; Raised (str "a") 300000 1000 false].
Proof. vm_compute. reflexivity. Qed.

(** The second stamp of hub a, and the one after its floor was raised. *)
Lemma timestamps_increase_witness : 1001 < 5001.
Proof.
  refine (proj1 (timestamps_increase sample_ticks 1000 _ _) 1%nat 4%nat (str "a") 1000 1001 999 5001 _ _ _).
  - repeat constructor; vm_compute; congruence.
  - vm_compute. reflexivity.
  - lia.
  - rewrite sample_ticks_answers. reflexivity.
  - rewrite sample_ticks_answers. reflexivity.
Defined.

(** A sealing with the interface and the lengths of HPKE. *)
#[export] Instance toy_hpke : Hpke := {|
  x25519_public k := k;
  hpke_seal seed epk info pt := Some (take 32 (seed ++ repeat 0 32), pt ++ repeat 0 16);
  hpke_open esk info enc ct := Some (take (length ct - 16) ct);
|}.
#[export] Instance toy_hpke_laws : HpkeLaws toy_hpke.
Proof.
  constructor.
  - intros seed esk info pt enc ct [= <- <-]. unfold hpke_open, toy_hpke. rewrite length_app.
    replace (length pt + length _ - 16)%nat with (length pt) by (cbn [length repeat]; lia).
    by rewrite take_app_length.
  - intros seed epk info pt enc ct [= <- <-]. split.
    + unfold len. rewrite length_take, length_app. cbn [length repeat]. lia.
    + by rewrite len_app.
Qed.

Lemma session_key_arrives_witness :
  OpenSessionKey (repeat 3 32) (str "hub") (repeat 7 16) (repeat 5 32) (sample_skey ++ repeat 0 16) =
    Ok sample_skey.
Proof.
  refine (proj1 (session_key_arrives (repeat 5 32) (repeat 3 32) (str "hub") (repeat 7 16) sample_skey _ _ _)).
  vm_compute. reflexivity.
Defined.
