(* ===== verification/Tsir.v ===== *)
(** * Tsir: predicates over effects (tsir/predicate.go)

    [Predicate] is the decoded tree: a child is [None] where the input held a CBOR null.  [validate] and
    [Evaluate] are the methods of the source; [Evaluate] panics where the source would (a nil child,
    a missing clause).  [globMatch] is the matcher on sets of positions.  A [float64] is an IEEE 754
    value of Stdlib's [spec_float]. *)

From Stdlib Require Import SpecFloat.
From S2P Require Import Prelude Platform Kel Controller.

(** ** Predicates *)

Definition MaxClausesPerPredicate : Z := 64.
Definition MaxPredicateDepth : Z := 16.

Definition OpAND : Z := 1.
Definition OpOR : Z := 2.
Definition OpNOT : Z := 3.
Definition OpArtifact : Z := 10.
Definition OpTest : Z := 11.
Definition OpThreshold : Z := 12.
Definition OpScope : Z := 13.

Definition VerbCreate : Z := 1.
Definition VerbGet : Z := 5.
Definition CmpLT : Z := 1.
Definition CmpLE : Z := 2.
Definition CmpEQ : Z := 3.
Definition CmpGE : Z := 4.
Definition CmpGT : Z := 5.
Definition StatusPass : Z := 1.
Definition StatusFail : Z := 2.
Definition MatchGlob : Z := 1.
Definition MatchSet : Z := 2.
Definition MatchPrefix : Z := 3.

Definition ErrMalformed : error := Errf "MALFORMED".

Abbreviation float64 := spec_float.

Record ArtifactClause := mkArtifactClause {
  ac_PathGlob : bytes;
  ac_Exists : option bool;
  ac_MinSizeBytes : option Z;
  ac_SchemaRef : bytes;
  ac_Contains : list bytes;
}.
Record TestClause := mkTestClause { tc_TestID : bytes; tc_Expect : Z }.
Record ThresholdClause := mkThresholdClause { th_Metric : bytes; th_Op : Z; th_Value : float64 }.
Record ResourceMatch := mkResourceMatch { rm_Kind : Z; rm_Val : bytes }.
Record ScopeClause := mkScopeClause {
  sc_Verb : Z; sc_Kind : Z; sc_Match : ResourceMatch; sc_MergeClass : option Z;
}.

Inductive Predicate := mkPredicate {
  p_Op : Z;
  p_Children : list (option Predicate);
  p_Artifact : option ArtifactClause;
  p_Test : option TestClause;
  p_Thresh : option ThresholdClause;
  p_Scope : option ScopeClause;
}.

Record Artifact := mkArtifact {
  art_Path : bytes; art_SizeBytes : Z; art_ContentCID : bytes; art_MediaType : bytes;
}.
Record TestResult := mkTestResult { tr_ID : bytes; tr_Status : Z }.
Record ResourceRef := mkResourceRef { rr_Kind : Z; rr_ID : bytes; rr_MergeClass : Z }.
Record EffectRef := mkEffectRef { ef_Verb : Z; ef_Resource : ResourceRef }.
Record EffectRecord := mkEffectRecord {
  e_Artifacts : list Artifact;
  e_Tests : list TestResult;
  e_Metrics : gmap bytes float64;
  e_Resources : list ResourceRef;
  e_Effects : list EffectRef;
}.

(** ** Well-formedness *)

(** The clause checks of [validate]; the connectives are checked with their children. *)
Definition validClause (p : Predicate) : bool :=
  if p_Op p =? OpArtifact then
    match p_Artifact p with
    | Some a => beqb (ac_SchemaRef a) [] && (len (ac_Contains a) =? 0)
    | None => false
    end
  else if p_Op p =? OpTest then
    match p_Test p with
    | Some t => (tc_Expect t =? StatusPass) || (tc_Expect t =? StatusFail)
    | None => false
    end
  else if p_Op p =? OpThreshold then
    match p_Thresh p with Some t => (CmpLT <=? th_Op t) && (th_Op t <=? CmpGT) | None => false end
  else if p_Op p =? OpScope then
    match p_Scope p with
    | Some s => (VerbCreate <=? sc_Verb s) && (sc_Verb s <=? VerbGet) &&
                (MatchGlob <=? rm_Kind (sc_Match s)) && (rm_Kind (sc_Match s) <=? MatchPrefix)
    | None => false
    end
  else false.

Fixpoint validate (p : Predicate) (depth : Z) : bool :=
  let child c := match c with Some c => validate c (depth + 1) | None => false end in
  (depth <=? MaxPredicateDepth) &&
  if (p_Op p =? OpAND) || (p_Op p =? OpOR) then
    (2 <=? len (p_Children p)) && (len (p_Children p) <=? MaxClausesPerPredicate) &&
      forallb child (p_Children p)
  else if p_Op p =? OpNOT then
    match p_Children p with [c] => child c | _ => false end
  else validClause p.

(** [Validate], on a receiver that may be nil. *)
Definition Validate (p : option Predicate) : result unit :=
  match p with
  | Some p => if validate p 0 then Ok tt else Err ErrMalformed
  | None => Err ErrMalformed
  end.

(** ** The glob dialect *)

Fixpoint skip_slashes (pat : bytes) : bytes :=
  match pat with
  | c :: pat' => if c =? 47 then skip_slashes pat' else pat
  | [] => []
  end.

(** [next] from [cur] for ["**"], for ["*"] and for the byte [c]: position [j] of the list is whether
    the tokens so far can match the first [j] bytes of [s]. *)
Fixpoint anyStep (seen : bool) (cur : list bool) : list bool :=
  match cur with
  | [] => []
  | b :: cur => (seen || b) :: anyStep (seen || b) cur
  end.
Fixpoint segStep (run : bool) (cur : list bool) (s : bytes) : list bool :=
  match cur with
  | [] => []
  | b :: cur =>
      (run || b) :: match s with
                    | [] => []
                    | c :: s => segStep (if c =? 47 then false else run || b) cur s
                    end
  end.
Definition byteStep (c : Z) (cur : list bool) (s : bytes) : list bool :=
  false :: zip_with (λ b x, b && (x =? c)) cur s.

(** The loop over the pattern; every token takes at least a byte of it. *)
Fixpoint globLoop (fuel : nat) (pat s : bytes) (cur : list bool) : list bool :=
  match fuel, pat with
  | O, _ | _, [] => cur
  | S fuel, c :: pat =>
      if c =? 42 then
        match pat with
        | d :: pat' => if d =? 42 then globLoop fuel (skip_slashes pat') s (anyStep false cur)
                       else globLoop fuel pat s (segStep false cur s)
        | [] => globLoop fuel pat s (segStep false cur s)
        end
      else globLoop fuel pat s (byteStep c cur s)
  end.

Definition globMatch (pat s : bytes) : bool :=
  default false (last (globLoop (length pat) pat s (true :: repeat false (length s)))).

(** ** Evaluation *)

Definition cmp (a : float64) (op : Z) (b : float64) : bool :=
  if op =? CmpLT then SFltb a b
  else if op =? CmpLE then SFleb a b
  else if op =? CmpEQ then SFeqb a b
  else if op =? CmpGE then SFleb b a
  else if op =? CmpGT then SFltb b a
  else false.

(** [strings.TrimSuffix(s, "/")]. *)
Definition trim_slash (s : bytes) : bytes :=
  match last s with Some c => if c =? 47 then removelast s else s | None => s end.

Definition matchResource (m : ResourceMatch) (id : bytes) : bool :=
  if rm_Kind m =? MatchGlob then globMatch (rm_Val m) id
  else if rm_Kind m =? MatchPrefix then has_prefix (trim_slash (rm_Val m)) id
  else if rm_Kind m =? MatchSet then existsb (λ tok, beqb tok id) (split_byte 44 (rm_Val m))
  else false.

Definition evalArtifact (a : ArtifactClause) (e : EffectRecord) : bool :=
  existsb (λ art, globMatch (ac_PathGlob a) (art_Path art) &&
                  negb (match ac_Exists a with Some b => negb b | None => false end) &&
                  negb (match ac_MinSizeBytes a with Some m => art_SizeBytes art <? m | None => false end))
    (e_Artifacts e).

Definition evalTest (t : TestClause) (e : EffectRecord) : bool :=
  match List.find (λ tr, beqb (tr_ID tr) (tc_TestID t)) (e_Tests e) with
  | Some tr => tr_Status tr =? tc_Expect t
  | None => false
  end.

Definition evalThreshold (t : ThresholdClause) (e : EffectRecord) : bool :=
  match e_Metrics e !! th_Metric t with Some v => cmp v (th_Op t) (th_Value t) | None => false end.

Definition evalScope (s : ScopeClause) (e : EffectRecord) : bool :=
  existsb (λ ef, (ef_Verb ef =? sc_Verb s) && (rr_Kind (ef_Resource ef) =? sc_Kind s) &&
                 matchResource (sc_Match s) (rr_ID (ef_Resource ef))) (e_Effects e).

(** A clause is read through its pointer.  Go reads it only on reaching an entry to compare, so a nil
    test or scope clause panics only when there is one. *)
Definition clause {A} (c : option A) (used : bool) (ev : A → bool) : result bool :=
  match c with
  | Some a => Ok (ev a)
  | None => if used then Err Panic else Ok false
  end.

Fixpoint Evaluate (p : Predicate) (e : EffectRecord) : result bool :=
  let child c := match c with Some c => Evaluate c e | None => Err Panic end in
  let fix all cs := match cs with
                    | [] => Ok true
                    | c :: cs => b ← child c; if b : bool then all cs else Ok false
                    end in
  let fix any cs := match cs with
                    | [] => Ok false
                    | c :: cs => b ← child c; if b : bool then Ok true else any cs
                    end in
  if p_Op p =? OpAND then all (p_Children p)
  else if p_Op p =? OpOR then any (p_Children p)
  else if p_Op p =? OpNOT then
    match p_Children p with c :: _ => b ← child c; Ok (negb b) | [] => Err Panic end
  else if p_Op p =? OpArtifact then
    clause (p_Artifact p) (negb (len (e_Artifacts e) =? 0)) (λ a, evalArtifact a e)
  else if p_Op p =? OpTest then
    clause (p_Test p) (negb (len (e_Tests e) =? 0)) (λ t, evalTest t e)
  else if p_Op p =? OpThreshold then clause (p_Thresh p) true (λ t, evalThreshold t e)
  else if p_Op p =? OpScope then
    clause (p_Scope p) (negb (len (e_Effects e) =? 0)) (λ s, evalScope s e)
  else Ok false.

Inductive ScopeVerdict := ScopeOK | ScopeViolation.

Definition EvaluateScope (negativeScope : option Predicate) (committed : EffectRecord) : result ScopeVerdict :=
  match negativeScope with
  | None => Ok ScopeOK
  | Some p => b ← Evaluate p committed; Ok (if b : bool then ScopeViolation else ScopeOK)
  end.
