(* ===== verification/TsirTheorems.v ===== *)
(** * TsirTheorems: the predicate calculus is total and means what it says *)

From S2P Require Import Prelude Aid Cbor Platform Kel KelReference KelProps KelTheorems Controller Tsir.

(** ** The glob dialect

    The dialect of the specification: a ["**"] (with the slashes after it) stands for any text, any
    other star for text without a slash, every other byte for itself. *)
Inductive glob : bytes → bytes → Prop :=
  | glob_nil : glob [] []
  | glob_any pat x s : glob (skip_slashes pat) s → glob (42 :: 42 :: pat) (x ++ s)
  | glob_seg pat x s : head pat ≠ Some 42 → 47 ∉ x → glob pat s → glob (42 :: pat) (x ++ s)
  | glob_byte c pat s : c ≠ 42 → glob pat s → glob (c :: pat) (c :: s).

(** Position [j] of a list of reachable positions. *)
Definition at_pos (cur : list bool) (j : nat) : Prop := cur !! j = Some true.

Lemma length_skip_slashes pat : (length (skip_slashes pat) <= length pat)%nat.
Proof. induction pat as [|c pat IH]; simpl; [lia|]. destruct (c =? 47); simpl; lia. Qed.

Lemma length_anyStep cur seen : length (anyStep seen cur) = length cur.
Proof. revert seen. induction cur as [|b cur IH]; intros seen; simpl; [done|]. by rewrite IH. Qed.

Lemma length_segStep s : ∀ cur run, length cur = S (length s) → length (segStep run cur s) = length cur.
Proof.
  induction s as [|c s IH]; intros [|b cur] run Hl; simplify_eq/=; [by destruct cur|]. by rewrite IH.
Qed.

Lemma length_byteStep c cur s : length cur = S (length s) → length (byteStep c cur s) = length cur.
Proof. intros Hl. unfold byteStep. simpl. rewrite length_zip_with. lia. Qed.

Lemma anyStep_spec cur : ∀ seen k,
  at_pos (anyStep seen cur) k ↔ (k < length cur)%nat ∧ (seen = true ∨ ∃ j, (j <= k)%nat ∧ at_pos cur j).
Proof.
  unfold at_pos. induction cur as [|b cur IH]; intros seen k; [split; [done|intros [? _]; simpl in *; lia]|].
  destruct k as [|k]; simpl.
  - split.
    + intros [= [->| ->]%orb_true_iff]; (split; [lia|]); [by left|right; by exists 0%nat].
    + intros [_ [->|(j & Hj & Hb)]]; [done|]. assert (j = 0%nat) as -> by lia. injection Hb as ->.
      by rewrite orb_true_r.
  - rewrite IH. split.
    + intros [Hk [[->| ->]%orb_true_iff|(j & Hj & Hb)]]; (split; [lia|]);
        [by left|right; exists 0%nat; split; [lia|done]|right; exists (S j); split; [lia|done]].
    + intros [Hk [->|(j & Hj & Hb)]]; (split; [lia|]); [by left|]. destruct j as [|j]; simpl in Hb.
      * injection Hb as ->. left. by rewrite orb_true_r.
      * right. exists j. split; [lia|done].
Qed.

Lemma segStep_spec s : ∀ cur run k, length cur = S (length s) →
  at_pos (segStep run cur s) k ↔
  (k <= length s)%nat ∧
  ((run = true ∧ 47 ∉ take k s) ∨ ∃ j, (j <= k)%nat ∧ at_pos cur j ∧ 47 ∉ take (k - j) (drop j s)).
Proof.
  unfold at_pos. induction s as [|c s IH]; intros [|b cur] run k Hl; simplify_eq/=.
  - destruct cur; [|done]. destruct k as [|k]; simpl.
    + split.
      * intros [= [->| ->]%orb_true_iff]; (split; [lia|]); [left; split; [done|apply not_elem_of_nil]|].
        right. exists 0%nat. split_and!; [lia|done|apply not_elem_of_nil].
      * intros [_ [[-> _]|(j & Hj & Hb & _)]]; [done|]. assert (j = 0%nat) as -> by lia. injection Hb as ->.
        by rewrite orb_true_r.
    + split; [done|lia].
  - destruct k as [|k]; simpl.
    + split.
      * intros [= [->| ->]%orb_true_iff]; (split; [lia|]); [left; split; [done|apply not_elem_of_nil]|].
        right. exists 0%nat. split_and!; [lia|done|apply not_elem_of_nil].
      * intros [_ [[-> _]|(j & Hj & Hb & _)]]; [done|]. assert (j = 0%nat) as -> by lia. injection Hb as ->.
        by rewrite orb_true_r.
    + rewrite IH by done. split.
      * intros [Hk [[Hr Hs]|(j & Hj & Hb & Hs)]]; (split; [lia|]).
        -- destruct (c =? 47) eqn:Ec; go_inv; [done|]. apply orb_true_iff in Hr as [->| ->].
           ++ left. split; [done|]. apply not_elem_of_cons. split; [lia|done].
           ++ right. exists 0%nat. split_and!; [lia|done|]. simpl. apply not_elem_of_cons. split; [lia|done].
        -- right. exists (S j). split_and!; [lia|done|done].
      * intros [Hk [[-> Hs]|(j & Hj & Hb & Hs)]]; (split; [lia|]).
        -- apply not_elem_of_cons in Hs as [Hc Hs]. left. rewrite (proj2 (Z.eqb_neq c 47)) by lia. done.
        -- destruct j as [|j]; simpl in *.
           ++ injection Hb as ->. apply not_elem_of_cons in Hs as [Hc Hs]. left.
              rewrite (proj2 (Z.eqb_neq c 47)), orb_true_r by lia. done.
           ++ right. exists j. split_and!; [lia|done|done].
Qed.

Lemma byteStep_spec c cur s k :
  at_pos (byteStep c cur s) k ↔ ∃ j, k = S j ∧ at_pos cur j ∧ s !! j = Some c.
Proof.
  unfold at_pos, byteStep. destruct k as [|k]; simpl; [split; [done|by intros (j & ? & _)]|].
  rewrite lookup_zip_with. split.
  - intros H. destruct (cur !! k) as [b|] eqn:Hb; [|done]. destruct (s !! k) as [x|] eqn:Hx; [|done].
    simpl in H. injection H as H. go_inv. subst. by exists k.
  - intros (j & [= ->] & -> & ->). simpl. by rewrite Z.eqb_refl.
Qed.

(** The rule that made a match, from the pattern. *)
Lemma glob_nil_inv s : glob [] s → s = [].
Proof. by inversion 1. Qed.
Lemma glob_any_inv pat s : glob (42 :: 42 :: pat) s → ∃ x t, s = x ++ t ∧ glob (skip_slashes pat) t.
Proof. inversion 1; subst; [by eauto|done|done]. Qed.
Lemma glob_seg_inv pat s :
  head pat ≠ Some 42 → glob (42 :: pat) s → ∃ x t, s = x ++ t ∧ (47 ∉ x) ∧ glob pat t.
Proof. intros Hp. inversion 1; subst; [done|by eauto|done]. Qed.
Lemma glob_byte_inv c pat s : c ≠ 42 → glob (c :: pat) s → ∃ t, s = c :: t ∧ glob pat t.
Proof. intros Hp. inversion 1; subst; [done|done|by eauto]. Qed.

(** One token from the positions it can start at. *)
Lemma glob_end s cur : at_pos cur (length s) ↔ ∃ j, (j <= length s)%nat ∧ at_pos cur j ∧ glob [] (drop j s).
Proof.
  split.
  - intros Hc. exists (length s). split_and!; [lia|done|]. rewrite drop_all. constructor.
  - intros (j & Hj & Hc & Hg). apply glob_nil_inv in Hg as E.
    apply (f_equal length) in E. rewrite length_drop in E. simpl in E.
    by replace (length s) with j by lia.
Qed.

Lemma split_drop j k (s : bytes) : (j <= k)%nat → drop j s = take (k - j) (drop j s) ++ drop k s.
Proof. intros Hj. rewrite <- (take_drop (k - j) (drop j s)) at 1. f_equal. rewrite drop_drop. f_equal. lia. Qed.

Lemma seg_reach cur s pat :
  length cur = S (length s) → head pat ≠ Some 42 →
  (∃ j, (j <= length s)%nat ∧ at_pos (segStep false cur s) j ∧ glob pat (drop j s)) ↔
  ∃ j, (j <= length s)%nat ∧ at_pos cur j ∧ glob (42 :: pat) (drop j s).
Proof.
  intros Hl Hh. split.
  - intros (k & Hk & Hs & Hg). apply segStep_spec in Hs as [_ [[? _]|(j & Hj & Hc & Hn)]]; [done| |done].
    exists j. split_and!; [lia|done|]. rewrite (split_drop j k) by done. by constructor.
  - intros (j & Hj & Hc & Hg). apply glob_seg_inv in Hg as (x & t & E & Hn & Ht); [|done].
    exists (j + length x)%nat.
    pose proof (f_equal length E) as El. rewrite length_drop, length_app in El.
    split_and!; [lia| |].
    + apply segStep_spec; [done|]. split; [lia|]. right. exists j. split_and!; [lia|done|].
      rewrite E. replace (j + length x - j)%nat with (length x) by lia. by rewrite take_app_length.
    + rewrite <- drop_drop, E. by rewrite drop_app_length.
Qed.

Lemma any_reach cur s pat :
  length cur = S (length s) →
  (∃ j, (j <= length s)%nat ∧ at_pos (anyStep false cur) j ∧ glob (skip_slashes pat) (drop j s)) ↔
  ∃ j, (j <= length s)%nat ∧ at_pos cur j ∧ glob (42 :: 42 :: pat) (drop j s).
Proof.
  intros Hl. split.
  - intros (k & Hk & Hs & Hg). apply anyStep_spec in Hs as [_ [?|(j & Hj & Hc)]]; [done|].
    exists j. split_and!; [lia|done|]. rewrite (split_drop j k) by done. by constructor.
  - intros (j & Hj & Hc & Hg). apply glob_any_inv in Hg as (x & t & E & Ht).
    exists (j + length x)%nat.
    pose proof (f_equal length E) as El. rewrite length_drop, length_app in El.
    split_and!; [lia| |].
    + apply anyStep_spec. split; [lia|]. right. exists j. split; [lia|done].
    + rewrite <- drop_drop, E. by rewrite drop_app_length.
Qed.

Lemma byte_reach cur s c pat :
  c ≠ 42 →
  (∃ j, (j <= length s)%nat ∧ at_pos (byteStep c cur s) j ∧ glob pat (drop j s)) ↔
  ∃ j, (j <= length s)%nat ∧ at_pos cur j ∧ glob (c :: pat) (drop j s).
Proof.
  intros Hc. split.
  - intros (k & Hk & Hs & Hg). apply byteStep_spec in Hs as (j & -> & Hj & Hx).
    exists j. split_and!; [lia|done|]. rewrite (drop_S _ _ _ Hx). by constructor.
  - intros (j & Hj & Ha & Hg). apply glob_byte_inv in Hg as (t & E2 & Ht); [|done].
    assert (s !! j = Some c) as Hx.
    { rewrite <- (Nat.add_0_r j), <- lookup_drop. by rewrite E2. }
    exists (S j). pose proof (lookup_lt_Some _ _ _ Hx). split_and!; [lia| |].
    + apply byteStep_spec. by exists j.
    + rewrite (drop_S _ _ _ Hx) in E2. injection E2 as E2. congruence.
Qed.

(** What the loop reaches from a set of positions. *)
Lemma globLoop_spec fuel : ∀ pat s cur,
  (length pat <= fuel)%nat → length cur = S (length s) →
  at_pos (globLoop fuel pat s cur) (length s) ↔
  ∃ j, (j <= length s)%nat ∧ at_pos cur j ∧ glob pat (drop j s).
Proof.
  induction fuel as [|fuel IH]; intros pat s cur Hf Hl.
  { destruct pat; simpl in Hf; [|lia]. simpl. apply glob_end. }
  destruct pat as [|c pat]; [apply glob_end|]. simpl in Hf. cbn [globLoop].
  destruct (c =? 42) eqn:Ec; go_inv.
  - subst c. assert (head pat ≠ Some 42 →
      at_pos (globLoop fuel pat s (segStep false cur s)) (length s) ↔
      ∃ j, (j <= length s)%nat ∧ at_pos cur j ∧ glob (42 :: pat) (drop j s)) as Hseg.
    { intros Hh. rewrite IH; [|lia|by rewrite length_segStep]. by rewrite (seg_reach _ _ _ Hl Hh). }
    destruct pat as [|d pat]; [by apply Hseg|]. destruct (d =? 42) eqn:Ed; go_inv; [|apply Hseg; simpl; congruence].
    subst d. rewrite IH; [by apply any_reach| |by rewrite length_anyStep].
    pose proof (length_skip_slashes pat). simpl in Hf. lia.
  - rewrite IH; [by apply byte_reach|lia|by rewrite length_byteStep].
Qed.

(** C36: [globMatch] decides the dialect: the matcher on sets of positions, which takes time
    proportional to the product of the two lengths, accepts exactly the texts the pattern stands for. *)
Theorem glob_match_is_the_dialect pat s : globMatch pat s = true ↔ glob pat s.
Proof.
  unfold globMatch. set (cur := true :: repeat false (length s)).
  assert (length cur = S (length s)) as Hl by (simpl; by rewrite repeat_length).
  assert (∀ f p c, length c = S (length s) → length (globLoop f p s c) = S (length s)) as Hlen.
  { intros f. induction f as [|f IHf]; intros [|c p] k Hk; simpl; [done..|].
    repeat case_match; apply IHf; rewrite ?length_segStep, ?length_anyStep, ?length_byteStep; done. }
  rewrite last_lookup, Hlen by done. simpl.
  pose proof (globLoop_spec (length pat) pat s cur ltac:(lia) Hl) as Hs. unfold at_pos in Hs.
  transitivity (globLoop (length pat) pat s cur !! length s = Some true).
  { destruct (globLoop (length pat) pat s cur !! length s) as [[]|]; simpl; split; congruence. }
  rewrite Hs. split.
  - intros (j & _ & Hj & Hg). destruct j as [|j]; [done|]. unfold cur in Hj. simpl in Hj.
    apply list_elem_of_lookup_2, list_elem_of_In, repeat_spec in Hj. done.
  - intros Hg. exists 0%nat. split_and!; [lia|done|done].
Qed.

(** ** Evaluation *)

Definition on_child (Q : Predicate → Prop) (c : option Predicate) : Prop :=
  match c with Some p => Q p | None => True end.

Lemma predicate_ind (Q : Predicate → Prop) :
  (∀ p, Forall (on_child Q) (p_Children p) → Q p) → ∀ p, Q p.
Proof.
  intros H. fix IH 1. intros [op cs a t th s]. apply H. simpl. induction cs as [|[c|] cs IHc]; constructor; try done.
  apply IH.
Qed.

(** What a predicate means: its connectives are those of the booleans, without an order of evaluation. *)
Fixpoint holds (p : Predicate) (e : EffectRecord) : bool :=
  let child c := match c with Some c => holds c e | None => false end in
  if p_Op p =? OpAND then forallb child (p_Children p)
  else if p_Op p =? OpOR then existsb child (p_Children p)
  else if p_Op p =? OpNOT then negb (existsb child (p_Children p))
  else if p_Op p =? OpArtifact then match p_Artifact p with Some a => evalArtifact a e | None => false end
  else if p_Op p =? OpTest then match p_Test p with Some t => evalTest t e | None => false end
  else if p_Op p =? OpThreshold then match p_Thresh p with Some t => evalThreshold t e | None => false end
  else if p_Op p =? OpScope then match p_Scope p with Some s => evalScope s e | None => false end
  else false.

(** How deep [Evaluate] recurs: a clause that is not a connective ends it, whatever children it has. *)
Definition connective (p : Predicate) : bool := (p_Op p =? OpAND) || (p_Op p =? OpOR) || (p_Op p =? OpNOT).
Fixpoint eval_depth (p : Predicate) : nat :=
  let child c := match c with Some c => eval_depth c | None => 0%nat end in
  if (p_Op p =? OpAND) || (p_Op p =? OpOR) || (p_Op p =? OpNOT)
  then S (list_max (map child (p_Children p))) else 1%nat.

Definition child_eval (e : EffectRecord) (c : option Predicate) : result bool :=
  match c with Some c => Evaluate c e | None => Err Panic end.
Definition child_holds (e : EffectRecord) (c : option Predicate) : bool :=
  match c with Some c => holds c e | None => false end.
Definition child_valid (depth : Z) (c : option Predicate) : bool :=
  match c with Some c => validate c depth | None => false end.

Fixpoint eval_all (e : EffectRecord) (cs : list (option Predicate)) : result bool :=
  match cs with
  | [] => Ok true
  | c :: cs => b ← child_eval e c; if b : bool then eval_all e cs else Ok false
  end.
Fixpoint eval_any (e : EffectRecord) (cs : list (option Predicate)) : result bool :=
  match cs with
  | [] => Ok false
  | c :: cs => b ← child_eval e c; if b : bool then Ok true else eval_any e cs
  end.

Lemma Evaluate_unfold p e :
  Evaluate p e =
    if p_Op p =? OpAND then eval_all e (p_Children p)
    else if p_Op p =? OpOR then eval_any e (p_Children p)
    else if p_Op p =? OpNOT then
      match p_Children p with c :: _ => b ← child_eval e c; Ok (negb b) | [] => Err Panic end
    else if p_Op p =? OpArtifact then
      clause (p_Artifact p) (negb (len (e_Artifacts e) =? 0)) (λ a, evalArtifact a e)
    else if p_Op p =? OpTest then clause (p_Test p) (negb (len (e_Tests e) =? 0)) (λ t, evalTest t e)
    else if p_Op p =? OpThreshold then clause (p_Thresh p) true (λ t, evalThreshold t e)
    else if p_Op p =? OpScope then
      clause (p_Scope p) (negb (len (e_Effects e) =? 0)) (λ s, evalScope s e)
    else Ok false.
Proof.
  destruct p as [op cs a t th s]. cbn [Evaluate p_Op p_Children p_Artifact p_Test p_Thresh p_Scope].
  destruct (op =? OpAND); [induction cs as [|c cs IH]; [done|]; cbn [eval_all]; rewrite <- IH; by destruct c|].
  destruct (op =? OpOR); [induction cs as [|c cs IH]; [done|]; cbn [eval_any]; rewrite <- IH; by destruct c|].
  by destruct (op =? OpNOT).
Qed.

Lemma forallb_Forall {A} (f : A → bool) l : forallb f l = true ↔ Forall (λ x, f x = true) l.
Proof. rewrite forallb_forall, Forall_forall. by setoid_rewrite <- list_elem_of_In. Qed.

Lemma validate_unfold p depth :
  validate p depth = true ↔
  depth <= 16 ∧
  (((p_Op p = OpAND ∨ p_Op p = OpOR) ∧ 2 <= len (p_Children p) <= 64 ∧
      Forall (λ c, child_valid (depth + 1) c = true) (p_Children p)) ∨
   (p_Op p = OpNOT ∧ ∃ c, p_Children p = [c] ∧ child_valid (depth + 1) c = true) ∨
   (p_Op p ≠ OpAND ∧ p_Op p ≠ OpOR ∧ p_Op p ≠ OpNOT ∧ validClause p = true)).
Proof.
  destruct p as [op cs a t th s]. cbn [validate p_Op p_Children]. unfold MaxPredicateDepth, MaxClausesPerPredicate.
  rewrite andb_true_iff, Z.leb_le. apply and_iff_compat_l.
  change (λ c, match c with Some c => validate c (depth + 1) | None => false end) with (child_valid (depth + 1)).
  destruct ((op =? OpAND) || (op =? OpOR)) eqn:E1; [|destruct (op =? OpNOT) eqn:E2]; go_inv.
  - apply orb_true_iff in E1. rewrite !Z.eqb_eq in E1.
    rewrite !andb_true_iff, !Z.leb_le, forallb_Forall. split.
    + intros [[Ha Hb] Hc]. left. by split_and!.
    + intros [(_ & [Ha Hb] & Hc)|[[-> _]|(Ha & Hb & _)]]; [by split_and!|by destruct E1|by destruct E1].
  - subst. split.
    + intros Hc. right. left. split; [done|]. destruct cs as [|c [|]]; [done|by exists c|done].
    + intros [([?|?] & _)|[(_ & c & -> & ?)|(_ & _ & ? & _)]]; done.
  - split; [intros ?; right; right; by split_and!|].
    intros [([?|?] & _)|[[? _]|(_ & _ & _ & ?)]]; done.
Qed.

Lemma eval_all_holds e cs :
  Forall (λ c, child_eval e c = Ok (child_holds e c)) cs → eval_all e cs = Ok (forallb (child_holds e) cs).
Proof. induction 1 as [|c cs Hc Hcs IH]; [done|]. simpl. rewrite Hc. simpl. by destruct (child_holds e c). Qed.

Lemma eval_any_holds e cs :
  Forall (λ c, child_eval e c = Ok (child_holds e c)) cs → eval_any e cs = Ok (existsb (child_holds e) cs).
Proof. induction 1 as [|c cs Hc Hcs IH]; [done|]. simpl. rewrite Hc. simpl. by destruct (child_holds e c). Qed.

(** A checked clause is present, and an absent entry list makes it false. *)
Lemma validClause_eval p e :
  p_Op p ≠ OpAND → p_Op p ≠ OpOR → p_Op p ≠ OpNOT → validClause p = true → Evaluate p e = Ok (holds p e).
Proof.
  intros H1 H2 H3 Hv. rewrite Evaluate_unfold. destruct p as [op cs a t th s].
  unfold validClause in Hv. cbn [holds p_Op p_Artifact p_Test p_Thresh p_Scope] in *.
  rewrite !(proj2 (Z.eqb_neq _ _)) by done.
  destruct (op =? OpArtifact); [by destruct a|]. destruct (op =? OpTest); [by destruct t|].
  destruct (op =? OpThreshold); [by destruct th|]. destruct (op =? OpScope); [by destruct s|done].
Qed.

Lemma validate_eval p e : ∀ depth, validate p depth = true → Evaluate p e = Ok (holds p e).
Proof.
  induction p as [p IH] using predicate_ind. intros depth Hv.
  assert (∀ c, c ∈ p_Children p → child_valid (depth + 1) c = true → child_eval e c = Ok (child_holds e c)) as Hc.
  { intros c Hin Hcv. pose proof (proj1 (Forall_forall _ _) IH c Hin) as Hq. destruct c as [c|]; [|done].
    simpl in *. by eapply Hq. }
  apply validate_unfold in Hv as [_ [(Hop & _ & Hcs)|[(Hop & c & Hcs & Hcv)|(H1 & H2 & H3 & Hv)]]];
    [| |by apply validClause_eval].
  - assert (Forall (λ c, child_eval e c = Ok (child_holds e c)) (p_Children p)) as HF.
    { apply Forall_forall. intros c Hin. apply Hc; [done|]. by apply (proj1 (Forall_forall _ _) Hcs). }
    rewrite Evaluate_unfold. destruct p as [op cs a t th s]. simpl in Hop.
    cbn [holds p_Op p_Children] in *. destruct Hop as [-> | ->]; [by apply eval_all_holds|by apply eval_any_holds].
  - rewrite Evaluate_unfold. destruct p as [op cs a t th s]. simpl in Hop, Hcs. subst.
    cbn [holds p_Op p_Children] in *. simpl. rewrite (Hc c); [|by left|done]. simpl. by rewrite orb_false_r.
Qed.

Definition child_depth (c : option Predicate) : nat :=
  match c with Some c => eval_depth c | None => 0%nat end.

Lemma eval_depth_unfold p :
  eval_depth p = if connective p then S (list_max (map child_depth (p_Children p))) else 1%nat.
Proof. by destruct p. Qed.

Lemma list_max_le_bound (b : Z) (l : list nat) :
  0 <= b → Forall (λ n, Z.of_nat n <= b) l → Z.of_nat (list_max l) <= b.
Proof. intros Hb. induction 1 as [|n l Hn Hl IH]; simpl; [lia|]. unfold list_max in *. simpl. lia. Qed.

Lemma validate_depth p : ∀ depth, validate p depth = true → depth + Z.of_nat (eval_depth p) <= 17.
Proof.
  induction p as [p IH] using predicate_ind. intros depth Hv.
  assert (∀ c, c ∈ p_Children p → child_valid (depth + 1) c = true → Z.of_nat (child_depth c) <= 16 - depth) as Hc.
  { intros c Hin Hcv. pose proof (proj1 (Forall_forall _ _) IH c Hin) as Hq. destruct c as [c|]; [|done].
    simpl in *. specialize (Hq _ Hcv). lia. }
  apply validate_unfold in Hv as (Hd & Hv). rewrite eval_depth_unfold.
  assert (Forall (λ c, child_valid (depth + 1) c = true) (p_Children p) ∨ connective p = false) as [HF| ->]; [| |lia].
  - unfold connective. destruct Hv as [(_ & _ & HF)|[(_ & c & -> & Hcv)|(H1 & H2 & H3 & _)]];
      [by left|left; by repeat constructor|right].
    by rewrite !(proj2 (Z.eqb_neq _ _)) by done.
  - destruct (connective p); [|lia].
    pose proof (list_max_le_bound (16 - depth) (map child_depth (p_Children p))) as Hm.
    rewrite Nat2Z.inj_succ. enough (Z.of_nat (list_max (map child_depth (p_Children p))) <= 16 - depth) by lia.
    apply Hm; [lia|]. apply Forall_map, Forall_forall. intros c Hin. apply Hc; [done|].
    by apply (proj1 (Forall_forall _ _) HF).
Qed.

Lemma validated_predicate_verdict p :
  Validate (Some p) = Ok tt → ∀ e, ∃ v, EvaluateScope (Some p) e = Ok v.
Proof.
  simpl. destruct (validate p 0) eqn:Hp; [|done]. intros _ e.
  rewrite (validate_eval p e 0 Hp). simpl. by eexists.
Qed.

(** C37: a predicate that passes [Validate] always has a verdict.  Its evaluation never panics, recurs at
    most 17 levels deep, and gives the truth value the connectives have as boolean functions: the order in
    which clauses are tried, and where the loops stop early, changes nothing. *)
Theorem validated_predicates_evaluate p :
  Validate p = Ok tt →
  ∃ q, p = Some q ∧ (eval_depth q <= 17)%nat ∧ ∀ e, Evaluate q e = Ok (holds q e) ∧
    EvaluateScope p e = Ok (if holds q e then ScopeViolation else ScopeOK).
Proof.
  intros Hv. destruct p as [q|]; [|done]. simpl in Hv. destruct (validate q 0) eqn:Hq; [|done].
  exists q. pose proof (validate_depth q 0 Hq). split_and!; [done|lia|]. intros e.
  pose proof (validate_eval q e 0 Hq) as He. split; [done|]. simpl. by rewrite He.
Qed.

(** ** The scope gate *)

Fixpoint negation_free (p : Predicate) : bool :=
  negb (p_Op p =? OpNOT) &&
    forallb (λ c, match c with Some c => negation_free c | None => true end) (p_Children p).

(** More was done: artifacts, metrics and effects are added, tests come after the ones there are. *)
Record extends (e e' : EffectRecord) : Prop := {
  x_artifacts : e_Artifacts e ⊆ e_Artifacts e';
  x_tests : e_Tests e `prefix_of` e_Tests e';
  x_metrics : e_Metrics e ⊆ e_Metrics e';
  x_effects : e_Effects e ⊆ e_Effects e';
}.

Lemma existsb_subset {A} (f : A → bool) l k : l ⊆ k → existsb f l = true → existsb f k = true.
Proof.
  rewrite !existsb_exists. setoid_rewrite <- list_elem_of_In. intros Hs (x & Hx & Hf). exists x. auto.
Qed.

Lemma find_app_Some {A} (f : A → bool) l k x : List.find f l = Some x → List.find f (l ++ k) = Some x.
Proof. induction l as [|y l IH]; simpl; [done|]. by destruct (f y). Qed.

Lemma evalTest_extends t e e' : extends e e' → evalTest t e = true → evalTest t e' = true.
Proof.
  intros [_ [k Hk] _ _]. unfold evalTest. rewrite Hk.
  destruct (List.find _ (e_Tests e)) as [tr|] eqn:Hf; [|done]. by rewrite (find_app_Some _ _ _ _ Hf).
Qed.

Lemma evalThreshold_extends t e e' : extends e e' → evalThreshold t e = true → evalThreshold t e' = true.
Proof.
  intros [_ _ Hm _]. unfold evalThreshold. destruct (e_Metrics e !! th_Metric t) as [v|] eqn:Hv; [|done].
  by rewrite (lookup_weaken _ _ _ _ Hv Hm).
Qed.

Lemma holds_extends p e e' : extends e e' → negation_free p = true → holds p e = true → holds p e' = true.
Proof.
  intros He. induction p as [p IH] using predicate_ind.
  destruct p as [op cs a t th s]. cbn [negation_free holds p_Op p_Children p_Artifact p_Test p_Thresh p_Scope] in *.
  fold (child_holds e) (child_holds e'). intros [Hn Hcs]%andb_true_iff. apply negb_true_iff in Hn. rewrite Hn.
  rewrite forallb_Forall in Hcs.
  assert (∀ c, c ∈ cs → child_holds e c = true → child_holds e' c = true) as Hc.
  { intros c Hin Hh. pose proof (proj1 (Forall_forall _ _) IH c Hin) as Hq.
    pose proof (proj1 (Forall_forall _ _) Hcs c Hin) as Hf. destruct c as [c|]; [|done]. by apply Hq. }
  destruct (op =? OpAND); [|destruct (op =? OpOR)].
  - rewrite !forallb_Forall, !Forall_forall. auto.
  - rewrite !existsb_exists. setoid_rewrite <- list_elem_of_In. intros (c & Hin & Hh). exists c. auto.
  - destruct (op =? OpArtifact); [destruct a; [apply existsb_subset, He|done]|].
    destruct (op =? OpTest); [destruct t; [by apply evalTest_extends|done]|].
    destruct (op =? OpThreshold); [destruct th; [by apply evalThreshold_extends|done]|].
    destruct (op =? OpScope); [destruct s; [apply existsb_subset, He|done]|done].
Qed.

(** A violation cannot be hidden by doing more.  When a negative scope without negations finds its
    forbidden pattern in what was done, it finds it in every longer record: more artifacts, metrics
    or effects, or further test results, never turn [ScopeViolation] into [ScopeOK]. *)
Theorem violations_persist p e e' :
  Validate (Some p) = Ok tt → negation_free p = true → extends e e' →
  EvaluateScope (Some p) e = Ok ScopeViolation → EvaluateScope (Some p) e' = Ok ScopeViolation.
Proof.
  intros Hv Hn He. simpl in Hv. destruct (validate p 0) eqn:Hp; [|done]. simpl.
  rewrite !(validate_eval p _ 0 Hp). simpl. destruct (holds p e) eqn:Hh; [|done]. intros _.
  by rewrite (holds_extends p e e').
Qed.

(** ** On a sample predicate *)

(** "A file under secrets was written, or a call to a payment API was made." *)
Definition scope_of (verb kind match_ : Z) (val : string) : option Predicate :=
  Some (mkPredicate OpScope [] None None None (Some (mkScopeClause verb kind (mkResourceMatch match_ (str val)) None))).
Definition sample_scope : Predicate :=
  mkPredicate OpOR [scope_of 2 1 MatchGlob "secrets/**"; scope_of 4 2 MatchPrefix "https://pay/"] None None None None.
Definition sample_effects : EffectRecord :=
  mkEffectRecord [] [] ∅ [] [mkEffectRef 2 (mkResourceRef 1 (str "secrets/a/b.txt") 0)].
Definition more_effects : EffectRecord :=
  mkEffectRecord [] [] ∅ []
    [mkEffectRef 1 (mkResourceRef 1 (str "out.txt") 0); mkEffectRef 2 (mkResourceRef 1 (str "secrets/a/b.txt") 0)].

Lemma sample_extends : extends sample_effects more_effects.
Proof. constructor; simpl; [done|done|done|set_solver]. Qed.

Lemma validated_predicates_evaluate_witness :
  ∃ q, Some sample_scope = Some q ∧ (eval_depth q <= 17)%nat ∧ ∀ e, Evaluate q e = Ok (holds q e) ∧
    EvaluateScope (Some sample_scope) e = Ok (if holds q e then ScopeViolation else ScopeOK).
Proof. apply (validated_predicates_evaluate (Some sample_scope)). vm_compute. reflexivity. Defined.

Lemma violations_persist_witness : EvaluateScope (Some sample_scope) more_effects = Ok ScopeViolation.
Proof.
  apply (violations_persist sample_scope sample_effects more_effects);
    [vm_compute; reflexivity|vm_compute; reflexivity|exact sample_extends|vm_compute; reflexivity].
Defined.

Example glob_examples :
  map (λ p, globMatch (str p.1) (str p.2))
    [("*.go", "a.go"); ("*.go", "d/a.go"); ("**/a.go", "d/e/a.go"); ("**/a.go", "a.go"); ("a**b", "a/x/b");
     ("a*b", "a/b")]%string = [true; false; true; true; true; false].
Proof. vm_compute. reflexivity. Qed.
