(* ===== verification/Taskdoc.v ===== *)
(** * Taskdoc: task documents and their compilation (tsir/taskdoc.go)

    The structs of the source as records, the preimage its signature and CID cover, and [Compile], which
    verifies a document before it projects the parts the runtime uses. *)

From S2P Require Import Prelude Platform Kel Controller Tsir.

Record VersionPair := mkVersionPair { v_Major : Z; v_Minor : Z }.
Record MetaEntry := mkMetaEntry { me_Name : bytes; me_Value : bytes }.
Record Link := mkLink { l_Rel : bytes; l_Href : bytes; l_Title : bytes }.
Record Intent := mkIntent { i_Summary : bytes; i_Format : bytes; i_Body : bytes }.
Record Requirement := mkRequirement {
  rq_ID : bytes; rq_Type : bytes; rq_Necessity : bytes; rq_Description : bytes;
}.
Record Output := mkOutput { o_Format : bytes; o_MaxSize : bytes; o_Name : bytes }.
Record Schema := mkSchema { sm_Type : bytes; sm_Body : bytes }.
Record Accept := mkAccept {
  ap_Type : bytes; ap_Description : bytes; ap_Outputs : list Output; ap_Schema : option Schema;
}.
Record TaskContext := mkTaskContext {
  cx_Key : bytes; cx_Value : bytes; cx_Src : bytes; cx_Format : bytes; cx_Visibility : bytes;
}.
Record Task := mkTask {
  t_ID : bytes;
  t_Intent : Intent;
  t_Requires : list Requirement;
  t_Accepts : list Accept;
  t_Contexts : list TaskContext;
  t_PositiveScope : option Predicate;
  t_NegativeScope : option Predicate;
  t_CouplingHint : Z;
}.
Record TaskDoc := mkTaskDoc {
  d_Version : VersionPair;
  d_Meta : list MetaEntry;
  d_Links : list Link;
  d_Tasks : list Task;
  d_Critical : list Z;
  d_Envelope : option Envelope;
}.

(** The preimage: the major version, the links and the tasks. *)
Record taskDocPreimage := mkPreimage { tp_Major : Z; tp_Links : list Link; tp_Tasks : list Task }.
Definition preimageOf (d : TaskDoc) : taskDocPreimage :=
  mkPreimage (v_Major (d_Version d)) (d_Links d) (d_Tasks d).

Record CompileResult := mkCompileResult {
  cr_TaskCID : bytes;
  cr_Intent : Intent;
  cr_AcceptancePredicate : option Predicate;
  cr_NegativeScope : option Predicate;
  cr_CouplingHint : Z;
  cr_IntentAlignEligible : bool;
}.

Section Taskdoc.
Context `{P : Platform} `{CE : Coredet KeyEvent} `{CT : Coredet taskDocPreimage}.

Definition CanonicalPreimage (d : TaskDoc) : result bytes := Marshal (preimageOf d).

Definition CID (d : TaskDoc) : result bytes := pre ← CanonicalPreimage d; Sum pre.

Definition taskdoc_Sign (d : TaskDoc) (s : snapshot) : result TaskDoc :=
  pre ← CanonicalPreimage d;
  let '(sig, seq) := snapshot_Sign s pre in
  Ok (mkTaskDoc (d_Version d) (d_Meta d) (d_Links d) (d_Tasks d) (d_Critical d)
        (Some (mkEnvelope (sn_aid s) seq AlgEdDSA sig []))).

Definition taskdoc_Verify (d : TaskDoc) (kel : list SignedEvent) (msgTime : Z) : result unit :=
  env ← of_option (d_Envelope d) (Errf "tsir: unsigned TaskDoc");
  _ ← Platform.Validate env;
  pre ← CanonicalPreimage d;
  VerifyObject kel (env_SignerAID env) (env_KeyStateSeq env) msgTime pre (env_Sig env).

(** [t.NegativeScope.Validate()] when it is set. *)
Definition checkScope (p : option Predicate) : result unit :=
  match p with Some p => Tsir.Validate (Some p) | None => Ok tt end.

Definition Compile (d : TaskDoc) (kel : list SignedEvent) (msgTime : Z) : result CompileResult :=
  _ ← taskdoc_Verify d kel msgTime;
  refuse len (d_Tasks d) =? 0 with Errf "tsir: TaskDoc has no tasks";
  cid ← CID d;
  t ← of_option (head (d_Tasks d)) Panic;
  refuse negb (t_CouplingHint t =? 0) && ((t_CouplingHint t <? 1) || (4 <? t_CouplingHint t)) with ErrMalformed;
  _ ← checkScope (t_NegativeScope t);
  _ ← checkScope (t_PositiveScope t);
  Ok (mkCompileResult cid (t_Intent t) None (t_NegativeScope t) (t_CouplingHint t)
        (existsb (λ a, negb (beqb (ap_Type a) (str "qualitative"))) (t_Accepts t))).
End Taskdoc.
