(* ===== verification/TaskdocTheorems.v ===== *)
(** * TaskdocTheorems: what a compiled task document guarantees *)

From S2P Require Import Prelude Aid Cbor Platform Kel KelReference KelSpec KelProps Controller ControllerInv ControllerTheorems Tsir TsirTheorems Taskdoc.
Import Light.

Section Theorems.
Context `{P : Platform} `{CE : Coredet KeyEvent} `{CS : Coredet SignedEvent} `{CT : Coredet taskDocPreimage}.

Lemma checkScope_verdict p e :
  checkScope p = Ok tt → ∃ v, EvaluateScope p e = Ok v.
Proof.
  destruct p as [p|]; [|by eexists]. intros Hv.
  destruct (validated_predicate_verdict p Hv e) as [v Hvd]. by exists v.
Qed.

(** Everything the runtime gets is read from the first task. *)
Definition projection (cid : bytes) (t : Task) : CompileResult :=
  mkCompileResult cid (t_Intent t) None (t_NegativeScope t) (t_CouplingHint t)
    (existsb (λ a, negb (beqb (ap_Type a) (str "qualitative"))) (t_Accepts t)).

Record compiled (d : TaskDoc) (kel : list SignedEvent) (time : Z) (r : CompileResult) (env : Envelope)
  (pre : bytes) (t : Task) : Prop := {
  cp_envelope : d_Envelope d = Some env;
  cp_preimage : marshal (preimageOf d) = Some pre;
  cp_profile : Platform.Validate env = Ok tt;
  cp_verified : VerifyObject kel (env_SignerAID env) (env_KeyStateSeq env) time pre (env_Sig env) = Ok tt;
  cp_cid : Sum pre = Ok (cr_TaskCID r);
  cp_task : head (d_Tasks d) = Some t;
  cp_hint : 0 <= t_CouplingHint t <= 4;
  cp_negative : checkScope (t_NegativeScope t) = Ok tt;
  cp_positive : checkScope (t_PositiveScope t) = Ok tt;
  cp_result : r = projection (cr_TaskCID r) t;
}.

Lemma Compile_Ok d kel time r :
  Compile d kel time = Ok r ↔ ∃ env pre t, compiled d kel time r env pre t.
Proof.
  unfold Compile, taskdoc_Verify, CID, CanonicalPreimage, Marshal. split.
  - intros Hc. apply bind_Ok in Hc as ([] & Hv & Hc). apply bind_Ok in Hv as (env & He & Hv).
    apply of_option_Ok in He. apply bind_Ok in Hv as ([] & Hp & Hv). apply bind_Ok in Hv as (pre & Hm & Hv).
    rewrite Hm in Hc. apply of_option_Ok in Hm. apply refuse_Ok in Hc as [_ Hc].
    apply bind_Ok in Hc as (cid & Hcid & Hc). cbn [mbind result_bind] in Hcid.
    apply bind_Ok in Hc as (t & Ht & Hc). apply of_option_Ok in Ht. apply refuse_Ok in Hc as [Hh Hc].
    apply bind_Ok in Hc as ([] & Hn & Hc). apply bind_Ok in Hc as ([] & Hpos & Hc). injection Hc as <-.
    exists env, pre, t. constructor; try done. apply andb_false_iff in Hh as [Hh|Hh]; go_inv; lia.
  - intros (env & pre & t & [H1 H2 H3 H4 H5 H6 H7 H8 H9 H10]). rewrite H1, H2. cbn [of_option mbind result_bind].
    rewrite H3. cbn [mbind result_bind]. rewrite H4. cbn [mbind result_bind].
    destruct (d_Tasks d) as [|t' ts] eqn:Hts; rewrite ?Hts in H6; [done|]. injection H6 as ->.
    rewrite (proj2 (Z.eqb_neq _ _)) by (unfold len; simpl; lia). rewrite H5. cbn [of_option head mbind result_bind].
    assert (negb (t_CouplingHint t =? 0) && ((t_CouplingHint t <? 1) || (4 <? t_CouplingHint t)) = false) as ->.
    { destruct (t_CouplingHint t =? 0) eqn:E; [done|]. go_inv. simpl. apply orb_false_iff.
      rewrite !Z.ltb_ge. lia. }
    rewrite H8, H9. simpl. f_equal. symmetry. exact H10.
Qed.

(** Verify before compile.  [Compile] gives a projection only of a document whose envelope's
    signature passes [VerifyObject] over the preimage of that very document at the given time; the
    projection is of the first task, under the document's CID, its coupling hint is in range, and the
    scope gate it carries always has a verdict, whatever was done. *)
Theorem compile_verifies_first d kel time r :
  Compile d kel time = Ok r →
  (∃ env pre t, compiled d kel time r env pre t) ∧
  ∀ e, ∃ v, EvaluateScope (cr_NegativeScope r) e = Ok v.
Proof.
  intros Hc. apply Compile_Ok in Hc as (env & pre & t & Hc). split; [by exists env, pre, t|].
  intros e. rewrite (cp_result _ _ _ _ _ _ _ Hc). simpl. eapply checkScope_verdict, Hc.
Qed.

(** The CID stands for the contract.  Two documents that compile and have one CID have the same
    major version, links and tasks, and the same projection, unless two different preimages have one
    CID; a minor version, metadata or the list of critical keys may differ. *)
Theorem cid_fixes_the_projection (CI : CoredetInj taskDocPreimage) d d' kel kel' time time' r r' :
  Compile d kel time = Ok r → Compile d' kel' time' = Ok r' → cr_TaskCID r = cr_TaskCID r' →
  (∀ pre pre', marshal (preimageOf d) = Some pre → marshal (preimageOf d') = Some pre' →
     Sum pre = Sum pre' → pre = pre') →
  r = r' ∧ preimageOf d = preimageOf d'.
Proof.
  intros Hc Hc' He Hinj. apply Compile_Ok in Hc as (env & pre & t & Hc), Hc' as (env' & pre' & t' & Hc').
  assert (pre = pre') as <-.
  { apply Hinj; [apply Hc|apply Hc'|]. rewrite (cp_cid _ _ _ _ _ _ _ Hc), (cp_cid _ _ _ _ _ _ _ Hc'). congruence. }
  assert (preimageOf d = preimageOf d') as Hp by (eapply marshal_inj; [apply Hc|apply Hc']).
  split; [|done]. pose proof (f_equal tp_Tasks Hp) as Ht. simpl in Ht.
  pose proof (cp_task _ _ _ _ _ _ _ Hc) as H1. pose proof (cp_task _ _ _ _ _ _ _ Hc') as H2.
  rewrite Ht in H1. rewrite H1 in H2. injection H2 as ->.
  rewrite (cp_result _ _ _ _ _ _ _ Hc), (cp_result _ _ _ _ _ _ _ Hc'). congruence.
Qed.
End Theorems.

(** ** On a sample document

    An encoder for documents of one task with an intent and at most one scope clause; it refuses the others. *)

Definition scope_cbor (p : option Predicate) : option cbor :=
  match p with
  | None => Some CNull
  | Some (mkPredicate op [] None None None (Some (mkScopeClause verb kind (mkResourceMatch m val) None))) =>
      Some (CMap [(1, CUint op);
                  (13, CMap [(1, CUint verb); (2, CUint kind); (3, CMap [(1, CUint m); (2, CText val)])])])
  | _ => None
  end.

Definition doc_cbor (x : taskDocPreimage) : option cbor :=
  match x with
  | mkPreimage major [] [mkTask id (mkIntent summary format body) [] [] [] None neg hint] =>
      s ← scope_cbor neg;
      Some (CMap [(1, CMap [(1, CUint major)]);
                  (4, CArray [CMap [(1, CText id);
                                    (10, CMap [(1, CText summary); (2, CText format); (3, CText body)]);
                                    (15, s); (16, CUint hint)]])])
  | _ => None
  end.

#[export] Instance doc_coredet : Coredet taskDocPreimage := λ x, doc_cbor x ≫= cbor_marshal.

Lemma scope_cbor_inj p q c : scope_cbor p = Some c → scope_cbor q = Some c → p = q.
Proof. unfold scope_cbor. repeat case_match; intros; simplify_eq; done. Qed.

Lemma doc_cbor_shape x c :
  doc_cbor x = Some c → ∃ major id summary format body neg hint s,
    x = mkPreimage major [] [mkTask id (mkIntent summary format body) [] [] [] None neg hint] ∧
    scope_cbor neg = Some s ∧
    c = CMap [(1, CMap [(1, CUint major)]);
              (4, CArray [CMap [(1, CText id);
                                (10, CMap [(1, CText summary); (2, CText format); (3, CText body)]);
                                (15, s); (16, CUint hint)]])].
Proof.
  unfold doc_cbor. destruct x as [major [|] [|[id [su f b] [|] [|] [|] [|] neg hint] [|]]]; try done.
  destruct (scope_cbor neg) as [s|] eqn:Hs; [|done]. intros [= <-]. by exists major, id, su, f, b, neg, hint, s.
Qed.

Lemma doc_cbor_inj x y c : doc_cbor x = Some c → doc_cbor y = Some c → x = y.
Proof.
  intros (? & ? & ? & ? & ? & neg & ? & s & -> & Hs & ->)%doc_cbor_shape
         (? & ? & ? & ? & ? & neg' & ? & s' & -> & Hs' & E)%doc_cbor_shape.
  simplify_eq. assert (neg = neg') as -> by (by eapply scope_cbor_inj). done.
Qed.

#[export] Instance doc_coredet_inj : CoredetInj taskDocPreimage.
Proof.
  intros x y b. unfold marshal, doc_coredet. intros Hx Hy.
  destruct (doc_cbor x) as [c|] eqn:Hc; [|done]. destruct (doc_cbor y) as [d|] eqn:Hd; [|done]. simpl in *.
  pose proof (cbor_marshal_inj c d b Hx Hy) as ->. by eapply doc_cbor_inj.
Qed.

(** A document of the sample identity, signed after its first rotation; the second has other metadata. *)
Definition unsigned_doc (minor : Z) (meta : list MetaEntry) : TaskDoc :=
  mkTaskDoc (mkVersionPair 1 minor) meta []
    [mkTask (str "t1") (mkIntent [] (str "text") (str "Summarise the report.")) [] [] [] None
       (scope_of 3 1 MatchGlob "/etc/**") 2] [] None.
Definition signed_doc (minor : Z) (meta : list MetaEntry) : TaskDoc :=
  match taskdoc_Sign (unsigned_doc minor meta) sample_signer with Ok d => d | Err _ => unsigned_doc minor meta end.
Definition doc1 : TaskDoc := signed_doc 0 [].
Definition doc2 : TaskDoc := signed_doc 3 [mkMetaEntry (str "title") (str "Q3")].
Definition doc_log : list SignedEvent := [sample_icp; sample_rot].
Definition compiled1 : CompileResult :=
  match Compile doc1 doc_log 1760000150000 with
  | Ok r => r
  | Err _ => mkCompileResult [] (mkIntent [] [] []) None None 0 false
  end.

Lemma docs_compile :
  Compile doc1 doc_log 1760000150000 = Ok compiled1 ∧ Compile doc2 doc_log 1760000150000 = Ok compiled1.
Proof. split; vm_compute; reflexivity. Qed.

Lemma docs_differ : d_Meta doc1 ≠ d_Meta doc2.
Proof. vm_compute. congruence. Qed.

Lemma compile_verifies_first_witness : ∃ v, EvaluateScope (cr_NegativeScope compiled1) sample_effects = Ok v.
Proof.
  exact (proj2 (compile_verifies_first (P := platform) (CE := event_coredet) (CT := doc_coredet)
    doc1 doc_log 1760000150000 compiled1 (proj1 docs_compile)) sample_effects).
Defined.

Lemma doc_preimages pre pre' :
  marshal (preimageOf doc1) = Some pre → marshal (preimageOf doc2) = Some pre' → Sum pre = Sum pre' → pre = pre'.
Proof.
  assert (marshal (preimageOf doc1) = marshal (preimageOf doc2)) as Hm by (vm_compute; reflexivity).
  intros H1 H2 _. rewrite Hm, H2 in H1. by injection H1.
Qed.

Lemma cid_fixes_the_projection_witness : preimageOf doc1 = preimageOf doc2.
Proof.
  exact (proj2 (cid_fixes_the_projection (P := platform) (CE := event_coredet) (CT := doc_coredet)
    doc_coredet_inj doc1 doc2 doc_log doc_log 1760000150000 1760000150000 compiled1 compiled1
    (proj1 docs_compile) (proj2 docs_compile) eq_refl doc_preimages)).
Defined.
