(* ===== verification/Payment.v ===== *)
(** * Payment: the anet-credit rail (payment/payment.go)

    What a payer signs ([Authorization]), what the settling hub signs ([Receipt]), their wire forms,
    the comparisons with the clock, and the decimal spelling of amounts.  The x402 JSON objects of the
    package carry no code and are left out; the CBOR codecs of the structs are parameters. *)

From S2P Require Import Prelude Text Platform Kel Controller.

Definition SchemeCredit : bytes := str "anet-credit".
Definition AssetCredit : bytes := str "credit".
Definition CreditNetwork (hubAID : bytes) : bytes := str "hub:" ++ hubAID.

(** ** Data *)

Record authPreimage := mkAuthPreimage {
  ap_Payer : bytes;
  ap_PayTo : bytes;
  ap_Amount : Z;
  ap_Network : bytes;
  ap_Nonce : bytes;
  ap_IssuedAt : Z;
  ap_NotAfter : Z;
  ap_InteractionID : bytes;
}.

Record Authorization := mkAuthorization {
  au_Payer : bytes;
  au_PayTo : bytes;
  au_Amount : Z;
  au_Network : bytes;
  au_Nonce : bytes;
  au_IssuedAt : Z;
  au_NotAfter : Z;
  au_InteractionID : bytes;
  au_Envelope : option Envelope;
}.

Record wireAuthorization := mkWireAuthorization {
  wa_Auth : authPreimage;
  wa_Envelope : option Envelope;
}.

Record receiptPreimage := mkReceiptPreimage {
  rp_AuthID : bytes;
  rp_Payer : bytes;
  rp_PayTo : bytes;
  rp_Amount : Z;
  rp_Network : bytes;
  rp_SettleAt : Z;
}.

Record Receipt := mkReceipt {
  r_AuthID : bytes;
  r_Payer : bytes;
  r_PayTo : bytes;
  r_Amount : Z;
  r_Network : bytes;
  r_SettleAt : Z;
  r_Envelope : option Envelope;
}.

Record wireReceipt := mkWireReceipt {
  wr_Receipt : receiptPreimage;
  wr_Envelope : option Envelope;
}.

Definition ErrUnsigned : error := Errf "payment: unsigned authorization".
Definition ErrExpired : error := Errf "payment: authorization outside its validity window".
Definition ErrBadWindow : error := Errf "payment: invalid validity window".
Definition ErrWrongPayer : error := Errf "payment: envelope signer is not the payer".

Definition auth_canonical (a : Authorization) : authPreimage :=
  mkAuthPreimage (au_Payer a) (au_PayTo a) (au_Amount a) (au_Network a) (au_Nonce a) (au_IssuedAt a)
    (au_NotAfter a) (au_InteractionID a).

Definition receipt_canonical (r : Receipt) : receiptPreimage :=
  mkReceiptPreimage (r_AuthID r) (r_Payer r) (r_PayTo r) (r_Amount r) (r_Network r) (r_SettleAt r).

(** ** The clock

    The times are [int64]; [uint64(x)] and the difference of two [uint64] wrap. *)

Definition ClockSkew : Z := 2 * 60 * 1000.
Definition MaxAuthWindow : Z := 24 * 60 * 60 * 1000000000.

Definition pastWithSkew (now t : Z) : bool := (t <? now) && (ClockSkew <? u64 (u64 now - u64 t)).
Definition beforeWithSkew (now t : Z) : bool := (now <? t) && (ClockSkew <? u64 (u64 t - u64 now)).

(** ** Amounts *)

Definition Amount (n : Z) : bytes := decimal n.

Definition ParseAmount (s : bytes) : result Z :=
  refuse (1 <? len s) && bool_decide (head s = Some 48) with Errf "payment: amount has a leading zero";
  map_err (Wrap "payment: amount is not a whole number of units") (ParseUint s 63).

(** ** Authorizations and receipts *)

Section Payment.
Context `{P : Platform} `{CE : Coredet KeyEvent}.
Context `{CA : Coredet authPreimage} `{CR : Coredet receiptPreimage}.
Context `{CWA : Coredet wireAuthorization} `{CWR : Coredet wireReceipt}.
Context `{DWA : Strict wireAuthorization} `{DWR : Strict wireReceipt}.

Definition auth_CanonicalPreimage (a : Authorization) : result bytes := Marshal (auth_canonical a).

Definition auth_ID (a : Authorization) : result bytes := pre ← auth_CanonicalPreimage a; Sum pre.

Definition set_payer (aid : bytes) (a : Authorization) : Authorization :=
  mkAuthorization aid (au_PayTo a) (au_Amount a) (au_Network a) (au_Nonce a) (au_IssuedAt a)
    (au_NotAfter a) (au_InteractionID a) (au_Envelope a).
Definition set_envelope (env : option Envelope) (a : Authorization) : Authorization :=
  mkAuthorization (au_Payer a) (au_PayTo a) (au_Amount a) (au_Network a) (au_Nonce a) (au_IssuedAt a)
    (au_NotAfter a) (au_InteractionID a) env.

(** [Sign] under a snapshot of the signer; the receiver after the call. *)
Definition auth_Sign (a : Authorization) (s : snapshot) : result Authorization :=
  let a := set_payer (sn_aid s) a in
  pre ← auth_CanonicalPreimage a;
  let '(sig, seq) := snapshot_Sign s pre in
  Ok (set_envelope (Some (mkEnvelope (sn_aid s) seq AlgEdDSA sig [])) a).

Definition auth_Verify (a : Authorization) (kel : list SignedEvent) (now : Z) : result unit :=
  env ← of_option (au_Envelope a) ErrUnsigned;
  _ ← Validate env;
  refuse negb (beqb (env_SignerAID env) (au_Payer a)) with ErrWrongPayer;
  refuse (au_IssuedAt a <=? 0) || (au_NotAfter a <=? au_IssuedAt a) with ErrBadWindow;
  refuse beforeWithSkew now (au_IssuedAt a) || pastWithSkew now (au_NotAfter a)
    with Wrap "payment: valid from..to, now" ErrExpired;
  pre ← auth_CanonicalPreimage a;
  VerifyObject kel (au_Payer a) (env_KeyStateSeq env) (u64 now) pre (env_Sig env).

Definition auth_Marshal (a : Authorization) : result bytes :=
  Marshal (mkWireAuthorization (auth_canonical a) (au_Envelope a)).

Definition UnmarshalAuthorization (b : bytes) : result Authorization :=
  w ← UnmarshalStrict b;
  let p := wa_Auth w in
  Ok (mkAuthorization (ap_Payer p) (ap_PayTo p) (ap_Amount p) (ap_Network p) (ap_Nonce p)
        (ap_IssuedAt p) (ap_NotAfter p) (ap_InteractionID p) (wa_Envelope w)).

Definition receipt_CanonicalPreimage (r : Receipt) : result bytes := Marshal (receipt_canonical r).

Definition set_receipt_envelope (env : option Envelope) (r : Receipt) : Receipt :=
  mkReceipt (r_AuthID r) (r_Payer r) (r_PayTo r) (r_Amount r) (r_Network r) (r_SettleAt r) env.

Definition receipt_Sign (r : Receipt) (s : snapshot) : result Receipt :=
  pre ← receipt_CanonicalPreimage r;
  let '(sig, seq) := snapshot_Sign s pre in
  Ok (set_receipt_envelope (Some (mkEnvelope (sn_aid s) seq AlgEdDSA sig [])) r).

Definition receipt_Verify (r : Receipt) (kel : list SignedEvent) (signerAID : bytes) (now : Z) : result unit :=
  env ← of_option (r_Envelope r) ErrUnsigned;
  _ ← Validate env;
  refuse negb (beqb signerAID []) && negb (beqb (env_SignerAID env) signerAID)
    with Errf "payment: receipt signed by another than expected";
  pre ← receipt_CanonicalPreimage r;
  VerifyObject kel (env_SignerAID env) (env_KeyStateSeq env) (u64 now) pre (env_Sig env).

Definition receipt_Marshal (r : Receipt) : result bytes :=
  Marshal (mkWireReceipt (receipt_canonical r) (r_Envelope r)).

Definition UnmarshalReceipt (b : bytes) : result Receipt :=
  w ← UnmarshalStrict b;
  let p := wr_Receipt w in
  Ok (mkReceipt (rp_AuthID p) (rp_Payer p) (rp_PayTo p) (rp_Amount p) (rp_Network p) (rp_SettleAt p)
        (wr_Envelope w)).
End Payment.
