(* ===== verification/Evidence.v ===== *)
(** * Evidence: receipts, reviews and their attestations (evidence/)

    The provider signs a receipt for a task, the requester rates it with a one-time key the receipt
    carries, and a hub attests that it stored the review.  Each object travels as the bytes of its body
    and the signature beside them.  The commitments of commit.go hide the parties; [CheckV2] is the
    check that a receipt and a review are two halves of one task.  The CBOR codecs are parameters. *)

From S2P Require Import Prelude Platform Kel Controller.

Definition ReceiptType : bytes := str "anet.receipt/2".
Definition ReviewType : bytes := str "anet.review/2".
Definition ReviewAttType : bytes := str "anet.review-att/1".

Definition CommitSize : Z := 32.
Definition ReviewKeySize : Z := PublicKeySize.
Definition RSaltSize : Z := 32.
Definition TagKeySize : Z := 32.
Definition TagSize : Z := 16.
Definition RatingMin : Z := 1.
Definition RatingMax : Z := 5.
Definition MaxCommentChars : Z := 280.
Definition DayMS : Z := 86400000.

Definition ErrMalformed : error := Errf "evidence: not a well-formed evidence object".
Definition ErrRating : error := Errf "evidence: the rating is not between 1 and 5".
Definition ErrComment : error := Errf "evidence: the comment is longer than 280 characters".
Definition ErrSigner : error :=
  Errf "evidence: signed by someone other than the party the object names".
Definition ErrSignature : error := Errf "evidence: the signature does not verify".
Definition ErrNUL : error :=
  Errf "evidence: an AID or commitment input holds U+0000, or a commitment input is empty".
Definition ErrNotThisReceipt : error := Errf "evidence: the review is not about this receipt".

Definition malformed (why : string) : error := Wrap why ErrMalformed.

(** ** Data *)

Record ReceiptBody := mkReceiptBody {
  rb_Type : bytes;
  rb_IXCommit : bytes;
  rb_RequesterCommit : bytes;
  rb_ReviewKey : bytes;
  rb_Provider : bytes;
  rb_RequestCID : bytes;
  rb_ResultCID : bytes;
  rb_CompletedDay : Z;
}.

Record ReceiptWire := mkReceiptWire { rw_Body : bytes; rw_Env : option Envelope }.

Record ReviewBody := mkReviewBody {
  vb_Type : bytes;
  vb_ReceiptCID : bytes;
  vb_Subject : bytes;
  vb_Rating : Z;
  vb_Comment : bytes;
  vb_CreatedDay : Z;
}.

Record ReviewWire := mkReviewWire { vw_Body : bytes; vw_Pub : bytes; vw_Sig : bytes }.

Record ReviewAttBody := mkReviewAttBody {
  tb_Type : bytes;
  tb_ReviewCID : bytes;
  tb_ReceiptCID : bytes;
  tb_Subject : bytes;
  tb_Tag : bytes;
  tb_TagKeyID : Z;
  tb_Day : Z;
  tb_Hub : bytes;
}.

Record ReviewAttWire := mkReviewAttWire { tw_Body : bytes; tw_Env : option Envelope }.

(** ** Field checks *)

Definition textField (v : bytes) : result unit :=
  refuse beqb v [] with malformed "a field is empty";
  refuse has_byte 0 v with malformed "a field holds U+0000";
  Ok tt.

Definition sizedField (b : bytes) (n : Z) : result unit :=
  refuse negb (len b =? n) with malformed "the size of a field";
  Ok tt.

Definition envelopeOf (env : option Envelope) : result unit :=
  env ← of_option env (malformed "no signature envelope");
  _ ← map_err (λ _, malformed "the envelope") (Validate env);
  _ ← textField (env_SignerAID env);
  refuse negb (beqb (env_PreimageRef env) []) with malformed "the envelope names a preimage reference";
  Ok tt.

Definition DayStart (day : Z) : option Z :=
  if MaxUint64 / DayMS <? day then None else Some (u64 (day * DayMS)).

Definition receipt_check (b : ReceiptBody) : result unit :=
  refuse negb (beqb (rb_Type b) ReceiptType) with malformed "receipt type tag";
  _ ← sizedField (rb_IXCommit b) CommitSize;
  _ ← sizedField (rb_RequesterCommit b) CommitSize;
  _ ← sizedField (rb_ReviewKey b) ReviewKeySize;
  _ ← textField (rb_Provider b);
  _ ← textField (rb_RequestCID b);
  textField (rb_ResultCID b).

Definition receipt_withType (b : ReceiptBody) : ReceiptBody :=
  mkReceiptBody (if beqb (rb_Type b) [] then ReceiptType else rb_Type b) (rb_IXCommit b)
    (rb_RequesterCommit b) (rb_ReviewKey b) (rb_Provider b) (rb_RequestCID b) (rb_ResultCID b)
    (rb_CompletedDay b).

Definition set_provider (aid : bytes) (b : ReceiptBody) : ReceiptBody :=
  mkReceiptBody (rb_Type b) (rb_IXCommit b) (rb_RequesterCommit b) (rb_ReviewKey b) aid
    (rb_RequestCID b) (rb_ResultCID b) (rb_CompletedDay b).

Definition review_check (b : ReviewBody) : result unit :=
  refuse negb (beqb (vb_Type b) ReviewType) with malformed "review type tag";
  _ ← textField (vb_ReceiptCID b);
  refuse has_byte 0 (vb_Subject b) with Wrap "review subject" ErrNUL;
  _ ← textField (vb_Subject b);
  refuse (vb_Rating b <? RatingMin) || (RatingMax <? vb_Rating b) with Wrap "the rating" ErrRating;
  refuse MaxCommentChars <? RuneCountInString (vb_Comment b) with Wrap "the comment" ErrComment;
  Ok tt.

Definition review_withType (b : ReviewBody) : ReviewBody :=
  mkReviewBody (if beqb (vb_Type b) [] then ReviewType else vb_Type b) (vb_ReceiptCID b) (vb_Subject b)
    (vb_Rating b) (vb_Comment b) (vb_CreatedDay b).

Definition att_check (b : ReviewAttBody) : result unit :=
  refuse negb (beqb (tb_Type b) ReviewAttType) with malformed "attestation type tag";
  _ ← textField (tb_ReviewCID b);
  _ ← textField (tb_ReceiptCID b);
  _ ← textField (tb_Subject b);
  _ ← sizedField (tb_Tag b) TagSize;
  textField (tb_Hub b).

Definition att_withType (b : ReviewAttBody) : ReviewAttBody :=
  mkReviewAttBody (if beqb (tb_Type b) [] then ReviewAttType else tb_Type b) (tb_ReviewCID b)
    (tb_ReceiptCID b) (tb_Subject b) (tb_Tag b) (tb_TagKeyID b) (tb_Day b) (tb_Hub b).

Definition set_hub (aid : bytes) (b : ReviewAttBody) : ReviewAttBody :=
  mkReviewAttBody (tb_Type b) (tb_ReviewCID b) (tb_ReceiptCID b) (tb_Subject b) (tb_Tag b)
    (tb_TagKeyID b) (tb_Day b) aid.

(** [decodeExact]: strict decoding, and the value encodes back to exactly the input. *)
Definition decodeExact {A} `{Coredet A, Strict A} (raw : bytes) : result A :=
  refuse beqb raw [] with malformed "no bytes";
  v ← map_err (λ _, malformed "does not decode") (UnmarshalStrict raw);
  refuse negb (bool_decide (marshal v = Some raw)) with malformed "not in its one canonical encoding";
  Ok v.

Section Evidence.
Context `{P : Platform} `{CE : Coredet KeyEvent}.
Context `{CRB : Coredet ReceiptBody} `{CRW : Coredet ReceiptWire} `{DRB : Strict ReceiptBody} `{DRW : Strict ReceiptWire}.
Context `{CVB : Coredet ReviewBody} `{CVW : Coredet ReviewWire} `{DVB : Strict ReviewBody} `{DVW : Strict ReviewWire}.
Context `{CTB : Coredet ReviewAttBody} `{CTW : Coredet ReviewAttWire} `{DTB : Strict ReviewAttBody} `{DTW : Strict ReviewAttWire}.

(** ** Receipts *)

Definition receipt_Marshal (b : ReceiptBody) : result bytes :=
  let out := receipt_withType b in
  _ ← receipt_check out;
  Marshal out.

Definition UnmarshalReceiptBody (raw : bytes) : result ReceiptBody :=
  b ← decodeExact raw;
  _ ← receipt_check b;
  Ok b.

Definition receipt_CID (b : ReceiptBody) : result bytes := raw ← receipt_Marshal b; Sum raw.

(** The signature of a body's bytes under a snapshot of the signer. *)
Definition seal (s : snapshot) (raw : bytes) : option Envelope :=
  let '(sig, seq) := snapshot_Sign s raw in
  Some (mkEnvelope (sn_aid s) seq AlgEdDSA sig []).

Definition receipt_Sign (b : ReceiptBody) (s : snapshot) : result ReceiptWire :=
  let body := receipt_withType b in
  body ← (if beqb (rb_Provider body) [] then Ok (set_provider (sn_aid s) body)
          else refuse negb (beqb (rb_Provider body) (sn_aid s))
                 with Wrap "the receipt names another provider" ErrSigner; Ok body);
  raw ← receipt_Marshal body;
  Ok (mkReceiptWire raw (seal s raw)).

Definition receipt_wire_check (w : ReceiptWire) : result unit :=
  _ ← UnmarshalReceiptBody (rw_Body w);
  envelopeOf (rw_Env w).

Definition receipt_wire_Marshal (w : ReceiptWire) : result bytes :=
  _ ← receipt_wire_check w;
  Marshal w.

Definition UnmarshalReceiptWire (raw : bytes) : result ReceiptWire :=
  w ← decodeExact raw;
  _ ← receipt_wire_check w;
  Ok w.

Definition receipt_Open (w : ReceiptWire) : result ReceiptBody := UnmarshalReceiptBody (rw_Body w).

Definition receipt_wire_CID (w : ReceiptWire) : result bytes :=
  refuse len (rw_Body w) =? 0 with malformed "receipt: no body";
  Sum (rw_Body w).

Definition receipt_Verify (w : option ReceiptWire) (providerKEL : list SignedEvent) (msgTime : Z)
  : result ReceiptBody :=
  w ← of_option w (malformed "no receipt");
  body ← receipt_Open w;
  _ ← envelopeOf (rw_Env w);
  env ← of_option (rw_Env w) Panic;
  refuse negb (beqb (env_SignerAID env) (rb_Provider body))
    with Wrap "the receipt's signer is not its provider" ErrSigner;
  _ ← map_err (unless_panic (Wrap2 "receipt" ErrSignature))
        (VerifyObject providerKEL (env_SignerAID env) (env_KeyStateSeq env) msgTime (rw_Body w) (env_Sig env));
  Ok body.

(** ** Reviews *)

Definition review_Marshal (b : ReviewBody) : result bytes :=
  let out := review_withType b in
  _ ← review_check out;
  Marshal out.

Definition UnmarshalReviewBody (raw : bytes) : result ReviewBody :=
  b ← decodeExact raw;
  _ ← review_check b;
  Ok b.

Definition review_CID (b : ReviewBody) : result bytes := raw ← review_Marshal b; Sum raw.

Definition review_Sign (b : ReviewBody) (reviewKey : bytes) : result ReviewWire :=
  refuse negb (len reviewKey =? PrivateKeySize) with malformed "the size of the review key";
  raw ← review_Marshal b;
  Ok (mkReviewWire raw (ed25519_public reviewKey) (ed25519_sign reviewKey raw)).

Definition review_wire_check (w : ReviewWire) : result unit :=
  _ ← UnmarshalReviewBody (vw_Body w);
  _ ← sizedField (vw_Pub w) ReviewKeySize;
  sizedField (vw_Sig w) SignatureSize.

Definition review_wire_Marshal (w : ReviewWire) : result bytes :=
  _ ← review_wire_check w;
  Marshal w.

Definition UnmarshalReviewWire (raw : bytes) : result ReviewWire :=
  w ← decodeExact raw;
  _ ← review_wire_check w;
  Ok w.

Definition review_Open (w : ReviewWire) : result ReviewBody := UnmarshalReviewBody (vw_Body w).

Definition review_wire_CID (w : ReviewWire) : result bytes :=
  refuse len (vw_Body w) =? 0 with malformed "review: no body";
  Sum (vw_Body w).

Definition review_Verify (w : option ReviewWire) (reviewKey : bytes) : result ReviewBody :=
  w ← of_option w (malformed "no review");
  refuse negb (len reviewKey =? ReviewKeySize) with malformed "the size of review_key";
  body ← review_Open w;
  refuse negb (beqb (vw_Pub w) reviewKey) with Wrap "the review's key is not the receipt's" ErrSigner;
  _ ← map_err (unless_panic (Wrap2 "review" ErrSignature)) (Verify (vw_Pub w) (vw_Body w) (vw_Sig w));
  Ok body.

(** ** Attestations *)

Definition att_Marshal (b : ReviewAttBody) : result bytes :=
  let out := att_withType b in
  _ ← att_check out;
  Marshal out.

Definition UnmarshalReviewAttBody (raw : bytes) : result ReviewAttBody :=
  b ← decodeExact raw;
  _ ← att_check b;
  Ok b.

Definition att_CID (b : ReviewAttBody) : result bytes := raw ← att_Marshal b; Sum raw.

Definition att_Sign (b : ReviewAttBody) (s : snapshot) : result ReviewAttWire :=
  let body := att_withType b in
  body ← (if beqb (tb_Hub body) [] then Ok (set_hub (sn_aid s) body)
          else refuse negb (beqb (tb_Hub body) (sn_aid s))
                 with Wrap "the attestation names another hub" ErrSigner; Ok body);
  raw ← att_Marshal body;
  Ok (mkReviewAttWire raw (seal s raw)).

Definition att_wire_check (w : ReviewAttWire) : result unit :=
  _ ← UnmarshalReviewAttBody (tw_Body w);
  envelopeOf (tw_Env w).

Definition att_wire_Marshal (w : ReviewAttWire) : result bytes :=
  _ ← att_wire_check w;
  Marshal w.

Definition UnmarshalReviewAttWire (raw : bytes) : result ReviewAttWire :=
  w ← decodeExact raw;
  _ ← att_wire_check w;
  Ok w.

Definition att_Open (w : ReviewAttWire) : result ReviewAttBody := UnmarshalReviewAttBody (tw_Body w).

Definition att_Verify (w : option ReviewAttWire) (hubKEL : list SignedEvent) (msgTime : Z)
  : result ReviewAttBody :=
  w ← of_option w (malformed "no attestation");
  body ← att_Open w;
  _ ← envelopeOf (tw_Env w);
  env ← of_option (tw_Env w) Panic;
  refuse negb (beqb (env_SignerAID env) (tb_Hub body))
    with Wrap "the attestation's signer is not its hub" ErrSigner;
  _ ← map_err (unless_panic (Wrap2 "attestation" ErrSignature))
        (VerifyObject hubKEL (env_SignerAID env) (env_KeyStateSeq env) msgTime (tw_Body w) (env_Sig env));
  Ok body.

(** ** The interlock *)

Definition CheckV2 (receipt : option ReceiptWire) (review : option ReviewWire)
  (providerKEL : list SignedEvent) : result (ReceiptBody * ReviewBody) :=
  refuse bool_decide (receipt = None) || bool_decide (review = None)
    with malformed "an interlock needs both a receipt and a review";
  w ← of_option receipt Panic;
  rc ← receipt_Open w;
  at_ ← of_option (DayStart (rb_CompletedDay rc)) (malformed "receipt completed_day is not a day");
  _ ← receipt_Verify receipt providerKEL at_;
  rv ← review_Verify review (rb_ReviewKey rc);
  receiptCID ← receipt_wire_CID w;
  refuse negb (beqb (vb_ReceiptCID rv) receiptCID) with Wrap "another receipt" ErrNotThisReceipt;
  refuse negb (beqb (vb_Subject rv) (rb_Provider rc)) with Wrap "another subject" ErrNotThisReceipt;
  Ok (rc, rv).

(** ** Commitments (commit.go) *)

Definition labelIXCommit : bytes := str "anet-receipt-ix/v2".
Definition labelRequesterCommit : bytes := str "anet-receipt-requester/v2".
Definition labelReviewTag : bytes := str "anet-review-tag/v1".
Definition labelSettleGuard : bytes := str "anet-settle-guard/v1".

Definition commitText (v : bytes) : result unit :=
  refuse beqb v [] with Wrap "is empty" ErrNUL;
  refuse has_byte 0 v with Wrap "holds U+0000" ErrNUL;
  Ok tt.

(** The bytes written into the hash. *)
Definition commit_input (label a b : bytes) : bytes := label ++ [0] ++ a ++ [0] ++ b.

Definition IXCommit (ix nonce : bytes) : result bytes :=
  _ ← commitText ix;
  _ ← commitText nonce;
  Ok (sha256 (commit_input labelIXCommit ix nonce)).

Definition RequesterCommit (requesterAID rsalt : bytes) : result bytes :=
  _ ← commitText requesterAID;
  refuse negb (len rsalt =? RSaltSize) with Wrap "the size of rsalt" ErrMalformed;
  Ok (sha256 (commit_input labelRequesterCommit requesterAID rsalt)).

Definition ReviewTag (tagKey reviewerAID subjectAID : bytes) : result bytes :=
  refuse negb (len tagKey =? TagKeySize) with Wrap "the size of the tag key" ErrMalformed;
  _ ← commitText reviewerAID;
  _ ← commitText subjectAID;
  Ok (take (Z.to_nat TagSize) (hmac_sha256 tagKey (commit_input labelReviewTag reviewerAID subjectAID))).

Definition SettleGuard (payer payBind : bytes) : result bytes :=
  _ ← commitText payer;
  _ ← commitText payBind;
  Ok (sha256 (commit_input labelSettleGuard payer payBind)).
End Evidence.
