(* ===== verification/Delegation.v ===== *)
(** * Delegation: the messages of a delegated task (delegation/)

    The bodies that ride the relay (request, result, chat message, status, card exchange) with the
    rule they decode by and the checks of their shape; the task binding the requester puts into the
    document it signs; and the two verifications: the provider's of a request
    ([VerifyDelegateReqWithKEL]) and the requester's of a result ([VerifyResultForRequest]).  The CBOR
    codecs of the structs are parameters. *)

From S2P Require Import Prelude Platform Kel Tsir Taskdoc Relayauth Evidence.

Definition StatusQueued : bytes := str "queued".
Definition StatusDone : bytes := str "done".
Definition StatusFailed : bytes := str "failed".

Definition ErrBody : error := Errf "delegation: not a well-formed body".
Definition bodyErr (why : string) : error := Wrap why ErrBody.

(** ** Bodies *)

Record Attachment := mkAttachment {
  at_Name : bytes; at_Mime : bytes; at_Size : Z; at_CID : bytes; at_Data : bytes;
}.

Record DelegateReq := mkDelegateReq {
  dr_TaskDoc : bytes;
  dr_Envelope : option Envelope;
  dr_InteractionID : bytes;
  dr_Attachments : list Attachment;
  dr_ContextID : bytes;
  dr_Metadata : bytes;
}.

Record ReplyMsg := mkReplyMsg {
  ry_Kind : bytes; ry_Body : bytes; ry_Attachments : list Attachment; ry_MsgID : bytes;
}.

Record ResultResp := mkResultResp {
  rs_Status : bytes;
  rs_Deliverable : bytes;
  rs_Receipt : bytes;
  rs_Metadata : bytes;
  rs_Reply : option ReplyMsg;
}.

Record ChatMsg := mkChatMsg {
  cm_Kind : bytes;
  cm_Body : bytes;
  cm_Attachments : list Attachment;
  cm_StreamSeq : Z;
  cm_StreamAtMS : Z;
  cm_ReasoningBody : bytes;
  cm_ReasoningStreamAtMS : Z;
  cm_MsgID : bytes;
  cm_Metadata : bytes;
  cm_Omitted : Z;
  cm_ReasoningOmitted : Z;
  cm_Answers : bytes;
}.

Record StatusMsg := mkStatusMsg { sm_State : bytes; sm_Text : bytes; sm_Metadata : bytes; sm_At : Z }.

Record CardResp := mkCardResp { cr_Card : bytes; cr_Error : bytes }.

Definition ChatText : bytes := str "text".
Definition ChatEndRequest : bytes := str "end_request".
Definition KindCancel : bytes := str "cancel".
Definition ChatStreamPreview : bytes := str "stream_preview".
Definition MaxPreviewTail : Z := 8192.
Definition MaxPreviewIDLen : Z := 256.

(** ** Shapes *)

Definition ValidateReply (r : option ReplyMsg) : result unit :=
  r ← of_option r (bodyErr "no reply");
  refuse negb (beqb (ry_Kind r) ChatText) with bodyErr "the kind of a reply";
  refuse beqb (ry_MsgID r) [] with bodyErr "a reply carries no message id (key 9)";
  refuse negb (ValidString (ry_Body r)) with bodyErr "a reply's body is not valid UTF-8";
  Ok tt.

(** The lowest preview-only key a message carries, or 0. *)
Definition previewKey (m : ChatMsg) : Z :=
  if negb (cm_StreamSeq m =? 0) then 4
  else if negb (cm_StreamAtMS m =? 0) then 5
  else if negb (beqb (cm_ReasoningBody m) []) then 6
  else if negb (cm_ReasoningStreamAtMS m =? 0) then 7
  else if negb (cm_Omitted m =? 0) then 11
  else if negb (cm_ReasoningOmitted m =? 0) then 12
  else if negb (beqb (cm_Answers m) []) then 13
  else 0.

(** The loop over the two tails. *)
Fixpoint checkTails (tails : list bytes) : result unit :=
  match tails with
  | [] => Ok tt
  | text :: tails =>
      refuse MaxPreviewTail <? len text with bodyErr "the length of a preview tail";
      refuse negb (ValidString text) with bodyErr "a preview tail is not valid UTF-8";
      checkTails tails
  end.

Definition ValidatePreview (m : option ChatMsg) : result unit :=
  m ← of_option m (bodyErr "no preview frame");
  refuse negb (beqb (cm_Kind m) ChatStreamPreview) with bodyErr "not a preview frame";
  refuse 0 <? len (cm_Attachments m) with bodyErr "a preview frame carries attachments (key 3)";
  refuse 0 <? len (cm_Metadata m) with bodyErr "a preview frame carries metadata (key 10)";
  _ ← checkTails [cm_Body m; cm_ReasoningBody m];
  refuse cm_StreamSeq m =? 0 with bodyErr "a preview frame needs a stream_seq above 0 (key 4)";
  refuse cm_StreamAtMS m =? 0 with bodyErr "a preview frame needs stream_at_ms (key 5)";
  refuse beqb (cm_MsgID m) [] with bodyErr "a preview frame needs a msg_id (key 9)";
  refuse beqb (cm_Answers m) [] with bodyErr "a preview frame needs answers (key 13)";
  refuse MaxPreviewIDLen <? len (cm_MsgID m) with bodyErr "the length of msg_id (key 9)";
  refuse MaxPreviewIDLen <? len (cm_Answers m) with bodyErr "the length of answers (key 13)";
  Ok tt.

(** Task states (status.go). *)
Definition StateSubmitted : bytes := str "submitted".
Definition StateWorking : bytes := str "working".
Definition StateInputRequired : bytes := str "input-required".
Definition StateRejected : bytes := str "rejected".
Definition StateCanceled : bytes := str "canceled".
Definition StateFailed : bytes := str "failed".

Definition ValidStatusState (state : bytes) : bool :=
  existsb (beqb state)
    [StateSubmitted; StateWorking; StateInputRequired; StateRejected; StateCanceled; StateFailed].

(** The card exchange (card.go). *)
Definition CardNotConfigured : bytes := str "not_configured".
Definition CardBusy : bytes := str "busy".
Definition MaxCardBytes : Z := 64 * 1024.
Definition ErrCard : error := Errf "delegation: not a well-formed card message".
Definition cardGetBytes : bytes := [160].

Definition CardGet_Marshal : result bytes := Ok cardGetBytes.
Definition UnmarshalCardGet (b : bytes) : result unit :=
  refuse negb (beqb b cardGetBytes) with Wrap "a card request is the empty map" ErrCard;
  Ok tt.

Definition card_check (r : CardResp) : result unit :=
  refuse (0 <? len (cr_Card r)) && negb (beqb (cr_Error r) []) with Wrap "a card and an error" ErrCard;
  refuse MaxCardBytes <? len (cr_Card r) with Wrap "the length of the card" ErrCard;
  if 0 <? len (cr_Card r) then Ok tt
  else if beqb (cr_Error r) CardNotConfigured || beqb (cr_Error r) CardBusy then Ok tt
  else if beqb (cr_Error r) [] then Err (Wrap "neither a card nor an error" ErrCard)
  else Err (Wrap "an unknown card error" ErrCard).

(** ** The task binding (binding.go) *)

Definition ContextNonce : bytes := str "anet.nonce".
Definition ContextRequesterCommit : bytes := str "anet.requester_commit".
Definition ContextReviewKey : bytes := str "anet.review_key".
Definition bindingVisibility : bytes := str "private".
Definition bindingFormat : bytes := str "text".
Definition ErrTaskBinding : error :=
  Errf "delegation: the TaskDoc does not carry a well-formed task binding".
Definition bindingErr (why : string) : error := Wrap why ErrTaskBinding.

Record TaskBinding := mkTaskBinding {
  bd_Nonce : bytes;
  bd_RequesterCommit : bytes;
  bd_ReviewKey : bytes;
}.

Definition b64Len32 : Z := EncodedLen 32.
Definition decode32 (v : bytes) : result bytes :=
  refuse negb (len v =? b64Len32) with bindingErr "the length of a base64url value";
  b ← of_option (DecodeString v) (bindingErr "not 32 bytes in unpadded base64url");
  refuse negb (len b =? 32) with bindingErr "not 32 bytes in unpadded base64url";
  Ok b.

(** One context of the loop over the first task's contexts; [found] is the map it fills. *)
Definition binding_key (k : bytes) : bool :=
  existsb (beqb k) [ContextNonce; ContextRequesterCommit; ContextReviewKey].
Definition readContext (found : gmap (list Z) (list Z)) (c : TaskContext) : result (gmap (list Z) (list Z)) :=
  if negb (binding_key (cx_Key c)) then Ok found
  else
    refuse bool_decide (is_Some (found !! cx_Key c)) with bindingErr "a context appears twice";
    refuse negb (beqb (cx_Visibility c) bindingVisibility) with bindingErr "a context is not private";
    refuse negb (beqb (cx_Format c) []) && negb (beqb (cx_Format c) bindingFormat)
      with bindingErr "the format of a context";
    refuse negb (beqb (cx_Src c) []) with bindingErr "a context points elsewhere";
    Ok (<[cx_Key c := cx_Value c]> found).
Fixpoint readContexts (found : gmap (list Z) (list Z)) (cs : list TaskContext) : result (gmap (list Z) (list Z)) :=
  match cs with
  | [] => Ok found
  | c :: cs => found ← readContext found c; readContexts found cs
  end.

Definition nonceOk (nonce : bytes) : bool := negb (beqb nonce [] || has_byte 0 nonce).

Definition ReadTaskBinding (td : option TaskDoc) : result TaskBinding :=
  td ← of_option td (bindingErr "the TaskDoc has no task");
  t ← of_option (head (d_Tasks td)) (bindingErr "the TaskDoc has no task");
  found ← readContexts ∅ (t_Contexts t);
  nonce ← of_option (found !! ContextNonce) (bindingErr "anet.nonce is missing");
  rc ← of_option (found !! ContextRequesterCommit) (bindingErr "anet.requester_commit is missing");
  rk ← of_option (found !! ContextReviewKey) (bindingErr "anet.review_key is missing");
  refuse negb (nonceOk nonce) with bindingErr "anet.nonce is empty or holds U+0000";
  rc ← decode32 rc;
  rk ← decode32 rk;
  Ok (mkTaskBinding nonce rc rk).

Definition CheckTaskBinding (td : option TaskDoc) : result unit := _ ← ReadTaskBinding td; Ok tt.

Definition bindingContext (k v : bytes) : TaskContext := mkTaskContext k v [] bindingFormat bindingVisibility.

Definition Contexts (b : TaskBinding) : result (list TaskContext) :=
  refuse negb (nonceOk (bd_Nonce b)) with bindingErr "anet.nonce is empty or holds U+0000";
  refuse negb (len (bd_RequesterCommit b) =? CommitSize) || negb (len (bd_ReviewKey b) =? ReviewKeySize)
    with bindingErr "requester_commit and review_key are 32 bytes each";
  Ok [bindingContext ContextNonce (bd_Nonce b);
      bindingContext ContextRequesterCommit (EncodeToString (bd_RequesterCommit b));
      bindingContext ContextReviewKey (EncodeToString (bd_ReviewKey b))].

Definition equal32 (a b : bytes) : bool := (len a =? 32) && beqb a b.

Definition TaskGoal (td : option TaskDoc) : bytes :=
  match (td ← td; head (d_Tasks td)) with
  | None => []
  | Some t => if negb (beqb (i_Body (t_Intent t)) []) then i_Body (t_Intent t) else i_Summary (t_Intent t)
  end.

(** ** Decoding and verifying *)

(** What [coredet.Unmarshal] reads into a document: it ignores the keys a document does not assign. *)
Class Lax (A : Type) := unmarshal_lax : bytes → option A.

Definition ErrUnverifiable : error := Errf "delegation: no provider KEL to check the receipt against".
Definition ErrRequestMismatch : error := Errf "delegation: receipt is for another request".
Definition ErrReceiptMismatch : error := Errf "delegation: the receipt is not for this task".

Record ResultCheck := mkResultCheck {
  ck_IX : bytes;
  ck_Provider : bytes;
  ck_TaskDoc : bytes;
  ck_DelegatedDay : Z;
  ck_Today : Z;
}.

(** The rule every body follows: strict, and the one canonical encoding of what it decodes to. *)
Definition decodeBody {A} `{Coredet A, Strict A} (b : bytes) : result A :=
  v ← map_err (λ _, bodyErr "does not decode") (UnmarshalStrict b);
  refuse negb (bool_decide (marshal v = Some b)) with bodyErr "not in its one canonical encoding";
  Ok v.

Section Delegation.
Context `{P : Platform} `{CE : Coredet KeyEvent} `{CTP : Coredet taskDocPreimage}.
Context `{CT : Coredet TaskDoc} `{DT : Strict TaskDoc} `{LT : Lax TaskDoc}.
Context `{CDR : Coredet DelegateReq} `{DDR : Strict DelegateReq} `{CRS : Coredet ResultResp} `{DRS : Strict ResultResp}.
Context `{CCM : Coredet ChatMsg} `{DCM : Strict ChatMsg} `{CSM : Coredet StatusMsg} `{DSM : Strict StatusMsg}.
Context `{CCR : Coredet CardResp} `{DCR : Strict CardResp}.
Context `{CRB : Coredet ReceiptBody} `{CRW : Coredet ReceiptWire} `{DRB : Strict ReceiptBody} `{DRW : Strict ReceiptWire}.

Definition delegate_Marshal (r : DelegateReq) : result bytes := Marshal r.
Definition result_Marshal (r : ResultResp) : result bytes := Marshal r.
Definition chat_Marshal (m : ChatMsg) : result bytes := Marshal m.
Definition status_Marshal (m : StatusMsg) : result bytes := Marshal m.
Definition card_Marshal (r : CardResp) : result bytes := _ ← card_check r; Marshal r.

Definition decodeTaskDoc (b : bytes) : result TaskDoc :=
  doc ← map_err (Wrap "undecodable or task-less TaskDoc") (decodeBody b);
  refuse len (d_Tasks doc) =? 0 with bodyErr "undecodable or task-less TaskDoc: it has no task";
  Ok doc.

Definition UnmarshalDelegateReq (b : bytes) : result DelegateReq :=
  r ← decodeBody b;
  refuse len (dr_TaskDoc r) =? 0 with bodyErr "the delegation carries no TaskDoc";
  refuse bool_decide (dr_Envelope r = None) with bodyErr "the delegation carries no TaskDoc signature";
  refuse beqb (dr_InteractionID r) [] with bodyErr "the delegation names no interaction";
  _ ← decodeTaskDoc (dr_TaskDoc r);
  Ok r.

Definition UnmarshalResultResp (b : bytes) : result ResultResp :=
  r ← decodeBody b;
  refuse negb (beqb (rs_Status r) StatusDone || beqb (rs_Status r) StatusFailed)
    with bodyErr "the status of a result";
  match rs_Reply r with
  | None => Ok r
  | Some reply =>
      refuse negb (beqb (rs_Status r) StatusDone) with bodyErr "only a done result carries a reply";
      _ ← ValidateReply (Some reply);
      Ok r
  end.

Definition UnmarshalChatMsg (b : bytes) : result ChatMsg :=
  m ← decodeBody b;
  let k := cm_Kind m in
  refuse negb (beqb k ChatText || beqb k ChatEndRequest || beqb k KindCancel || beqb k ChatStreamPreview)
    with bodyErr "the kind of a message";
  refuse negb (beqb k ChatStreamPreview) && negb (previewKey m =? 0)
    with bodyErr "only a preview frame may carry a preview key";
  Ok m.

Definition UnmarshalStatusMsg (b : bytes) : result StatusMsg := decodeBody b.

Definition UnmarshalCardResp (b : bytes) : result CardResp :=
  r ← map_err (λ _, Wrap "does not decode" ErrCard) (UnmarshalStrict b);
  refuse negb (bool_decide (marshal r = Some b)) with Wrap "not its one canonical encoding" ErrCard;
  _ ← card_check r;
  Ok r.

(** [decodeDelegateReq] on a request that is not nil. *)
Definition decodeDelegateReq (r : DelegateReq) : result TaskDoc :=
  refuse bool_decide (dr_Envelope r = None) with Errf "delegation: missing envelope";
  refuse beqb (dr_InteractionID r) [] with Errf "delegation: missing interaction id";
  decodeTaskDoc (dr_TaskDoc r).

Definition set_doc_envelope (env : option Envelope) (d : TaskDoc) : TaskDoc :=
  mkTaskDoc (d_Version d) (d_Meta d) (d_Links d) (d_Tasks d) (d_Critical d) env.

Definition VerifyDelegateReqWithKEL (r : option DelegateReq) (kel : list SignedEvent) (msgTime : Z)
  : result (bytes * TaskDoc * bytes) :=
  r ← of_option r (Errf "delegation: missing envelope");
  doc ← decodeDelegateReq r;
  refuse len kel =? 0 with Errf "delegation: no resolved requester KEL";
  let doc := set_doc_envelope (dr_Envelope r) doc in
  _ ← map_err (unless_panic (Wrap "delegation: TaskDoc signature invalid")) (taskdoc_Verify doc kel msgTime);
  env ← of_option (dr_Envelope r) Panic;
  Ok (env_SignerAID env, doc, dr_TaskDoc r).

(** The commitments of the receipt against the binding of the document that was sent. *)
Definition checkBinding (rc : ReceiptBody) (binding : TaskBinding) (ix : bytes) : result unit :=
  ixc ← map_err (Wrap "delegation: ix_commit") (IXCommit ix (bd_Nonce binding));
  refuse negb (equal32 (rb_IXCommit rc) ixc) with Wrap "its ix_commit" ErrReceiptMismatch;
  refuse negb (equal32 (rb_RequesterCommit rc) (bd_RequesterCommit binding))
    with Wrap "its requester_commit" ErrReceiptMismatch;
  refuse negb (equal32 (rb_ReviewKey rc) (bd_ReviewKey binding)) with Wrap "its review_key" ErrReceiptMismatch;
  Ok tt.

Definition VerifyResultForRequest (r : option ResultResp) (kel : list SignedEvent) (want : ResultCheck)
  (msgTime : Z) : result ReceiptBody :=
  r ← of_option r (Errf "delegation: completion carries no receipt");
  refuse len (rs_Receipt r) =? 0 with Errf "delegation: completion carries no receipt";
  refuse beqb (ck_IX want) [] || beqb (ck_Provider want) [] || (len (ck_TaskDoc want) =? 0)
    with Errf "delegation: the check needs the interaction, the provider and the TaskDoc sent";
  refuse len kel =? 0 with Wrap "no resolved provider KEL supplied" ErrUnverifiable;
  w ← map_err (Wrap "delegation: undecodable receipt") (UnmarshalReceiptWire (rs_Receipt r));
  rc ← map_err (unless_panic (Wrap "delegation: receipt signature invalid"))
         (receipt_Verify (Some w) kel msgTime);
  refuse negb (beqb (rb_Provider rc) (ck_Provider want)) with Wrap "another provider" ErrReceiptMismatch;
  td ← of_option (unmarshal_lax (ck_TaskDoc want))
         (Wrap "delegation: the TaskDoc sent does not decode" errUnmarshal);
  binding ← map_err (Wrap "delegation: the TaskDoc sent carries no task binding") (ReadTaskBinding (Some td));
  _ ← checkBinding rc binding (ck_IX want);
  requestCID ← Sum (ck_TaskDoc want);
  refuse negb (beqb (rb_RequestCID rc) requestCID) with Wrap "another request" ErrRequestMismatch;
  resultCID ← Sum (rs_Deliverable r);
  refuse negb (beqb (rb_ResultCID rc) resultCID) with Wrap "another deliverable" ErrReceiptMismatch;
  refuse (u64 (rb_CompletedDay rc + 1) <? ck_DelegatedDay want)
         || (u64 (ck_Today want + 1) <? rb_CompletedDay rc) with Wrap "another day" ErrReceiptMismatch;
  Ok rc.
End Delegation.
