(* ===== verification/PaymentTheorems.v ===== *)
(** * PaymentTheorems: what an authorization, a receipt and an amount guarantee *)

From S2P Require Import Prelude Text Aid Cbor Platform Kel KelReference Codec KelSpec KelFacts KelProps Controller ControllerInv ControllerTheorems Payment.
Import Light.

(** ** The clock *)

(** The wrapping difference of two [int64] values in order is their difference. *)
Lemma u64_sub a b : is_i64 a → is_i64 b → b <= a → u64 (u64 a - u64 b) = a - b.
Proof.
  unfold is_i64, u64, two63, two64. intros Ha Hb Hab.
  rewrite <- Zminus_mod. apply Z.mod_small. lia.
Qed.

Lemma pastWithSkew_true now t :
  is_i64 now → is_i64 t → pastWithSkew now t = true ↔ t + ClockSkew < now.
Proof.
  intros Hn Ht. unfold pastWithSkew. destruct (t <? now) eqn:E; go_inv; simpl.
  - rewrite u64_sub, Z.ltb_lt by (done || lia). lia.
  - split; [done|]. unfold ClockSkew. lia.
Qed.

Lemma beforeWithSkew_true now t :
  is_i64 now → is_i64 t → beforeWithSkew now t = true ↔ now + ClockSkew < t.
Proof.
  intros Hn Ht. unfold beforeWithSkew. destruct (now <? t) eqn:E; go_inv; simpl.
  - rewrite u64_sub, Z.ltb_lt by (done || lia). lia.
  - split; [done|]. unfold ClockSkew. lia.
Qed.

Lemma window_false now a b :
  is_i64 now → is_i64 a → is_i64 b →
  beforeWithSkew now a || pastWithSkew now b = false ↔ a - ClockSkew <= now <= b + ClockSkew.
Proof.
  intros Hn Ha Hb. pose proof (beforeWithSkew_true now a Hn Ha) as H. pose proof (pastWithSkew_true now b Hn Hb) as H0.
  rewrite orb_false_iff, <- !not_true_iff_false, H, H0. lia.
Qed.

(** ** Amounts *)

Lemma ParseAmount_Ok s n :
  ParseAmount s = Ok n ↔ canonical_decimal s ∧ n = dec_value s ∧ n <= MaxInt64.
Proof.
  unfold ParseAmount, canonical_decimal. rewrite refuse_Ok, map_err_Ok, ParseUint_Ok, andb_false_iff by auto. change (2 ^ 63 - 1) with MaxInt64.
  rewrite Z.ltb_ge, bool_decide_eq_false. split.
  - intros ([Hz|Hz] & Hne & Hd & -> & Hle); split_and!; try done. lia.
  - intros ((Hd & Hne & Hz) & -> & Hle). split_and!; try done.
    destruct (decide (len s <= 1)); [by left|right]. apply Hz. lia.
Qed.

(** An amount has one spelling.  [ParseAmount] reads exactly the spellings [Amount] writes for
    the amounts a ledger holds, each back to its amount, so two texts for one amount cannot both be
    read; everything else (a sign, a leading zero, a value past [MaxInt64], with any number of
    digits) is refused and no intermediate value wraps. *)
Theorem amounts_have_one_spelling s n :
  ParseAmount s = Ok n ↔ 0 <= n <= MaxInt64 ∧ s = Amount n.
Proof.
  rewrite ParseAmount_Ok. unfold Amount, decimal, MaxInt64, two63. split.
  - intros (Hc & -> & Hle). pose proof (dec_value_nonneg s (proj1 Hc)). split; [lia|].
    symmetry. apply canonical_dec_digits; [done| |lia]. change (10 ^ Z.of_nat 20) with 100000000000000000000. lia.
  - intros [Hn ->]. assert (0 <= n < 10 ^ Z.of_nat 20) as Hb by (change (10 ^ Z.of_nat 20) with 100000000000000000000; lia).
    split_and!; [by apply dec_digits_canonical; [|lia]| |lia]. symmetry. by apply dec_digits_val.
Qed.

(** ** Authorizations and receipts *)

Section Theorems.
Context `{P : Platform} `{CE : Coredet KeyEvent} `{CS : Coredet SignedEvent}.
Context `{CA : Coredet authPreimage} `{CR : Coredet receiptPreimage}.
Context `{CWA : Coredet wireAuthorization} `{CWR : Coredet wireReceipt}.
Context `{DWA : Strict wireAuthorization} `{DWR : Strict wireReceipt}.

(** The times of an authorization and of the clock are [int64] values. *)
Definition times_ok (a : Authorization) (now : Z) : Prop :=
  is_i64 (au_IssuedAt a) ∧ is_i64 (au_NotAfter a) ∧ is_i64 now.

(** The window in which an authorization may be presented. *)
Definition in_window (a : Authorization) (now : Z) : Prop :=
  au_IssuedAt a - ClockSkew <= now <= au_NotAfter a + ClockSkew.

Record authorized (a : Authorization) (kel : list SignedEvent) (now : Z) (env : Envelope) (pre : bytes)
  : Prop := {
  az_envelope : au_Envelope a = Some env;
  az_profile : Validate env = Ok tt;
  az_payer : env_SignerAID env = au_Payer a;
  az_window : 0 < au_IssuedAt a < au_NotAfter a;
  az_now : in_window a now;
  az_preimage : marshal (auth_canonical a) = Some pre;
  az_verified : VerifyObject kel (au_Payer a) (env_KeyStateSeq env) (u64 now) pre (env_Sig env) = Ok tt;
}.

(** C40: what a facilitator accepts.  [Verify] accepts an authorization exactly when its payer's
    envelope verifies over every term of it and the clock is within two minutes of its window, the
    comparison being that of the integers for every [int64] value of the three times (a window that
    ends at [MaxInt64] never closes); and an error that is [ErrExpired] is given exactly for an
    authorization of its payer, with a proper window, presented outside of it. *)
Theorem authorization_accepts a kel now :
  times_ok a now →
  (auth_Verify a kel now = Ok tt ↔ ∃ env pre, authorized a kel now env pre) ∧
  (auth_Verify a kel now = Err (Wrap "payment: valid from..to, now" ErrExpired) ↔
   ∃ env, au_Envelope a = Some env ∧ Validate env = Ok tt ∧ env_SignerAID env = au_Payer a ∧
     0 < au_IssuedAt a < au_NotAfter a ∧ ¬ in_window a now).
Proof.
  intros (H1 & H2 & H3). pose proof (window_false now _ _ H3 H1 H2) as Hw.
  assert ((au_IssuedAt a <=? 0) || (au_NotAfter a <=? au_IssuedAt a) = false ↔ 0 < au_IssuedAt a < au_NotAfter a)
    as Hb by (rewrite orb_false_iff, !Z.leb_gt; lia).
  unfold auth_Verify. split.
  - split.
    + intros H. apply bind_Ok in H as (env & He & H). apply of_option_Ok in He.
      apply bind_Ok in H as ([] & Hv & H). apply refuse_Ok in H as [Hp H]. apply negb_beqb_false in Hp.
      apply refuse_Ok in H as [Hi H]. apply refuse_Ok in H as [Hn H].
      apply bind_Ok in H as (pre & Hm & H). apply of_option_Ok in Hm.
      exists env, pre. constructor; unfold in_window; tauto.
    + intros (env & pre & []). rewrite az_envelope0. cbn [of_option mbind result_bind]. rewrite az_profile0, az_payer0, beqb_refl.
      cbn [negb mbind result_bind]. rewrite (proj2 Hb), (proj2 Hw) by done.
      unfold auth_CanonicalPreimage, Marshal. by rewrite az_preimage0.
  - split.
    + destruct (au_Envelope a) as [env|]; [|done]. cbn [of_option mbind result_bind].
      intros [Hv|([] & Hv & Hr)]%bind_Err; [unfold Validate in Hv; repeat case_match; done|].
      destruct (beqb (env_SignerAID env) (au_Payer a)) eqn:Hp; [|done]. apply beqb_true in Hp.
      destruct ((au_IssuedAt a <=? 0) || _); [done|]. destruct (beforeWithSkew now (au_IssuedAt a) || _).
      * exists env. split_and!; try done; [tauto..|]. unfold in_window. by rewrite <- Hw.
      * exfalso. apply bind_Err in Hr as [Hr|(pre & _ & Hr)].
        -- unfold auth_CanonicalPreimage, Marshal in Hr. by destruct (marshal _).
        -- by apply VerifyObject_errors in Hr as [|(r & d & ?)].
    + intros (env & -> & Hv & Hp & Hi & Hn). cbn [of_option mbind result_bind].
      rewrite Hv, Hp, beqb_refl. cbn [negb mbind result_bind]. rewrite (proj2 Hb Hi).
      destruct (beforeWithSkew now (au_IssuedAt a) || _); [done|]. destruct Hn. unfold in_window. by apply Hw.
Qed.
(** The wire forms carry every field and the envelope. *)
Lemma UnmarshalAuthorization_Marshal `{!StrictInv wireAuthorization} a b :
  auth_Marshal a = Ok b → UnmarshalAuthorization b = Ok a.
Proof.
  unfold auth_Marshal, UnmarshalAuthorization, UnmarshalStrict, Marshal. intros Hm%of_option_Ok.
  rewrite (unmarshal_marshal _ _ Hm). by destruct a.
Qed.

Lemma UnmarshalReceipt_Marshal `{!StrictInv wireReceipt} r b :
  receipt_Marshal r = Ok b → UnmarshalReceipt b = Ok r.
Proof.
  unfold receipt_Marshal, UnmarshalReceipt, UnmarshalStrict, Marshal. intros Hm%of_option_Ok.
  rewrite (unmarshal_marshal _ _ Hm). by destruct r.
Qed.

(** What [Sign] leaves: the terms, the signer as the payer, and an envelope that verifies. *)
Lemma auth_Sign_Ok `{!PlatformLaws P} c s a a' :
  speaks c s → auth_Sign a s = Ok a' →
  ∃ env pre, au_Envelope a' = Some env ∧ Validate env = Ok tt ∧ env_SignerAID env = c_aid c ∧
    au_Payer a' = c_aid c ∧ auth_canonical a' = auth_canonical (set_payer (c_aid c) a) ∧
    marshal (auth_canonical a') = Some pre ∧
    ∀ t, VerifyObject (KEL c) (c_aid c) (env_KeyStateSeq env) t pre (env_Sig env) = Ok tt.
Proof.
  intros Hs H. unfold auth_Sign, auth_CanonicalPreimage, Marshal in H.
  apply bind_Ok in H as (pre & Hm & H). apply of_option_Ok in Hm.
  destruct (speaks_signs c s pre Hs) as (sig & seq & Hsig & Haid & Hlen & Hv). rewrite Hsig, Haid in *.
  injection H as <-. eexists _, pre. split; [done|]. unfold Validate. cbn -[AlgEdDSA SignatureSize].
  rewrite Z.eqb_refl, Hlen, Z.eqb_refl. by split_and!.
Qed.

Lemma receipt_Sign_Ok `{!PlatformLaws P} c s r r' :
  speaks c s → receipt_Sign r s = Ok r' →
  ∃ env pre, r_Envelope r' = Some env ∧ Validate env = Ok tt ∧ env_SignerAID env = c_aid c ∧
    receipt_canonical r' = receipt_canonical r ∧ marshal (receipt_canonical r') = Some pre ∧
    ∀ t, VerifyObject (KEL c) (c_aid c) (env_KeyStateSeq env) t pre (env_Sig env) = Ok tt.
Proof.
  intros Hs H. unfold receipt_Sign, receipt_CanonicalPreimage, Marshal in H.
  apply bind_Ok in H as (pre & Hm & H). apply of_option_Ok in Hm.
  destruct (speaks_signs c s pre Hs) as (sig & seq & Hsig & Haid & Hlen & Hv). rewrite Hsig, Haid in *.
  injection H as <-. eexists _, pre. split; [done|]. unfold Validate. cbn -[AlgEdDSA SignatureSize].
  rewrite Z.eqb_refl, Hlen, Z.eqb_refl. by split_and!.
Qed.

(** A receipt is accepted under a pinned signer only when that signer signed it. *)
Lemma receipt_Verify_pinned r kel aid now :
  receipt_Verify r kel aid now = Ok tt → aid ≠ [] → env_SignerAID <$> r_Envelope r = Some aid.
Proof.
  unfold receipt_Verify. intros H Hne. apply bind_Ok in H as (env & He & H). apply of_option_Ok in He.
  apply bind_Ok in H as ([] & _ & H). apply refuse_Ok in H as [Hp _]. rewrite He. simpl. f_equal.
  apply andb_false_iff in Hp as [Hp|Hp]; go_inv; done.
Qed.

(** A payment and its receipt travel.  What a payer signs, with a proper window, decodes from its
    wire form to the same authorization, in the payer's name, and the hub accepts it under the
    payer's log at every moment of the window and refuses it as expired at every other; the receipt
    the hub signs for it decodes to the same receipt, verifies for a reader that expects that hub
    whatever the time, and for no reader that expects another. *)
Theorem settlement_round_trip `{!PlatformLaws P} (WA : StrictInv wireAuthorization) (WR : StrictInv wireReceipt)
  payer ps hub hs a a' b r r' rb :
  speaks payer ps → speaks hub hs →
  auth_Sign a ps = Ok a' → auth_Marshal a' = Ok b → 0 < au_IssuedAt a < au_NotAfter a →
  receipt_Sign r hs = Ok r' → receipt_Marshal r' = Ok rb →
  (UnmarshalAuthorization b = Ok a' ∧ auth_canonical a' = auth_canonical (set_payer (c_aid payer) a) ∧
   ∀ now, times_ok a now →
     (in_window a now → auth_Verify a' (KEL payer) now = Ok tt) ∧
     (¬ in_window a now →
      auth_Verify a' (KEL payer) now = Err (Wrap "payment: valid from..to, now" ErrExpired))) ∧
  (UnmarshalReceipt rb = Ok r' ∧ receipt_canonical r' = receipt_canonical r ∧
   ∀ now, receipt_Verify r' (KEL hub) (c_aid hub) now = Ok tt ∧
     ∀ kel other, other ≠ [] → other ≠ c_aid hub → receipt_Verify r' kel other now ≠ Ok tt).
Proof.
  intros Hp Hh Has Ham Hw Hrs Hrm. split.
  - split; [by apply UnmarshalAuthorization_Marshal|].
    destruct (auth_Sign_Ok _ _ _ _ Hp Has) as (env & pre & E1 & E2 & E3 & E4 & E5 & E6 & E7).
    split; [done|]. intros now (T1 & T2 & T3).
    pose proof (f_equal ap_IssuedAt E5) as I1. pose proof (f_equal ap_NotAfter E5) as I2. simpl in I1, I2.
    unfold auth_Verify, in_window. rewrite E1. cbn [of_option mbind result_bind].
    rewrite E2, E3, E4, I1, I2, beqb_refl. cbn [negb mbind result_bind].
    rewrite (proj2 (Z.leb_gt _ 0)), (proj2 (Z.leb_gt (au_NotAfter a) _)) by lia. cbn [orb].
    pose proof (window_false now _ _ T3 T1 T2) as Hwin. split; intros Hin.
    + rewrite (proj2 Hwin Hin). unfold auth_CanonicalPreimage, Marshal. rewrite E6. apply E7.
    + by destruct (beforeWithSkew now (au_IssuedAt a) || _); [|destruct Hin; apply Hwin].
  - split; [by apply UnmarshalReceipt_Marshal|].
    destruct (receipt_Sign_Ok _ _ _ _ Hh Hrs) as (env & pre & E1 & E2 & E3 & E4 & E5 & E6).
    split; [done|]. intros now. split.
    + unfold receipt_Verify. rewrite E1. cbn [of_option mbind result_bind].
      rewrite E2, E3, beqb_refl, andb_false_r. unfold receipt_CanonicalPreimage, Marshal. rewrite E5. apply E6.
    + intros kel other Hne Hno Hv. apply receipt_Verify_pinned in Hv; [|done]. rewrite E1 in Hv. simpl in Hv. congruence.
Qed.
End Theorems.

(** ** A sample payment *)

Definition auth_cbor (p : authPreimage) : cbor :=
  CMap (field 1 (CText (ap_Payer p)) ++ field 2 (CText (ap_PayTo p)) ++ field 3 (CUint (ap_Amount p)) ++
        field 4 (CText (ap_Network p)) ++ field 5 (CText (ap_Nonce p)) ++ field 6 (int_cbor (ap_IssuedAt p)) ++
        field 7 (int_cbor (ap_NotAfter p)) ++
        omitempty 8 (beqb (ap_InteractionID p) []) (CText (ap_InteractionID p)) ++ []).
Definition auth_of_cbor (c : cbor) : authPreimage :=
  match c with
  | CMap l => mkAuthPreimage (as_text (member 1 l)) (as_text (member 2 l)) (as_uint (member 3 l))
                (as_text (member 4 l)) (as_text (member 5 l)) (as_int (member 6 l)) (as_int (member 7 l))
                (as_text (member 8 l))
  | _ => mkAuthPreimage [] [] 0 [] [] 0 0 []
  end.
Definition wauth_cbor (w : wireAuthorization) : cbor :=
  CMap (field 1 (auth_cbor (wa_Auth w)) ++ field 2 (envelope_ptr_cbor (wa_Envelope w))).
Definition wauth_of_cbor (c : cbor) : wireAuthorization :=
  match c with
  | CMap l => mkWireAuthorization (auth_of_cbor (default CNull (member 1 l))) (envelope_ptr_of_cbor (member 2 l))
  | _ => mkWireAuthorization (auth_of_cbor CNull) None
  end.
Definition settle_cbor (p : receiptPreimage) : cbor :=
  CMap (field 1 (CText (rp_AuthID p)) ++ field 2 (CText (rp_Payer p)) ++ field 3 (CText (rp_PayTo p)) ++
        field 4 (CUint (rp_Amount p)) ++ field 5 (CText (rp_Network p)) ++ field 6 (int_cbor (rp_SettleAt p))).
Definition settle_of_cbor (c : cbor) : receiptPreimage :=
  match c with
  | CMap l => mkReceiptPreimage (as_text (member 1 l)) (as_text (member 2 l)) (as_text (member 3 l))
                (as_uint (member 4 l)) (as_text (member 5 l)) (as_int (member 6 l))
  | _ => mkReceiptPreimage [] [] [] 0 [] 0
  end.
Definition wsettle_cbor (w : wireReceipt) : cbor :=
  CMap (field 1 (settle_cbor (wr_Receipt w)) ++ field 2 (envelope_ptr_cbor (wr_Envelope w))).
Definition wsettle_of_cbor (c : cbor) : wireReceipt :=
  match c with
  | CMap l => mkWireReceipt (settle_of_cbor (default CNull (member 1 l))) (envelope_ptr_of_cbor (member 2 l))
  | _ => mkWireReceipt (settle_of_cbor CNull) None
  end.

Lemma auth_of_cbor_auth p : auth_of_cbor (auth_cbor p) = p.
Proof.
  destruct p. unfold auth_cbor. simpl. rewrite !as_int_int. f_equal. by apply as_text_omitempty.
Qed.
Lemma settle_of_cbor_settle p : settle_of_cbor (settle_cbor p) = p.
Proof. destruct p. unfold settle_cbor. simpl. by rewrite as_int_int. Qed.

#[local] Arguments auth_cbor : simpl never.
#[local] Arguments settle_cbor : simpl never.
#[local] Arguments auth_of_cbor : simpl never.
#[local] Arguments settle_of_cbor : simpl never.
Lemma wauth_of_cbor_wauth w : wauth_of_cbor (wauth_cbor w) = w.
Proof. destruct w. unfold wauth_cbor. simpl. by rewrite auth_of_cbor_auth, envelope_ptr_of_cbor_ptr. Qed.
Lemma wsettle_of_cbor_wsettle w : wsettle_of_cbor (wsettle_cbor w) = w.
Proof. destruct w. unfold wsettle_cbor. simpl. by rewrite settle_of_cbor_settle, envelope_ptr_of_cbor_ptr. Qed.

#[export] Instance auth_coredet : Coredet authPreimage := codec_marshal auth_cbor.
#[export] Instance wauth_coredet : Coredet wireAuthorization := codec_marshal wauth_cbor.
#[export] Instance wauth_strict : Strict wireAuthorization := codec_unmarshal wauth_of_cbor.
#[export] Instance settle_coredet : Coredet receiptPreimage := codec_marshal settle_cbor.
#[export] Instance wsettle_coredet : Coredet wireReceipt := codec_marshal wsettle_cbor.
#[export] Instance wsettle_strict : Strict wireReceipt := codec_unmarshal wsettle_of_cbor.

(** The agent pays the hub; the hub signs the receipt. *)
Definition sample_auth : Authorization :=
  mkAuthorization [] (c_aid hub0) 250 (CreditNetwork (c_aid hub0)) (str "n-1") 1760000300000 1760000600000
    (str "ix-7") None.
Definition signed_auth : Authorization :=
  match auth_Sign sample_auth sample_signer with Ok a => a | Err _ => sample_auth end.
Definition sample_receipt : Receipt :=
  mkReceipt (match auth_ID signed_auth with Ok id => id | Err _ => [] end) (c_aid sample_agent) (c_aid hub0) 250
    (CreditNetwork (c_aid hub0)) 1760000310000 None.
Definition signed_receipt : Receipt :=
  match receipt_Sign sample_receipt hub_snapshot with Ok r => r | Err _ => sample_receipt end.
Definition auth_bytes : bytes := match auth_Marshal signed_auth with Ok b => b | Err _ => [] end.
Definition receipt_bytes : bytes := match receipt_Marshal signed_receipt with Ok b => b | Err _ => [] end.

Lemma sample_payment :
  auth_Sign sample_auth sample_signer = Ok signed_auth ∧ auth_Marshal signed_auth = Ok auth_bytes ∧
  receipt_Sign sample_receipt hub_snapshot = Ok signed_receipt ∧ receipt_Marshal signed_receipt = Ok receipt_bytes.
Proof. split_and!; vm_compute; reflexivity. Qed.

Lemma sample_times now : is_i64 now → times_ok sample_auth now.
Proof. intros Hn. unfold times_ok, is_i64, two63. simpl. unfold is_i64, two63 in Hn. lia. Qed.

Lemma authorization_accepts_witness :
  ∃ env pre, authorized signed_auth [sample_icp; sample_rot] 1760000301000 env pre.
Proof.
  assert (times_ok signed_auth 1760000301000) as Ht by (vm_compute; repeat split; congruence).
  refine (proj1 (proj1 (authorization_accepts (P := platform) (CE := event_coredet) (CA := auth_coredet)
    signed_auth [sample_icp; sample_rot] 1760000301000 Ht)) _).
  vm_compute. reflexivity.
Defined.

Lemma settlement_round_trip_witness :
  UnmarshalReceipt receipt_bytes = Ok signed_receipt ∧
  auth_Verify signed_auth (KEL sample_agent) 1760000301000 = Ok tt.
Proof.
  destruct sample_payment as (A1 & A2 & R1 & R2).
  pose proof (settlement_round_trip (P := platform) (CE := event_coredet)
    (CA := auth_coredet) (CR := settle_coredet) (CWA := wauth_coredet) (CWR := wsettle_coredet)
    (DWA := wauth_strict) (DWR := wsettle_strict)
    (codec_inv _ _ wauth_of_cbor_wauth) (codec_inv _ _ wsettle_of_cbor_wsettle)
    sample_agent sample_signer hub0 hub_snapshot sample_auth signed_auth auth_bytes
    sample_receipt signed_receipt receipt_bytes agent_speaks hub_speaks A1 A2
    (conj eq_refl eq_refl) R1 R2) as [[_ [_ Hv]] [Hr _]].
  split; [exact Hr|]. refine (proj1 (Hv 1760000301000 _) _).
  - apply sample_times. unfold is_i64, two63. lia.
  - unfold in_window. vm_compute. split; congruence.
Defined.
