(* ===== verification/EvidenceTheorems.v ===== *)
(** * EvidenceTheorems: what receipts, reviews and their commitments prove *)

From S2P Require Import Prelude Aid Cbor Platform Kel KelReference Codec KelSpec KelFacts KelProps Controller ControllerInv ControllerTheorems Evidence.
Import Light.

(** ** Fields *)

Definition text_ok (v : bytes) : Prop := v ≠ [] ∧ 0 ∉ v.

Lemma textField_Ok v : textField v = Ok tt ↔ text_ok v.
Proof. unfold textField, text_ok. by rewrite !refuse_Ok, beqb_false, has_byte_false; split; [intros (?&?&_)|intros [? ?]]. Qed.

Lemma sizedField_Ok b n : sizedField b n = Ok tt ↔ len b = n.
Proof. unfold sizedField. rewrite refuse_Ok, negb_Zeqb_false. tauto. Qed.

Lemma commitText_Ok v : commitText v = Ok tt ↔ text_ok v.
Proof. unfold commitText, text_ok. by rewrite !refuse_Ok, beqb_false, has_byte_false; split; [intros (?&?&_)|intros [? ?]]. Qed.

Lemma bind_unit_Ok {B} (m : result unit) (k : unit → result B) b :
  (m ≫= k) = Ok b ↔ m = Ok tt ∧ k tt = Ok b.
Proof. rewrite bind_Ok. split; [by intros ([] & ? & ?)|by intros [? ?]; exists tt]. Qed.

Record envelope_ok (o : option Envelope) (env : Envelope) : Prop := {
  eo_some : o = Some env;
  eo_profile : Validate env = Ok tt;
  eo_signer : text_ok (env_SignerAID env);
  eo_ref : env_PreimageRef env = [];
}.

Lemma envelopeOf_Ok o : envelopeOf o = Ok tt ↔ ∃ env, envelope_ok o env.
Proof.
  unfold envelopeOf. rewrite bind_Ok. split.
  - intros (env & He & H). apply of_option_Ok in He. rewrite !bind_unit_Ok, map_err_Ok, textField_Ok, refuse_Ok in H.
    rewrite negb_beqb_false in H. exists env. constructor; tauto.
  - intros (env & [He Hp Hs Hr]). exists env. rewrite of_option_Ok, !bind_unit_Ok, map_err_Ok, textField_Ok, refuse_Ok.
    by rewrite negb_beqb_false.
Qed.

Record receipt_ok (b : ReceiptBody) : Prop := {
  ro_type : rb_Type b = ReceiptType;
  ro_ix : len (rb_IXCommit b) = CommitSize;
  ro_requester : len (rb_RequesterCommit b) = CommitSize;
  ro_key : len (rb_ReviewKey b) = ReviewKeySize;
  ro_provider : text_ok (rb_Provider b);
  ro_request : text_ok (rb_RequestCID b);
  ro_result : text_ok (rb_ResultCID b);
}.

Lemma receipt_check_Ok b : receipt_check b = Ok tt ↔ receipt_ok b.
Proof.
  unfold receipt_check. rewrite refuse_Ok, !bind_unit_Ok, !sizedField_Ok, !textField_Ok, negb_beqb_false.
  split; [by intros (?&?&?&?&?&?&?)|by intros []].
Qed.

Record review_ok (b : ReviewBody) : Prop := {
  vo_type : vb_Type b = ReviewType;
  vo_receipt : text_ok (vb_ReceiptCID b);
  vo_subject : text_ok (vb_Subject b);
  vo_rating : RatingMin <= vb_Rating b <= RatingMax;
  vo_comment : RuneCountInString (vb_Comment b) <= MaxCommentChars;
}.

Lemma review_check_Ok b : review_check b = Ok tt ↔ review_ok b.
Proof.
  unfold review_check. rewrite !refuse_Ok, !bind_unit_Ok, !refuse_Ok, bind_unit_Ok, !refuse_Ok, !textField_Ok.
  rewrite negb_beqb_false, orb_false_iff, !Z.ltb_ge, has_byte_false. split.
  - by intros (?&?&?&?&[? ?]&?&_).
  - intros [? ? Hs [? ?] ?]. pose proof (proj2 Hs). tauto.
Qed.

Lemma exact_Ok {A} `{Coredet A, Strict A} raw (v : A) :
  decodeExact raw = Ok v ↔ raw ≠ [] ∧ unmarshal raw = Some v ∧ marshal v = Some raw.
Proof.
  unfold decodeExact, UnmarshalStrict. rewrite refuse_Ok, beqb_false, bind_Ok. split.
  - intros (Hne & v' & Hu & Hr). apply map_err_Ok, of_option_Ok in Hu. apply refuse_Ok in Hr as [Hm [= <-]].
    apply negb_false_iff, bool_decide_eq_true in Hm. done.
  - intros (Hne & Hu & Hm). split; [done|]. exists v. rewrite map_err_Ok, of_option_Ok, refuse_Ok. split; [done|].
    by rewrite bool_decide_true.
Qed.

(** ** Objects *)

Section Theorems.
Context `{P : Platform} `{CE : Coredet KeyEvent} `{CS : Coredet SignedEvent}.
Context `{CRB : Coredet ReceiptBody} `{CRW : Coredet ReceiptWire} `{DRB : Strict ReceiptBody} `{DRW : Strict ReceiptWire}.
Context `{CVB : Coredet ReviewBody} `{CVW : Coredet ReviewWire} `{DVB : Strict ReviewBody} `{DVW : Strict ReviewWire}.

(** Bytes that are the body of a receipt, of a review. *)
Definition receipt_bytes_of (raw : bytes) (b : ReceiptBody) : Prop :=
  raw ≠ [] ∧ unmarshal raw = Some b ∧ marshal b = Some raw ∧ receipt_ok b.
Definition review_bytes_of (raw : bytes) (b : ReviewBody) : Prop :=
  raw ≠ [] ∧ unmarshal raw = Some b ∧ marshal b = Some raw ∧ review_ok b.

Lemma UnmarshalReceiptBody_Ok raw b : UnmarshalReceiptBody raw = Ok b ↔ receipt_bytes_of raw b.
Proof.
  unfold UnmarshalReceiptBody, receipt_bytes_of. rewrite bind_Ok. setoid_rewrite bind_unit_Ok.
  setoid_rewrite exact_Ok. setoid_rewrite receipt_check_Ok. split.
  - intros (b' & (?&?&?) & ? & [= <-]). done.
  - intros (?&?&?&?). by exists b.
Qed.

Lemma UnmarshalReviewBody_Ok raw b : UnmarshalReviewBody raw = Ok b ↔ review_bytes_of raw b.
Proof.
  unfold UnmarshalReviewBody, review_bytes_of. rewrite bind_Ok. setoid_rewrite bind_unit_Ok.
  setoid_rewrite exact_Ok. setoid_rewrite review_check_Ok. split.
  - intros (b' & (?&?&?) & ? & [= <-]). done.
  - intros (?&?&?&?). by exists b.
Qed.

(** What [ReceiptWire.Verify] accepts. *)
Record receipt_signed (w : ReceiptWire) (kel : list SignedEvent) (t : Z) (rc : ReceiptBody) (env : Envelope)
  : Prop := {
  rs_body : receipt_bytes_of (rw_Body w) rc;
  rs_envelope : envelope_ok (rw_Env w) env;
  rs_provider : env_SignerAID env = rb_Provider rc;
  rs_verified : VerifyObject kel (rb_Provider rc) (env_KeyStateSeq env) t (rw_Body w) (env_Sig env) = Ok tt;
}.

Lemma unless_panic_Ok {A} f (r : result A) a : map_err (unless_panic f) r = Ok a ↔ r = Ok a.
Proof. apply map_err_Ok. Qed.

Lemma receipt_Verify_Ok w kel t rc :
  receipt_Verify (Some w) kel t = Ok rc ↔ ∃ env, receipt_signed w kel t rc env.
Proof.
  unfold receipt_Verify. cbn [of_option mbind result_bind]. unfold receipt_Open. split.
  - intros H. apply bind_Ok in H as (b & Hb & H). apply UnmarshalReceiptBody_Ok in Hb.
    apply bind_unit_Ok in H as [Hev H]. apply envelopeOf_Ok in Hev as [env Hev].
    rewrite (eo_some _ _ Hev) in H. cbn [of_option mbind result_bind] in H.
    apply refuse_Ok in H as [Hs H]. apply negb_beqb_false in Hs. apply bind_unit_Ok in H as [Hv [= <-]].
    apply map_err_Ok in Hv. rewrite Hs in Hv. by exists env.
  - intros [env [Hb Hev Hs Hv]]. rewrite (proj2 (UnmarshalReceiptBody_Ok _ _) Hb). cbn [mbind result_bind].
    rewrite (proj2 (envelopeOf_Ok _)) by eauto. rewrite (eo_some _ _ Hev). cbn [of_option mbind result_bind].
    by rewrite Hs, beqb_refl, Hv.
Qed.

(** What [ReviewWire.Verify] accepts. *)
Record review_signed (w : ReviewWire) (key : bytes) (rv : ReviewBody) : Prop := {
  vs_body : review_bytes_of (vw_Body w) rv;
  vs_key : vw_Pub w = key;
  vs_key_size : len key = ReviewKeySize;
  vs_sig_size : len (vw_Sig w) = SignatureSize;
  vs_verified : ed25519_verify key (vw_Body w) (vw_Sig w) = true;
}.

Lemma aobj_Verify_Ok pub m sig :
  Verify pub m sig = Ok tt ↔ len pub = PublicKeySize ∧ len sig = SignatureSize ∧ ed25519_verify pub m sig = true.
Proof.
  unfold Verify, ed25519_Verify. rewrite !refuse_Ok, !negb_Zeqb_false. split.
  - intros (Hp & Hs & H). rewrite Hp, Z.eqb_refl in H. cbn [mbind result_bind] in H.
    by apply refuse_Ok in H as [Hv%negb_false_iff _].
  - intros (Hp & Hs & Hv). split_and!; [done..|]. by rewrite Hp, Z.eqb_refl, Hv.
Qed.

Lemma review_Verify_Ok w key rv : review_Verify (Some w) key = Ok rv ↔ review_signed w key rv.
Proof.
  unfold review_Verify. cbn [of_option mbind result_bind]. unfold review_Open. rewrite refuse_Ok, negb_Zeqb_false. split.
  - intros [Hk H]. apply bind_Ok in H as (b & Hb & H). apply UnmarshalReviewBody_Ok in Hb.
    apply refuse_Ok in H as [Hp H]. apply negb_beqb_false in Hp. apply bind_unit_Ok in H as [Hv [= <-]].
    apply map_err_Ok, aobj_Verify_Ok in Hv as (_ & Hs & Hv). rewrite Hp in Hv. by constructor.
  - intros [Hb Hp Hk Hs Hv]. split; [done|]. rewrite (proj2 (UnmarshalReviewBody_Ok _ _) Hb). cbn [mbind result_bind].
    rewrite Hp, beqb_refl. cbn [negb]. by rewrite (proj2 (aobj_Verify_Ok _ _ _)).
Qed.
Lemma DayStart_Some day ms :
  is_u64 day → DayStart day = Some ms ↔ ms = day * DayMS ∧ ms <= MaxUint64.
Proof.
  intros [H0 H1]. unfold DayStart, MaxUint64, DayMS, two64 in *. destruct (_ <? day) eqn:E.
  - apply Z.ltb_lt in E. split; [done|]. intros [-> Hle].
    rewrite Z.mul_comm in Hle. apply Z.div_le_lower_bound in Hle; lia.
  - apply Z.ltb_ge in E. pose proof (Z.mul_div_le (18446744073709551616 - 1) 86400000).
    unfold u64, two64. rewrite Z.mod_small by lia. split; [intros [= <-]; lia|by intros [-> _]].
Qed.

(** The two halves of one task. *)
Record interlocked (w : ReceiptWire) (v : ReviewWire) (kel : list SignedEvent) (rc : ReceiptBody)
  (rv : ReviewBody) (env : Envelope) : Prop := {
  il_receipt : receipt_signed w kel (rb_CompletedDay rc * DayMS) rc env;
  il_day : rb_CompletedDay rc * DayMS <= MaxUint64;
  il_review : review_signed v (rb_ReviewKey rc) rv;
  il_cid : Sum (rw_Body w) = Ok (vb_ReceiptCID rv);
  il_subject : vb_Subject rv = rb_Provider rc;
}.

Lemma receipt_wire_CID_Ok w cid : rw_Body w ≠ [] → receipt_wire_CID w = Ok cid ↔ Sum (rw_Body w) = Ok cid.
Proof.
  intros Hne. unfold receipt_wire_CID. rewrite refuse_Ok, Z.eqb_neq, len_nil. tauto.
Qed.

Lemma CheckV2_Ok w v kel rc rv :
  is_u64 (rb_CompletedDay rc) →
  CheckV2 (Some w) (Some v) kel = Ok (rc, rv) ↔ ∃ env, interlocked w v kel rc rv env.
Proof.
  intros Hu. unfold CheckV2. rewrite !bool_decide_false by done. cbn [orb of_option mbind result_bind].
  unfold receipt_Open. split.
  - intros H. apply bind_Ok in H as (rc' & Hb & H). apply UnmarshalReceiptBody_Ok in Hb.
    apply bind_Ok in H as (ms & Hms & H). apply of_option_Ok in Hms.
    apply bind_Ok in H as (rc'' & Hr & H). apply receipt_Verify_Ok in Hr as [env Hr].
    apply bind_Ok in H as (rv' & Hv & H). apply review_Verify_Ok in Hv.
    apply bind_Ok in H as (cid & Hc & H). apply refuse_Ok in H as [He H]. apply refuse_Ok in H as [Hs [= <- <-]].
    apply negb_beqb_false in He, Hs. subst cid.
    apply DayStart_Some in Hms as [-> Hle]; [|done].
    pose proof (rs_body _ _ _ _ _ Hr) as Hb2.
    assert (rc'' = rc') as -> by (destruct Hb as (_ & Hb & _), Hb2 as (_ & Hb2 & _); congruence).
    exists env. constructor; try done. apply receipt_wire_CID_Ok; [apply Hb|done].
  - intros [env [Hr Hd Hv Hc Hs]]. rewrite (proj2 (UnmarshalReceiptBody_Ok _ rc)) by apply Hr.
    cbn [mbind result_bind]. rewrite (proj2 (DayStart_Some _ _ Hu)) by done. cbn [of_option mbind result_bind].
    rewrite (proj2 (receipt_Verify_Ok _ _ _ rc)) by eauto. cbn [mbind result_bind].
    rewrite (proj2 (review_Verify_Ok _ _ _) Hv). cbn [mbind result_bind].
    rewrite (proj2 (receipt_wire_CID_Ok _ _ (proj1 (rs_body _ _ _ _ _ Hr))) Hc). cbn [mbind result_bind].
    by rewrite beqb_refl, Hs, beqb_refl.
Qed.

(** C39: a receipt and a review that interlock are two halves of one task.  [CheckV2] accepts exactly
    the canonical objects where the receipt is signed by the provider it names, under its log at the
    start of the day it names (a day whose start does not overflow), the review is signed by the
    one-time key that receipt carries, and the review names this receipt and this provider, with a
    rating from 1 to 5 and a bounded comment; and one review interlocks with one receipt only, under
    whatever log, unless two bodies have one CID. *)
Theorem interlock_accepts w v kel rc rv :
  is_u64 (rb_CompletedDay rc) →
  (CheckV2 (Some w) (Some v) kel = Ok (rc, rv) ↔ ∃ env, interlocked w v kel rc rv env) ∧
  (∀ w' kel' rc' rv',
     is_u64 (rb_CompletedDay rc') → CheckV2 (Some w) (Some v) kel = Ok (rc, rv) →
     CheckV2 (Some w') (Some v) kel' = Ok (rc', rv') →
     (Sum (rw_Body w) = Sum (rw_Body w') → rw_Body w = rw_Body w') →
     rw_Body w' = rw_Body w ∧ rc' = rc ∧ rv' = rv).
Proof.
  intros Hu. split; [by apply CheckV2_Ok|].
  intros w' kel' rc' rv' Hu' H H' Hinj. apply CheckV2_Ok in H as [env H]; [|done].
  apply CheckV2_Ok in H' as [env' H']; [|done].
  assert (rv' = rv) as ->.
  { destruct (vs_body _ _ _ (il_review _ _ _ _ _ _ H)) as (_ & H1 & _).
    destruct (vs_body _ _ _ (il_review _ _ _ _ _ _ H')) as (_ & H2 & _). congruence. }
  assert (rw_Body w = rw_Body w') as E.
  { apply Hinj. rewrite (il_cid _ _ _ _ _ _ H), (il_cid _ _ _ _ _ _ H'). done. }
  split_and!; [done| |done]. destruct (rs_body _ _ _ _ _ (il_receipt _ _ _ _ _ _ H)) as (_ & H1 & _).
  destruct (rs_body _ _ _ _ _ (il_receipt _ _ _ _ _ _ H')) as (_ & H2 & _). congruence.
Qed.

(** What [ReceiptBody.Sign] and [ReviewBody.Sign] make. *)
Lemma receipt_Sign_signed `{!PlatformLaws P} (SB : StrictInv ReceiptBody) (IB : CoredetItem ReceiptBody) c s b w :
  speaks c s → text_ok (c_aid c) → receipt_Sign b s = Ok w →
  ∃ rc env, rc = set_provider (c_aid c) (receipt_withType b) ∧ ∀ t, receipt_signed w (KEL c) t rc env.
Proof.
  intros Hs Htext H. unfold receipt_Sign in H. apply bind_Ok in H as (body & Hb & H).
  apply bind_Ok in H as (raw & Hraw & [= <-]).
  destruct (speaks_signs c s raw Hs) as (sig & seq & Hsig & Haid & Hlen & Hv).
  assert (body = set_provider (c_aid c) (receipt_withType b)) as ->.
  { rewrite Haid in Hb. destruct (beqb (rb_Provider (receipt_withType b)) []).
    - by injection Hb.
    - apply refuse_Ok in Hb as [Hp [= <-]]. apply negb_beqb_false in Hp. rewrite <- Hp. by destruct b. }
  set (rc := set_provider (c_aid c) (receipt_withType b)) in *.
  unfold receipt_Marshal in Hraw. apply bind_unit_Ok in Hraw as [Hck Hm]. apply receipt_check_Ok in Hck.
  apply of_option_Ok in Hm. assert (receipt_withType rc = rc) as Ert.
  { pose proof (ro_type _ Hck) as Ht. unfold receipt_withType in *. simpl in *.
    destruct (rb_Type b); simpl in *; done. }
  rewrite Ert in *. exists rc. unfold seal. rewrite Hsig, Haid. eexists. split; [done|]. intros t. constructor.
  - cbn [rw_Body]. split_and!; [|by apply unmarshal_marshal|done|done].
    intros ->. by eapply marshal_item.
  - cbn [rw_Env]. constructor; [done| |done|done]. unfold Validate. cbn -[AlgEdDSA SignatureSize].
    by rewrite Z.eqb_refl, Hlen, Z.eqb_refl.
  - done.
  - apply Hv.
Qed.

Lemma review_Sign_signed `{!PlatformLaws P} (SB : StrictInv ReviewBody) (IB : CoredetItem ReviewBody) key b w :
  key_ok key → review_Sign b key = Ok w → review_signed w (ed25519_public key) (review_withType b).
Proof.
  intros Hk H. unfold review_Sign in H. apply refuse_Ok in H as [_ H]. apply bind_Ok in H as (raw & Hraw & [= <-]).
  unfold review_Marshal in Hraw. apply bind_unit_Ok in Hraw as [Hck Hm]. apply review_check_Ok in Hck.
  apply of_option_Ok in Hm. constructor; cbn [vw_Body vw_Pub vw_Sig].
  - split_and!; [|by apply unmarshal_marshal|done|done]. intros ->. by eapply marshal_item.
  - done.
  - destruct Hk as (seed & Hl & ->). pose proof (ed25519_key_length seed Hl) as Hkl.
    apply (len_length _ 32). unfold ed25519_public. rewrite length_drop, Hkl. lia.
  - apply (len_length _ 64). by apply ed25519_sign_length.
  - by apply ed25519_sign_verify.
Qed.

(** An honest provider and an honest requester interlock: the receipt of a provider that speaks,
    carrying the public half of a real one-time key, and the review signed with that key about that
    receipt and that provider. *)
Lemma honest_interlock `{!PlatformLaws P} (SB : StrictInv ReceiptBody) (IB : CoredetItem ReceiptBody)
  (SV : StrictInv ReviewBody) (IV : CoredetItem ReviewBody) c s b w key rv v :
  speaks c s → text_ok (c_aid c) → key_ok key → is_u64 (rb_CompletedDay b) →
  rb_CompletedDay b * DayMS <= MaxUint64 →
  rb_ReviewKey b = ed25519_public key → receipt_Sign b s = Ok w → review_Sign rv key = Ok v →
  receipt_wire_CID w = Ok (vb_ReceiptCID rv) → vb_Subject rv = c_aid c →
  ∃ rc, CheckV2 (Some w) (Some v) (KEL c) = Ok (rc, review_withType rv) ∧ rb_Provider rc = c_aid c.
Proof.
  intros Hs Ht Hk Hu Hd Hkey Hw Hv Hc Hsub.
  destruct (receipt_Sign_signed SB IB _ _ _ _ Hs Ht Hw) as (rc & env & -> & Hsig).
  exists (set_provider (c_aid c) (receipt_withType b)). split; [|done]. apply CheckV2_Ok; [done|].
  exists env. constructor; cbn [set_provider rb_CompletedDay rb_ReviewKey rb_Provider receipt_withType].
  - apply Hsig.
  - done.
  - rewrite Hkey. by apply review_Sign_signed.
  - apply receipt_wire_CID_Ok in Hc; [done|]. apply (rs_body _ _ _ _ _ (Hsig 0)).
  - done.
Qed.

(** ** Commitments *)

Lemma commit_input_inj label label' a a' b b' :
  0 ∉ label → 0 ∉ label' → 0 ∉ a → 0 ∉ a' →
  commit_input label a b = commit_input label' a' b' → label = label' ∧ a = a' ∧ b = b'.
Proof.
  unfold commit_input. intros Hl Hl' Ha Ha' E.
  apply app_sep_inj in E as [-> E]; [|done..]. apply app_sep_inj in E as [-> ->]; done.
Qed.

Lemma labels_plain :
  (0 ∉ labelIXCommit) ∧ (0 ∉ labelRequesterCommit) ∧ (0 ∉ labelReviewTag) ∧ (0 ∉ labelSettleGuard).
Proof. split_and!; apply has_byte_false; vm_compute; reflexivity. Qed.

Lemma IXCommit_Ok ix nonce h :
  IXCommit ix nonce = Ok h ↔ text_ok ix ∧ text_ok nonce ∧ h = sha256 (commit_input labelIXCommit ix nonce).
Proof.
  unfold IXCommit. rewrite !bind_unit_Ok, !commitText_Ok. split; [by intros (?&?&[= <-])|by intros (?&?&->)].
Qed.

(** Two tasks with one [ix_commit] are the same interaction under the same nonce. *)
Lemma IXCommit_inj ix nonce ix' nonce' h :
  IXCommit ix nonce = Ok h → IXCommit ix' nonce' = Ok h →
  inj_on sha256 [commit_input labelIXCommit ix nonce; commit_input labelIXCommit ix' nonce'] →
  ix = ix' ∧ nonce = nonce'.
Proof.
  intros (Hi & Hn & ->)%IXCommit_Ok (Hi' & Hn' & E)%IXCommit_Ok Hinj.
  apply Hinj in E; [|by left|by right; left]. destruct labels_plain as (L & _).
  apply commit_input_inj in E; [tauto|done|done|apply Hi|apply Hi'].
Qed.
End Theorems.

(** ** A sample task: the agent is the provider *)

Definition rbody_cbor (b : ReceiptBody) : cbor :=
  CMap (field 0 (CText (rb_Type b)) ++ field 1 (CBytes (rb_IXCommit b)) ++ field 2 (CBytes (rb_RequesterCommit b)) ++
        field 3 (CBytes (rb_ReviewKey b)) ++ field 4 (CText (rb_Provider b)) ++ field 5 (CText (rb_RequestCID b)) ++
        field 6 (CText (rb_ResultCID b)) ++ field 7 (CUint (rb_CompletedDay b))).
Definition rbody_of_cbor (c : cbor) : ReceiptBody :=
  match c with
  | CMap l => mkReceiptBody (as_text (member 0 l)) (as_bytes (member 1 l)) (as_bytes (member 2 l))
                (as_bytes (member 3 l)) (as_text (member 4 l)) (as_text (member 5 l)) (as_text (member 6 l))
                (as_uint (member 7 l))
  | _ => mkReceiptBody [] [] [] [] [] [] [] 0
  end.
Definition rwire_cbor (w : ReceiptWire) : cbor :=
  CMap (field 1 (CBytes (rw_Body w)) ++ field 2 (envelope_ptr_cbor (rw_Env w))).
Definition rwire_of_cbor (c : cbor) : ReceiptWire :=
  match c with
  | CMap l => mkReceiptWire (as_bytes (member 1 l)) (envelope_ptr_of_cbor (member 2 l))
  | _ => mkReceiptWire [] None
  end.
Definition vbody_cbor (b : ReviewBody) : cbor :=
  CMap (field 0 (CText (vb_Type b)) ++ field 1 (CText (vb_ReceiptCID b)) ++ field 2 (CText (vb_Subject b)) ++
        field 3 (CUint (vb_Rating b)) ++ omitempty 4 (beqb (vb_Comment b) []) (CText (vb_Comment b)) ++
        field 5 (CUint (vb_CreatedDay b))).
Definition vbody_of_cbor (c : cbor) : ReviewBody :=
  match c with
  | CMap l => mkReviewBody (as_text (member 0 l)) (as_text (member 1 l)) (as_text (member 2 l))
                (as_uint (member 3 l)) (as_text (member 4 l)) (as_uint (member 5 l))
  | _ => mkReviewBody [] [] [] 0 [] 0
  end.

Lemma rbody_of_cbor_rbody b : rbody_of_cbor (rbody_cbor b) = b.
Proof. by destruct b. Qed.
Lemma rwire_of_cbor_rwire w : rwire_of_cbor (rwire_cbor w) = w.
Proof. destruct w. unfold rwire_cbor. simpl. by rewrite envelope_ptr_of_cbor_ptr. Qed.
Lemma vbody_of_cbor_vbody b : vbody_of_cbor (vbody_cbor b) = b.
Proof.
  destruct b as [t r s n c d]. unfold vbody_cbor, omitempty, beqb. case_bool_decide as E; simpl in *; by subst.
Qed.

#[export] Instance rbody_coredet : Coredet ReceiptBody := codec_marshal rbody_cbor.
#[export] Instance rbody_strict : Strict ReceiptBody := codec_unmarshal rbody_of_cbor.
#[export] Instance rwire_coredet : Coredet ReceiptWire := codec_marshal rwire_cbor.
#[export] Instance rwire_strict : Strict ReceiptWire := codec_unmarshal rwire_of_cbor.
#[export] Instance vbody_coredet : Coredet ReviewBody := codec_marshal vbody_cbor.
#[export] Instance vbody_strict : Strict ReviewBody := codec_unmarshal vbody_of_cbor.

Definition sample_rbody : ReceiptBody :=
  mkReceiptBody [] (sha256 (str "ix")) (sha256 (str "requester")) (sample_pub 21) [] (str "request-cid")
    (str "result-cid") 20371.
Definition sample_rwire : ReceiptWire :=
  match receipt_Sign sample_rbody sample_signer with Ok w => w | Err _ => mkReceiptWire [] None end.
Definition sample_vbody : ReviewBody :=
  mkReviewBody [] (match receipt_wire_CID sample_rwire with Ok c => c | Err _ => [] end) (c_aid sample_agent) 5
    (str "prompt and exact") 20372.
Definition sample_vwire : ReviewWire :=
  match review_Sign sample_vbody (sample_key 21) with Ok w => w | Err _ => mkReviewWire [] [] [] end.

Definition signed_rbody : ReceiptBody := set_provider (c_aid sample_agent) (receipt_withType sample_rbody).
Lemma sample_interlock :
  CheckV2 (Some sample_rwire) (Some sample_vwire) [sample_icp; sample_rot] =
    Ok (signed_rbody, review_withType sample_vbody).
Proof. vm_compute. reflexivity. Qed.

(** The review of another subject is refused, and so is a day whose start does not fit. *)
Example interlock_refusals :
  CheckV2 (Some sample_rwire)
    (match review_Sign (mkReviewBody [] (vb_ReceiptCID sample_vbody) (str "someone") 5 [] 20372) (sample_key 21) with
     | Ok w => Some w | Err _ => None end) [sample_icp; sample_rot] = Err (Wrap "another subject" ErrNotThisReceipt) ∧
  DayStart (MaxUint64 / DayMS) = Some 18446744073657600000 ∧ DayStart (MaxUint64 / DayMS + 1) = None.
Proof. split_and!; vm_compute; reflexivity. Qed.

Lemma interlock_accepts_witness :
  ∃ env, interlocked sample_rwire sample_vwire [sample_icp; sample_rot] signed_rbody (review_withType sample_vbody) env.
Proof.
  assert (is_u64 (rb_CompletedDay signed_rbody)) as Hu by (vm_compute; split; congruence).
  exact (proj1 (proj1 (interlock_accepts (P := platform) (CE := event_coredet) sample_rwire sample_vwire
    [sample_icp; sample_rot] signed_rbody (review_withType sample_vbody) Hu)) sample_interlock).
Defined.
