(* ===== verification/DelegationTheorems.v ===== *)
(** * DelegationTheorems: what a requester and a provider can hold against each other *)

From S2P Require Import Prelude Aid Cbor Platform Kel KelReference Codec KelSpec KelProps Controller ControllerInv ControllerTheorems Tsir Taskdoc TaskdocTheorems Relayauth RelayauthTheorems Evidence EvidenceTheorems Delegation.
Import Light.

Lemma equal32_true a b : equal32 a b = true ↔ len a = 32 ∧ a = b.
Proof. unfold equal32. by rewrite andb_true_iff, Z.eqb_eq, beqb_true. Qed.

Lemma negb_equal32 a b : negb (equal32 a b) = false ↔ len a = 32 ∧ a = b.
Proof. rewrite negb_false_iff. apply equal32_true. Qed.

Section Theorems.
Context `{P : Platform} `{CE : Coredet KeyEvent} `{CS : Coredet SignedEvent} `{CTP : Coredet taskDocPreimage}.
Context `{CT : Coredet TaskDoc} `{DT : Strict TaskDoc} `{LT : Lax TaskDoc}.
Context `{CRB : Coredet ReceiptBody} `{CRW : Coredet ReceiptWire} `{DRB : Strict ReceiptBody} `{DRW : Strict ReceiptWire}.

(** ** The task binding *)

Lemma checkBinding_Ok rc b ix :
  checkBinding rc b ix = Ok tt ↔
  len (rb_IXCommit rc) = 32 ∧ IXCommit ix (bd_Nonce b) = Ok (rb_IXCommit rc) ∧
  len (rb_RequesterCommit rc) = 32 ∧ rb_RequesterCommit rc = bd_RequesterCommit b ∧
  len (rb_ReviewKey rc) = 32 ∧ rb_ReviewKey rc = bd_ReviewKey b.
Proof.
  unfold checkBinding. rewrite bind_Ok. setoid_rewrite map_err_Ok. split.
  - intros (h & Hh & H). apply refuse_Ok in H as [H1 H]. apply refuse_Ok in H as [H2 H].
    apply refuse_Ok in H as [H3 _]. apply negb_equal32 in H1 as [H1 <-], H2, H3. tauto.
  - intros (H1 & Hh & H2 & H2' & H3 & H3'). exists (rb_IXCommit rc). split; [done|].
    by rewrite !refuse_Ok, !negb_equal32.
Qed.

Lemma UnmarshalReceiptWire_Ok raw w :
  UnmarshalReceiptWire raw = Ok w ↔
  raw ≠ [] ∧ unmarshal raw = Some w ∧ marshal w = Some raw ∧
  (∃ rc, receipt_bytes_of (rw_Body w) rc) ∧ ∃ env, envelope_ok (rw_Env w) env.
Proof.
  unfold UnmarshalReceiptWire, receipt_wire_check. rewrite bind_Ok. split.
  - intros (w' & Hd & H). apply exact_Ok in Hd. apply bind_unit_Ok in H as [Hc [= <-]].
    apply bind_Ok in Hc as (rc & Hb & He). apply UnmarshalReceiptBody_Ok in Hb. apply envelopeOf_Ok in He. naive_solver.
  - intros (Hne & Hu & Hm & [rc Hb] & He). exists w. split; [by apply exact_Ok|].
    rewrite (proj2 (UnmarshalReceiptBody_Ok _ rc) Hb). cbn [mbind result_bind].
    by rewrite (proj2 (envelopeOf_Ok _) He).
Qed.

(** What the requester's check accepts: the receipt of the provider it asked, for the task it sent
    and the bytes it got. *)
Record answered (r : ResultResp) (kel : list SignedEvent) (want : ResultCheck) (t : Z) (rc : ReceiptBody)
  (w : ReceiptWire) (env : Envelope) (td : TaskDoc) (b : TaskBinding) : Prop := {
  an_want : ck_Provider want ≠ [] ∧ ck_TaskDoc want ≠ [];
  an_kel : kel ≠ [];
  an_receipt : unmarshal (rs_Receipt r) = Some w ∧ marshal w = Some (rs_Receipt r) ∧ rs_Receipt r ≠ [];
  an_signed : receipt_signed w kel t rc env;
  an_provider : rb_Provider rc = ck_Provider want;
  an_doc : unmarshal_lax (ck_TaskDoc want) = Some td;
  an_binding : ReadTaskBinding (Some td) = Ok b;
  an_ix : IXCommit (ck_IX want) (bd_Nonce b) = Ok (rb_IXCommit rc);
  an_requester : rb_RequesterCommit rc = bd_RequesterCommit b;
  an_key : rb_ReviewKey rc = bd_ReviewKey b;
  an_request : Sum (ck_TaskDoc want) = Ok (rb_RequestCID rc);
  an_result : Sum (rs_Deliverable r) = Ok (rb_ResultCID rc);
  an_day : ck_DelegatedDay want - 1 <= rb_CompletedDay rc <= ck_Today want + 1;
}.

(** The day comparisons do not wrap while the clock is before the last days of a [uint64]. *)
Lemma days_false c d t :
  is_u64 c → is_u64 d → is_u64 t → t + 1 < MaxUint64 →
  (u64 (c + 1) <? d) || (u64 (t + 1) <? c) = false ↔ d - 1 <= c <= t + 1.
Proof.
  unfold is_u64, u64, MaxUint64, two64. intros Hc Hd Ht Hm.
  rewrite orb_false_iff, !Z.ltb_ge, (Z.mod_small (t + 1)) by lia. split.
  - intros [H1 H2]. rewrite Z.mod_small in H1 by lia. lia.
  - intros [H1 H2]. rewrite Z.mod_small by lia. lia.
Qed.

Definition days_ok (want : ResultCheck) (rc : ReceiptBody) : Prop :=
  is_u64 (rb_CompletedDay rc) ∧ is_u64 (ck_DelegatedDay want) ∧ is_u64 (ck_Today want) ∧
  ck_Today want + 1 < MaxUint64.

Lemma VerifyResultForRequest_Ok r kel want t rc :
  days_ok want rc →
  VerifyResultForRequest (Some r) kel want t = Ok rc ↔ ∃ w env td b, answered r kel want t rc w env td b.
Proof.
  intros (D1 & D2 & D3 & D4). unfold VerifyResultForRequest. cbn [of_option mbind result_bind]. split.
  - intros H. apply refuse_Ok in H as [Hr H]. apply refuse_Ok in H as [Hw H]. apply refuse_Ok in H as [Hk H].
    rewrite !orb_false_iff, !beqb_false, Z.eqb_neq, len_nil in Hw. rewrite Z.eqb_neq, len_nil in Hr. rewrite Z.eqb_neq, len_nil in Hk.
    apply bind_Ok in H as (w & Hwire & H). apply map_err_Ok, UnmarshalReceiptWire_Ok in Hwire as (_ & Hu & Hm & _).
    apply bind_Ok in H as (rc' & Hv & H). apply map_err_Ok, receipt_Verify_Ok in Hv as [env Hv].
    apply refuse_Ok in H as [Hp H]. apply negb_beqb_false in Hp.
    apply bind_Ok in H as (td & Htd & H). apply of_option_Ok in Htd.
    apply bind_Ok in H as (b & Hb & H). apply map_err_Ok in Hb.
    apply bind_unit_Ok in H as [Hc H]. apply checkBinding_Ok in Hc as (_ & C1 & _ & C2 & _ & C3).
    apply bind_Ok in H as (qc & Hq & H). apply refuse_Ok in H as [Hqe H]. apply negb_beqb_false in Hqe. subst qc.
    apply bind_Ok in H as (sc & Hs & H). apply refuse_Ok in H as [Hse H]. apply negb_beqb_false in Hse. subst sc.
    apply refuse_Ok in H as [Hd [= <-]]. apply days_false in Hd; [|done..].
    exists w, env, td, b. constructor; try done. tauto.
  - intros (w & env & td & b & [[W1 W2] K [R1 [R2 R3]] S Pr Do Bi Ix Rq Ky Cq Cs Dy]).
    pose proof (rs_body _ _ _ _ _ S) as Hbody. pose proof (rs_envelope _ _ _ _ _ S) as Henv.
    destruct Hbody as (B1 & B2 & B3 & B4).
    assert (ck_IX want ≠ []) as Hix by (apply IXCommit_Ok in Ix as ((? & _) & _); done).
    rewrite (proj2 (Z.eqb_neq (len (rs_Receipt r)) 0)) by by rewrite len_nil.
    rewrite !(proj2 (beqb_false _ _)) by done. rewrite (proj2 (Z.eqb_neq (len (ck_TaskDoc want)) 0)) by by rewrite len_nil.
    rewrite (proj2 (Z.eqb_neq (len kel) 0)) by by rewrite len_nil. cbn [orb].
    rewrite (proj2 (UnmarshalReceiptWire_Ok _ w)) by (split_and!; eauto; by exists rc). cbn [map_err mbind result_bind].
    rewrite (proj2 (receipt_Verify_Ok w kel t rc)) by eauto. cbn [map_err mbind result_bind].
    rewrite Pr, beqb_refl, Do. cbn [negb of_option mbind result_bind]. rewrite Bi. cbn [map_err mbind result_bind].
    rewrite (proj2 (checkBinding_Ok _ _ _)) by (split_and!; try done; apply B4). cbn [mbind result_bind].
    rewrite Cq. cbn [mbind result_bind]. rewrite beqb_refl, Cs. cbn [negb mbind result_bind]. rewrite beqb_refl.
    by rewrite (proj2 (days_false _ _ _ D1 D2 D3 D4) Dy).
Qed.

(** C38: a result is for the task it answers.  [VerifyResultForRequest] accepts exactly a result
    whose receipt is canonical, signed by the provider the task went to under the log given, names
    the request that was sent and the bytes that arrived, carries the commitments of the binding in
    that request, and is dated within a day of the task; and one receipt is accepted for one task
    only: if it passes two checks, with whatever results, logs and times, the provider, the document
    sent, the interaction and the deliverable are the same, unless two of the inputs collide. *)
Theorem result_is_for_this_task r kel want t rc :
  days_ok want rc →
  (VerifyResultForRequest (Some r) kel want t = Ok rc ↔ ∃ w env td b, answered r kel want t rc w env td b) ∧
  (∀ r' kel' want' t' rc' b,
     days_ok want' rc' → VerifyResultForRequest (Some r) kel want t = Ok rc →
     VerifyResultForRequest (Some r') kel' want' t' = Ok rc' → rs_Receipt r' = rs_Receipt r →
     (Sum (ck_TaskDoc want) = Sum (ck_TaskDoc want') → ck_TaskDoc want = ck_TaskDoc want') →
     (Sum (rs_Deliverable r) = Sum (rs_Deliverable r') → rs_Deliverable r = rs_Deliverable r') →
     (unmarshal_lax (ck_TaskDoc want) ≫= λ td, Some (ReadTaskBinding (Some td))) = Some (Ok b) →
     inj_on sha256 [commit_input labelIXCommit (ck_IX want) (bd_Nonce b);
                    commit_input labelIXCommit (ck_IX want') (bd_Nonce b)] →
     rc' = rc ∧ ck_Provider want' = ck_Provider want ∧ ck_TaskDoc want' = ck_TaskDoc want ∧
     ck_IX want' = ck_IX want ∧ rs_Deliverable r' = rs_Deliverable r).
Proof.
  intros Hd. split; [by apply VerifyResultForRequest_Ok|].
  intros r' kel' want' t' rc' b0 Hd' H H' Hsame Hreq Hdel Hb Hinj.
  apply VerifyResultForRequest_Ok in H as (w & env & td & b & A); [|done].
  apply VerifyResultForRequest_Ok in H' as (w' & env' & td' & b' & A'); [|done].
  assert (rc' = rc) as ->.
  { destruct (an_receipt _ _ _ _ _ _ _ _ _ A) as (U & _), (an_receipt _ _ _ _ _ _ _ _ _ A') as (U' & _).
    rewrite Hsame, U in U'. injection U' as <-.
    destruct (rs_body _ _ _ _ _ (an_signed _ _ _ _ _ _ _ _ _ A)) as (_ & V & _).
    destruct (rs_body _ _ _ _ _ (an_signed _ _ _ _ _ _ _ _ _ A')) as (_ & V' & _). congruence. }
  assert (ck_TaskDoc want = ck_TaskDoc want') as E.
  { apply Hreq. by rewrite (an_request _ _ _ _ _ _ _ _ _ A), (an_request _ _ _ _ _ _ _ _ _ A'). }
  assert (td' = td ∧ b' = b ∧ b0 = b) as (-> & -> & ->).
  { pose proof (an_doc _ _ _ _ _ _ _ _ _ A) as Q. pose proof (an_doc _ _ _ _ _ _ _ _ _ A') as Q'.
    pose proof (an_binding _ _ _ _ _ _ _ _ _ A) as B. pose proof (an_binding _ _ _ _ _ _ _ _ _ A') as B'.
    rewrite <- E, Q in Q'. injection Q' as <-. rewrite Q in Hb. simpl in Hb. rewrite B in Hb, B'. by simplify_eq. }
  split_and!; [done| |done| |].
  - by rewrite <- (an_provider _ _ _ _ _ _ _ _ _ A), <- (an_provider _ _ _ _ _ _ _ _ _ A').
  - symmetry. apply (IXCommit_inj _ _ _ _ _ (an_ix _ _ _ _ _ _ _ _ _ A) (an_ix _ _ _ _ _ _ _ _ _ A') Hinj).
  - symmetry. apply Hdel. by rewrite (an_result _ _ _ _ _ _ _ _ _ A), (an_result _ _ _ _ _ _ _ _ _ A').
Qed.
(** *** The binding round trip *)

Lemma keys_distinct :
  ContextNonce ≠ ContextRequesterCommit ∧ ContextNonce ≠ ContextReviewKey ∧
  ContextRequesterCommit ≠ ContextReviewKey.
Proof. split_and!; vm_compute; congruence. Qed.

Lemma readContexts_app found cs cs' :
  readContexts found (cs ++ cs') = (found ← readContexts found cs; readContexts found cs').
Proof.
  revert found. induction cs as [|c cs IH]; intros found; [done|]. simpl.
  destruct (readContext found c); [apply IH|done].
Qed.

Lemma readContexts_skip found cs :
  Forall (λ c, binding_key (cx_Key c) = false) cs → readContexts found cs = Ok found.
Proof. induction 1 as [|c cs Hc _ IH]; [done|]. simpl. unfold readContext. by rewrite Hc. Qed.

Lemma readContext_binding found k v :
  k ∈ [ContextNonce; ContextRequesterCommit; ContextReviewKey] → found !! k = None →
  readContext found (bindingContext k v) = Ok (<[k := v]> found).
Proof.
  intros Hk Hn. unfold readContext, bindingContext, binding_key. cbn [cx_Key cx_Visibility cx_Format cx_Src cx_Value].
  rewrite (proj2 (existsb_exists (beqb k) _)).
  2: { exists k. split; [by apply list_elem_of_In|apply beqb_refl]. }
  cbn [negb]. rewrite bool_decide_false by (rewrite Hn; intros [? E]; discriminate E).
  rewrite !beqb_refl, andb_false_r. done.
Qed.

Lemma decode32_EncodeToString x : bytes_ok x → len x = 32 → decode32 (Relayauth.EncodeToString x) = Ok x.
Proof.
  intros Hx Hl. unfold decode32, b64Len32. rewrite length_EncodeToString, Hl, Z.eqb_refl. cbn [negb].
  rewrite base64_decode_encode by done. cbn [of_option mbind result_bind]. by rewrite Hl, Z.eqb_refl.
Qed.

(** The binding a requester writes is the binding a provider reads, whatever other contexts stand
    around it. *)
Lemma binding_round_trip td t b cs before after :
  Contexts b = Ok cs → bytes_ok (bd_RequesterCommit b) → bytes_ok (bd_ReviewKey b) →
  head (d_Tasks td) = Some t → t_Contexts t = before ++ cs ++ after →
  Forall (λ c, binding_key (cx_Key c) = false) (before ++ after) →
  ReadTaskBinding (Some td) = Ok b.
Proof.
  intros Hc Hrb Hkb Ht Hcs Hskip. apply Forall_app in Hskip as [Hbe Haf].
  unfold Contexts in Hc. apply refuse_Ok in Hc as [Hn Hc]. apply refuse_Ok in Hc as [Hl [= <-]].
  apply negb_false_iff in Hn. apply orb_false_iff in Hl as [Hrl Hkl]. apply negb_Zeqb_false in Hrl, Hkl.
  destruct keys_distinct as (N1 & N2 & N3). unfold ReadTaskBinding. cbn [of_option mbind result_bind].
  rewrite Ht. cbn [of_option mbind result_bind]. rewrite Hcs, readContexts_app, readContexts_skip by done.
  cbn [mbind result_bind]. rewrite readContexts_app. cbn [readContexts].
  rewrite readContext_binding; [|by left|apply lookup_empty]. cbn [mbind result_bind].
  rewrite readContext_binding; [|by right; left|by rewrite lookup_insert_ne, lookup_empty]. cbn [mbind result_bind].
  rewrite readContext_binding; [|by right; right; left|by rewrite !lookup_insert_ne, lookup_empty]. cbn [mbind result_bind].
  rewrite readContexts_skip by done. cbn [mbind result_bind].
  rewrite !(lookup_insert_ne _ _ ContextNonce), lookup_insert_eq by done.
  rewrite (lookup_insert_ne _ _ ContextRequesterCommit), !lookup_insert_eq by done. cbn [of_option mbind result_bind].
  rewrite Hn, !decode32_EncodeToString by done. by destruct b.
Qed.

(** *** An honest task *)

(** A document carries its contract on the wire and not its envelope. *)
Lemma taskdoc_Sign_Ok `{!PlatformLaws P} c s d d' :
  speaks c s → taskdoc_Sign d s = Ok d' →
  d_Tasks d' = d_Tasks d ∧ ∃ env, d_Envelope d' = Some env ∧ env_SignerAID env = c_aid c ∧
    ∀ t, taskdoc_Verify d' (KEL c) t = Ok tt.
Proof.
  intros Hs H. unfold taskdoc_Sign in H. apply bind_Ok in H as (pre & Hpre & H).
  destruct (speaks_signs c s pre Hs) as (sig & seq & Hsig & Haid & Hlen & Hv). rewrite Hsig, Haid in H.
  injection H as <-. split; [done|]. eexists. split_and!; [done|done|]. intros t.
  unfold taskdoc_Verify. cbn [d_Envelope of_option mbind result_bind]. unfold Platform.Validate.
  cbn -[AlgEdDSA SignatureSize CanonicalPreimage VerifyObject]. rewrite Z.eqb_refl, Hlen, Z.eqb_refl.
  change (Taskdoc.CanonicalPreimage _) with (Taskdoc.CanonicalPreimage d). rewrite Hpre. apply Hv.
Qed.

(** What a provider checks of a request. *)
Lemma VerifyDelegateReqWithKEL_signed `{!PlatformLaws P} c s d d' req t :
  speaks c s → taskdoc_Sign d s = Ok d' → d_Tasks d ≠ [] →
  marshal (set_doc_envelope None d') = Some (dr_TaskDoc req) →
  unmarshal (dr_TaskDoc req) = Some (set_doc_envelope None d') →
  dr_Envelope req = d_Envelope d' → dr_InteractionID req ≠ [] →
  VerifyDelegateReqWithKEL (Some req) (KEL c) t = Ok (c_aid c, d', dr_TaskDoc req).
Proof.
  intros Hs Hsg Hne Hm Hu Henv Hix. destruct (taskdoc_Sign_Ok _ _ _ _ Hs Hsg) as (Ht & env & He & Ha & Hv).
  unfold VerifyDelegateReqWithKEL, decodeDelegateReq, decodeTaskDoc, decodeBody, UnmarshalStrict.
  cbn [of_option mbind result_bind]. rewrite Henv, He, (proj2 (beqb_false _ _)) by done. rewrite bool_decide_false by done.
  rewrite Hu. cbn [of_option map_err mbind result_bind]. rewrite bool_decide_true by done. cbn [negb map_err mbind result_bind].
  assert (d_Tasks (set_doc_envelope None d') = d_Tasks d) as Htt by (destruct d'; exact Ht). rewrite Htt.
  rewrite (proj2 (Z.eqb_neq (len (d_Tasks d)) 0)) by by rewrite len_nil. cbn [mbind result_bind].
  assert (len (KEL c) =? 0 = false) as ->.
  { apply Z.eqb_neq. rewrite len_nil. intros E. pose proof (KEL_head c (sp_ok _ _ Hs)) as Hh. rewrite E in Hh. discriminate Hh. }
  assert (set_doc_envelope (Some env) (set_doc_envelope None d') = d') as -> by (destruct d'; simpl in *; by rewrite He).
  rewrite Hv. cbn [map_err mbind result_bind]. by rewrite Ha.
Qed.
(** The receipt a provider writes for the request it got and the bytes it delivers. *)
Definition receipt_for (b : TaskBinding) (ixc requestCID resultCID : bytes) (day : Z) : ReceiptBody :=
  mkReceiptBody [] ixc (bd_RequesterCommit b) (bd_ReviewKey b) [] requestCID resultCID day.

(** C8: an honest task completes.  A requester signs a document that carries a task binding among
    its first task's contexts and sends its bytes: the provider's check, under the requester's log
    and at any time, gives the requester's AID, the document and the same bytes, and the provider
    reads the binding the requester wrote.  The receipt the provider signs from what it read and from
    the bytes it delivers then passes the requester's check, at any time, on every day of the task
    and the days beside it. *)
Theorem honest_task_completes `{!PlatformLaws P} (SB : StrictInv ReceiptBody) (IB : CoredetItem ReceiptBody)
  (SW : StrictInv ReceiptWire) (IW : CoredetItem ReceiptWire)
  requester rs provider ps d d' t cs before after b raw ix time :
  speaks requester rs → speaks provider ps → text_ok (c_aid provider) →
  Contexts b = Ok cs → bytes_ok (bd_RequesterCommit b) → bytes_ok (bd_ReviewKey b) →
  head (d_Tasks d) = Some t → t_Contexts t = before ++ cs ++ after →
  Forall (λ c, binding_key (cx_Key c) = false) (before ++ after) →
  taskdoc_Sign d rs = Ok d' → text_ok ix →
  marshal (set_doc_envelope None d') = Some raw → unmarshal raw = Some (set_doc_envelope None d') →
  unmarshal_lax raw = Some (set_doc_envelope None d') → raw ≠ [] →
  VerifyDelegateReqWithKEL (Some (mkDelegateReq raw (d_Envelope d') ix [] [] [])) (KEL requester) time =
    Ok (c_aid requester, d', raw) ∧
  ReadTaskBinding (Some d') = Ok b ∧
  ∀ deliverable ixc q v day w rb dd today time',
    IXCommit ix (bd_Nonce b) = Ok ixc → Sum raw = Ok q → Sum deliverable = Ok v →
    receipt_Sign (receipt_for b ixc q v day) ps = Ok w → receipt_wire_Marshal w = Ok rb →
    is_u64 day → is_u64 dd → is_u64 today → today + 1 < MaxUint64 → dd - 1 <= day <= today + 1 →
    ∃ rc, VerifyResultForRequest (Some (mkResultResp StatusDone deliverable rb [] None)) (KEL provider)
            (mkResultCheck ix (c_aid provider) raw dd today) time' = Ok rc ∧ rb_Provider rc = c_aid provider.
Proof.
  intros Hr Hp Hpt Hc Hrb Hkb Ht Hcs Hskip Hsg Hix Hm Hu Hl Hne.
  destruct (taskdoc_Sign_Ok _ _ _ _ Hr Hsg) as (Htasks & _).
  assert (∀ e, ReadTaskBinding (Some (set_doc_envelope e d')) = Ok b) as Hread.
  { intros e. apply (binding_round_trip _ t b cs before after); try done.
    by destruct d'; simpl in *; rewrite Htasks. }
  split_and!.
  - apply (VerifyDelegateReqWithKEL_signed _ rs d); try done; [|apply Hix]. intros E. by rewrite E in Ht.
  - rewrite <- (Hread (d_Envelope d')). by destruct d'.
  - intros deliverable ixc q v day w rb dd today time' Hxc Hq Hv Hw Hrbm U1 U2 U3 U4 Hday.
    destruct (receipt_Sign_signed SB IB _ _ _ _ Hp Hpt Hw) as (rc & env & -> & Hsig).
    set (rc := set_provider _ _) in *. exists rc. split; [|done].
    unfold receipt_wire_Marshal in Hrbm. apply bind_unit_Ok in Hrbm as [_ Hwm]. apply of_option_Ok in Hwm.
    apply VerifyResultForRequest_Ok; [by split_and!|].
    exists w, env, (set_doc_envelope None d'), b. constructor; try done; cbn [ck_Provider ck_TaskDoc rs_Receipt].
    + split; [apply Hpt|done].
    + intros E. pose proof (KEL_head provider (sp_ok _ _ Hp)) as Hh. rewrite E in Hh. discriminate Hh.
    + split_and!; [by apply unmarshal_marshal|done|]. intros ->. by eapply marshal_item.
Qed.
End Theorems.

(** ** A sample task: the agent asks the hub's node *)

(** Encodings of documents of one task with an intent and contexts. *)
Definition context_cbor (c : TaskContext) : cbor :=
  CMap [(1, CText (cx_Key c)); (2, CText (cx_Value c)); (4, CText (cx_Format c)); (5, CText (cx_Visibility c))].
Definition context_of_cbor (c : cbor) : TaskContext :=
  match c with
  | CMap l => mkTaskContext (as_text (member 1 l)) (as_text (member 2 l)) [] (as_text (member 4 l)) (as_text (member 5 l))
  | _ => mkTaskContext [] [] [] [] []
  end.
Definition task_cbor (t : Task) : cbor :=
  CMap [(1, CText (t_ID t)); (10, CText (i_Body (t_Intent t))); (14, CArray (map context_cbor (t_Contexts t)))].
Definition task_of_cbor (c : cbor) : Task :=
  match c with
  | CMap l => mkTask (as_text (member 1 l)) (mkIntent [] [] (as_text (member 10 l))) [] []
                (match member 14 l with Some (CArray cs) => map context_of_cbor cs | _ => [] end) None None 0
  | _ => mkTask [] (mkIntent [] [] []) [] [] [] None None 0
  end.
Definition plain_doc (tasks : list Task) : TaskDoc := mkTaskDoc (mkVersionPair 1 0) [] [] tasks [] None.

#[local] Instance wire_doc_coredet : Coredet TaskDoc := λ d, cbor_marshal (CArray (map task_cbor (d_Tasks d))).
#[local] Instance wire_doc_strict : Strict TaskDoc := λ b,
  match decode b with Some (CArray ts) => Some (plain_doc (map task_of_cbor ts)) | _ => None end.
#[local] Instance wire_doc_lax : Lax TaskDoc := wire_doc_strict.
#[local] Instance wire_preimage_coredet : Coredet taskDocPreimage :=
  λ x, cbor_marshal (CArray (map task_cbor (tp_Tasks x))).

Definition sample_binding : TaskBinding := mkTaskBinding (str "nonce-1") (sha256 (str "commit")) (sample_pub 21).
Definition sample_contexts : list TaskContext := match Contexts sample_binding with Ok cs => cs | Err _ => [] end.
Definition sample_task : Task :=
  mkTask (str "t1") (mkIntent [] [] (str "Summarise the report.")) [] []
    ([mkTaskContext (str "lang") (str "en") [] (str "text") (str "public")] ++ sample_contexts ++ []) None None 0.
Definition sent_doc : TaskDoc :=
  match taskdoc_Sign (plain_doc [sample_task]) sample_signer with Ok d => d | Err _ => plain_doc [] end.
Definition sent_bytes : bytes := match marshal (set_doc_envelope None sent_doc) with Some b => b | None => [] end.
Definition sample_deliverable : bytes := str "The report says yes.".
Definition sample_receipt_body : ReceiptBody :=
  match IXCommit (str "ix-7") (bd_Nonce sample_binding), Sum sent_bytes, Sum sample_deliverable with
  | Ok h, Ok q, Ok v => receipt_for sample_binding h q v 20371
  | _, _, _ => receipt_for sample_binding [] [] [] 0
  end.
Definition task_receipt : ReceiptWire :=
  match receipt_Sign sample_receipt_body hub_snapshot with Ok w => w | Err _ => mkReceiptWire [] None end.
Definition task_receipt_bytes : bytes := match receipt_wire_Marshal task_receipt with Ok b => b | Err _ => [] end.
Definition sample_result : ResultResp := mkResultResp StatusDone sample_deliverable task_receipt_bytes [] None.
Definition sample_check : ResultCheck := mkResultCheck (str "ix-7") (c_aid hub0) sent_bytes 20371 20372.

Lemma sample_request :
  Contexts sample_binding = Ok sample_contexts ∧
  taskdoc_Sign (plain_doc [sample_task]) sample_signer = Ok sent_doc ∧
  marshal (set_doc_envelope None sent_doc) = Some sent_bytes ∧
  unmarshal sent_bytes = Some (set_doc_envelope None sent_doc) ∧
  unmarshal_lax sent_bytes = Some (set_doc_envelope None sent_doc) ∧
  beqb sent_bytes [] = false ∧ beqb (c_aid hub0) [] || has_byte 0 (c_aid hub0) = false.
Proof. split_and!; vm_compute; reflexivity. Qed.

Lemma sample_completion :
  IXCommit (str "ix-7") (bd_Nonce sample_binding) = Ok (rb_IXCommit sample_receipt_body) ∧
  Sum sent_bytes = Ok (rb_RequestCID sample_receipt_body) ∧
  Sum sample_deliverable = Ok (rb_ResultCID sample_receipt_body) ∧
  receipt_Sign (receipt_for sample_binding (rb_IXCommit sample_receipt_body) (rb_RequestCID sample_receipt_body)
    (rb_ResultCID sample_receipt_body) 20371) hub_snapshot = Ok task_receipt ∧
  receipt_wire_Marshal task_receipt = Ok task_receipt_bytes.
Proof. split_and!; vm_compute; reflexivity. Qed.

Lemma text_ok_of s : beqb s [] || has_byte 0 s = false → text_ok s.
Proof. intros [H1 H2]%orb_false_iff. split; [by apply beqb_false|by apply has_byte_false]. Qed.

Lemma sample_bytes_ok : bytes_ok (bd_RequesterCommit sample_binding) ∧ bytes_ok (bd_ReviewKey sample_binding).
Proof. split; vm_compute; repeat constructor; discriminate. Qed.

Lemma sample_others :
  Forall (λ c, binding_key (cx_Key c) = false) ([mkTaskContext (str "lang") (str "en") [] (str "text") (str "public")] ++ []).
Proof. repeat constructor. Qed.

Lemma honest_task_completes_witness :
  ∃ rc, VerifyResultForRequest (Some sample_result) (KEL hub0) sample_check 1760054400000 = Ok rc ∧
    rb_Provider rc = c_aid hub0.
Proof.
  destruct sample_request as (Q1 & Q2 & Q3 & Q4 & Q5 & Q6 & Q7). destruct sample_completion as (R1 & R2 & R3 & R4 & R5).
  refine (proj2 (proj2 (honest_task_completes (P := platform) (CE := event_coredet)
    (codec_inv _ _ rbody_of_cbor_rbody) (codec_item _) (codec_inv _ _ rwire_of_cbor_rwire) (codec_item _)
    sample_agent sample_signer hub0 hub_snapshot (plain_doc [sample_task]) sent_doc sample_task sample_contexts
    [mkTaskContext (str "lang") (str "en") [] (str "text") (str "public")] [] sample_binding sent_bytes (str "ix-7")
    1760054400000 agent_speaks hub_speaks (text_ok_of _ Q7) Q1 (proj1 sample_bytes_ok) (proj2 sample_bytes_ok)
    eq_refl eq_refl sample_others Q2 (text_ok_of (str "ix-7") eq_refl) Q3 Q4 Q5 (proj1 (beqb_false _ _) Q6)))
    sample_deliverable _ _ _ 20371 task_receipt task_receipt_bytes 20371 20372 1760054400000 R1 R2 R3 R4 R5 _ _ _ _ _);
  unfold is_u64, MaxUint64, two64; lia.
Defined.

Lemma sample_days rc : rb_CompletedDay rc = 20371 → days_ok sample_check rc.
Proof. intros Hd. unfold days_ok. rewrite Hd. unfold is_u64, MaxUint64, two64. simpl. lia. Qed.

Definition sample_rc : ReceiptBody :=
  match VerifyResultForRequest (Some sample_result) (KEL hub0) sample_check 1760054400000 with
  | Ok rc => rc | Err _ => sample_receipt_body end.
Lemma sample_verdict :
  VerifyResultForRequest (Some sample_result) (KEL hub0) sample_check 1760054400000 = Ok sample_rc ∧
  rb_CompletedDay sample_rc = 20371.
Proof. split; vm_compute; reflexivity. Qed.

Lemma result_is_for_this_task_witness :
  ∃ w env td b, answered sample_result (KEL hub0) sample_check 1760054400000 sample_rc w env td b.
Proof.
  exact (proj1 (proj1 (result_is_for_this_task (P := platform) (CE := event_coredet) sample_result (KEL hub0)
    sample_check 1760054400000 sample_rc (sample_days _ (proj2 sample_verdict)))) (proj1 sample_verdict)).
Defined.
