(* ===== verification/Fields.v ===== *)
(** * Fields: integer-keyed maps, padding and key ids (seal/fields.go, suite.go, limits.go)

    Everything an envelope holds is a CBOR map with unsigned keys whose values are kept as their
    encoded bytes.  [Items] is the third-party CBOR codec at the Go types the package encodes;
    [ItemsLaws] states what it is documented to do.  [decodeFields] accepts only the canonical
    encoding; [applyPad] puts a map on a Padmé length. *)

From S2P Require Import Prelude Platform.

(** [fieldMap]: a [map[uint64]cbor.RawMessage]. *)
Abbreviation fieldMap := (gmap Z bytes).

(** The codec ([coredet.Marshal] and [coredet.Unmarshal]) at [map[uint64]RawMessage], [uint64],
    [string], [[]byte] and [[][]byte]; [unmarshal_raws] decodes into a [[]cbor.RawMessage] and
    [decodes] into an [any]. *)
Class Items := {
  marshal_fields : fieldMap → option bytes;
  unmarshal_fields : bytes → option fieldMap;
  marshal_uint : Z → option bytes;
  unmarshal_uint : bytes → option Z;
  marshal_text : bytes → option bytes;
  unmarshal_text : bytes → option bytes;
  marshal_bytes : bytes → option bytes;
  unmarshal_bytes : bytes → option bytes;
  marshal_list : list bytes → option bytes;
  unmarshal_raws : bytes → option (list bytes);
  decodes : bytes → bool;
}.

(** The major type of an item: the top three bits of its first byte, [b[0]>>5]. *)
Definition major (b : bytes) : option Z := match b with [] => None | c :: _ => Some (Z.shiftr c 5) end.

Definition majorUint : Z := 0.
Definition majorBytes : Z := 2.
Definition majorText : Z := 3.
Definition majorArray : Z := 4.
Definition majorMap : Z := 5.

(** [cborHeadLen], [encodedLen]: the length of a head and of an encoded map. *)
Definition cborHeadLen (n : Z) : Z :=
  if n <? 24 then 1
  else if n <=? 255 then 2
  else if n <=? 65535 then 3
  else if n <=? 4294967295 then 5
  else 9.

Definition encodedLen (m : fieldMap) : Z :=
  map_fold (λ k v n, n + (cborHeadLen k + len v)) (cborHeadLen (Z.of_nat (size m))) m.

(** [wellFormedItem] (envelope.go): exactly one item; [items m]: every value of [m] is one. *)
Definition wellFormedItem `{Items} (b : bytes) : bool := negb (len b =? 0) && decodes b.
Definition items `{Items} (m : fieldMap) : Prop := map_Forall (λ _ v, wellFormedItem v = true) m.

(** Encoding then decoding gives the value back; an encoding is one item of the major type of its
    value; a map of items is as long as its heads and values, which fit a Go slice. *)
Class ItemsLaws (I : Items) : Prop := {
  fields_inv m b : items m → marshal_fields m = Some b → unmarshal_fields b = Some m;
  fields_items m b : unmarshal_fields b = Some m → items m;
  fields_item m b : marshal_fields m = Some b → wellFormedItem b = true;
  fields_major m b : marshal_fields m = Some b → major b = Some majorMap;
  fields_len m b : items m → marshal_fields m = Some b → len b = encodedLen m;
  fields_slice m b : marshal_fields m = Some b → len b <= MaxInt64;
  uint_range n b : marshal_uint n = Some b → is_u64 n;
  uint_inv n b : is_u64 n → marshal_uint n = Some b → unmarshal_uint b = Some n;
  uint_item n b : marshal_uint n = Some b → wellFormedItem b = true;
  uint_major n b : is_u64 n → marshal_uint n = Some b → major b = Some majorUint;
  text_inv s b : marshal_text s = Some b → unmarshal_text b = Some s;
  text_item s b : marshal_text s = Some b → wellFormedItem b = true;
  text_major s b : marshal_text s = Some b → major b = Some majorText;
  bytes_inv s b : marshal_bytes s = Some b → unmarshal_bytes b = Some s;
  bytes_item s b : marshal_bytes s = Some b → wellFormedItem b = true;
  bytes_major s b : marshal_bytes s = Some b → major b = Some majorBytes;
  bytes_len s b : marshal_bytes s = Some b → len b = cborHeadLen (len s) + len s;
  bytes_total s : is_u64 (len s) → is_Some (marshal_bytes s);
  list_inv l b : marshal_list l = Some b →
    ∃ rs, unmarshal_raws b = Some rs ∧ Forall2 (λ s r, marshal_bytes s = Some r) l rs;
  list_item l b : marshal_list l = Some b → wellFormedItem b = true;
  list_major l b : marshal_list l = Some b → major b = Some majorArray;
  null_item : wellFormedItem [246] = true;
  bool_item : wellFormedItem [244] = true ∧ wellFormedItem [245] = true;
}.

(** ** Limits (limits.go) *)

Definition minuteMS : Z := 60 * 1000.
Definition hourMS : Z := 60 * minuteMS.
Definition dayMS : Z := 24 * hourMS.
Definition ClockSkewMS : Z := 5 * minuteMS.
Definition MaxKeyValidityMS : Z := 2 * dayMS.
Definition MaxMessageLifetimeMS : Z := 15 * dayMS.
Definition MaxKELEvents : Z := 256.
Definition MaxKELBytes : Z := Z.shiftl 64 10.
Definition MIDLen : Z := 16.
Definition SigLen : Z := 64.
Definition FirstIgnorableKey : Z := 64.

(** [satAdd] (enckeys.go). *)
Definition satAdd (a b : Z) : Z := if MaxUint64 - b <? a then MaxUint64 else a + b.

(** ** Errors (errors.go)

    [fail(reason, detail)] is [Typed reason detail], and so is [failWrap], whose cause is left out.
    A reason is one of these. *)
Definition ReasonBadOuter : string := "bad-outer".
Definition ReasonBadVersion : string := "bad-version".
Definition ReasonUnknownSuite : string := "unknown-suite".
Definition ReasonWrongRecipient : string := "wrong-recipient".
Definition ReasonAccessInvalid : string := "access-invalid".
Definition ReasonUnknownKey : string := "sealed-to-unknown-key".
Definition ReasonDecrypt : string := "decrypt-failed".
Definition ReasonBadInner : string := "bad-inner".
Definition ReasonUnknownField : string := "unknown-critical-field".
Definition ReasonToMismatch : string := "to-mismatch".
Definition ReasonExpMismatch : string := "exp-mismatch".
Definition ReasonKELTooLarge : string := "kel-too-large".
Definition ReasonBadKEL : string := "bad-kel".
Definition ReasonFromMismatch : string := "from-mismatch".
Definition ReasonExpired : string := "expired".
Definition ReasonFromFuture : string := "from-future".
Definition ReasonBadLifetime : string := "bad-lifetime".
Definition ReasonBadSig : string := "bad-sig".
Definition ReasonBadKeyState : string := "bad-key-state".
Definition ReasonRevokedKey : string := "revoked-key".
Definition ReasonGraceExpired : string := "rotation-grace-expired".
Definition ReasonInvalidInput : string := "invalid-input".
Definition ReasonInternalError : string := "internal".
Definition ReasonBadWrap : string := "bad-wrap".
Definition ReasonBadRK : string := "bad-rk".
Definition ReasonSealedToClosedInteraction : string := "sealed-to-closed-interaction".
Definition ReasonIKeyMismatch : string := "ikey-mismatch".
Definition ReasonWitnessMissing : string := "witness-missing".
Definition ReasonWitnessStale : string := "witness-stale".
Definition ReasonWitnessMismatch : string := "witness-mismatch".
Definition ReasonWitnessInvalid : string := "witness-invalid".
Definition ReasonWitnessUnknown : string := "witness-unknown".

Definition fail (reason detail : string) : error := Typed reason detail.
(** [failWrap reason detail] turns an error into one of the package; a panic stays one. *)
Definition failWrap (reason detail : string) : error → error := unless_panic (λ _, Typed reason detail).

Definition ReasonOf (e : error) : string := match e with Typed r _ => r | _ => "" end.
Definition IsPermanent (e : error) : bool :=
  match e with
  | Typed r _ => negb (String.eqb r ReasonInternalError) && negb (String.eqb r ReasonWitnessUnknown)
  | _ => false
  end.

(** ** Suites and key ids (suite.go) *)

Definition SuiteX25519 : Z := 1.
Record suiteParams := mkSuiteParams { pubLen : Z; encLen : Z }.
Definition suite1 : suiteParams := mkSuiteParams 32 32.
Definition params (s : Z) : option suiteParams := if s =? SuiteX25519 then Some suite1 else None.
Definition Supported (s : Z) : bool := bool_decide (is_Some (params s)).

Definition KIDLen : Z := 16.
Definition kidLabel : bytes := str "anet-enc-kid/v1".
Definition KID `{Platform} (suite : Z) (pub : bytes) : bytes :=
  take (Z.to_nat KIDLen) (sha256 (kidLabel ++ [suite] ++ pub)).

Section Fields.
Context `{I : Items}.

(** ** Decoding *)

Definition decodeFields (b : bytes) : result fieldMap :=
  refuse negb (bool_decide (major b = Some majorMap)) with Errf "not a CBOR map";
  m ← of_option (unmarshal_fields b) errUnmarshal;
  re ← of_option (marshal_fields m) errMarshal;
  refuse negb (beqb re b) with Errf "not the canonical encoding";
  Ok m.

(** The least key with a property, in whatever order the map is walked. *)
Definition least_key (bad : Z → bool) (m : fieldMap) : option Z :=
  map_fold (λ k _ acc, if bad k && match acc with Some least => k <? least | None => true end
                       then Some k else acc) None m.
Definition firstUnknownCritical (m : fieldMap) (known : Z → bool) : option Z :=
  least_key (λ k, (k <? FirstIgnorableKey) && negb (known k)) m.
Definition firstKeyOutside (m : fieldMap) (lo hi : Z) : option Z :=
  least_key (λ k, (k <? lo) || (hi <? k)) m.

(** One member read back at the type it must have. *)
Definition raw_field {A} (mj : Z) (dec : bytes → option A) (m : fieldMap) (k : Z) : result A :=
  raw ← of_option (m !! k) (Errf "field missing");
  refuse negb (bool_decide (major raw = Some mj)) with Errf "field is of another type";
  of_option (dec raw) (Wrap "field" errUnmarshal).
Definition rawUint (m : fieldMap) (k : Z) : result Z := raw_field majorUint unmarshal_uint m k.
Definition rawText (m : fieldMap) (k : Z) : result bytes := raw_field majorText unmarshal_text m k.
Definition rawBytes (m : fieldMap) (k : Z) : result bytes := raw_field majorBytes unmarshal_bytes m k.

(** [encodeField] at the types it is called with. *)
Definition encodeUint (n : Z) : result bytes := of_option (marshal_uint n) errMarshal.
Definition encodeText (s : bytes) : result bytes := of_option (marshal_text s) errMarshal.
Definition encodeBytes (s : bytes) : result bytes := of_option (marshal_bytes s) errMarshal.
Definition encodeList (l : list bytes) : result bytes := of_option (marshal_list l) errMarshal.
Definition marshalFields (m : fieldMap) : result bytes := of_option (marshal_fields m) errMarshal.

(** ** The signature preimage *)

Definition keyBody : Z := 9.
Definition keySig : Z := 20.
Definition preKeyLabel : Z := 0.
Definition preKeyEnc : Z := 30.
Definition preKeyKID : Z := 31.
Definition preKeySuite : Z := 32.
Definition preKeyIKID : Z := 33.
Definition preKeyEnc2 : Z := 34.
Definition SigLabel : bytes := str "anet-relay-sig/v2".
Definition cborNull : bytes := [246].

Definition preKeys : list Z := [preKeyLabel; preKeyEnc; preKeyKID; preKeySuite; preKeyIKID; preKeyEnc2].

(** A byte slice that may be nil, which encodes as null. *)
Definition encodeSlice (o : option bytes) : result bytes :=
  match o with Some b => encodeBytes b | None => Ok cborNull end.

Definition sigPreimage `{Platform} (fields : fieldMap) (enc kid : bytes) (suite : Z)
  (ikid enc2 : option bytes) : result bytes :=
  refuse xorb (bool_decide (ikid = None)) (bool_decide (enc2 = None))
    with Errf "ikid and enc2 go together: both for two layers, neither for one";
  refuse existsb (λ k, bool_decide (is_Some (fields !! k))) preKeys
    with Errf "field is reserved for the signature preimage";
  body ← rawBytes fields keyBody;
  digest ← encodeBytes (sha256 body);
  label ← encodeText SigLabel;
  e ← encodeBytes enc;
  k ← encodeBytes kid;
  s ← encodeUint suite;
  i ← encodeSlice ikid;
  e2 ← encodeSlice enc2;
  marshalFields
    (<[preKeyEnc2 := e2]> (<[preKeyIKID := i]> (<[preKeySuite := s]> (<[preKeyKID := k]>
      (<[preKeyEnc := e]> (<[preKeyLabel := label]> (<[keyBody := digest]> (delete keySig fields)))))))).
End Fields.

(** ** Padding *)

(** [bits.Len(uint(n))] for [n >= 0]. *)
Definition bits_Len (n : Z) : Z := if n =? 0 then 0 else Z.log2 n + 1.

Definition Padme (n : Z) : Z :=
  if n <? 2 then n
  else
    let e := bits_Len n - 1 in
    let s := bits_Len e in
    let mask := Z.shiftl 1 (e - s) - 1 in
    if MaxInt64 - mask <? n then n else Z.ldiff (n + mask) mask.

Definition padLenFor (d : Z) : option Z :=
  if d <? 0 then None
  else
    match List.filter (λ h, let n := d - (h - 1) in (0 <=? n) && (cborHeadLen n =? h)) [1; 2; 3; 5; 9] with
    | h :: _ => Some (d - (h - 1))
    | [] => None
    end.

(** The loop of [applyPad]: the target it settles on and the number of zero bytes.  It is [None]
    when the fuel runs out. *)
Fixpoint padLoop (fuel : nat) (base target : Z) : option (Z * Z) :=
  match fuel with
  | O => None
  | S fuel =>
      match padLenFor (target - base) with
      | Some n => Some (target, n)
      | None => padLoop fuel base (Padme (target + 1))
      end
  end.

(** Eight offsets have no pad, so nine rounds are enough. *)
Definition padFuel : nat := 9.
Definition wrapKeyPad : Z := 21.

Definition applyPad `{Items} (wrap : fieldMap) : option (fieldMap * Z) :=
  let wrap := <[wrapKeyPad := [64]]> wrap in
  let base := encodedLen wrap in
  match padLoop padFuel base (Padme base) with
  | Some (target, n) =>
      let pad := match marshal_bytes (repeat 0 (Z.to_nat n)) with Some pad => pad | None => [] end in
      Some (<[wrapKeyPad := pad]> wrap, target)
  | None => None
  end.
