(* ===== verification/Envelope.v ===== *)
(** * Envelope: sealed messages (seal/envelope.go, ixkey.go)

    A message is a signed map of fields (the inner), encrypted to the recipient's epoch key and, once
    the peer announced an interaction key, to that key first (the second layer).  [ParseOuter],
    [EnvDigest] and [SetAccess] are what a hub and a sender do to the outer map; [Seal] builds an
    envelope, [Open] takes one apart (receive steps 1 to 4); [CheckTime], [CheckNotice] and
    [VerifyInnerSig] are steps 5, 6 1/2 and 7.  A nil pointer, slice, ring or lookup is [None]. *)

From S2P Require Import Prelude Platform Aid Kel IdFile Controller Notice Fields.

(** HPKE of suite 1 ([crypto/hpke]): a sender or recipient context of one message.  [hpke_sender]
    draws its ephemeral key from [seed]; the second argument of [hpke_export] is the exporter
    context, the third the length. *)
Class HpkeContexts := {
  hpke_ctx : Type;
  kem_public_ok : bytes → bool;
  kem_private_ok : bytes → bool;
  hpke_sender : bytes → bytes → bytes → option (bytes * hpke_ctx);
  hpke_recipient : bytes → bytes → bytes → option hpke_ctx;
  ctx_seal : hpke_ctx → bytes → option bytes;
  ctx_open : hpke_ctx → bytes → option bytes;
  ctx_export : hpke_ctx → bytes → Z → option bytes;
}.

(** ** Data *)

Definition EnvelopeVersion : Z := 2.
Definition HPKELabel : bytes := str "anet-seal/v2".
Definition IXLabel : bytes := str "anet-ix/v2".
Definition DAckExporterContext : bytes := str "anet-dack/v1".
Definition AckKeyLen : Z := 32.

Definition outerKeyV : Z := 1.
Definition outerKeyTo : Z := 2.
Definition outerKeySuite : Z := 3.
Definition outerKeyKID : Z := 4.
Definition outerKeyEnc : Z := 5.
Definition outerKeyCT : Z := 6.
Definition outerKeyAccess : Z := 7.
Definition outerKeyExp : Z := 8.
Definition outerKnown (k : Z) : bool := existsb (Z.eqb k) [1; 2; 3; 4; 5; 6; 7; 8].

Definition wrapKeyIKID : Z := 1.
Definition wrapKeyEnc2 : Z := 2.
Definition wrapKeyBody : Z := 3.
Definition wrapKnown (k : Z) : bool := existsb (Z.eqb k) [1; 2; 3; 21].

Definition keyFrom : Z := 1.
Definition keySeq : Z := 2.
Definition keyTo : Z := 3.
Definition keyType : Z := 4.
Definition keyIX : Z := 5.
Definition keyMID : Z := 6.
Definition keyTS : Z := 7.
Definition keyExp : Z := 8.
Definition keyKEL : Z := 10.
Definition keyNotice : Z := 11.
Definition keyKeys : Z := 12.
Definition keyGrant : Z := 14.
Definition keyRK : Z := 15.
Definition innerKnown (k : Z) : bool :=
  existsb (Z.eqb k) [1; 2; 3; 4; 5; 6; 7; 8; 9; 10; 11; 12; 14; 15; 20].

Definition MaxNoticeBytes : Z := 1024.
Definition noticesPerMessage : Z := 1.
Definition AccessKindSession : Z := 0.
Definition AccessKindCap : Z := 1.

Record Cap := mkCap { cp_Body : option bytes; cp_Sig : option bytes }.
Record Access := mkAccess { ac_Kind : Z; ac_Cap : option Cap; ac_Proof : bytes }.

Record SealedEnvelope := mkSealedEnvelope {
  oe_V : Z;
  oe_To : bytes;
  oe_Suite : Z;
  oe_KID : bytes;
  oe_Enc : bytes;
  oe_CT : bytes;
  oe_Access : option Access;
  oe_Exp : option Z;
}.

Record RK := mkRK { rk_Suite : Z; rk_Pub : bytes }.

Record SealedInner := mkSealedInner {
  in_From : bytes;
  in_KeyStateSeq : Z;
  in_To : bytes;
  in_Type : bytes;
  in_IX : bytes;
  in_MID : bytes;
  in_TS : Z;
  in_Exp : Z;
  in_Body : bytes;
  in_KEL : option bytes;
  in_Notices : list bytes;
  in_Keys : option bytes;
  in_Grant : option bytes;
  in_RK : option RK;
  in_Sig : bytes;
  in_Ext : fieldMap;
}.

Record EncKey := mkEncKey {
  ek_KID : bytes;
  ek_Suite : Z;
  ek_Pub : bytes;
  ek_NotBefore : Z;
  ek_NotAfter : Z;
}.
Record KeyPair := mkKeyPair { kp_Public : EncKey; kp_Private : bytes }.
Definition KeyRing := bytes → option KeyPair.

Record IXKey := mkIXKey {
  ik_IX : bytes;
  ik_PeerAID : bytes;
  ik_Suite : Z;
  ik_Pub : bytes;
  ik_Private : bytes;
}.
Definition IXKeyLookup := bytes → result (option IXKey).
Definition SignFunc := bytes → bytes * Z.
Record SealOpts := mkSealOpts { so_PeerRK : option RK; so_Exp : Z }.

Record Opened := mkOpened {
  op_Outer : SealedEnvelope;
  op_Inner : SealedInner;
  op_KEL : option (list SignedEvent);
  op_Preimage : bytes;
  op_AckKey : bytes;
  op_Layers : Z;
  op_IKID : option bytes;
  op_Access : option Access;
  op_RK : option RK;
  op_Notices : list bytes;
  op_Grant : option bytes;
}.

(** The presence of a key. *)
Definition has (m : fieldMap) (k : Z) : bool := bool_decide (is_Some (m !! k)).

Section Envelope.
Context `{P : Platform} `{I : Items} `{H : HpkeContexts}.
Context `{CE : Coredet KeyEvent} `{DK : Strict (list SignedEvent)}.
Context `{CB : Coredet NoticeBody} `{CW : Coredet NoticeWire} `{DB : Strict NoticeBody} `{DW : Strict NoticeWire}.

(** ** HPKE infos *)

Definition hpkeInfo_item (label to : bytes) (suite : Z) (kid : bytes) : result bytes :=
  l ← encodeText label;
  t ← encodeText to;
  s ← encodeUint suite;
  k ← encodeBytes kid;
  marshalFields (<[4 := k]> (<[3 := s]> (<[2 := t]> {[1 := l]}))).
Definition HPKEInfo (to : bytes) (suite : Z) (kid : bytes) : result bytes :=
  hpkeInfo_item HPKELabel to suite kid.
Definition IXInfo (to : bytes) (suite : Z) (ikid : bytes) : result bytes :=
  hpkeInfo_item IXLabel to suite ikid.

(** ** Access *)

Definition decodeCap (raw : bytes) : result Cap :=
  m ← map_err (Wrap "cap") (decodeFields raw);
  refuse bool_decide (is_Some (firstKeyOutside m 1 2)) with Errf "cap has key";
  body ← map_err (Wrap "cap body") (rawBytes m 1);
  sig ← map_err (Wrap "cap sig") (rawBytes m 2);
  refuse negb (len sig =? SigLen) with Errf "cap sig length";
  Ok (mkCap (Some body) (Some sig)).

Definition decodeAccess (raw : bytes) : result Access :=
  m ← map_err (Wrap "access") (decodeFields raw);
  refuse bool_decide (is_Some (firstKeyOutside m 1 3)) with Errf "access has key";
  kind ← map_err (Wrap "access kind") (rawUint m 1);
  if kind =? AccessKindSession then
    refuse has m 2 || has m 3 with Errf "access kind 0 carries a capability or a proof";
    Ok (mkAccess kind None [])
  else if kind =? AccessKindCap then
    refuse negb (has m 2) || negb (has m 3) with Errf "access kind 1 needs both a capability and a proof";
    raw ← of_option (m !! 2) Panic;
    cap ← map_err (Wrap "access") (decodeCap raw);
    proof ← map_err (Wrap "access proof") (rawBytes m 3);
    refuse negb (len proof =? SigLen) with Errf "access proof length";
    Ok (mkAccess kind (Some cap) proof)
  else Err (Errf "access kind is not 0 or 1").

(** The struct encodings, field by field. *)
Definition cap_item (c : Cap) : result bytes :=
  body ← encodeSlice (cp_Body c);
  sig ← encodeSlice (cp_Sig c);
  marshalFields (<[2 := sig]> {[1 := body]}).

Definition access_item (a : Access) : result bytes :=
  kind ← encodeUint (ac_Kind a);
  m ← match ac_Cap a with
      | Some c => cap ← cap_item c; Ok (<[2 := cap]> {[1 := kind]} : fieldMap)
      | None => Ok {[1 := kind]}
      end;
  m ← match ac_Proof a with
      | [] => Ok m
      | p => proof ← encodeBytes p; Ok (<[3 := proof]> m)
      end;
  marshalFields m.

Definition encodeAccess (a : option Access) : result bytes :=
  a ← of_option a (Errf "no access");
  b ← access_item a;
  _ ← decodeAccess b;
  Ok b.

(** ** The outer map *)

Definition ParseOuter (envelope : bytes) : result SealedEnvelope :=
  fields ← map_err (failWrap ReasonBadOuter "decode") (decodeFields envelope);
  v ← map_err (failWrap ReasonBadOuter "") (rawUint fields outerKeyV);
  refuse negb (v =? EnvelopeVersion) with fail ReasonBadVersion "v";
  refuse bool_decide (is_Some (firstUnknownCritical fields outerKnown)) with fail ReasonUnknownField "outer key";
  raw ← of_option (fields !! outerKeyAccess) (fail ReasonAccessInvalid "parse");
  access ← map_err (failWrap ReasonAccessInvalid "parse") (decodeAccess raw);
  exp ← (if has fields outerKeyExp then
           e ← map_err (failWrap ReasonBadOuter "") (rawUint fields outerKeyExp); Ok (Some e)
         else Ok None);
  to ← map_err (failWrap ReasonBadOuter "") (rawText fields outerKeyTo);
  suite ← map_err (failWrap ReasonBadOuter "") (rawUint fields outerKeySuite);
  refuse (255 <? suite) || negb (Supported suite) with fail ReasonUnknownSuite "suite";
  kid ← map_err (failWrap ReasonBadOuter "") (rawBytes fields outerKeyKID);
  enc ← map_err (failWrap ReasonBadOuter "") (rawBytes fields outerKeyEnc);
  ct ← map_err (failWrap ReasonBadOuter "") (rawBytes fields outerKeyCT);
  refuse beqb to [] with fail ReasonBadOuter "empty to";
  refuse negb (len kid =? KIDLen) with fail ReasonBadOuter "kid";
  p ← of_option (params suite) Panic;
  refuse negb (len enc =? encLen p) with fail ReasonBadOuter "enc";
  refuse len ct =? 0 with fail ReasonBadOuter "empty ct";
  Ok (mkSealedEnvelope v to suite kid enc ct (Some access) exp).

Definition envDigestLabel : bytes := str "anet-env/v2" ++ [0].

Definition EnvDigest (env : bytes) : result bytes :=
  fields ← map_err (failWrap ReasonBadOuter "decode") (decodeFields env);
  b ← map_err (failWrap ReasonBadOuter "encode") (marshalFields (delete outerKeyAccess fields));
  Ok (sha256 (envDigestLabel ++ b)).

Definition SetAccess (env : bytes) (a : option Access) : result bytes :=
  raw ← map_err (failWrap ReasonInvalidInput "access") (encodeAccess a);
  fields ← map_err (failWrap ReasonBadOuter "decode") (decodeFields env);
  out ← map_err (failWrap ReasonBadOuter "encode") (marshalFields (<[outerKeyAccess := raw]> fields));
  _ ← ParseOuter out;
  Ok out.

Definition ParseKEL (b : bytes) : result (list SignedEvent) :=
  refuse MaxKELBytes <? len b with fail ReasonKELTooLarge "bytes";
  kel ← map_err (failWrap ReasonBadKEL "decode") (UnmarshalKEL b);
  refuse len kel =? 0 with fail ReasonBadKEL "empty KEL";
  refuse MaxKELEvents <? len kel with fail ReasonKELTooLarge "events";
  Ok kel.

(** ** Keys *)

Definition rk_check (r : RK) : result unit :=
  refuse negb (rk_Suite r =? SuiteX25519) with Errf "rk suite";
  p ← of_option (params (rk_Suite r)) Panic;
  refuse negb (len (rk_Pub r) =? pubLen p) with Errf "rk pub length";
  Ok tt.
Definition rk_KID (r : RK) : bytes := KID (rk_Suite r) (rk_Pub r).

Definition decodeRK (raw : bytes) : result RK :=
  m ← map_err (Wrap "rk") (decodeFields raw);
  refuse bool_decide (is_Some (firstKeyOutside m 1 2)) with Errf "rk has key";
  suite ← map_err (Wrap "rk suite") (rawUint m 1);
  refuse 255 <? suite with Errf "rk suite";
  pub ← map_err (Wrap "rk pub") (rawBytes m 2);
  let r := mkRK suite pub in
  _ ← rk_check r;
  Ok r.

Definition rk_item (r : RK) : result bytes :=
  s ← encodeUint (rk_Suite r);
  p ← encodeBytes (rk_Pub r);
  marshalFields (<[2 := p]> {[1 := s]}).

Definition enckey_check (k : EncKey) : result unit :=
  refuse ek_Suite k =? 0 with Errf "suite 0 is not assigned";
  refuse negb (len (ek_KID k) =? KIDLen) with Errf "kid is not 16 bytes";
  _ ← match params (ek_Suite k) with
      | Some p => refuse negb (len (ek_Pub k) =? pubLen p)
                    with Errf "public key has the wrong length for its suite"; Ok tt
      | None => refuse len (ek_Pub k) =? 0 with Errf "public key is empty"; Ok tt
      end;
  refuse negb (beqb (ek_KID k) (KID (ek_Suite k) (ek_Pub k))) with Errf "kid does not match suite and public key";
  refuse ek_NotAfter k <=? ek_NotBefore k with Errf "not_after is not after not_before";
  refuse MaxKeyValidityMS <? ek_NotAfter k - ek_NotBefore k with Errf "validity";
  Ok tt.

Definition ik_RK (k : IXKey) : RK := mkRK (ik_Suite k) (ik_Pub k).
Definition ik_KID (k : IXKey) : bytes := KID (ik_Suite k) (ik_Pub k).

Definition answers (k : IXKey) (ikid : bytes) : result unit :=
  p ← of_option (params (ik_Suite k)) (Errf "interaction key suite");
  refuse negb (len (ik_Pub k) =? pubLen p) with Errf "interaction key pub length";
  refuse negb (beqb (ik_KID k) ikid) with Errf "the lookup returned the key of another ikid";
  Ok tt.

(** ** The Wrap *)

Record wrapFields := mkWrap { w_ikid : option bytes; w_enc2 : option bytes; w_body : bytes }.

Definition paddedMap (w : wrapFields) : result (fieldMap * Z) :=
  refuse xorb (bool_decide (w_ikid w = None)) (bool_decide (w_enc2 w = None))
    with Errf "ikid and enc2 go together";
  b ← encodeBytes (w_body w);
  m ← match w_ikid w with
      | Some ikid =>
          i ← encodeBytes ikid;
          e ← match w_enc2 w with Some e => encodeBytes e | None => encodeBytes [] end;
          Ok (<[wrapKeyEnc2 := e]> (<[wrapKeyIKID := i]> {[wrapKeyBody := b]}) : fieldMap)
      | None => Ok {[wrapKeyBody := b]}
      end;
  of_option (applyPad m) Panic.

Definition decodeWrap (pt : bytes) : result wrapFields :=
  m ← map_err (failWrap ReasonBadWrap "decode") (decodeFields pt);
  refuse bool_decide (is_Some (firstUnknownCritical m wrapKnown)) with fail ReasonBadWrap "wrap key";
  body ← map_err (failWrap ReasonBadWrap "") (rawBytes m wrapKeyBody);
  pad ← map_err (failWrap ReasonBadWrap "") (rawBytes m wrapKeyPad);
  refuse existsb (λ b, negb (b =? 0)) pad with fail ReasonBadWrap "pad has a non-zero byte";
  refuse xorb (has m wrapKeyIKID) (has m wrapKeyEnc2) with fail ReasonBadWrap "ikid and enc2 go together";
  if has m wrapKeyIKID then
    ikid ← map_err (failWrap ReasonBadWrap "") (rawBytes m wrapKeyIKID);
    enc2 ← map_err (failWrap ReasonBadWrap "") (rawBytes m wrapKeyEnc2);
    refuse negb (len ikid =? KIDLen) with fail ReasonBadWrap "ikid";
    refuse negb (len enc2 =? encLen suite1) with fail ReasonBadWrap "enc2";
    Ok (mkWrap (Some ikid) (Some enc2) body)
  else Ok (mkWrap None None body).

(** ** The inner *)

Definition rawNotices (raw : bytes) : result (list bytes) :=
  refuse negb (bool_decide (major raw = Some majorArray)) with Errf "field is not an array";
  items ← of_option (unmarshal_raws raw) (Wrap "field" errUnmarshal);
  refuse negb (len items =? noticesPerMessage) with Errf "field has notices";
  mapM (λ it,
    n ← map_err (Wrap "field item") (rawBytes {[0 := it]} 0);
    refuse MaxNoticeBytes <? len n with Errf "field item length";
    Ok n) items.

(** A member that may be absent. *)
Definition optional {A} (m : fieldMap) (k : Z) (read : bytes → result A) : result (option A) :=
  match m !! k with
  | Some raw => a ← read raw; Ok (Some a)
  | None => Ok None
  end.

(** Keys from 64 on, which a receiver does not have to understand. *)
Definition extensions (m : fieldMap) : fieldMap := filter (λ kv, FirstIgnorableKey <= kv.1) m.

Definition decodeInner (pt : bytes) : result (fieldMap * SealedInner) :=
  let bad {A} := @map_err A (failWrap ReasonBadInner "") in
  fields ← map_err (failWrap ReasonBadInner "decode") (decodeFields pt);
  refuse bool_decide (is_Some (firstUnknownCritical fields innerKnown)) with fail ReasonUnknownField "inner key";
  from ← bad (rawText fields keyFrom);
  seq ← bad (rawUint fields keySeq);
  to ← bad (rawText fields keyTo);
  type ← bad (rawText fields keyType);
  ix ← bad (rawText fields keyIX);
  mid ← bad (rawBytes fields keyMID);
  ts ← bad (rawUint fields keyTS);
  exp ← bad (rawUint fields keyExp);
  body ← bad (rawBytes fields keyBody);
  kel ← bad (optional fields keyKEL (λ _, rawBytes fields keyKEL));
  keys ← bad (optional fields keyKeys (λ _, rawBytes fields keyKeys));
  sig ← bad (rawBytes fields keySig);
  notices ← bad (optional fields keyNotice rawNotices);
  refuse negb (len mid =? MIDLen) with fail ReasonBadInner "mid";
  refuse negb (len sig =? SigLen) with fail ReasonBadInner "sig";
  refuse xorb (bool_decide (kel = None)) (bool_decide (notices = None))
    with fail ReasonBadInner "key 11 (notice) goes exactly with key 10 (kel)";
  refuse has_byte 0 from with fail ReasonBadInner "from contains U+0000";
  refuse has_byte 0 to with fail ReasonBadInner "to contains U+0000";
  refuse has_byte 0 ix with fail ReasonBadInner "ix contains U+0000";
  rk ← map_err (failWrap ReasonBadRK "") (optional fields keyRK decodeRK);
  Ok (fields, mkSealedInner from seq to type ix mid ts exp body kel
                (match notices with Some l => l | None => [] end) keys (fields !! keyGrant) rk sig
                (extensions fields)).

(** The loop over the extensions. *)
Definition check_ext (m : fieldMap) : result unit :=
  refuse existsb (λ kv, (kv.1 <? FirstIgnorableKey) || negb (wellFormedItem kv.2)) (map_to_list m)
    with fail ReasonInvalidInput "extension";
  Ok tt.

Definition checkForSeal (i : SealedInner) (o : SealOpts) : result unit :=
  refuse beqb (in_From i) [] || beqb (in_To i) [] || beqb (in_Type i) []
    with fail ReasonInvalidInput "from, to and type are required";
  refuse has_byte 0 (in_From i) || has_byte 0 (in_To i) || has_byte 0 (in_IX i)
    with fail ReasonInvalidInput "from, to and ix may not contain U+0000";
  refuse negb (len (in_MID i) =? MIDLen) with fail ReasonInvalidInput "mid";
  refuse in_TS i =? 0 with fail ReasonInvalidInput "ts is 0";
  refuse (in_Exp i <? in_TS i) || (MaxMessageLifetimeMS <? in_Exp i - in_TS i)
    with fail ReasonInvalidInput "exp - ts";
  refuse negb (so_Exp o =? 0) && negb (so_Exp o =? in_Exp i)
    with fail ReasonInvalidInput "outer exp is not the inner exp";
  refuse negb (Bool.eqb (negb (bool_decide (in_KEL i = None))) (0 <? len (in_Notices i)))
    with fail ReasonInvalidInput "kel and notices go together (C-53)";
  _ ← match in_KEL i with
      | Some kel =>
          refuse negb (len (in_Notices i) =? noticesPerMessage) with fail ReasonInvalidInput "notices";
          _ ← map_err (failWrap ReasonInvalidInput "kel") (ParseKEL kel); Ok tt
      | None => Ok tt
      end;
  refuse existsb (λ n, MaxNoticeBytes <? len n) (in_Notices i) with fail ReasonInvalidInput "a notice";
  _ ← match in_Grant i with
      | Some g => refuse negb (wellFormedItem g) || negb (bool_decide (major g = Some majorMap))
                    with fail ReasonInvalidInput "grant is not one CBOR map"; Ok tt
      | None => Ok tt
      end;
  _ ← match in_RK i with
      | Some r => map_err (failWrap ReasonInvalidInput "rk") (rk_check r)
      | None => Ok tt
      end;
  check_ext (in_Ext i).

(** One member of the map, when there is one. *)
Definition put (k : Z) (v : option (result bytes)) (m : fieldMap) : result fieldMap :=
  match v with
  | Some raw => b ← map_err (Wrap "field") raw; Ok (<[k := b]> m)
  | None => Ok m
  end.

(** [SealedInner.fieldMap]: the signed members, without the signature. *)
Definition inner_fieldMap (i : SealedInner) : result fieldMap :=
  m ← put keyFrom (Some (encodeText (in_From i))) ∅;
  m ← put keySeq (Some (encodeUint (in_KeyStateSeq i))) m;
  m ← put keyTo (Some (encodeText (in_To i))) m;
  m ← put keyType (Some (encodeText (in_Type i))) m;
  m ← put keyIX (Some (encodeText (in_IX i))) m;
  m ← put keyMID (Some (encodeBytes (in_MID i))) m;
  m ← put keyTS (Some (encodeUint (in_TS i))) m;
  m ← put keyExp (Some (encodeUint (in_Exp i))) m;
  m ← put keyBody (Some (encodeBytes (in_Body i))) m;
  m ← put keyKEL (encodeBytes <$> in_KEL i) m;
  m ← put keyNotice (if 0 <? len (in_Notices i) then Some (encodeList (in_Notices i)) else None) m;
  m ← put keyKeys (encodeBytes <$> in_Keys i) m;
  m ← put keyGrant (Ok <$> in_Grant i) m;
  m ← put keyRK (rk_item <$> in_RK i) m;
  Ok (in_Ext i ∪ m).

(** ** Seal *)

Definition layer2Sender : Type := bytes * bytes * hpke_ctx.

Definition newLayer2Sender (seed to : bytes) (rk : RK) : result layer2Sender :=
  _ ← map_err (failWrap ReasonInvalidInput "peer rk") (rk_check rk);
  refuse bool_decide (params (rk_Suite rk) = None) with fail ReasonInvalidInput "peer rk suite";
  refuse negb (kem_public_ok (rk_Pub rk)) with fail ReasonInvalidInput "peer rk";
  let ikid := rk_KID rk in
  info ← map_err (failWrap ReasonInvalidInput "layer-2 hpke info") (IXInfo to (rk_Suite rk) ikid);
  '(enc2, ctx) ← of_option (hpke_sender seed (rk_Pub rk) info)
                   (fail ReasonInvalidInput "peer rk: hpke sender");
  Ok (ikid, enc2, ctx).

(** An ack_key is the first 32 bytes of the export. *)
Definition ackKey (exported : bytes) : bytes := take (Z.to_nat AckKeyLen) (exported ++ repeat 0 32).

Definition outer_fields (to : bytes) (suite : Z) (kid enc ct : bytes) (exp : Z) : result fieldMap :=
  v ← encodeUint EnvelopeVersion;
  t ← encodeText to;
  s ← encodeUint suite;
  k ← encodeBytes kid;
  e ← encodeBytes enc;
  c ← encodeBytes ct;
  let m := <[outerKeyCT := c]> (<[outerKeyEnc := e]> (<[outerKeyKID := k]> (<[outerKeySuite := s]>
             (<[outerKeyTo := t]> {[outerKeyV := v]})))) in
  if exp =? 0 then Ok m else x ← encodeUint exp; Ok (<[outerKeyExp := x]> m).

(** [Seal]: [seed1] and [seed2] are the random bytes the two HPKE senders draw. *)
Definition Seal (seed1 seed2 : bytes) (inner : option SealedInner) (recipient : option EncKey)
  (sign : option SignFunc) (o : SealOpts) : result (bytes * bytes) :=
  i ← of_option inner (fail ReasonInvalidInput "nil inner, recipient or signer");
  rcp ← of_option recipient (fail ReasonInvalidInput "nil inner, recipient or signer");
  sign ← of_option sign (fail ReasonInvalidInput "nil inner, recipient or signer");
  _ ← checkForSeal i o;
  refuse bool_decide (params (ek_Suite rcp) = None) with fail ReasonUnknownSuite "recipient key suite";
  _ ← map_err (failWrap ReasonInvalidInput "recipient key") (enckey_check rcp);
  refuse negb (kem_public_ok (ek_Pub rcp)) with fail ReasonInvalidInput "recipient public key";
  info ← map_err (failWrap ReasonInvalidInput "hpke info") (HPKEInfo (in_To i) (ek_Suite rcp) (ek_KID rcp));
  '(enc, sender) ← of_option (hpke_sender seed1 (ek_Pub rcp) info) (fail ReasonInvalidInput "hpke sender");
  exported ← of_option (ctx_export sender DAckExporterContext AckKeyLen)
               (fail ReasonInternalError "export ack_key");
  two ← match so_PeerRK o with
        | Some rk => two ← newLayer2Sender seed2 (in_To i) rk; Ok (Some two)
        | None => Ok None
        end;
  fields ← map_err (failWrap ReasonInvalidInput "encode inner") (inner_fieldMap i);
  let ikid := (λ t, t.1.1) <$> two in
  let enc2 := (λ t, t.1.2) <$> two in
  pre ← map_err (failWrap ReasonInvalidInput "signature preimage")
          (sigPreimage fields enc (ek_KID rcp) (ek_Suite rcp) ikid enc2);
  let '(sig, seq) := sign pre in
  refuse negb (seq =? in_KeyStateSeq i) with fail ReasonInvalidInput "signer used another key_state_seq";
  refuse negb (len sig =? SigLen) with fail ReasonInvalidInput "signer returned another signature length";
  s ← map_err (failWrap ReasonInternalError "encode sig") (encodeBytes sig);
  innerBytes ← map_err (failWrap ReasonInternalError "encode inner") (marshalFields (<[keySig := s]> fields));
  body ← match two with
         | Some (_, _, ctx) => of_option (ctx_seal ctx innerBytes) (fail ReasonInternalError "hpke seal, second layer")
         | None => Ok innerBytes
         end;
  '(wrap, want) ← map_err (failWrap ReasonInternalError "encode wrap") (paddedMap (mkWrap ikid enc2 body));
  pt ← map_err (failWrap ReasonInternalError "encode wrap") (marshalFields wrap);
  refuse negb (len pt =? want) with fail ReasonInternalError "padded wrap";
  ct ← of_option (ctx_seal sender pt) (fail ReasonInternalError "hpke seal");
  outer ← map_err (failWrap ReasonInternalError "encode envelope")
            (outer_fields (in_To i) (ek_Suite rcp) (ek_KID rcp) enc ct (so_Exp o));
  b ← map_err (failWrap ReasonInternalError "encode envelope") (marshalFields outer);
  Ok (b, ackKey exported).

(** ** Open *)

Definition openLayer2 (to : bytes) (key : IXKey) (w : wrapFields) (ikid : bytes) : result bytes :=
  refuse negb (kem_private_ok (ik_Private key)) with fail ReasonDecrypt "interaction key private key";
  info ← map_err (failWrap ReasonDecrypt "layer-2 hpke info") (IXInfo to (ik_Suite key) ikid);
  r ← of_option (match w_enc2 w with
                 | Some enc2 => hpke_recipient enc2 (ik_Private key) info
                 | None => hpke_recipient [] (ik_Private key) info
                 end) (fail ReasonDecrypt "layer-2 hpke recipient");
  of_option (ctx_open r (w_body w)) (fail ReasonDecrypt "second layer open").

(** Steps 1 to 3: the outer map, the ack_key and the layer-1 plaintext. *)
Definition open1 (envelope selfAID : bytes) (ring : option KeyRing) : result (SealedEnvelope * bytes * bytes) :=
  outer ← ParseOuter envelope;
  refuse negb (beqb (oe_To outer) selfAID) with fail ReasonWrongRecipient "to";
  ring ← of_option ring (fail ReasonUnknownKey "no key ring");
  kp ← of_option (ring (oe_KID outer)) (fail ReasonUnknownKey "kid");
  refuse negb (ek_Suite (kp_Public kp) =? oe_Suite outer) || negb (beqb (ek_KID (kp_Public kp)) (oe_KID outer))
    with fail ReasonUnknownKey "key ring returned a different key";
  refuse negb (kem_private_ok (kp_Private kp)) with fail ReasonDecrypt "key ring private key";
  info ← map_err (failWrap ReasonBadOuter "hpke info") (HPKEInfo (oe_To outer) (oe_Suite outer) (oe_KID outer));
  r ← of_option (hpke_recipient (oe_Enc outer) (kp_Private kp) info) (fail ReasonDecrypt "hpke recipient");
  pt ← of_option (ctx_open r (oe_CT outer)) (fail ReasonDecrypt "hpke open");
  exported ← of_option (ctx_export r DAckExporterContext AckKeyLen) (fail ReasonInternalError "export ack_key");
  Ok (outer, ackKey exported, pt).

(** Step 3a: the Wrap and the second layer.  The result is the interaction key used, the Wrap and
    the inner's bytes. *)
Definition open2 (outer : SealedEnvelope) (pt : bytes) (ix : option IXKeyLookup)
  : result (option IXKey * wrapFields * bytes) :=
  w ← decodeWrap pt;
  match w_ikid w with
  | None => Ok (None, w, w_body w)
  | Some ikid =>
      found ← match ix with Some lookup => lookup ikid | None => Ok None end;
      key ← of_option found (fail ReasonSealedToClosedInteraction "ikid");
      _ ← map_err (failWrap ReasonSealedToClosedInteraction "ikid") (answers key ikid);
      innerPT ← openLayer2 (oe_To outer) key w ikid;
      Ok (Some key, w, innerPT)
  end.

(** Step 4. *)
Definition open3 (outer : SealedEnvelope) (ack : bytes) (key : option IXKey) (w : wrapFields) (innerPT : bytes)
  : result Opened :=
  '(fields, inner) ← decodeInner innerPT;
  refuse match key with
         | Some k => negb (beqb (in_IX inner) (ik_IX k)) || negb (beqb (in_From inner) (ik_PeerAID k))
         | None => false
         end with fail ReasonIKeyMismatch "inner, interaction key";
  refuse negb (beqb (in_To inner) (oe_To outer)) with fail ReasonToMismatch "inner to, outer to";
  refuse match oe_Exp outer with Some e => negb (e =? in_Exp inner) | None => false end
    with fail ReasonExpMismatch "outer exp, inner exp";
  kel ← match in_KEL inner with Some b => kel ← ParseKEL b; Ok (Some kel) | None => Ok None end;
  pre ← map_err (failWrap ReasonBadInner "signature preimage")
          (sigPreimage fields (oe_Enc outer) (oe_KID outer) (oe_Suite outer) (w_ikid w) (w_enc2 w));
  Ok (mkOpened outer inner kel pre ack (if bool_decide (is_Some key) then 2 else 1) (w_ikid w)
        (oe_Access outer) (in_RK inner) (in_Notices inner) (in_Grant inner)).

(** [Open].  An error before layer 1 opens carries no ack_key; [withAck] puts the ack_key in every
    error after it, [AckKeyOf] takes it out. *)
Inductive outcome :=
  | OpenOk (o : Opened)
  | OpenErr (ack : option bytes) (e : error).

Definition withAck (ack : bytes) (r : result Opened) : outcome :=
  match r with Ok o => OpenOk o | Err e => OpenErr (Some ack) e end.

Definition Open (envelope selfAID : bytes) (ring : option KeyRing) (ix : option IXKeyLookup) : outcome :=
  match open1 envelope selfAID ring with
  | Err e => OpenErr None e
  | Ok (outer, ack, pt) =>
      withAck ack ('(key, w, innerPT) ← open2 outer pt ix; open3 outer ack key w innerPT)
  end.

Definition AckKeyOf (r : outcome) : option bytes := match r with OpenErr ack _ => ack | OpenOk _ => None end.

(** ** Steps 5 to 7 *)

Definition CheckTime (inner : option SealedInner) (now : Z) : result unit :=
  i ← of_option inner (fail ReasonBadInner "nil inner");
  refuse (in_Exp i <? in_TS i) || (MaxMessageLifetimeMS <? in_Exp i - in_TS i)
    with fail ReasonBadLifetime "exp - ts";
  refuse in_Exp i <? now with fail ReasonExpired "now > exp";
  refuse satAdd now ClockSkewMS <? in_TS i with fail ReasonFromFuture "ts > now";
  Ok tt.

Definition sameEvents (a b : list SignedEvent) : bool := bool_decide (map se_EventID a = map se_EventID b).

Definition noticeReasons : list (error * string) :=
  [(ErrNoticeMissing, ReasonWitnessMissing); (ErrNoticeInvalid, ReasonWitnessInvalid);
   (ErrNoticeMismatch, ReasonWitnessMismatch); (ErrNoticeUnknownWitness, ReasonWitnessUnknown);
   (ErrNoticeStale, ReasonWitnessStale)].

Definition notice_reason (e : error) : error :=
  match List.find (λ m, errors_Is e m.1) noticeReasons with
  | Some m => failWrap m.2 "" e
  | None => failWrap ReasonBadKEL "" e
  end.

Definition CheckNotice (inner : option SealedInner) (kelInner : list SignedEvent)
  (hubKELs : option HubKELSource) (arrival : Z) : result unit :=
  i ← of_option inner (fail ReasonInvalidInput "nil inner");
  raw ← of_option (in_KEL i) (fail ReasonWitnessMissing "the message carries no KEL and witness notice");
  refuse len (in_Notices i) =? 0
    with fail ReasonWitnessMissing "the message carries no KEL and witness notice";
  refuse negb (len (in_Notices i) =? noticesPerMessage) with fail ReasonWitnessInvalid "notices";
  carried ← ParseKEL raw;
  refuse negb (sameEvents carried kelInner)
    with fail ReasonInvalidInput "the KEL given is not the KEL the message carries";
  notice ← of_option (head (in_Notices i)) Panic;
  map_err notice_reason (VerifyNotice notice kelInner hubKELs arrival).

(** [fromVErr] (enckeys.go). *)
Definition fromVErr (e : error) : error :=
  match e with
  | Typed r _ =>
      if String.eqb r "INVALID_SIGNATURE" then failWrap ReasonBadSig "" e
      else if String.eqb r "KEY_STATE_DOWNGRADE" then failWrap ReasonBadKeyState "" e
      else if String.eqb r "REVOKED_KEY" then failWrap ReasonRevokedKey "" e
      else failWrap ReasonBadKEL "" e
  | _ => failWrap ReasonBadKEL "" e
  end.

Definition VerifyInnerSig (inner : option SealedInner) (preimage : bytes) (kel : list SignedEvent)
  (arrival : Z) : result unit :=
  i ← of_option inner (fail ReasonBadInner "nil inner");
  refuse in_TS i =? 0 with fail ReasonBadInner "ts is 0";
  refuse negb (len (in_Sig i) =? SigLen) with fail ReasonBadInner "sig";
  refuse arrival =? 0 with fail ReasonInvalidInput "arrival is 0";
  states ← map_err (failWrap ReasonBadKEL "replay") (Replay kel);
  final ← of_option (last states) Panic;
  refuse negb (beqb (ks_AID final) (in_From i)) with fail ReasonFromMismatch "KEL replays to another AID";
  let seq := in_KeyStateSeq i in
  refuse len states <=? seq with fail ReasonBadKeyState "key_state_seq beyond KEL";
  _ ← map_err fromVErr (VerifyObject kel (in_From i) seq (in_TS i) preimage (in_Sig i));
  ks ← of_option (states !! Z.to_nat seq) Panic;
  if SenderKeyUsable ks arrival then Ok tt
  else if ks_RetiredUrgently ks
  then Err (fail ReasonRevokedKey "retired by an emergency rotation or a deactivation")
  else Err (fail ReasonGraceExpired "arrival is more than the rotation grace after").
End Envelope.
