(* ===== verification/FieldsFacts.v ===== *)
(** * FieldsFacts: padding terminates, and lemmas on field maps *)

From S2P Require Import Prelude Platform Fields.

(** ** Padmé lengths *)

(** The unit a length of the magnitude of [n] is rounded up to. *)
Definition pad_unit (n : Z) : Z := 2 ^ (Z.log2 n - (Z.log2 (Z.log2 n) + 1)).

Lemma pad_unit_exp n : 2 <= n → 0 <= Z.log2 n - (Z.log2 (Z.log2 n) + 1) <= Z.log2 n.
Proof.
  intros Hn. assert (1 <= Z.log2 n) as H1 by (apply (Z.log2_le_mono 2); lia).
  pose proof (Z.log2_lt_lin (Z.log2 n)). pose proof (Z.log2_nonneg (Z.log2 n)). lia.
Qed.

Lemma pad_unit_pos n : 2 <= n → 1 <= pad_unit n.
Proof. intros Hn. unfold pad_unit. pose proof (pad_unit_exp n Hn). pose proof (Z.pow_pos_nonneg 2 (Z.log2 n - (Z.log2 (Z.log2 n) + 1))). lia. Qed.

Definition two62 : Z := 4611686018427387904.

(** Rounding adds less than an eighth of the length. *)
Lemma pad_unit_small n : 2 <= n → 8 * (pad_unit n - 1) <= n.
Proof.
  intros Hn. pose proof (pad_unit_exp n Hn) as He. pose proof (Z.log2_spec n ltac:(lia)) as [Hlo _].
  unfold pad_unit. set (e := Z.log2 n) in *. set (s := Z.log2 e) in *.
  assert (e < 8 ∨ 8 <= e) as [H8|H8] by lia.
  - assert (1 <= e) by (apply (Z.log2_le_mono 2); lia).
    assert (e = 1 ∨ e = 2 ∨ e = 3 ∨ e = 4 ∨ e = 5 ∨ e = 6 ∨ e = 7) as Hc by lia.
    subst s. clearbody e. destruct Hc as [->|[->|[->|[->|[->|[->| ->]]]]]]; cbn in Hlo |- *; lia.
  - assert (3 <= s) as Hs by (apply (Z.log2_le_mono 8); lia).
    assert (2 ^ (e - (s + 1)) * 2 ^ (s + 1) = 2 ^ e) as E by (rewrite <- Z.pow_add_r by lia; f_equal; lia).
    assert (2 ^ 3 <= 2 ^ (s + 1)) as H3 by (apply Z.pow_le_mono_r; lia). change (2 ^ 3) with 8 in H3.
    pose proof (Z.pow_nonneg 2 (e - (s + 1)) ltac:(lia)). nia.
Qed.

Lemma Padme_ceil n :
  2 <= n <= two62 → Padme n = pad_unit n * ((n + pad_unit n - 1) / pad_unit n).
Proof.
  intros [Hn Hm]. unfold Padme, bits_Len. rewrite (proj2 (Z.ltb_ge n 2)), (proj2 (Z.eqb_neq n 0)) by lia.
  replace (Z.log2 n + 1 - 1) with (Z.log2 n) by lia.
  assert (1 <= Z.log2 n) as H1 by (apply (Z.log2_le_mono 2); lia).
  rewrite (proj2 (Z.eqb_neq (Z.log2 n) 0)) by lia. rewrite Z.shiftl_1_l. change (2 ^ (Z.log2 n - (Z.log2 (Z.log2 n) + 1))) with (pad_unit n).
  pose proof (pad_unit_small n Hn). pose proof (pad_unit_pos n Hn).
  rewrite (proj2 (Z.ltb_ge _ _)) by (unfold MaxInt64, two63, two62 in *; lia).
  replace (pad_unit n - 1) with (Z.ones (Z.log2 n - (Z.log2 (Z.log2 n) + 1)))
    by (rewrite Z.ones_equiv; unfold pad_unit; lia).
  rewrite Z.ldiff_ones_r by (apply pad_unit_exp; lia).
  rewrite Z.shiftl_mul_pow2, Z.shiftr_div_pow2 by (apply pad_unit_exp; lia).
  rewrite Z.ones_equiv. change (2 ^ (Z.log2 n - (Z.log2 (Z.log2 n) + 1))) with (pad_unit n).
  replace (n + Z.pred (pad_unit n)) with (n + pad_unit n - 1) by lia. lia.
Qed.

Lemma ceil_bounds n u : 1 <= u → n <= u * ((n + u - 1) / u) < n + u.
Proof.
  intros Hu. pose proof (Z.div_mod (n + u - 1) u ltac:(lia)). pose proof (Z.mod_pos_bound (n + u - 1) u ltac:(lia)). lia.
Qed.

Lemma ceil_least n u q : 1 <= u → n <= u * q → u * ((n + u - 1) / u) <= u * q.
Proof.
  intros Hu Hq. assert ((n + u - 1) / u < q + 1); [|nia]. apply Z.div_lt_upper_bound; nia.
Qed.

(** A length is rounded up, by at most an eighth. *)
Lemma Padme_bounds n : 0 <= n <= two62 → n <= Padme n ∧ 8 * (Padme n - n) <= n.
Proof.
  intros Hn. destruct (Z.ltb_spec n 2) as [H2|H2].
  - unfold Padme. rewrite (proj2 (Z.ltb_lt _ _)) by done. lia.
  - rewrite Padme_ceil by lia. pose proof (ceil_bounds n _ (pad_unit_pos n H2)).
    pose proof (pad_unit_small n H2). lia.
Qed.

(** A power of two above [n] is a multiple of its unit. *)
Lemma pad_unit_divides n e : 2 <= n → Z.log2 n <= e → ∃ q, 2 ^ e = pad_unit n * q.
Proof.
  intros Hn He. pose proof (pad_unit_exp n Hn) as Hx. unfold pad_unit.
  exists (2 ^ (e - (Z.log2 n - (Z.log2 (Z.log2 n) + 1)))). rewrite <- Z.pow_add_r by lia. f_equal. lia.
Qed.

(** [Padme n] is the least Padmé length from [n] on. *)
Lemma Padme_least n t : 0 <= n <= t → t <= two62 → Padme t = t → Padme n <= t.
Proof.
  intros Hn Ht Hfix. destruct (Z.ltb_spec n 2) as [H2|H2].
  - unfold Padme. rewrite (proj2 (Z.ltb_lt _ _)) by done. lia.
  - rewrite Padme_ceil by lia. assert (∃ q, n <= pad_unit n * q <= t) as (q & Hq1 & Hq2).
    { pose proof (Z.log2_le_mono n t ltac:(lia)) as Hl. destruct (Z.eq_dec (Z.log2 n) (Z.log2 t)) as [E|E].
      - rewrite (Padme_ceil t) in Hfix by lia. exists ((t + pad_unit t - 1) / pad_unit t).
        assert (pad_unit n = pad_unit t) as -> by (unfold pad_unit; by rewrite E). lia.
      - destruct (pad_unit_divides n (Z.log2 n + 1)) as [q Hq]; [done|lia|]. exists q. rewrite <- Hq.
        pose proof (Z.log2_spec n ltac:(lia)) as [_ Hu]. pose proof (Z.log2_spec t ltac:(lia)) as [Hlo _].
        rewrite <- Z.add_1_r in Hu. split; [lia|].
        trans (2 ^ Z.log2 t); [apply Z.pow_le_mono_r; lia|lia]. }
    pose proof (ceil_least n (pad_unit n) q (pad_unit_pos n H2) Hq1). lia.
Qed.

Lemma Padme_idemp n : 0 <= n <= two62 → Padme (Padme n) = Padme n.
Proof.
  intros Hn. destruct (Z.ltb_spec n 2) as [H2|H2].
  { assert (Padme n = n) as E by (unfold Padme; by rewrite (proj2 (Z.ltb_lt _ _))). by rewrite !E. }
  pose proof (proj1 (Padme_bounds n Hn)) as Hge.
  assert (Padme n <= 2 ^ (Z.log2 n + 1)) as Hup.
  { destruct (pad_unit_divides n (Z.log2 n + 1)) as [q Hq]; [done|lia|]. rewrite Padme_ceil, Hq by lia.
    apply ceil_least; [by apply pad_unit_pos|]. rewrite <- Hq. pose proof (Z.log2_spec n ltac:(lia)). lia. }
  assert (Padme n <= two62) as H62.
  { pose proof (Padme_ceil n ltac:(lia)) as E. rewrite E.
    assert (∃ q, two62 = pad_unit n * q) as [q Hq].
    { apply (pad_unit_divides n 62); [done|]. apply Z.lt_succ_r, Z.log2_lt_pow2; [lia|]. unfold two62 in Hn. change (2 ^ Z.succ 62) with 9223372036854775808. lia. }
    rewrite Hq. apply ceil_least; [by apply pad_unit_pos|]. rewrite <- Hq. lia. }
  pose proof (Padme_ceil n ltac:(lia)) as E.
  assert (∃ q, Padme n = pad_unit (Padme n) * q) as [q Hq].
  { destruct (Z.eq_dec (Padme n) (2 ^ (Z.log2 n + 1))) as [->|Hne].
    - destruct (pad_unit_divides (2 ^ (Z.log2 n + 1)) (Z.log2 n + 1)) as [q Hq]; [|pose proof (Z.log2_nonneg n); rewrite Z.log2_pow2; lia|by exists q].
      change 2 with (2 ^ 1) at 1. apply Z.pow_le_mono_r; [lia|]. pose proof (Z.log2_nonneg n). lia.
    - assert (Z.log2 (Padme n) = Z.log2 n) as El.
      { apply Z.log2_unique; [apply Z.log2_nonneg|]. rewrite <- Z.add_1_r. pose proof (Z.log2_spec n ltac:(lia)). lia. }
      eexists. unfold pad_unit at 1. rewrite El. fold (pad_unit n). exact E. }
  assert (2 <= Padme n) as H2' by lia. pose proof (pad_unit_pos _ H2') as Hp.
  rewrite (Padme_ceil (Padme n)) by lia. pose proof (ceil_bounds (Padme n) _ Hp).
  pose proof (ceil_least (Padme n) _ q Hp ltac:(lia)). lia.
Qed.

Lemma Padme_two62 : Padme two62 = two62.
Proof. vm_compute. reflexivity. Qed.

Lemma Padme_le_two62 n : 0 <= n <= two62 → Padme n <= two62.
Proof. intros Hn. apply Padme_least; [lia|lia|apply Padme_two62]. Qed.

(** ** The pad *)

Lemma cborHeadLen_pos n : 1 <= cborHeadLen n.
Proof. unfold cborHeadLen. repeat case_match; lia. Qed.

(** The offsets no pad reaches: the head of a byte string grows at 24, 256, 65536 and [2^32] bytes. *)
Definition unreachable : list Z :=
  [24; 257; 65538; 65539; 4294967300; 4294967301; 4294967302; 4294967303].

Lemma padLenFor_Some d n : padLenFor d = Some n → 0 <= n ∧ d = n + cborHeadLen n - 1.
Proof.
  unfold padLenFor. destruct (Z.ltb_spec d 0); [done|]. intros Hd.
  destruct (List.filter _ _) as [|h hs] eqn:Hf; [done|]. injection Hd as <-.
  assert (In h (h :: hs)) as Hin by by left. rewrite <- Hf in Hin. apply filter_In in Hin as [_ Hh].
  apply andb_true_iff in Hh as [H1%Z.leb_le H2%Z.eqb_eq]. lia.
Qed.

Lemma padLenFor_None d : 0 <= d → padLenFor d = None → d ∈ unreachable.
Proof.
  intros Hd. unfold padLenFor. destruct (Z.ltb_spec d 0); [lia|]. intros Hn.
  destruct (List.filter _ _) as [|h hs] eqn:Hf; [|done].
  assert (∀ h, In h [1; 2; 3; 5; 9] → (0 <=? d - (h - 1)) && (cborHeadLen (d - (h - 1)) =? h) = false) as Hall.
  { intros h Hin. apply not_true_is_false. intros Ht.
    assert (In h (List.filter (λ h, (0 <=? d - (h - 1)) && (cborHeadLen (d - (h - 1)) =? h)) [1; 2; 3; 5; 9])) as Hi
      by by apply filter_In. rewrite Hf in Hi. destruct Hi. }
  clear Hf Hn. unfold unreachable. set_unfold.
  assert (∀ h, In h [1; 2; 3; 5; 9] → 0 <= d - (h - 1) → cborHeadLen (d - (h - 1)) ≠ h) as Hne.
  { intros h Hin Hp E. specialize (Hall h Hin). rewrite E, Z.eqb_refl, (proj2 (Z.leb_le _ _)) in Hall; done. }
  clear Hall. pose proof (Hne 1 ltac:(simpl; tauto)) as N1. pose proof (Hne 2 ltac:(simpl; tauto)) as N2.
  pose proof (Hne 3 ltac:(simpl; tauto)) as N3. pose proof (Hne 5 ltac:(simpl; tauto)) as N5.
  pose proof (Hne 9 ltac:(simpl; tauto)) as N9. clear Hne. unfold cborHeadLen in *.
  repeat match goal with
  | H : context [?a <? ?b] |- _ => destruct (Z.ltb_spec a b); try lia
  | H : context [?a <=? ?b] |- _ => destruct (Z.leb_spec a b); try lia
  end.
Qed.

Lemma unreachable_no_pad d : d ∈ unreachable → padLenFor d = None.
Proof.
  intros H. apply (proj1 (Forall_forall (λ d, padLenFor d = None) unreachable)); [|done].
  repeat constructor.
Qed.

(** The loop stops: every round it goes on has an unreachable offset above the last. *)
Definition ahead (d : Z) : nat := length (List.filter (Z.leb d) unreachable).

Lemma ahead_lt d d' : d ∈ unreachable → d < d' → (ahead d' < ahead d)%nat.
Proof.
  unfold ahead. generalize unreachable as l. intros l Hin Hlt.
  assert (∀ l, (length (List.filter (Z.leb d') l) <= length (List.filter (Z.leb d) l))%nat) as Hle.
  { clear l Hin. induction l as [|a l IH]; [done|]. simpl.
    destruct (Z.leb_spec d' a), (Z.leb_spec d a); simpl; lia. }
  induction l as [|a l IH]; [by apply elem_of_nil in Hin|]. simpl.
  apply elem_of_cons in Hin as [->|Hin].
  - rewrite Z.leb_refl, (proj2 (Z.leb_gt d' a)) by done. simpl. specialize (Hle l). lia.
  - specialize (IH Hin). destruct (Z.leb_spec d' a), (Z.leb_spec d a); simpl; lia.
Qed.

(** What the loop settles on. *)
Record padded (base target n : Z) : Prop := {
  pd_ge : base <= target;
  pd_le : target <= two62;
  pd_padme : Padme target = target;
  pd_len : padLenFor (target - base) = Some n;
  pd_least : ∀ t, base <= t < target → Padme t = t → padLenFor (t - base) = None;
}.

Lemma padLoop_padded fuel base target :
  0 <= base <= 2305843009213693952 → base <= target <= two62 → Padme target = target →
  (∀ t, base <= t < target → Padme t = t → padLenFor (t - base) = None) →
  (ahead (target - base) < fuel)%nat →
  ∃ t n, padLoop fuel base target = Some (t, n) ∧ padded base t n.
Proof.
  intros Hb. revert target. induction fuel as [|fuel IH]; intros target Ht Hfix Hleast Hf; [lia|]. simpl.
  destruct (padLenFor (target - base)) as [n|] eqn:Hp; [exists target, n; split; [done|constructor; done || lia]|].
  pose proof (padLenFor_None (target - base) ltac:(lia) Hp) as Hu.
  assert (target - base <= 4294967303) as Hd.
  { unfold unreachable in Hu. set_unfold in Hu. lia. }
  assert (0 <= target + 1 <= two62) as H1 by (unfold two62; lia).
  pose proof (Padme_bounds (target + 1) H1) as [Hge Hov].
  apply IH.
  - split; [lia|]. apply Padme_le_two62; unfold two62 in *; lia.
  - by apply Padme_idemp.
  - intros t Hr Htf. destruct (Z.lt_ge_cases t target) as [Hl|Hg]; [apply Hleast; [lia|done]|].
    destruct (Z.eq_dec t target) as [->|Hne]; [done|].
    assert (t <= two62) as H62. { trans (Padme (target + 1)); [lia|]. apply Padme_le_two62; unfold two62 in *; lia. }
    pose proof (Padme_least (target + 1) t ltac:(lia) H62 Htf). lia.
  - pose proof (ahead_lt _ (Padme (target + 1) - base) Hu ltac:(lia)). lia.
Qed.

Lemma padLoop_settles base :
  0 <= base <= 2305843009213693952 →
  ∃ t n, padLoop padFuel base (Padme base) = Some (t, n) ∧ padded base t n.
Proof.
  intros Hb. assert (0 <= base <= two62) as H62 by (unfold two62; lia).
  pose proof (Padme_bounds base H62). apply padLoop_padded; [done| | | |].
  - split; [lia|]. apply Padme_le_two62; unfold two62 in *; lia.
  - by apply Padme_idemp.
  - intros t Ht Hfix. pose proof (Padme_least base t ltac:(lia) ltac:(unfold two62 in *; lia) Hfix). lia.
  - unfold ahead, padFuel. pose proof (filter_length_le (Z.leb (Padme base - base)) unreachable) as Hl. simpl in Hl |- *. lia.
Qed.

(** ** The encoded length *)

Lemma encodedLen_insert m k v :
  encodedLen (<[k := v]> m) =
  cborHeadLen (Z.of_nat (size (<[k := v]> m))) + (cborHeadLen k + len v) +
    map_fold (λ k v n, n + (cborHeadLen k + len v)) 0 (delete k m).
Proof.
  assert (∀ (m : fieldMap) a, map_fold (λ k v n, n + (cborHeadLen k + len v)) a m
            = a + map_fold (λ k v n, n + (cborHeadLen k + len v)) 0 m) as Hshift.
  { clear. intros m a. rewrite <- (Z.add_0_r a) at 1. apply (map_fold_comm_acc _ (Z.add a)). intros. lia. }
  unfold encodedLen. rewrite <- (insert_delete_eq m k v), map_fold_insert_L; [| |apply lookup_delete_eq].
  - rewrite Hshift. lia.
  - intros. lia.
Qed.

(** Changing the value of one key changes the length by the difference of the values. *)
Lemma encodedLen_update m k v w : encodedLen (<[k := w]> (<[k := v]> m)) = encodedLen (<[k := v]> m) + len w - len v.
Proof.
  rewrite !encodedLen_insert, delete_insert_eq, insert_insert_eq.
  replace (size (<[k := w]> m)) with (size (<[k := v]> m)); [lia|].
  by rewrite !map_size_insert.
Qed.

(** ** The least key *)

Lemma least_key_spec bad (m : fieldMap) :
  match least_key bad m with
  | Some k => is_Some (m !! k) ∧ bad k = true ∧ ∀ k', is_Some (m !! k') → bad k' = true → k <= k'
  | None => ∀ k, is_Some (m !! k) → bad k = false
  end.
Proof.
  unfold least_key. apply (map_fold_weak_ind (λ r (m : fieldMap),
    match r with
    | Some k => is_Some (m !! k) ∧ bad k = true ∧ ∀ k', is_Some (m !! k') → bad k' = true → k <= k'
    | None => ∀ k, is_Some (m !! k) → bad k = false
    end)).
  - intros k Hk. rewrite lookup_empty in Hk. by destruct Hk.
  - clear. intros k v m r Hk IH.
    assert (∀ k', is_Some (<[k := v]> m !! k') ↔ k' = k ∨ is_Some (m !! k')) as Hin.
    { intros k'. destruct (decide (k' = k)) as [->|Hne]; [rewrite lookup_insert_eq; naive_solver|]. rewrite lookup_insert_ne by done. naive_solver. }
    destruct (bad k) eqn:Hb; simpl.
    + destruct r as [l|].
      * destruct IH as (I1 & I2 & I3). destruct (Z.ltb_spec k l); rewrite Hin; split_and!; auto; intros k';
          rewrite Hin; intros [->|Hk'] Hb'; try lia; specialize (I3 k' Hk' Hb'); lia.
      * rewrite Hin. split_and!; auto. intros k'. rewrite Hin. intros [->|Hk'] Hb'; [lia|].
        rewrite (IH k' Hk') in Hb'. done.
    + destruct r as [l|].
      * destruct IH as (I1 & I2 & I3). rewrite Hin. split_and!; auto. intros k'. rewrite Hin.
        intros [->|Hk'] Hb'; [congruence|by apply I3].
      * intros k'. rewrite Hin. intros [->|Hk']; auto.
Qed.

Lemma least_key_None bad (m : fieldMap) :
  least_key bad m = None ↔ ∀ k, is_Some (m !! k) → bad k = false.
Proof.
  pose proof (least_key_spec bad m) as H. destruct (least_key bad m) as [k|]; [|done].
  destruct H as (H1 & H2 & _). split; [done|]. intros Hall. specialize (Hall k H1). congruence.
Qed.

Lemma no_least_key bad (m : fieldMap) :
  bool_decide (is_Some (least_key bad m)) = false ↔ ∀ k, is_Some (m !! k) → bad k = false.
Proof. rewrite bool_decide_eq_false, <- eq_None_not_Some. apply least_key_None. Qed.

(** ** Reading back what was written *)

Section Items.
Context `{L : ItemsLaws}.

Lemma decodeFields_Ok b m : decodeFields b = Ok m ↔ items m ∧ marshal_fields m = Some b.
Proof using L.
  unfold decodeFields. rewrite refuse_Ok, negb_false_iff, bool_decide_eq_true, bind_Ok. split.
  - intros (_ & m' & Hu%of_option_Ok & H). apply bind_Ok in H as (re & Hre & H). apply of_option_Ok in Hre.
    apply refuse_Ok in H as [->%negb_beqb_false [= ->]]. split; [by eapply fields_items|done].
  - intros [Hi Hm]. split; [by eapply fields_major|]. exists m. rewrite of_option_Ok. split; [by apply fields_inv|].
    rewrite Hm. simpl. by rewrite beqb_refl.
Qed.

Lemma marshalFields_Ok m b : marshalFields m = Ok b ↔ marshal_fields m = Some b.
Proof. apply of_option_Ok. Qed.

(** Two maps of items with one encoding are the same map. *)
Lemma marshal_fields_inj m m' b :
  items m → items m' → marshal_fields m = Some b → marshal_fields m' = Some b → m = m'.
Proof using L. intros Hi Hi' H H'. apply fields_inv in H, H'; [congruence|done..]. Qed.

Lemma items_insert m k v : wellFormedItem v = true → items m → items (<[k := v]> m).
Proof. intros Hv Hm. by apply map_Forall_insert_2. Qed.
Lemma items_singleton k v : wellFormedItem v = true → items {[k := v]}.
Proof. intros Hv. by apply map_Forall_singleton. Qed.
Lemma items_delete m k : items m → items (delete k m).
Proof. intros Hm. by apply map_Forall_delete. Qed.
Lemma items_empty : items ∅.
Proof. apply map_Forall_empty. Qed.

Lemma encodeBytes_item s b : encodeBytes s = Ok b → wellFormedItem b = true.
Proof using L. intros H%of_option_Ok. by eapply bytes_item. Qed.
Lemma encodeText_item s b : encodeText s = Ok b → wellFormedItem b = true.
Proof using L. intros H%of_option_Ok. by eapply text_item. Qed.
Lemma encodeUint_item n b : encodeUint n = Ok b → wellFormedItem b = true.
Proof using L. intros H%of_option_Ok. by eapply uint_item. Qed.
Lemma encodeList_item l b : encodeList l = Ok b → wellFormedItem b = true.
Proof using L. intros H%of_option_Ok. by eapply list_item. Qed.
Lemma encodeSlice_item o b : encodeSlice o = Ok b → wellFormedItem b = true.
Proof using L. destruct o; simpl; [apply encodeBytes_item|]. intros [= <-]. apply null_item. Qed.
Lemma marshalFields_item m b : marshalFields m = Ok b → wellFormedItem b = true.
Proof using L. intros H%of_option_Ok. by eapply fields_item. Qed.

Lemma raw_field_Ok {A} mj (dec : bytes → option A) m k raw a :
  m !! k = Some raw → major raw = Some mj → dec raw = Some a → raw_field mj dec m k = Ok a.
Proof. intros Hk Hm Hd. unfold raw_field. rewrite Hk. simpl. rewrite bool_decide_true by done. simpl. by rewrite Hd. Qed.

Lemma raw_field_inv {A} mj (dec : bytes → option A) m k a :
  raw_field mj dec m k = Ok a → ∃ raw, m !! k = Some raw ∧ major raw = Some mj ∧ dec raw = Some a.
Proof.
  unfold raw_field. rewrite bind_Ok. intros (raw & Hk%of_option_Ok & H). apply refuse_Ok in H as [Hm H].
  apply negb_false_iff, bool_decide_eq_true in Hm. apply of_option_Ok in H. eauto.
Qed.

Lemma rawUint_encoded m k n b : is_u64 n → encodeUint n = Ok b → m !! k = Some b → rawUint m k = Ok n.
Proof using L. intros Hn Hb%of_option_Ok Hk. eapply raw_field_Ok; [done|by eapply uint_major|by apply uint_inv]. Qed.
Lemma rawText_encoded m k s b : encodeText s = Ok b → m !! k = Some b → rawText m k = Ok s.
Proof using L. intros Hb%of_option_Ok Hk. eapply raw_field_Ok; [done|by eapply text_major|by apply text_inv]. Qed.
Lemma rawBytes_encoded m k s b : encodeBytes s = Ok b → m !! k = Some b → rawBytes m k = Ok s.
Proof using L. intros Hb%of_option_Ok Hk. eapply raw_field_Ok; [done|by eapply bytes_major|by apply bytes_inv]. Qed.

Lemma encodeBytes_inj s s' b : encodeBytes s = Ok b → encodeBytes s' = Ok b → s = s'.
Proof using L. intros H%of_option_Ok H'%of_option_Ok. apply bytes_inv in H, H'. congruence. Qed.
Lemma encodeUint_inj n n' b : is_u64 n → is_u64 n' → encodeUint n = Ok b → encodeUint n' = Ok b → n = n'.
Proof using L. intros Hn Hn' H%of_option_Ok H'%of_option_Ok. apply uint_inv in H, H'; [congruence|done..]. Qed.

(** Null is not a byte string. *)
Lemma encodeSlice_inj o o' b : encodeSlice o = Ok b → encodeSlice o' = Ok b → o = o'.
Proof using L.
  destruct o as [s|], o' as [s'|]; simpl; intros H H'.
  - by rewrite (encodeBytes_inj _ _ _ H H').
  - injection H' as <-. apply of_option_Ok, bytes_major in H. done.
  - injection H as <-. apply of_option_Ok, bytes_major in H'. done.
  - done.
Qed.

(** ** The padded map *)

Lemma applyPad_padded wrap :
  encodedLen (<[wrapKeyPad := [64]]> wrap) <= 2305843009213693952 →
  ∃ pad n target, applyPad wrap = Some (<[wrapKeyPad := pad]> wrap, target) ∧
    marshal_bytes (repeat 0 (Z.to_nat n)) = Some pad ∧
    encodedLen (<[wrapKeyPad := pad]> wrap) = target ∧
    padded (encodedLen (<[wrapKeyPad := [64]]> wrap)) target n.
Proof using L.
  intros Hb. assert (0 <= encodedLen (<[wrapKeyPad := [64]]> wrap)) as H0.
  { rewrite encodedLen_insert. pose proof (cborHeadLen_pos (Z.of_nat (size (<[wrapKeyPad := [64]]> wrap)))).
    pose proof (cborHeadLen_pos wrapKeyPad). pose proof (len_nonneg [64]).
    enough (∀ m : fieldMap, 0 <= map_fold (λ k v n, n + (cborHeadLen k + len v)) 0 m) as Hm
      by (specialize (Hm (delete wrapKeyPad wrap)); lia).
    intros m. apply (map_fold_weak_ind (λ r _, 0 <= r)); [lia|]. intros k v m' r _ Hr.
    pose proof (cborHeadLen_pos k). pose proof (len_nonneg v). lia. }
  destruct (padLoop_settles _ (conj H0 Hb)) as (t & n & Hl & Hp). unfold applyPad. rewrite Hl.
  destruct (padLenFor_Some _ _ (pd_len _ _ _ Hp)) as [Hn Hd].
  assert (len (repeat 0 (Z.to_nat n)) = n) as Hlen by (unfold len; rewrite repeat_length; lia).
  destruct (bytes_total (repeat 0 (Z.to_nat n))) as [pad Hpad].
  { rewrite Hlen. destruct Hp as [G1 G2 _ _ _]. pose proof (cborHeadLen_pos n). unfold is_u64, two64, two62 in *. lia. }
  rewrite Hpad. exists pad, n, t. split_and!; [by rewrite insert_insert_eq|done| |done].
  rewrite <- (insert_insert_eq wrap wrapKeyPad pad [64]), encodedLen_update, (bytes_len _ _ Hpad), Hlen.
  change (len [64]) with 1. lia.
Qed.

Lemma padLoop_offset fuel base target t n :
  padLoop fuel base target = Some (t, n) → padLenFor (t - base) = Some n.
Proof.
  revert target. induction fuel as [|fuel IH]; intros target; [done|]. simpl.
  destruct (padLenFor (target - base)) as [n'|] eqn:Hp; [by intros [= <- <-]|apply IH].
Qed.

(** What a padded map holds, once its encoding is known to have the length [applyPad] computed. *)
Lemma applyPad_marshalled wrap m t pt :
  items wrap → applyPad wrap = Some (m, t) → marshal_fields m = Some pt → len pt = t →
  ∃ pad zeros, m = <[wrapKeyPad := pad]> wrap ∧ marshal_bytes zeros = Some pad ∧
    Forall (eq 0) zeros.
Proof using L.
  intros Hi Ha Hm Hl. unfold applyPad in Ha.
  destruct (padLoop _ _ _) as [[t' n]|] eqn:Hp; [|done]. injection Ha as <- <-.
  apply padLoop_offset, padLenFor_Some in Hp as [Hn Hd]. pose proof (fields_slice _ _ Hm) as Hb.
  rewrite encodedLen_insert in Hd. pose proof (cborHeadLen_pos n) as Hh.
  assert (len (repeat 0 (Z.to_nat n)) = n) as Hlen by (unfold len; rewrite repeat_length; lia).
  assert (0 <= encodedLen (<[wrapKeyPad := [64]]> wrap)) as H0.
  { unfold encodedLen. apply (map_fold_weak_ind (λ r _, 0 <= r)).
    - pose proof (cborHeadLen_pos (Z.of_nat (size (<[wrapKeyPad := [64]]> wrap)))). lia.
    - intros k v m' r _ Hr. pose proof (cborHeadLen_pos k). pose proof (len_nonneg v). lia. }
  rewrite encodedLen_insert in H0.
  destruct (bytes_total (repeat 0 (Z.to_nat n))) as [pad Hpad].
  { rewrite Hlen. unfold is_u64, two64, MaxInt64, two63 in *. lia. }
  rewrite Hpad, insert_insert_eq. exists pad, (repeat 0 (Z.to_nat n)). split_and!; [done..|].
  apply Forall_forall. intros x Hx%list_elem_of_In%repeat_spec. done.
Qed.
End Items.
