(* ===== verification/EnvelopeFacts.v ===== *)
(** * EnvelopeFacts: what is read back from a map that was written *)

From S2P Require Import Prelude Checks Platform Aid Kel IdFile Controller Notice Fields FieldsFacts Envelope.

(** ** Maps built member by member *)

(** An optional member. *)
Definition ins (k : Z) (o : option bytes) (m : fieldMap) : fieldMap :=
  match o with Some b => <[k := b]> m | None => m end.

Lemma lookup_ins k o m k' : ins k o m !! k' = if k =? k' then match o with Some b => Some b | None => m !! k' end else m !! k'.
Proof.
  destruct o as [b|]; simpl; [|by destruct (k =? k')]. destruct (Z.eqb_spec k k') as [->|Hne].
  - by rewrite lookup_insert_eq.
  - by rewrite lookup_insert_ne.
Qed.

(** The run of an optional encoder. *)
Definition runs (v : option (result bytes)) (o : option bytes) : Prop := v = Ok <$> o.

Lemma put_Ok k v m m' : put k v m = Ok m' ↔ ∃ o, runs v o ∧ m' = ins k o m.
Proof.
  unfold put, runs. destruct v as [r|].
  - rewrite bind_Ok. setoid_rewrite map_err_Ok. split.
    + intros (b & -> & [= <-]). by exists (Some b).
    + intros ([b|] & E & ->); [|done]. injection E as ->. by exists b.
  - split; [intros [= <-]; by exists None|]. by intros ([b|] & E & ->).
Qed.

Lemma runs_Some r o : runs (Some r) o ↔ ∃ b, o = Some b ∧ r = Ok b.
Proof. unfold runs. destruct o as [b|]; simpl; split; [intros [= ->]; eauto|by intros (? & [= ->] & ->)|done|by intros (? & ? & _)]. Qed.

Lemma runs_fmap {A} (f : A → result bytes) (x : option A) o :
  runs (f <$> x) o ↔ match x, o with Some a, Some b => f a = Ok b | None, None => True | _, _ => False end.
Proof. unfold runs. destruct x, o; simpl; split; try done; [by intros [= ->]|by intros ->]. Qed.

(** Look a member up in a map written out. *)
Ltac small_lookup := repeat first [rewrite lookup_insert_eq by done | rewrite lookup_insert_ne by done];
  try first [rewrite lookup_singleton_eq | rewrite lookup_singleton_ne by done].

Section Facts.
Context `{P : Platform} `{I : Items} `{H : HpkeContexts}.
Context `{CE : Coredet KeyEvent} `{DK : Strict (list SignedEvent)}.
Context {L : ItemsLaws I}.

(** ** The fields of an inner *)

(** The members [inner_fieldMap] writes. *)
Record inner_map (i : SealedInner) (m : fieldMap) : Prop := {
  im_from : ∃ b, m !! keyFrom = Some b ∧ encodeText (in_From i) = Ok b;
  im_seq : ∃ b, m !! keySeq = Some b ∧ encodeUint (in_KeyStateSeq i) = Ok b;
  im_to : ∃ b, m !! keyTo = Some b ∧ encodeText (in_To i) = Ok b;
  im_type : ∃ b, m !! keyType = Some b ∧ encodeText (in_Type i) = Ok b;
  im_ix : ∃ b, m !! keyIX = Some b ∧ encodeText (in_IX i) = Ok b;
  im_mid : ∃ b, m !! keyMID = Some b ∧ encodeBytes (in_MID i) = Ok b;
  im_ts : ∃ b, m !! keyTS = Some b ∧ encodeUint (in_TS i) = Ok b;
  im_exp : ∃ b, m !! keyExp = Some b ∧ encodeUint (in_Exp i) = Ok b;
  im_body : ∃ b, m !! keyBody = Some b ∧ encodeBytes (in_Body i) = Ok b;
  im_kel : runs (encodeBytes <$> in_KEL i) (m !! keyKEL);
  im_notice : runs (if 0 <? len (in_Notices i) then Some (encodeList (in_Notices i)) else None) (m !! keyNotice);
  im_keys : runs (encodeBytes <$> in_Keys i) (m !! keyKeys);
  im_grant : m !! keyGrant = in_Grant i;
  im_rk : runs (rk_item <$> in_RK i) (m !! keyRK);
  im_ext : extensions m = in_Ext i;
  im_known k : k < FirstIgnorableKey → is_Some (m !! k) → innerKnown k = true ∧ k ≠ keySig;
}.

(** Every extension has a key from 64 on and is an item. *)
Lemma check_ext_Ok m :
  check_ext m = Ok tt ↔ ∀ k v, m !! k = Some v → FirstIgnorableKey <= k ∧ wellFormedItem v = true.
Proof.
  unfold check_ext. rewrite refuse_Ok. split.
  - intros [Hf _] k v Hk.
    destruct ((k <? FirstIgnorableKey) || negb (wellFormedItem v)) eqn:E.
    + assert (existsb (λ kv, (kv.1 <? FirstIgnorableKey) || negb (wellFormedItem kv.2)) (map_to_list m) = true) as Ht; [|congruence].
      apply existsb_exists. exists (k, v). split; [by apply list_elem_of_In, elem_of_map_to_list|done].
    + apply orb_false_iff in E as [E1%Z.ltb_ge E2%negb_false_iff]. done.
  - intros Hall. split; [|done]. apply not_true_is_false. intros ([k v] & Hin & Hb)%existsb_exists.
    apply list_elem_of_In, elem_of_map_to_list, Hall in Hin as [H1 H2]. cbn [fst snd] in Hb.
    rewrite H2, (proj2 (Z.ltb_ge _ _)) in Hb by done. done.
Qed.

(** The keys of the signed members. *)
Definition signed_keys (m : fieldMap) : Prop := ∀ k, is_Some (m !! k) → innerKnown k = true ∧ k ≠ keySig.

Lemma signed_keys_ins k o m : innerKnown k = true → k ≠ keySig → signed_keys m → signed_keys (ins k o m).
Proof.
  intros Hk Hs Hm k'. rewrite lookup_ins. destruct (Z.eqb_spec k k') as [->|]; [|apply Hm].
  destruct o; [done|apply Hm].
Qed.

Lemma innerKnown_small k : innerKnown k = true → k < FirstIgnorableKey.
Proof. unfold innerKnown, FirstIgnorableKey. intros (x & Hx & ->%Z.eqb_eq)%existsb_exists. simpl in Hx. lia. Qed.

Lemma extensions_union x m :
  (∀ k v, x !! k = Some v → FirstIgnorableKey <= k ∧ wellFormedItem v = true) → signed_keys m →
  extensions (x ∪ m) = x.
Proof.
  intros Hx Hm. unfold extensions. apply map_eq. intros k. apply option_eq. intros v.
  rewrite map_lookup_filter_Some. simpl. split.
  - intros [Hk Hge]. apply lookup_union_Some_raw in Hk as [Hk|[_ Hk]]; [done|].
    destruct (Hm k) as [Hi _]; [by eexists|]. apply innerKnown_small in Hi. lia.
  - intros Hk. split; [|by apply (Hx k v)]. by apply lookup_union_Some_l.
Qed.

Ltac read_member := rewrite ?lookup_ins; cbn [Z.eqb Pos.eqb keyFrom keySeq keyTo keyType keyIX keyMID keyTS keyExp keyBody keyKEL keyNotice keyKeys keyGrant keyRK]; rewrite ?lookup_empty.

Lemma inner_fieldMap_Ok i m : check_ext (in_Ext i) = Ok tt → inner_fieldMap i = Ok m → inner_map i m.
Proof.
  intros Hx Hm. pose proof (proj1 (check_ext_Ok _) Hx) as Hext. unfold inner_fieldMap in Hm.
  repeat match type of Hm with (put ?k ?v ?m ≫= _) = Ok _ =>
    apply bind_Ok in Hm as (? & (? & ? & ->)%put_Ok & Hm) end.
  injection Hm as <-.
  assert (∀ k, k < FirstIgnorableKey → in_Ext i !! k = None) as Hnone.
  { intros k Hk. apply eq_None_not_Some. intros [v Hv]. apply Hext in Hv. lia. }
  repeat match goal with E : runs (Some _) _ |- _ => apply runs_Some in E as (? & -> & E) end.
  match goal with E : runs (Ok <$> in_Grant i) ?o |- _ => assert (o = in_Grant i) as -> end.
  { match goal with E : runs (Ok <$> in_Grant i) ?o |- _ => apply runs_fmap in E; destruct (in_Grant i), o; try done; by injection E as -> end. }
  assert (∀ k m', k < FirstIgnorableKey → (in_Ext i ∪ m') !! k = m' !! k) as Hu.
  { intros k m' Hk. apply lookup_union_r. by apply Hnone. }
  constructor.
  1-9: eexists; split; [rewrite Hu by (vm_compute; reflexivity); read_member; reflexivity|done].
  1-3, 5: rewrite Hu by (vm_compute; reflexivity); read_member; match goal with
    |- context [match ?o with Some _ => _ | None => _ end] => is_var o; by destruct o end.
  - rewrite Hu by (vm_compute; reflexivity). read_member. by destruct (in_Grant i).
  - apply extensions_union; [done|]. repeat (apply signed_keys_ins; [reflexivity|discriminate|]).
    intros k Hk. rewrite lookup_empty in Hk. by destruct Hk.
  - intros k Hk. rewrite Hu by done. revert k Hk.
    assert (∀ m', signed_keys m' → ∀ k, k < FirstIgnorableKey → is_Some (m' !! k) → innerKnown k = true ∧ k ≠ keySig) as Hs by eauto.
    apply Hs. repeat (apply signed_keys_ins; [reflexivity|discriminate|]).
    intros k Hk. rewrite lookup_empty in Hk. by destruct Hk.
Qed.

(** What [checkForSeal] lets through. *)
Record sealable (i : SealedInner) (o : SealOpts) : Prop := {
  sl_nonempty : in_From i ≠ [] ∧ in_To i ≠ [] ∧ in_Type i ≠ [];
  sl_no_nul : has_byte 0 (in_From i) = false ∧ has_byte 0 (in_To i) = false ∧ has_byte 0 (in_IX i) = false;
  sl_mid : len (in_MID i) = MIDLen;
  sl_ts : in_TS i ≠ 0;
  sl_life : in_TS i <= in_Exp i <= in_TS i + MaxMessageLifetimeMS;
  sl_exp : so_Exp o = 0 ∨ so_Exp o = in_Exp i;
  sl_kel : match in_KEL i with
           | Some kel => len (in_Notices i) = noticesPerMessage ∧ ∃ k, ParseKEL kel = Ok k
           | None => in_Notices i = []
           end;
  sl_notices : Forall (λ n, len n <= MaxNoticeBytes) (in_Notices i);
  sl_grant : ∀ g, in_Grant i = Some g → wellFormedItem g = true ∧ major g = Some majorMap;
  sl_rk : ∀ r, in_RK i = Some r → rk_check r = Ok tt;
  sl_ext : check_ext (in_Ext i) = Ok tt;
}.

Lemma rk_check_Ok r : rk_check r = Ok tt ↔ rk_Suite r = SuiteX25519 ∧ len (rk_Pub r) = 32.
Proof.
  unfold rk_check. rewrite refuse_Ok, negb_Zeqb_false. split.
  - intros [-> Hl]. simpl in Hl. apply refuse_Ok in Hl as [Hl%negb_Zeqb_false _]. done.
  - intros [-> Hl]. simpl. by rewrite Hl.
Qed.

Lemma checkForSeal_Ok i o : checkForSeal i o = Ok tt → sealable i o.
Proof.
  unfold checkForSeal. intros C.
  apply refuse_Ok in C as [C1 C]. rewrite !orb_false_iff, !beqb_false in C1.
  apply refuse_Ok in C as [C2 C]. rewrite !orb_false_iff in C2.
  apply refuse_Ok in C as [C3%negb_Zeqb_false C]. apply refuse_Ok in C as [C4%Z.eqb_neq C].
  apply refuse_Ok in C as [C5 C]. rewrite orb_false_iff, !Z.ltb_ge in C5.
  apply refuse_Ok in C as [C6 C]. apply refuse_Ok in C as [C7 C].
  apply bind_Ok in C as ([] & C8 & C). apply refuse_Ok in C as [C9 C].
  apply bind_Ok in C as ([] & C10 & C). apply bind_Ok in C as ([] & C11 & C).
  constructor; try tauto; try done; try lia.
  - apply negb_false_iff, eqb_prop in C7. destruct (in_KEL i) as [kel|].
    + apply refuse_Ok in C8 as [C8%negb_Zeqb_false C8']. split; [done|].
      apply bind_Ok in C8' as (k & C8'%map_err_Ok & _). by exists k.
    + rewrite bool_decide_true in C7 by done. symmetry in C7. simpl in C7. apply Z.ltb_ge in C7.
      apply len_nil. pose proof (len_nonneg (in_Notices i)). lia.
  - apply existsb_false in C9. eapply Forall_impl; [exact C9|]. intros n Hn. by apply Z.ltb_ge in Hn.
  - intros g Hg. rewrite Hg in C10. apply refuse_Ok in C10 as [C10 _].
    rewrite orb_false_iff, !negb_false_iff, bool_decide_eq_true in C10. done.
  - intros r Hr. rewrite Hr in C11. by apply map_err_Ok in C11.
Qed.

(** ** Items *)

Lemma items_ins k o m : (∀ b, o = Some b → wellFormedItem b = true) → items m → items (ins k o m).
Proof. intros Ho Hm. destruct o as [b|]; simpl; [|done]. apply items_insert; auto. Qed.

Lemma runs_item v o :
  (∀ r b, v = Some r → r = Ok b → wellFormedItem b = true) → runs v o → ∀ b, o = Some b → wellFormedItem b = true.
Proof. intros Hv Hr b ->. unfold runs in Hr. simpl in Hr. by eapply Hv. Qed.

Lemma rk_item_item r b : rk_item r = Ok b → wellFormedItem b = true.
Proof using L.
  unfold rk_item. rewrite bind_Ok. intros (s & _ & H1). apply bind_Ok in H1 as (p & _ & H1).
  by eapply marshalFields_item.
Qed.

Lemma put_items k v m m' :
  put k v m = Ok m' → items m → (∀ r b, v = Some r → r = Ok b → wellFormedItem b = true) → items m'.
Proof. intros (o & Ho & ->)%put_Ok Hm Hv. apply items_ins; [|done]. by apply (runs_item v). Qed.

Lemma inner_fieldMap_items i o m : sealable i o → inner_fieldMap i = Ok m → items m.
Proof using L.
  intros Hs Hm. unfold inner_fieldMap in Hm. pose proof items_empty as Hi.
  repeat match type of Hm with (put ?k ?v ?m ≫= _) = Ok _ =>
    apply bind_Ok in Hm as (? & Hput & Hm); apply put_items in Hput; [clear Hi; rename Hput into Hi|exact Hi|
      intros r b Hr; first [injection Hr as <-; eauto using encodeText_item, encodeUint_item, encodeBytes_item|idtac]] end.
  - injection Hm as <-. apply map_Forall_union_2; [|done].
    intros k v Hk. by apply (proj1 (check_ext_Ok _) (sl_ext _ _ Hs) k v).
  - destruct (in_RK i); [|done]. injection Hr as <-. apply rk_item_item.
  - destruct (in_Grant i) eqn:E; [|done]. injection Hr as <-. intros [= <-]. by apply (sl_grant _ _ Hs).
  - destruct (in_Keys i); [|done]. injection Hr as <-. apply encodeBytes_item.
  - destruct (0 <? _); [|done]. injection Hr as <-. apply encodeList_item.
  - destruct (in_KEL i); [|done]. injection Hr as <-. apply encodeBytes_item.
Qed.

(** ** Reading an inner back *)

Definition set_sig (sig : bytes) (i : SealedInner) : SealedInner :=
  mkSealedInner (in_From i) (in_KeyStateSeq i) (in_To i) (in_Type i) (in_IX i) (in_MID i) (in_TS i) (in_Exp i)
    (in_Body i) (in_KEL i) (in_Notices i) (in_Keys i) (in_Grant i) (in_RK i) sig (in_Ext i).

Lemma optional_runs {A} m k (enc : A → result bytes) (read : bytes → result A) (x : option A) :
  runs (enc <$> x) (m !! k) → (∀ a b, x = Some a → m !! k = Some b → enc a = Ok b → read b = Ok a) →
  optional m k read = Ok x.
Proof.
  intros Hr Hread. apply runs_fmap in Hr. unfold optional.
  destruct x as [a|], (m !! k) as [b|] eqn:E; try done. by rewrite (Hread a b).
Qed.

Lemma firstKeyOutside_None m lo hi :
  bool_decide (is_Some (firstKeyOutside m lo hi)) = false ↔ ∀ k, is_Some (m !! k) → lo <= k <= hi.
Proof.
  unfold firstKeyOutside. rewrite no_least_key. split; intros Hm k Hk; specialize (Hm k Hk); lia.
Qed.

Lemma firstUnknownCritical_None m known :
  bool_decide (is_Some (firstUnknownCritical m known)) = false ↔
  ∀ k, is_Some (m !! k) → k < FirstIgnorableKey → known k = true.
Proof.
  unfold firstUnknownCritical. rewrite no_least_key. split; intros Hm k Hk; specialize (Hm k Hk).
  - intros Hlt%Z.ltb_lt. rewrite Hlt in Hm. by apply negb_false_iff.
  - destruct (Z.ltb_spec k FirstIgnorableKey); [|done]. by rewrite Hm.
Qed.

(** The keys of small maps. *)
Lemma lookup_pair_keys (a b : bytes) k k1 k2 : is_Some ((<[k2 := b]> {[k1 := a]} : fieldMap) !! k) → k = k1 ∨ k = k2.
Proof.
  rewrite lookup_insert_is_Some. intros [->|[_ Hk]]; [by right|]. apply lookup_singleton_is_Some in Hk as ->. by left.
Qed.

Lemma decodeRK_item r b : rk_check r = Ok tt → rk_item r = Ok b → decodeRK b = Ok r.
Proof using L.
  intros Hc Hb. destruct (proj1 (rk_check_Ok _) Hc) as [Hs _]. unfold rk_item in Hb.
  apply bind_Ok in Hb as (s & Hs' & Hb). apply bind_Ok in Hb as (p & Hp & Hb). apply marshalFields_Ok in Hb.
  unfold decodeRK. rewrite (proj2 (decodeFields_Ok b (<[2:=p]> {[1:=s]}))).
  2: { split; [|done]. eauto using items_insert, items_singleton, encodeBytes_item, encodeUint_item. }
  cbn [map_err mbind result_bind]. rewrite (proj2 (firstKeyOutside_None _ 1 2)).
  2: { intros k [->| ->]%lookup_pair_keys; done. }
  rewrite (rawUint_encoded _ _ (rk_Suite r) s); [|rewrite Hs; done|done|by rewrite lookup_insert_ne, lookup_singleton_eq].
  cbn [map_err mbind result_bind]. rewrite (proj2 (Z.ltb_ge 255 (rk_Suite r))) by by rewrite Hs.
  rewrite (rawBytes_encoded _ _ (rk_Pub r) p); [|done|by rewrite lookup_insert_eq]. cbn [map_err mbind result_bind].
  replace (mkRK (rk_Suite r) (rk_Pub r)) with r by by destruct r. by rewrite Hc.
Qed.

Lemma rawNotices_item n b : len n <= MaxNoticeBytes → encodeList [n] = Ok b → rawNotices b = Ok [n].
Proof using L.
  intros Hn Hb%of_option_Ok. unfold rawNotices. rewrite bool_decide_true by by eapply list_major. cbn [negb].
  destruct (list_inv _ _ Hb) as (rs & -> & (r & rs' & Hr & Hnil & ->)%Forall2_cons_inv_l).
  apply Forall2_nil_inv_l in Hnil as ->. cbn [of_option mbind result_bind]. change (len [r] =? noticesPerMessage) with true.
  cbn [negb mapM]. rewrite (rawBytes_encoded _ _ n r); [|unfold encodeBytes; by rewrite Hr|by rewrite lookup_singleton_eq].
  cbn [map_err mbind result_bind]. by rewrite (proj2 (Z.ltb_ge _ _)).
Qed.

Definition inner_u64 (i : SealedInner) : Prop := is_u64 (in_KeyStateSeq i) ∧ is_u64 (in_TS i) ∧ is_u64 (in_Exp i).

(** The members of a map with a signature, as [decodeInner] reads them. *)
Record inner_reads (m : fieldMap) (i : SealedInner) : Prop := {
  ir_from : rawText m keyFrom = Ok (in_From i);
  ir_seq : rawUint m keySeq = Ok (in_KeyStateSeq i);
  ir_to : rawText m keyTo = Ok (in_To i);
  ir_type : rawText m keyType = Ok (in_Type i);
  ir_ix : rawText m keyIX = Ok (in_IX i);
  ir_mid : rawBytes m keyMID = Ok (in_MID i);
  ir_ts : rawUint m keyTS = Ok (in_TS i);
  ir_exp : rawUint m keyExp = Ok (in_Exp i);
  ir_body : rawBytes m keyBody = Ok (in_Body i);
  ir_kel : optional m keyKEL (λ _, rawBytes m keyKEL) = Ok (in_KEL i);
  ir_keys : optional m keyKeys (λ _, rawBytes m keyKeys) = Ok (in_Keys i);
  ir_sig : rawBytes m keySig = Ok (in_Sig i);
  ir_notices : optional m keyNotice rawNotices = Ok (if 0 <? len (in_Notices i) then Some (in_Notices i) else None);
  ir_grant : m !! keyGrant = in_Grant i;
  ir_rk : optional m keyRK decodeRK = Ok (in_RK i);
  ir_ext : extensions m = in_Ext i;
}.

Lemma extensions_insert m k v : k < FirstIgnorableKey → extensions (<[k := v]> m) = extensions m.
Proof.
  intros Hk. unfold extensions. apply map_eq. intros k'. apply option_eq. intros w.
  rewrite !map_lookup_filter_Some. simpl. split; intros [Hl Hge]; (split; [|done]);
    [by rewrite lookup_insert_ne in Hl by lia|by rewrite lookup_insert_ne by lia].
Qed.

Lemma read_optional_bytes (m m' : fieldMap) k x :
  m' !! k = m !! k → runs (encodeBytes <$> x) (m !! k) → optional m' k (λ _, rawBytes m' k) = Ok x.
Proof using L.
  intros E Hr. apply (optional_runs _ _ encodeBytes); [by rewrite E|]. intros a b _ Hb Ha.
  by eapply rawBytes_encoded.
Qed.

Lemma sealed_inner_reads i o m sig s :
  sealable i o → inner_u64 i → inner_map i m → encodeBytes sig = Ok s →
  inner_reads (<[keySig := s]> m) (set_sig sig i).
Proof using L.
  intros Hs (U1 & U2 & U3) Hm Hsig.
  assert (∀ k, k ≠ keySig → (<[keySig := s]> m) !! k = m !! k) as Hne by (intros k Hk; by rewrite lookup_insert_ne).
  pose proof (λ k b v (Hk : k ≠ keySig) (Hv : encodeText v = Ok b) (Hl : m !! k = Some b),
    rawText_encoded _ k v b Hv (eq_trans (Hne k Hk) Hl)) as Htext.
  pose proof (λ k b v (Hk : k ≠ keySig) (Hv : encodeBytes v = Ok b) (Hl : m !! k = Some b),
    rawBytes_encoded _ k v b Hv (eq_trans (Hne k Hk) Hl)) as Hbytes.
  pose proof (λ k b v (Hu : is_u64 v) (Hk : k ≠ keySig) (Hv : encodeUint v = Ok b) (Hl : m !! k = Some b),
    rawUint_encoded _ k v b Hu Hv (eq_trans (Hne k Hk) Hl)) as Huint.
  destruct Hm as [(? & ? & ?) (? & ? & ?) (? & ? & ?) (? & ? & ?) (? & ? & ?) (? & ? & ?) (? & ? & ?) (? & ? & ?)
                  (? & ? & ?) F10 F11 F12 F13 F14 F15 F16].
  constructor; cbn [set_sig in_From in_KeyStateSeq in_To in_Type in_IX in_MID in_TS in_Exp in_Body in_KEL in_Notices
    in_Keys in_Grant in_RK in_Sig in_Ext]; try (by eapply Htext); try (by eapply Hbytes); try (by eapply Huint).
  - apply (read_optional_bytes m); [by apply Hne|done].
  - apply (read_optional_bytes m); [by apply Hne|done].
  - by eapply rawBytes_encoded; [|by rewrite lookup_insert_eq].
  - unfold optional. rewrite Hne by done. unfold runs in F11. destruct (Z.ltb_spec 0 (len (in_Notices i))) as [Hpos|].
    + destruct (m !! keyNotice) as [b|]; [|done]. injection F11 as F11. pose proof (sl_kel _ _ Hs) as Hk.
      destruct (in_KEL i); [|by rewrite Hk in Hpos]. destruct Hk as [Hlen _]. pose proof (sl_notices _ _ Hs) as Hn.
      destruct (in_Notices i) as [|n [|n' ns]]; [done| |unfold len, noticesPerMessage in Hlen; simpl in Hlen; lia].
      apply Forall_cons in Hn as [Hn _]. by rewrite (rawNotices_item n).
    + by destruct (m !! keyNotice).
  - by rewrite Hne.
  - apply (optional_runs _ _ rk_item); [by rewrite Hne|]. intros r b Hr _ Hb. apply decodeRK_item; [|done].
    by apply (sl_rk _ _ Hs).
  - rewrite extensions_insert; [done|]. done.
Qed.

Lemma decodeInner_sealed i o m sig s b :
  sealable i o → inner_u64 i → inner_fieldMap i = Ok m → encodeBytes sig = Ok s → len sig = SigLen →
  marshalFields (<[keySig := s]> m) = Ok b → decodeInner b = Ok (<[keySig := s]> m, set_sig sig i).
Proof using L.
  intros Hs Hu Hm Hsig Hl Hb%marshalFields_Ok.
  pose proof (inner_fieldMap_Ok _ _ (sl_ext _ _ Hs) Hm) as Him.
  destruct (sealed_inner_reads _ _ _ _ _ Hs Hu Him Hsig) as [R1 R2 R3 R4 R5 R6 R7 R8 R9 R10 R11 R12 R13 R14 R15 R16].
  unfold decodeInner. rewrite (proj2 (decodeFields_Ok b (<[keySig := s]> m))).
  2: { split; [|done]. apply items_insert; [by eapply encodeBytes_item|by eapply inner_fieldMap_items]. }
  cbn [map_err mbind result_bind]. rewrite (proj2 (firstUnknownCritical_None (<[keySig := s]> m) innerKnown)).
  2: { intros k Hk Hlt. apply lookup_insert_is_Some in Hk as [<-|[_ Hk]]; [done|]. by apply (im_known _ _ Him). }
  rewrite R1, R2, R3, R4, R5, R6, R7, R8, R9. cbn [map_err mbind result_bind].
  rewrite R10, R11, R12, R13. cbn [map_err mbind result_bind].
  cbn [set_sig in_From in_KeyStateSeq in_To in_Type in_IX in_MID in_TS in_Exp in_Body in_KEL in_Notices in_Keys
       in_Grant in_RK in_Sig in_Ext] in *.
  destruct (sl_no_nul _ _ Hs) as (N1 & N2 & N3). rewrite (sl_mid _ _ Hs), Hl, N1, N2, N3. cbn [negb Z.eqb MIDLen SigLen Pos.eqb].
  rewrite R15. cbn [map_err mbind result_bind]. rewrite R14, R16. pose proof (sl_kel _ _ Hs) as Hk.
  destruct (in_KEL i) eqn:Ek.
  - destruct Hk as [Hk _]. rewrite Hk. cbn [noticesPerMessage Z.ltb Z.compare]. rewrite !bool_decide_false by done.
    cbn [xorb]. unfold set_sig. by rewrite Ek.
  - rewrite Hk. cbn [len length Z.of_nat Z.ltb Z.compare]. rewrite !bool_decide_true by done. cbn [xorb].
    unfold set_sig. by rewrite Ek, Hk.
Qed.

(** ** Reading a Wrap back *)

Definition wrap_ok (w : wrapFields) : Prop :=
  match w_ikid w, w_enc2 w with
  | Some ikid, Some enc2 => len ikid = KIDLen ∧ len enc2 = 32
  | None, None => True
  | _, _ => False
  end.

(** The members of a Wrap: the body, the pad, and the second layer's when there is one. *)
Record wrap_map (w : wrapFields) (m : fieldMap) : Prop := {
  wm_items : items m;
  wm_body : rawBytes m wrapKeyBody = Ok (w_body w);
  wm_pad : ∃ zeros, rawBytes m wrapKeyPad = Ok zeros ∧ Forall (eq 0) zeros;
  wm_ikid : optional m wrapKeyIKID (λ _, rawBytes m wrapKeyIKID) = Ok (w_ikid w);
  wm_enc2 : optional m wrapKeyEnc2 (λ _, rawBytes m wrapKeyEnc2) = Ok (w_enc2 w);
  wm_known k : is_Some (m !! k) → wrapKnown k = true;
}.

Lemma paddedMap_wrap_map w m want pt :
  paddedMap w = Ok (m, want) → marshal_fields m = Some pt → len pt = want → wrap_map w m.
Proof using L.
  destruct w as [ikid enc2 body]. unfold paddedMap. cbn [w_ikid w_enc2 w_body]. intros Hp Hm Hl.
  apply refuse_Ok in Hp as [Hx Hp]. apply bind_Ok in Hp as (b & Hb & Hp). pose proof (encodeBytes_item _ _ Hb).
  destruct ikid as [ikid|], enc2 as [enc2|]; try done.
  - apply bind_Ok in Hp as (base & Hbase & Ha%of_option_Ok). apply bind_Ok in Hbase as (i & Hi & Hbase).
    apply bind_Ok in Hbase as (e & He & [= <-]). pose proof (encodeBytes_item _ _ Hi). pose proof (encodeBytes_item _ _ He).
    eapply applyPad_marshalled in Ha as (pad & zeros & -> & Hpad & Hz); [|eauto using items_insert, items_singleton|done..].
    pose proof (bytes_item _ _ Hpad). constructor; cbn [w_ikid w_enc2 w_body].
    + eauto using items_insert, items_singleton.
    + eapply rawBytes_encoded; [exact Hb|]. small_lookup. done.
    + exists zeros. split; [|done]. eapply rawBytes_encoded; [unfold encodeBytes; by rewrite Hpad|]. by small_lookup.
    + unfold optional at 1. small_lookup. erewrite rawBytes_encoded; [done|exact Hi|]. by small_lookup.
    + unfold optional at 1. small_lookup. erewrite rawBytes_encoded; [done|exact He|]. by small_lookup.
    + intros k Hk. repeat (apply lookup_insert_is_Some in Hk as [<-|[_ Hk]]; [done|]). by apply lookup_singleton_is_Some in Hk as <-.
  - apply bind_Ok in Hp as (base & [= <-] & Ha%of_option_Ok).
    eapply applyPad_marshalled in Ha as (pad & zeros & -> & Hpad & Hz); [|eauto using items_insert, items_singleton|done..].
    pose proof (bytes_item _ _ Hpad). constructor; cbn [w_ikid w_enc2 w_body].
    + eauto using items_insert, items_singleton.
    + eapply rawBytes_encoded; [exact Hb|]. by small_lookup.
    + exists zeros. split; [|done]. eapply rawBytes_encoded; [unfold encodeBytes; by rewrite Hpad|]. by small_lookup.
    + unfold optional. by small_lookup.
    + unfold optional. by small_lookup.
    + intros k Hk. repeat (apply lookup_insert_is_Some in Hk as [<-|[_ Hk]]; [done|]). by apply lookup_singleton_is_Some in Hk as <-.
Qed.

Lemma optional_has {A} (m : fieldMap) k (r : result A) x :
  optional m k (λ _, r) = Ok x ↔ match x with Some a => has m k = true ∧ r = Ok a | None => has m k = false end.
Proof.
  unfold optional, has. destruct (m !! k) as [b|] eqn:E.
  - rewrite bool_decide_true by by eexists. rewrite bind_Ok. destruct x as [a|]; split; try done.
    + by intros (? & -> & [= <-]).
    + intros [_ ->]. eauto.
    + by intros (? & _ & [=]).
  - rewrite bool_decide_false by by intros []. destruct x; split; try done. by intros [? _].
Qed.

Lemma decodeWrap_wrap_map w m pt : wrap_map w m → wrap_ok w → marshal_fields m = Some pt → decodeWrap pt = Ok w.
Proof using L.
  intros [W1 W2 (zeros & W3 & Hz) W4 W5 W6] Hok Hm. apply optional_has in W4, W5. unfold decodeWrap.
  rewrite (proj2 (decodeFields_Ok pt m)) by done. cbn [map_err mbind result_bind].
  rewrite (proj2 (firstUnknownCritical_None m wrapKnown)) by auto. rewrite W2, W3. cbn [map_err mbind result_bind].
  rewrite (proj2 (existsb_false _ _)) by (eapply Forall_impl; [exact Hz|]; by intros x <-).
  unfold wrap_ok in Hok. destruct w as [[ikid|] [enc2|] body]; cbn [w_ikid w_enc2 w_body] in *; try done.
  - destruct W4 as [-> W4], W5 as [-> W5], Hok as [Hk He]. cbn [xorb]. rewrite W4, W5. cbn [map_err mbind result_bind]. by rewrite Hk, He.
  - by rewrite W4, W5.
Qed.
End Facts.

Lemma optional_safe {A} m k (read : bytes → result A) : (∀ b, safe (read b)) → safe (optional m k read).
Proof. intros Hr. unfold optional. destruct (m !! k); safe_steps. Qed.
