(* ===== verification/EnvelopeTheorems.v ===== *)
(** * EnvelopeTheorems: sealed messages arrive, and arrive unchanged *)

From S2P Require Import Prelude Aid Cbor Platform Kel KelReference Codec KelSpec KelFacts KelProps Controller ControllerInv ControllerTheorems IdFile Notice Fields FieldsFacts Envelope EnvelopeFacts.

(** What is documented of HPKE: a recipient with the private half of the key a sender context was made
    for gets the plaintext and the exports of the sender, and an encapsulated key has 32 bytes. *)
Class HpkeLaws (H : HpkeContexts) (kem_public : bytes → bytes) : Prop := {
  hpke_agree seed sk info enc c :
    kem_private_ok sk = true → hpke_sender seed (kem_public sk) info = Some (enc, c) →
    ∃ c', hpke_recipient enc sk info = Some c' ∧
      (∀ pt ct, ctx_seal c pt = Some ct → ctx_open c' ct = Some pt) ∧
      (∀ x n, ctx_export c' x n = ctx_export c x n);
  hpke_enc_length seed pk info enc c : hpke_sender seed pk info = Some (enc, c) → len enc = 32;
}.

Section Outer.
Context `{P : Platform} `{I : Items} {L : ItemsLaws I}.

(** ** The outer map *)

(** The members [ParseOuter] requires and what it returns of them. *)
Record outer_ok (m : fieldMap) (e : SealedEnvelope) : Prop := {
  oo_v : rawUint m outerKeyV = Ok EnvelopeVersion ∧ oe_V e = EnvelopeVersion;
  oo_known k : is_Some (m !! k) → k < FirstIgnorableKey → outerKnown k = true;
  oo_access : ∃ raw a, m !! outerKeyAccess = Some raw ∧ decodeAccess raw = Ok a ∧ oe_Access e = Some a;
  oo_exp : optional m outerKeyExp (λ _, rawUint m outerKeyExp) = Ok (oe_Exp e);
  oo_to : rawText m outerKeyTo = Ok (oe_To e) ∧ oe_To e ≠ [];
  oo_suite : rawUint m outerKeySuite = Ok (oe_Suite e) ∧ oe_Suite e = SuiteX25519;
  oo_kid : rawBytes m outerKeyKID = Ok (oe_KID e) ∧ len (oe_KID e) = KIDLen;
  oo_enc : rawBytes m outerKeyEnc = Ok (oe_Enc e) ∧ len (oe_Enc e) = 32;
  oo_ct : rawBytes m outerKeyCT = Ok (oe_CT e) ∧ oe_CT e ≠ [];
}.

Lemma Supported_true s : (255 <? s) || negb (Supported s) = false ↔ s = SuiteX25519.
Proof.
  unfold Supported, params. destruct (Z.eqb_spec s SuiteX25519) as [->|Hn]; [done|].
  rewrite bool_decide_false by by intros []. rewrite orb_true_r. by split.
Qed.

Lemma optional_exp m o : 
  (if has m outerKeyExp
   then e ← map_err (failWrap ReasonBadOuter "") (rawUint m outerKeyExp); Ok (Some e) else Ok None) = Ok o ↔
  optional m outerKeyExp (λ _, rawUint m outerKeyExp) = Ok o.
Proof.
  rewrite optional_has. destruct (has m outerKeyExp).
  - rewrite bind_Ok. setoid_rewrite map_err_Ok. destruct o; naive_solver.
  - destruct o; naive_solver.
Qed.

Lemma ParseOuter_Ok b e : ParseOuter b = Ok e ↔ ∃ m, items m ∧ marshal_fields m = Some b ∧ outer_ok m e.
Proof using L.
  unfold ParseOuter. split.
  - intros R. apply bind_Ok in R as (m & Hm & R). apply map_err_Ok, decodeFields_Ok in Hm as [Hi Hm].
    apply bind_Ok in R as (v & Hv%map_err_Ok & R). apply refuse_Ok in R as [->%negb_Zeqb_false R].
    apply refuse_Ok in R as [Hk R]. pose proof (proj1 (firstUnknownCritical_None m outerKnown) Hk) as Hk'.
    apply bind_Ok in R as (raw & Hraw%of_option_Ok & R). apply bind_Ok in R as (a & Ha%map_err_Ok & R).
    apply bind_Ok in R as (x & Hx & R). apply optional_exp in Hx.
    apply bind_Ok in R as (to & Hto%map_err_Ok & R). apply bind_Ok in R as (s & Hs%map_err_Ok & R).
    apply refuse_Ok in R as [->%Supported_true R]. apply bind_Ok in R as (kid & Hkid%map_err_Ok & R).
    apply bind_Ok in R as (enc & Henc%map_err_Ok & R). apply bind_Ok in R as (ct & Hct%map_err_Ok & R).
    apply refuse_Ok in R as [R1%beqb_false R]. apply refuse_Ok in R as [R2%negb_Zeqb_false R].
    apply bind_Ok in R as (p & [= <-] & R). apply refuse_Ok in R as [R3%negb_Zeqb_false R].
    apply refuse_Ok in R as [R4%Z.eqb_neq [= <-]]. rewrite len_nil in R4.
    exists m. split_and!; [done..|]. constructor; try done. by exists raw, a.
  - intros (m & Hi & Hm & [[V1 V2] K (raw & a & A1 & A2 & A3) X [T1 T2] [S1 S2] [K1 K2] [E1 E2] [C1 C2]]).
    rewrite (proj2 (decodeFields_Ok b m)) by done. cbn [map_err mbind result_bind]. rewrite V1.
    cbn [map_err mbind result_bind]. rewrite Z.eqb_refl. cbn [negb].
    rewrite (proj2 (firstUnknownCritical_None m outerKnown)) by auto. rewrite A1. cbn [of_option mbind result_bind].
    rewrite A2. cbn [map_err mbind result_bind]. rewrite (proj2 (optional_exp m _) X). cbn [mbind result_bind].
    rewrite T1, S1. cbn [map_err mbind result_bind]. rewrite (proj2 (Supported_true _) S2), K1, E1, C1, S2.
    cbn [map_err mbind result_bind]. rewrite (proj2 (beqb_false _ _) T2), K2, Z.eqb_refl. cbn -[encLen Z.eqb]. rewrite E2.
    rewrite (proj2 (Z.eqb_neq _ _)) by by rewrite len_nil. destruct e; simpl in *; by subst.
Qed.

(** ** Access *)

(** The access [encodeAccess] lets through. *)
Lemma decodeCap_item c b : cap_item c = Ok b → decodeCap b = Ok c ∨ ∃ e, decodeCap b = Err e.
Proof using L.
  unfold cap_item. intros R. apply bind_Ok in R as (body & Hb & R). apply bind_Ok in R as (sig & Hs & R).
  apply marshalFields_Ok in R. destruct (decodeCap b) as [c'|e] eqn:D; [left|right; by exists e]. f_equal.
  unfold decodeCap in D. rewrite (proj2 (decodeFields_Ok b (<[2:=sig]> {[1:=body]}))) in D.
  2: { split; [|done]. eauto using items_insert, items_singleton, encodeSlice_item. }
  cbn [map_err mbind result_bind] in D. apply refuse_Ok in D as [_ D].
  apply bind_Ok in D as (body' & Hb'%map_err_Ok & D). apply bind_Ok in D as (sig' & Hs'%map_err_Ok & D).
  apply refuse_Ok in D as [_ [= <-]].
  apply raw_field_inv in Hb' as (r & Hr & Hmr & Hu), Hs' as (r' & Hr' & Hmr' & Hu').
  rewrite lookup_insert_ne, lookup_singleton_eq in Hr by done. rewrite lookup_insert_eq in Hr'.
  injection Hr as <-. injection Hr' as <-. destruct c as [[cb|] [cs|]]; simpl in Hb, Hs;
    try (injection Hb as <-; done); try (injection Hs as <-; done).
  apply of_option_Ok, bytes_inv in Hb, Hs. congruence.
Qed.

(** The map of an access. *)
Lemma access_item_map a b :
  access_item a = Ok b →
  ∃ k co po, encodeUint (ac_Kind a) = Ok k ∧ runs (cap_item <$> ac_Cap a) co ∧
    runs (match ac_Proof a with [] => None | p => Some (encodeBytes p) end) po ∧
    items (ins 3 po (ins 2 co {[1 := k]})) ∧ marshal_fields (ins 3 po (ins 2 co {[1 := k]})) = Some b.
Proof using L.
  unfold access_item. intros R. apply bind_Ok in R as (k & Hk & R). apply bind_Ok in R as (m & Hc & R).
  apply bind_Ok in R as (m' & Hp & R). apply marshalFields_Ok in R.
  assert (∃ co, runs (cap_item <$> ac_Cap a) co ∧ m = ins 2 co {[1 := k]}) as (co & Hco & ->).
  { destruct (ac_Cap a) as [c|]; [|injection Hc as <-; by exists None]. apply bind_Ok in Hc as (cb & Hcb & [= <-]).
    exists (Some cb). split; [|done]. unfold runs. simpl. by rewrite Hcb. }
  assert (∃ po, runs (match ac_Proof a with [] => None | p => Some (encodeBytes p) end) po ∧ m' = ins 3 po (ins 2 co {[1 := k]}))
    as (po & Hpo & ->).
  { destruct (ac_Proof a) as [|x p]; [injection Hp as <-; by exists None|]. apply bind_Ok in Hp as (pb & Hpb & [= <-]).
    exists (Some pb). split; [|done]. unfold runs. simpl. by rewrite Hpb. }
  exists k, co, po. split_and!; [done..| |done].
  apply items_ins; [|apply items_ins; [|apply items_singleton; by eapply encodeUint_item]].
  - eapply runs_item; [|exact Hpo]. intros r y Hr ->. destruct (ac_Proof a); [done|]. injection Hr as Hr. by eapply encodeBytes_item.
  - eapply runs_item; [|exact Hco]. intros r y Hr ->. destruct (ac_Cap a) as [c|]; [|done]. injection Hr as Hr.
    unfold cap_item in Hr. apply bind_Ok in Hr as (? & _ & Hr). apply bind_Ok in Hr as (? & _ & Hr). by eapply marshalFields_item.
Qed.

Lemma decodeAccess_item a a' b :
  is_u64 (ac_Kind a) → access_item a = Ok b → decodeAccess b = Ok a' → a' = a.
Proof using L.
  intros Hu Hb D. apply access_item_map in Hb as (k & co & po & Hk & Hco & Hpo & Hi & Hm).
  unfold decodeAccess in D. rewrite (proj2 (decodeFields_Ok _ _) (conj Hi Hm)) in D. cbn [map_err mbind result_bind] in D.
  apply refuse_Ok in D as [_ D]. rewrite (rawUint_encoded _ 1 _ k Hu Hk) in D by by rewrite !lookup_ins.
  cbn [map_err mbind result_bind] in D.
  assert (has (ins 3 po (ins 2 co {[1 := k]})) 2 = bool_decide (is_Some co)) as H2.
  { unfold has. rewrite !lookup_ins. simpl. rewrite lookup_singleton_ne by done. by destruct co. }
  assert (has (ins 3 po (ins 2 co {[1 := k]})) 3 = bool_decide (is_Some po)) as H3.
  { unfold has. rewrite !lookup_ins. simpl. rewrite lookup_singleton_ne by done. by destruct po. }
  rewrite H2, H3 in D. apply runs_fmap in Hco. unfold runs in Hpo.
  destruct a as [kind cap proof]. cbn [ac_Kind ac_Cap ac_Proof] in *. destruct (Z.eqb_spec kind AccessKindSession) as [->|_].
  - apply refuse_Ok in D as [D [= <-]]. apply orb_false_iff in D as [D2 D3].
    destruct co; [done|]. destruct po; [done|]. destruct cap; [done|]. by destruct proof.
  - destruct (Z.eqb_spec kind AccessKindCap) as [->|_]; [|done].
    apply refuse_Ok in D as [D0 D]. apply bind_Ok in D as (raw & Hraw%of_option_Ok & D).
    rewrite !lookup_ins in Hraw. simpl in Hraw.
    destruct co as [cb|]; [|by rewrite lookup_singleton_ne in Hraw]. injection Hraw as <-. destruct cap as [c|]; [|done].
    apply bind_Ok in D as (c' & Hc'%map_err_Ok & D). apply bind_Ok in D as (p' & Hp'%map_err_Ok & D).
    apply refuse_Ok in D as [_ [= <-]].
    destruct (decodeCap_item c cb Hco) as [E|[e E]]; [|congruence]. rewrite E in Hc'. injection Hc' as ->.
    destruct proof as [|x p]; [by destruct po|]. destruct po as [pb|]; [|done]. simpl in Hpo. injection Hpo as Hpo.
    rewrite (rawBytes_encoded _ 3 _ pb Hpo) in Hp' by by rewrite lookup_ins. by injection Hp' as <-.
Qed.

(** ** Setting the credential *)

Definition digest_input (env : bytes) : bytes :=
  match decodeFields env with
  | Ok m => match marshal_fields (delete outerKeyAccess m) with Some b => envDigestLabel ++ b | None => [] end
  | Err _ => []
  end.

Lemma EnvDigest_Ok env d :
  EnvDigest env = Ok d ↔ ∃ m b, items m ∧ marshal_fields m = Some env ∧
    marshal_fields (delete outerKeyAccess m) = Some b ∧ digest_input env = envDigestLabel ++ b ∧
    d = sha256 (digest_input env).
Proof using L.
  unfold EnvDigest, digest_input. rewrite bind_Ok. setoid_rewrite map_err_Ok. split.
  - intros (m & Hm & R). apply bind_Ok in R as (b & Hb & [= <-]). apply map_err_Ok, marshalFields_Ok in Hb.
    pose proof (proj1 (decodeFields_Ok _ _) Hm) as [Hi Hmm]. exists m, b. rewrite Hm, Hb. done.
  - intros (m & b & Hi & Hm & Hb & Hd & ->). exists m. pose proof (proj2 (decodeFields_Ok _ _) (conj Hi Hm)) as E.
    split; [done|]. rewrite E. unfold marshalFields. by rewrite Hb.
Qed.

Lemma SetAccess_Ok env a out :
  SetAccess env a = Ok out →
  ∃ raw m, encodeAccess a = Ok raw ∧ wellFormedItem raw = true ∧ items m ∧ marshal_fields m = Some env ∧
    items (<[outerKeyAccess := raw]> m) ∧ marshal_fields (<[outerKeyAccess := raw]> m) = Some out ∧
    ∃ e, ParseOuter out = Ok e.
Proof using L.
  unfold SetAccess. intros R. apply bind_Ok in R as (raw & Hraw%map_err_Ok & R).
  apply bind_Ok in R as (m & Hm & R). apply map_err_Ok, decodeFields_Ok in Hm as [Hi Hm].
  apply bind_Ok in R as (out' & Hout & R). apply map_err_Ok, marshalFields_Ok in Hout.
  apply bind_Ok in R as (e & He & [= <-]).
  assert (wellFormedItem raw = true) as Hr.
  { unfold encodeAccess in Hraw. apply bind_Ok in Hraw as (a' & _ & Hraw). apply bind_Ok in Hraw as (b & Hb & Hraw).
    apply bind_Ok in Hraw as (_ & _ & [= <-]). apply access_item_map in Hb as (? & ? & ? & _ & _ & _ & _ & Hb).
    by eapply fields_item. }
  exists raw, m. split_and!; try done; [by apply items_insert|by exists e].
Qed.

Lemma encodeAccess_Ok a raw : encodeAccess a = Ok raw → ∃ a0 a1, a = Some a0 ∧ access_item a0 = Ok raw ∧ decodeAccess raw = Ok a1.
Proof.
  unfold encodeAccess. intros R. apply bind_Ok in R as (a0 & ->%of_option_Ok & R). apply bind_Ok in R as (b & Hb & R).
  apply bind_Ok in R as (a1 & Ha & [= <-]). eauto.
Qed.

Lemma EnvDigest_SetAccess env a out : SetAccess env a = Ok out → EnvDigest out = EnvDigest env.
Proof using L.
  intros (raw & m & _ & _ & Hi & Hm & Hi' & Hm' & _)%SetAccess_Ok. unfold EnvDigest.
  rewrite (proj2 (decodeFields_Ok _ _) (conj Hi Hm)), (proj2 (decodeFields_Ok _ _) (conj Hi' Hm')).
  cbn [map_err mbind result_bind]. by rewrite delete_insert_eq.
Qed.

Lemma SetAccess_again env a out b : SetAccess env a = Ok out → SetAccess out b = SetAccess env b.
Proof using L.
  intros (raw & m & _ & _ & Hi & Hm & Hi' & Hm' & _)%SetAccess_Ok. unfold SetAccess.
  destruct (encodeAccess b); [|done]. cbn [map_err mbind result_bind].
  rewrite (proj2 (decodeFields_Ok _ _) (conj Hi Hm)), (proj2 (decodeFields_Ok _ _) (conj Hi' Hm')).
  cbn [map_err mbind result_bind]. by rewrite insert_insert_eq.
Qed.

Lemma SetAccess_parses env a out :
  is_u64 (ac_Kind a) → SetAccess env (Some a) = Ok out → ∃ e, ParseOuter out = Ok e ∧ oe_Access e = Some a.
Proof using L.
  intros Hu (raw & m & He & _ & _ & _ & Hi & Hm & e & Hp)%SetAccess_Ok. exists e. split; [done|].
  apply encodeAccess_Ok in He as (a0 & a1 & [= <-] & Ha & Hd).
  apply ParseOuter_Ok in Hp as (m' & Hi' & Hm' & [_ _ (raw' & a2 & R1 & R2 & R3) _ _ _ _ _ _]).
  rewrite (marshal_fields_inj _ _ _ Hi' Hi Hm' Hm), lookup_insert_eq in R1. injection R1 as <-.
  rewrite R3. f_equal. by eapply decodeAccess_item.
Qed.

(** C27: the credential stays outside the signature and the digest.  Setting a well-formed access on an
    envelope gives an envelope that parses with that access and has the same [env_digest]; setting
    another one on the result is setting it on the original; and no other change goes unnoticed: an
    envelope with the same digest has the same outer fields except the access, unless SHA-256
    collides on the two inputs. *)
Theorem credential_is_outside_the_digest env a out :
  is_u64 (ac_Kind a) → SetAccess env (Some a) = Ok out →
  (∃ e, ParseOuter out = Ok e ∧ oe_Access e = Some a) ∧
  EnvDigest out = EnvDigest env ∧
  (∀ b, SetAccess out b = SetAccess env b) ∧
  ∀ other d m m',
    EnvDigest out = Ok d → EnvDigest other = Ok d → inj_on sha256 [digest_input out; digest_input other] →
    decodeFields out = Ok m → decodeFields other = Ok m' →
    delete outerKeyAccess m' = delete outerKeyAccess m.
Proof using L.
  intros Hu Hs. split_and!.
  - by eapply SetAccess_parses.
  - by eapply EnvDigest_SetAccess.
  - intros b. by eapply SetAccess_again.
  - intros other d m m' (m1 & b1 & I1 & M1 & B1 & D1 & E1)%EnvDigest_Ok (m2 & b2 & I2 & M2 & B2 & D2 & E2)%EnvDigest_Ok
      Hinj Hm Hm'.
    rewrite (proj2 (decodeFields_Ok _ _) (conj I1 M1)) in Hm. rewrite (proj2 (decodeFields_Ok _ _) (conj I2 M2)) in Hm'.
    injection Hm as <-. injection Hm' as <-.
    assert (digest_input out = digest_input other) as E by (apply Hinj; [set_solver..|congruence]).
    rewrite D1, D2 in E. apply app_inv_head in E. subst b2.
    apply (marshal_fields_inj _ _ b1); [by apply items_delete..|done|done].
Qed.
End Outer.
