(* ===== verification/SealTheorems.v ===== *)
(** * SealTheorems: what is sealed opens, what is signed stays signed *)

From S2P Require Import Prelude Aid Cbor Platform Kel KelReference Codec KelSpec KelFacts KelProps Controller ControllerInv ControllerTheorems IdFile Notice NoticeTheorems Fields FieldsFacts Envelope EnvelopeFacts EnvelopeTheorems.

(** ** The signature preimage *)

Section Preimage.
Context `{P : Platform} `{I : Items} {L : ItemsLaws I}.

Definition preimage_map (f : fieldMap) (digest label e k s i e2 : bytes) : fieldMap :=
  <[preKeyEnc2 := e2]> (<[preKeyIKID := i]> (<[preKeySuite := s]> (<[preKeyKID := k]>
    (<[preKeyEnc := e]> (<[preKeyLabel := label]> (<[keyBody := digest]> (delete keySig f))))))).

(** The values a preimage was built from. *)
Inductive preimage_of (f : fieldMap) (enc kid : bytes) (suite : Z) (ikid enc2 : option bytes) (p : bytes) : Prop :=
  Preimage_of body digest label e k s i e2
    (PO_layers : ikid = None ↔ enc2 = None)
    (PO_reserved : ∀ x, x ∈ preKeys → f !! x = None)
    (PO_body : rawBytes f keyBody = Ok body)
    (PO_digest : encodeBytes (sha256 body) = Ok digest)
    (PO_label : encodeText SigLabel = Ok label)
    (PO_enc : encodeBytes enc = Ok e)
    (PO_kid : encodeBytes kid = Ok k)
    (PO_suite : encodeUint suite = Ok s)
    (PO_ikid : encodeSlice ikid = Ok i)
    (PO_enc2 : encodeSlice enc2 = Ok e2)
    (PO_marshal : marshal_fields (preimage_map f digest label e k s i e2) = Some p).

Lemma sigPreimage_Ok f enc kid suite ikid enc2 p :
  sigPreimage f enc kid suite ikid enc2 = Ok p ↔ preimage_of f enc kid suite ikid enc2 p.
Proof.
  assert (∀ f : fieldMap, existsb (λ k, bool_decide (is_Some (f !! k))) preKeys = false ↔ ∀ x, x ∈ preKeys → f !! x = None) as Hres.
  { intros g. rewrite existsb_false, Forall_forall. split; intros Hx x Hin; specialize (Hx x Hin).
    - by apply bool_decide_eq_false, eq_None_not_Some in Hx.
    - by apply bool_decide_eq_false, eq_None_not_Some. }
  assert (∀ a b : option bytes, xorb (bool_decide (a = None)) (bool_decide (b = None)) = false ↔ (a = None ↔ b = None)) as Hx.
  { intros [a|] [b|]; rewrite ?bool_decide_true, ?bool_decide_false by done; simpl; split; try done; naive_solver. }
  unfold sigPreimage. rewrite !refuse_Ok, Hx, Hres. split.
  - intros (H1 & H2 & R). repeat (apply bind_Ok in R as (? & ? & R)). apply marshalFields_Ok in R.
    by econstructor.
  - intros [body digest label e k s i e2 P1 P2 P3 P4 P5 P6 P7 P8 P9 P10 P11]. split; [done|]. split; [done|].
    rewrite P3. cbn [mbind result_bind]. rewrite P4. cbn [mbind result_bind]. rewrite P5. cbn [mbind result_bind].
    rewrite P6. cbn [mbind result_bind]. rewrite P7. cbn [mbind result_bind]. rewrite P8. cbn [mbind result_bind].
    rewrite P9. cbn [mbind result_bind]. rewrite P10. cbn [mbind result_bind]. by apply marshalFields_Ok.
Qed.

(** The signature is not part of what it signs. *)
Lemma sigPreimage_sig f s enc kid suite ikid enc2 :
  sigPreimage (<[keySig := s]> f) enc kid suite ikid enc2 = sigPreimage f enc kid suite ikid enc2.
Proof.
  unfold sigPreimage, rawBytes, raw_field. rewrite lookup_insert_ne by done. rewrite delete_insert_eq.
  cbn [existsb preKeys]. by rewrite !lookup_insert_ne.
Qed.

Lemma preimage_map_items f digest label e k s i e2 :
  items f → wellFormedItem digest = true → wellFormedItem label = true → wellFormedItem e = true →
  wellFormedItem k = true → wellFormedItem s = true → wellFormedItem i = true → wellFormedItem e2 = true →
  items (preimage_map f digest label e k s i e2).
Proof. intros. unfold preimage_map. eauto 10 using items_insert, items_delete. Qed.

Lemma preimage_map_lookup f digest label e k s i e2 x :
  x ∉ preKeys → x ≠ keyBody → preimage_map f digest label e k s i e2 !! x = delete keySig f !! x.
Proof.
  unfold preKeys. intros Hx Hb. unfold preimage_map. rewrite !not_elem_of_cons in Hx. destruct_and!.
  by rewrite !lookup_insert_ne.
Qed.

Ltac look_in Q := repeat first [rewrite lookup_insert_eq in Q | rewrite lookup_insert_ne in Q by done].

(** One preimage, one message: the header, the layering, the digest of the body and every other field
    but the signature. *)
Lemma sigPreimage_inj f enc kid suite ikid enc2 f' enc' kid' suite' ikid' enc2' p :
  items f → items f' → is_u64 suite → is_u64 suite' →
  sigPreimage f enc kid suite ikid enc2 = Ok p → sigPreimage f' enc' kid' suite' ikid' enc2' = Ok p →
  enc = enc' ∧ kid = kid' ∧ suite = suite' ∧ ikid = ikid' ∧ enc2 = enc2' ∧
  delete keyBody (delete keySig f) = delete keyBody (delete keySig f') ∧
  ∃ body body', rawBytes f keyBody = Ok body ∧ rawBytes f' keyBody = Ok body' ∧ sha256 body = sha256 body'.
Proof using L.
  intros Hi Hi' Hs Hs' [body digest label e k s i e2 _ R B D Lb E K S Ik E2 M]%sigPreimage_Ok
    [body' digest' label' e' k' s' i' e2' _ R' B' D' Lb' E' K' S' Ik' E2' M']%sigPreimage_Ok.
  assert (preimage_map f digest label e k s i e2 = preimage_map f' digest' label' e' k' s' i' e2') as Q.
  { apply (marshal_fields_inj _ _ p); [| |done..]; apply preimage_map_items; eauto using encodeBytes_item, encodeText_item,
      encodeUint_item, encodeSlice_item. }
  pose proof (λ x, f_equal (λ m : fieldMap, m !! x) Q) as Ql. simpl in Ql.
  pose proof (Ql preKeyEnc) as Q1. pose proof (Ql preKeyKID) as Q2. pose proof (Ql preKeySuite) as Q3.
  pose proof (Ql preKeyIKID) as Q4. pose proof (Ql preKeyEnc2) as Q5. pose proof (Ql keyBody) as Q6.
  unfold preimage_map in Q1, Q2, Q3, Q4, Q5, Q6.
  look_in Q1. look_in Q2. look_in Q3. look_in Q4. look_in Q5. look_in Q6.
  apply (inj Some) in Q1, Q2, Q3, Q4, Q5, Q6. subst.
  split_and!.
  - by eapply encodeBytes_inj.
  - by eapply encodeBytes_inj.
  - by eapply encodeUint_inj.
  - by eapply encodeSlice_inj.
  - by eapply encodeSlice_inj.
  - apply map_eq. intros x. destruct (decide (x = keyBody)) as [->|Hb]; [by rewrite !lookup_delete_eq|].
    rewrite !(lookup_delete_ne _ keyBody) by done. destruct (decide (x ∈ preKeys)) as [Hp|Hp].
    + assert (keySig ≠ x) as Hk by (intros <-; unfold preKeys in Hp; set_unfold in Hp; naive_solver).
      by rewrite !lookup_delete_ne, R, R' by done.
    + specialize (Ql x). by rewrite !preimage_map_lookup in Ql by done.
  - exists body, body'. split_and!; [done..|]. by eapply encodeBytes_inj.
Qed.
End Preimage.

(** ** Padding *)

Section Padding.
Context `{I : Items} {L : ItemsLaws I}.

(** C29: padding ends, on a Padmé length.  For a map of any realistic size [applyPad] returns within its
    nine rounds: it adds only zero bytes under key 21, the encoding of the result has exactly the
    length it returns, that length is one [Padme] leaves alone and is the least such length a pad
    reaches, and when the Padmé length of the unpadded map is reachable the padding adds at most an
    eighth. *)
Theorem padding_settles wrap :
  let base := encodedLen (<[wrapKeyPad := [64]]> wrap) in
  base <= 2305843009213693952 →
  ∃ m target zeros pad,
    applyPad wrap = Some (m, target) ∧ m = <[wrapKeyPad := pad]> wrap ∧
    marshal_bytes zeros = Some pad ∧ Forall (eq 0) zeros ∧
    encodedLen m = target ∧ Padme target = target ∧ base <= target ∧
    (∀ t, base <= t < target → Padme t = t → padLenFor (t - base) = None) ∧
    (is_Some (padLenFor (Padme base - base)) → 8 * (target - base) <= base) ∧
    (items wrap → ∀ b, marshal_fields m = Some b → len b = target).
Proof using L.
  intros base Hb. destruct (applyPad_padded wrap Hb) as (pad & n & target & Ha & Hp & Hl & Hpd). fold base in Hpd.
  exists (<[wrapKeyPad := pad]> wrap), target, (repeat 0 (Z.to_nat n)), pad.
  destruct Hpd as [P1 P2 P3 P4 P5]. split_and!; try done.
  - apply Forall_forall. intros x Hx%list_elem_of_In%repeat_spec. done.
  - intros [n' Hn']. assert (0 <= base <= two62) as H0.
    { split; [|unfold two62; lia]. unfold base, encodedLen. apply (map_fold_weak_ind (λ r _, 0 <= r)).
      - pose proof (cborHeadLen_pos (Z.of_nat (size (<[wrapKeyPad := [64]]> wrap)))). lia.
      - intros k v m' r _ Hr. pose proof (cborHeadLen_pos k). pose proof (len_nonneg v). lia. }
    pose proof (Padme_bounds base H0) as [G1 G2]. destruct (Z.lt_ge_cases (Padme base) target) as [Hlt|Hge]; [|lia].
    rewrite (P5 (Padme base)) in Hn'; [done|lia|by apply Padme_idemp].
  - intros Hi b Hm. rewrite <- Hl. apply fields_len; [|done]. apply items_insert; [by eapply bytes_item|done].
Qed.
End Padding.

Section Open.
Context `{P : Platform} `{I : Items} `{H : HpkeContexts} {L : ItemsLaws I}.
Context `{CE : Coredet KeyEvent} `{DK : Strict (list SignedEvent)}.

(** ** Opened messages *)

Lemma rawNotices_length raw l : rawNotices raw = Ok l → len l = noticesPerMessage.
Proof.
  unfold rawNotices. intros R. apply refuse_Ok in R as [_ R]. apply bind_Ok in R as (items & _ & R).
  apply refuse_Ok in R as [Hl%negb_Zeqb_false R]. rewrite <- Hl. unfold len. f_equal.
  revert l R. clear Hl. induction items as [|it items IH]; intros l R; simpl in R; [by injection R as <-|].
  apply bind_Ok in R as (n & _ & R). apply bind_Ok in R as (ns & Hns & [= <-]). simpl. f_equal. by apply IH.
Qed.

Lemma optional_Ok {A} m k (read : bytes → result A) x :
  optional m k read = Ok x → match x with Some a => ∃ raw, m !! k = Some raw ∧ read raw = Ok a | None => m !! k = None end.
Proof.
  unfold optional. destruct (m !! k) as [raw|]; [|by intros [= <-]]. rewrite bind_Ok. intros (a & Ha & [= <-]). eauto.
Qed.

Lemma decodeInner_reads b m i :
  decodeInner b = Ok (m, i) → items m ∧ marshal_fields m = Some b ∧ inner_reads m i.
Proof using L.
  unfold decodeInner. intros R. apply bind_Ok in R as (m' & Hm & R). apply map_err_Ok, decodeFields_Ok in Hm as [Hi Hm].
  apply refuse_Ok in R as [_ R].
  repeat match type of R with (map_err _ ?r ≫= _) = Ok _ =>
    apply bind_Ok in R as (? & ?%map_err_Ok & R) end.
  repeat (apply refuse_Ok in R as [? R]).
  apply bind_Ok in R as (rk & Hrk%map_err_Ok & [= <- <-]). split_and!; [done..|]. constructor; try done.
  match goal with Hn : optional m' keyNotice rawNotices = Ok ?x |- _ => rename x into l, Hn into Hn' end.
  cbn [in_Notices]. rewrite Hn'. apply optional_Ok in Hn'. destruct l as [l|]; [|done].
  destruct Hn' as (raw & _ & Hn'%rawNotices_length). by rewrite Hn'.
Qed.

(** The inner map determines the inner. *)
Lemma raw_field_ext {A} mj (dec : bytes → option A) m m' k : m !! k = m' !! k → raw_field mj dec m k = raw_field mj dec m' k.
Proof. unfold raw_field. by intros ->. Qed.
Lemma optional_ext {A} m m' k (read : bytes → result A) : m !! k = m' !! k → optional m k read = optional m' k read.
Proof. unfold optional. by intros ->. Qed.
Lemma optional_bytes_ext (m m' : fieldMap) k :
  m !! k = m' !! k → optional m k (λ _, rawBytes m k) = optional m' k (λ _, rawBytes m' k).
Proof. intros E. rewrite (optional_ext m m') by done. unfold rawBytes. by rewrite (raw_field_ext _ _ m m'). Qed.

Lemma ok_inj {A} (a b : A) : Ok a = Ok b → a = b.
Proof. by intros [= ->]. Qed.

Lemma notices_det (l l' : list bytes) :
  (if 0 <? len l then Some l else None) = (if 0 <? len l' then Some l' else None) → l = l'.
Proof. destruct l, l'; simpl; congruence. Qed.

Lemma inner_reads_det m m' i i' :
  inner_reads m i → inner_reads m' i' → delete keyBody (delete keySig m) = delete keyBody (delete keySig m') →
  in_Body i = in_Body i' → set_sig [] i = set_sig [] i'.
Proof.
  intros A B E Hb.
  assert (∀ k, k ≠ keyBody → k ≠ keySig → m !! k = m' !! k) as Hk.
  { intros k H1 H2. apply (f_equal (.!! k)) in E. by rewrite !lookup_delete_ne in E. }
  assert (extensions m = extensions m') as E'.
  { unfold extensions. apply map_eq. intros k. apply option_eq. intros v. rewrite !map_lookup_filter_Some. simpl.
    destruct (decide (FirstIgnorableKey <= k)) as [Hge|]; [|naive_solver]. rewrite Hk; [done|..]; intros ->; by vm_compute in Hge. }
  destruct A as [A1 A2 A3 A4 A5 A6 A7 A8 A9 A10 A11 A12 A13 A14 A15 A16], B as [B1 B2 B3 B4 B5 B6 B7 B8 B9 B10 B11 B12 B13 B14 B15 B16].
  unfold rawText, rawUint in *. unfold rawBytes in A6, B6.
  do 8 match goal with A : raw_field _ _ m _ = _ |- _ => rewrite (raw_field_ext _ _ m m') in A by by apply Hk end.
  rewrite (optional_bytes_ext m m' keyKEL) in A10 by by apply Hk. rewrite (optional_bytes_ext m m' keyKeys) in A11 by by apply Hk.
  rewrite (optional_ext m m' keyNotice) in A13 by by apply Hk. rewrite (optional_ext m m' keyRK) in A15 by by apply Hk. rewrite Hk in A14 by done.
  rewrite A1 in B1. rewrite A2 in B2. rewrite A3 in B3. rewrite A4 in B4. rewrite A5 in B5. rewrite A6 in B6.
  rewrite A7 in B7. rewrite A8 in B8. rewrite A10 in B10. rewrite A11 in B11. rewrite A13 in B13. rewrite A15 in B15.
  injection B13 as B13%notices_det. apply ok_inj in B1, B2, B3, B4, B5, B6, B7, B8, B10, B11, B15.
  unfold set_sig. by rewrite B1, B2, B3, B4, B5, B6, B7, B8, B10, B11, B13, B15, <- A14, <- A16, B14, <- B16, E', Hb.
Qed.

Lemma Open_Ok env self ring ix op :
  Open env self ring ix = OpenOk op ↔
  ∃ outer ack pt key w innerPT,
    open1 env self ring = Ok (outer, ack, pt) ∧ open2 outer pt ix = Ok (key, w, innerPT) ∧
    open3 outer ack key w innerPT = Ok op.
Proof.
  unfold Open, withAck. split.
  - intros R. destruct (open1 env self ring) as [[[outer ack] pt]|e] eqn:E1; [|done].
    destruct (open2 outer pt ix) as [[[key w] innerPT]|e] eqn:E2; [|done]. cbn [mbind result_bind] in R.
    destruct (open3 outer ack key w innerPT) as [op'|e] eqn:E3; [|done]. injection R as <-. eauto 10.
  - intros (outer & ack & pt & key & w & innerPT & -> & E2 & E3). rewrite E2. cbn [mbind result_bind]. by rewrite E3.
Qed.

Lemma open1_outer env self ring outer ack pt :
  open1 env self ring = Ok (outer, ack, pt) → ParseOuter env = Ok outer ∧ oe_To outer = self.
Proof.
  unfold open1. intros R. apply bind_Ok in R as (o & Ho & R). apply refuse_Ok in R as [Ht%negb_beqb_false R].
  apply bind_Ok in R as (r & _ & R). apply bind_Ok in R as (kp & _ & R). apply refuse_Ok in R as [_ R].
  apply refuse_Ok in R as [_ R]. apply bind_Ok in R as (info & _ & R). apply bind_Ok in R as (c & _ & R).
  apply bind_Ok in R as (p & _ & R). apply bind_Ok in R as (x & _ & R). injection R as <- <- <-. done.
Qed.

Lemma open2_layers outer pt ix key w innerPT :
  open2 outer pt ix = Ok (key, w, innerPT) → (is_Some key ↔ is_Some (w_ikid w)).
Proof.
  unfold open2. intros R. apply bind_Ok in R as (w' & _ & R). destruct (w_ikid w') as [ikid|] eqn:E.
  - apply bind_Ok in R as (f & _ & R). apply bind_Ok in R as (k & _ & R). apply bind_Ok in R as ([] & _ & R).
    apply bind_Ok in R as (x & _ & R). injection R as <- <- <-. rewrite E. by split; eauto.
  - injection R as <- <- <-. rewrite E. by split.
Qed.

(** What [Open] guarantees of the message it returns, over the fields it decrypted. *)
Record opened (outer : SealedEnvelope) (ack : bytes) (key : option IXKey) (w : wrapFields) (m : fieldMap) (op : Opened)
  : Prop := {
  on_outer : op_Outer op = outer ∧ op_AckKey op = ack ∧ op_IKID op = w_ikid w;
  on_layers : op_Layers op = if bool_decide (is_Some key) then 2 else 1;
  on_items : items m;
  on_reads : inner_reads m (op_Inner op);
  on_key : ∀ k, key = Some k → in_IX (op_Inner op) = ik_IX k ∧ in_From (op_Inner op) = ik_PeerAID k;
  on_to : in_To (op_Inner op) = oe_To outer;
  on_exp : ∀ e, oe_Exp outer = Some e → e = in_Exp (op_Inner op);
  on_kel : match in_KEL (op_Inner op) with
           | Some b => ∃ kel, op_KEL op = Some kel ∧ ParseKEL b = Ok kel
           | None => op_KEL op = None
           end;
  on_preimage : sigPreimage m (oe_Enc outer) (oe_KID outer) (oe_Suite outer) (w_ikid w) (w_enc2 w) = Ok (op_Preimage op);
  on_copies : op_Access op = oe_Access outer ∧ op_RK op = in_RK (op_Inner op) ∧
              op_Notices op = in_Notices (op_Inner op) ∧ op_Grant op = in_Grant (op_Inner op);
}.

Lemma open3_opened outer ack key w innerPT op :
  open3 outer ack key w innerPT = Ok op → ∃ m, decodeInner innerPT = Ok (m, op_Inner op) ∧ opened outer ack key w m op.
Proof using L.
  unfold open3. intros R. apply bind_Ok in R as ([m i] & Hd & R). destruct (decodeInner_reads _ _ _ Hd) as (Hi & _ & Hr).
  apply refuse_Ok in R as [Hk R]. apply refuse_Ok in R as [Ht%negb_beqb_false R]. apply refuse_Ok in R as [He R].
  apply bind_Ok in R as (kel & Hkel & R). apply bind_Ok in R as (pre & Hp%map_err_Ok & [= <-]).
  exists m. split; [done|]. constructor; try done; cbn [op_Inner op_KEL].
  - intros k ->. apply orb_false_iff in Hk as [H1%negb_beqb_false H2%negb_beqb_false]. done.
  - intros e E. rewrite E in He. by apply negb_Zeqb_false in He.
  - destruct (in_KEL i); [|by injection Hkel as <-]. apply bind_Ok in Hkel as (k & Hk' & [= <-]). eauto.
Qed.

(** C11: what is signed is the message.  Two envelopes that open, at whatever recipients and under
    whatever keys, with one signature preimage carry the same message (every field but the
    signature), the same log, the same recipient, the same layer-1 key, [kid] and suite and the same
    layering, unless SHA-256 collides on the two bodies: stripping or adding a layer, or moving the
    message to another envelope, changes the preimage. *)
Theorem preimage_fixes_the_message env self ring ix op env' self' ring' ix' op' :
  Open env self ring ix = OpenOk op → Open env' self' ring' ix' = OpenOk op' →
  op_Preimage op = op_Preimage op' → inj_on sha256 [in_Body (op_Inner op); in_Body (op_Inner op')] →
  set_sig [] (op_Inner op) = set_sig [] (op_Inner op') ∧ op_KEL op = op_KEL op' ∧
  oe_To (op_Outer op) = oe_To (op_Outer op') ∧ oe_Enc (op_Outer op) = oe_Enc (op_Outer op') ∧
  oe_KID (op_Outer op) = oe_KID (op_Outer op') ∧ oe_Suite (op_Outer op) = oe_Suite (op_Outer op') ∧
  op_Layers op = op_Layers op' ∧ op_IKID op = op_IKID op'.
Proof using L.
  intros (outer & ack & pt & key & w & ipt & A1 & A2 & A3)%Open_Ok (outer' & ack' & pt' & key' & w' & ipt' & B1 & B2 & B3)%Open_Ok
    Hpre Hinj.
  destruct (open3_opened _ _ _ _ _ _ A3) as (m & _ & A), (open3_opened _ _ _ _ _ _ B3) as (m' & _ & B).
  apply open1_outer in A1 as [A1 _], B1 as [B1 _]. apply ParseOuter_Ok in A1 as (? & _ & _ & A1), B1 as (? & _ & _ & B1).
  assert (∀ s, s = SuiteX25519 → is_u64 s) as Hs by (intros s ->; done).
  pose proof (on_preimage _ _ _ _ _ _ A) as PA. pose proof (on_preimage _ _ _ _ _ _ B) as PB. rewrite <- Hpre in PB.
  destruct (sigPreimage_inj _ _ _ _ _ _ _ _ _ _ _ _ _ (on_items _ _ _ _ _ _ A) (on_items _ _ _ _ _ _ B)
    (Hs _ (proj2 (oo_suite _ _ A1))) (Hs _ (proj2 (oo_suite _ _ B1))) PA PB)
    as (E1 & E2 & E3 & E4 & _ & E5 & b & b' & Hb & Hb' & Hsha).
  pose proof (on_reads _ _ _ _ _ _ A) as RA. pose proof (on_reads _ _ _ _ _ _ B) as RB.
  rewrite (ir_body _ _ RA) in Hb. rewrite (ir_body _ _ RB) in Hb'. injection Hb as <-. injection Hb' as <-.
  assert (set_sig [] (op_Inner op) = set_sig [] (op_Inner op')) as E.
  { apply (inner_reads_det m m'); [done..|]. apply Hinj; [set_solver..|done]. }
  pose proof (f_equal in_KEL E) as Ek. pose proof (f_equal in_To E) as Et. cbn [set_sig in_KEL in_To] in Ek, Et.
  destruct (on_outer _ _ _ _ _ _ A) as (-> & _ & ->), (on_outer _ _ _ _ _ _ B) as (-> & _ & ->).
  rewrite (on_to _ _ _ _ _ _ A), (on_to _ _ _ _ _ _ B) in Et.
  split_and!; try done.
  - pose proof (on_kel _ _ _ _ _ _ A) as KA. pose proof (on_kel _ _ _ _ _ _ B) as KB. rewrite <- Ek in KB.
    destruct (in_KEL (op_Inner op)); [|congruence]. destruct KA as (? & -> & KA), KB as (? & -> & KB). congruence.
  - rewrite (on_layers _ _ _ _ _ _ A), (on_layers _ _ _ _ _ _ B).
    pose proof (open2_layers _ _ _ _ _ _ A2) as LA. pose proof (open2_layers _ _ _ _ _ _ B2) as LB. rewrite <- E4 in LB.
    by rewrite (bool_decide_ext (is_Some key) (is_Some key')) by by rewrite LA, LB.
Qed.

(** ** The signature of an inner *)

(** Step 7: the sender's key state, at the message's time and at the arrival. *)
Record inner_signed (i : SealedInner) (pre : bytes) (kel : list SignedEvent) (arrival : Z) (se : SignedEvent) (k : bytes)
  : Prop := {
  is_time : in_TS i ≠ 0 ∧ arrival ≠ 0;
  is_sig : len (in_Sig i) = SigLen;
  is_object : object_ok kel (in_From i) (in_KeyStateSeq i) (in_TS i) pre (in_Sig i) se k;
  is_usable n : kel !! S (Z.to_nat (in_KeyStateSeq i)) = Some n →
    ke_Type (se_Event n) ≠ Deactivation ∧ ke_Emergency (se_Event n) = false ∧
    arrival <= ke_Timestamp (se_Event n) + RotationGrace;
}.

Lemma SenderKeyUsable_spec kel sts j se ws arrival :
  replay kel = Ok sts → kel !! j = Some se → sts !! j = Some ws → ke_Type (se_Event se) ≠ Deactivation →
  SenderKeyUsable ws arrival = true ↔
  (∀ n, kel !! S j = Some n → ke_Type (se_Event n) ≠ Deactivation ∧ ke_Emergency (se_Event n) = false ∧
                              arrival <= ke_Timestamp (se_Event n) + RotationGrace).
Proof.
  intros Hr Hi Hs Hd. destruct (replay_head _ _ Hr) as [se0 Hh].
  destruct (replay_describes _ _ _ _ _ Hr Hh Hi) as (s & Hs' & D). rewrite Hs in Hs'. injection Hs' as <-.
  destruct statuses_distinct as (SA & SB & SC & SD). destruct D as [_ _ _ _ D5 D6 D7].
  apply beqb_false in Hd. rewrite Hd in D5. unfold SenderKeyUsable, RetiredUsableAt.
  destruct (kel !! S j) as [n|]; rewrite D5, D7.
  - rewrite SD, beqb_refl, D6. destruct (beqb (ke_Type (se_Event n)) Deactivation) eqn:Ht; cbn [orb].
    + split; [done|]. intros Hn. destruct (Hn n eq_refl) as [Hn' _]. by apply beqb_true in Ht.
    + apply beqb_false in Ht. destruct (ke_Emergency (se_Event n)) eqn:Hem.
      * split; [done|]. intros Hn. destruct (Hn n eq_refl) as (_ & Hn' & _). congruence.
      * rewrite orb_true_iff, !Z.leb_le. unfold RotationGrace. split; [intros Hn ? [= <-]; split_and!; [done..|lia]|].
        intros Hn. destruct (Hn n eq_refl) as (_ & _ & Hn'). lia.
  - by rewrite beqb_refl.
Qed.

Lemma VerifyInnerSig_Ok i pre kel arrival :
  0 <= in_KeyStateSeq i →
  VerifyInnerSig (Some i) pre kel arrival = Ok tt ↔ ∃ se k, inner_signed i pre kel arrival se k.
Proof.
  intros H0. unfold VerifyInnerSig. cbn [of_option mbind result_bind]. split.
  - intros R. apply refuse_Ok in R as [R1%Z.eqb_neq R]. apply refuse_Ok in R as [R2%negb_Zeqb_false R].
    apply refuse_Ok in R as [R3%Z.eqb_neq R]. apply bind_Ok in R as (sts & Hr%map_err_Ok & R). unfold Replay in Hr.
    apply bind_Ok in R as (fin & _ & R). apply refuse_Ok in R as [_ R]. apply refuse_Ok in R as [_ R].
    apply bind_Ok in R as ([] & Hv%map_err_Ok & R). apply bind_Ok in R as (ks & Hks%of_option_Ok & R).
    apply VerifyObject_spec in Hv as (se & k & Ho); [|done]. exists se, k. constructor; try done.
    apply (SenderKeyUsable_spec kel sts _ se ks); try done; [apply Ho..|]. destruct (SenderKeyUsable ks arrival); [done|]. by destruct (ks_RetiredUrgently ks).
  - intros (se & k & [[T1 T2] Hsig Ho Hu]). rewrite (proj2 (Z.eqb_neq _ _) T1), Hsig, (proj2 (Z.eqb_neq _ _) T2).
    cbn [negb Z.eqb SigLen Pos.eqb]. pose proof (o_replays _ _ _ _ _ _ _ _ Ho) as [sts Hr]%replay_is_Ok.
    unfold Replay. rewrite Hr. cbn [map_err mbind result_bind].
    destruct (replay_last _ _ Hr) as (sl & fin & Hl & Hf). rewrite Hf. cbn [of_option mbind result_bind].
    destruct (replay_head _ _ Hr) as [se0 Hh]. rewrite (replay_last_aid _ _ _ _ Hr Hf Hh).
    pose proof (o_aid _ _ _ _ _ _ _ _ Ho) as Ha. rewrite Hh in Ha. simpl in Ha. injection Ha as ->. rewrite beqb_refl. cbn [negb].
    pose proof (o_event _ _ _ _ _ _ _ _ Ho) as He. pose proof (lookup_lt_Some _ _ _ He) as Hlt.
    pose proof (replay_length _ _ Hr) as Hn. rewrite (proj2 (Z.leb_gt _ _)) by (unfold len; lia).
    rewrite (proj2 (VerifyObject_spec _ _ _ _ _ _ H0)) by eauto. cbn [map_err mbind result_bind].
    destruct (replay_describes _ _ _ _ _ Hr Hh He) as (ks & Hks & _). rewrite Hks. cbn [of_option mbind result_bind].
    by rewrite (proj2 (SenderKeyUsable_spec kel sts _ se ks arrival Hr He Hks (o_alive _ _ _ _ _ _ _ _ Ho))).
Qed.

(** C26: who signed, and when.  [VerifyInnerSig] accepts a message exactly when it has a time, an arrival
    and a 64-byte signature, the log replays to the sender it names, the signature verifies under the
    declared key state, which is no [dip] and was not retired by the time the message bears, and,
    when a later event retired that state, the event is neither an emergency rotation nor a [dip] and
    the message arrived within the rotation grace of it.  What is accepted is accepted at every
    earlier arrival too. *)
Theorem inner_signature_accepts i pre kel arrival :
  is_u64 (in_KeyStateSeq i) →
  (VerifyInnerSig (Some i) pre kel arrival = Ok tt ↔ ∃ se k, inner_signed i pre kel arrival se k) ∧
  (VerifyInnerSig (Some i) pre kel arrival = Ok tt →
   ∀ earlier, 0 < earlier <= arrival → VerifyInnerSig (Some i) pre kel earlier = Ok tt).
Proof.
  intros [H0 _]. split; [by apply VerifyInnerSig_Ok|].
  intros (se & k & [T S O U])%VerifyInnerSig_Ok earlier He; [|done]. apply VerifyInnerSig_Ok; [done|]. exists se, k.
  constructor; [split; [apply T|lia]|done|done|]. intros n Hn. destruct (U n Hn) as (U1 & U2 & U3). split_and!; [done|done|lia].
Qed.
End Open.
