(* ===== verification/SealErrors.v ===== *)
(** * SealErrors: every refusal of [Open] has a reason, and an ack_key exactly after layer 1 *)

From S2P Require Import Prelude Checks Platform Aid Kel KelProps IdFile Controller Notice Fields FieldsFacts Envelope EnvelopeFacts EnvelopeTheorems SealTheorems.

(** ** What never panics *)

Section Errors.
Context `{P : Platform} `{I : Items} `{H : HpkeContexts} `{CE : Coredet KeyEvent} `{DK : Strict (list SignedEvent)}.

Lemma decodeFields_safe b : safe (decodeFields b).
Proof. unfold decodeFields. safe_steps. Qed.
Lemma raw_field_safe {A} mj (dec : bytes → option A) m k : safe (raw_field mj dec m k).
Proof. unfold raw_field. safe_steps. Qed.
#[local] Hint Resolve decodeFields_safe : safe.
#[local] Hint Extern 1 (safe (rawUint _ _)) => apply raw_field_safe : safe.
#[local] Hint Extern 1 (safe (rawText _ _)) => apply raw_field_safe : safe.
#[local] Hint Extern 1 (safe (rawBytes _ _)) => apply raw_field_safe : safe.

Lemma decodeCap_safe raw : safe (decodeCap raw).
Proof. unfold decodeCap. safe_steps. Qed.
#[local] Hint Resolve decodeCap_safe : safe.

Lemma decodeAccess_safe raw : safe (decodeAccess raw).
Proof.
  unfold decodeAccess. repeat (safe_step; auto with safe).
  destruct (_ =? AccessKindSession); [safe_steps|]. destruct (_ =? AccessKindCap); [|safe_steps].
  safe_step. safe_step.
  - unfold safe. match goal with E : negb (has ?m 2) || _ = false |- _ => unfold has in E; apply orb_false_iff in E as [E _];
      apply negb_false_iff, bool_decide_eq_true in E; destruct (m !! 2); [done|by destruct E] end.
  - safe_steps.
Qed.

Lemma hpkeInfo_safe l t s k : safe (hpkeInfo_item l t s k).
Proof. unfold hpkeInfo_item, encodeText, encodeUint, encodeBytes, marshalFields. safe_steps. Qed.

Lemma rk_check_safe r : safe (rk_check r).
Proof.
  unfold rk_check. destruct (Z.eqb_spec (rk_Suite r) SuiteX25519) as [->|]; [|done]. cbn [negb]. simpl. safe_steps.
Qed.
#[local] Hint Resolve hpkeInfo_safe rk_check_safe : safe.

Lemma decodeRK_safe raw : safe (decodeRK raw).
Proof. unfold decodeRK. safe_steps. Qed.

Lemma mapM_safe {A B} (f : A → result B) l : (∀ a, safe (f a)) → safe (mapM f l).
Proof. intros Hf. induction l as [|a l IH]; simpl; [done|]. safe_steps. Qed.

Lemma rawNotices_safe raw : safe (rawNotices raw).
Proof. unfold rawNotices. safe_steps. apply mapM_safe. intros it. safe_steps. Qed.

#[local] Hint Resolve decodeRK_safe rawNotices_safe : safe.
#[local] Hint Extern 1 (safe (optional _ _ _)) => apply optional_safe; intros; auto with safe : safe.

Lemma UnmarshalKEL_safe b : safe (UnmarshalKEL b).
Proof. unfold UnmarshalKEL, UnmarshalStrict. safe_steps. Qed.
#[local] Hint Resolve UnmarshalKEL_safe : safe.

Lemma encodeSlice_safe o : safe (encodeSlice o).
Proof. destruct o; simpl; [unfold encodeBytes|]; safe_steps. Qed.
#[local] Hint Resolve encodeSlice_safe : safe.

Lemma sigPreimage_safe f e k s i e2 : safe (sigPreimage f e k s i e2).
Proof. unfold sigPreimage, encodeBytes, encodeText, encodeUint, marshalFields. safe_steps. Qed.

Lemma answers_safe k ikid : safe (answers k ikid).
Proof. unfold answers. safe_steps. Qed.
#[local] Hint Resolve sigPreimage_safe answers_safe decodeAccess_safe : safe.

(** ** Reasons *)

(** The error is one of the package's, with a reason of the list. *)
Definition reason_in (l : list string) (e : error) : Prop := ∃ r d, e = Typed r d ∧ r ∈ l.
#[local] Notation refuses l := (errs_in (reason_in l)).

Lemma refuses_fail {A} l r d : r ∈ l → refuses l (Err (fail r d) : result A).
Proof. intros Hr e [= <-]. by exists r, d. Qed.
Lemma refuses_option {A} l (o : option A) r d : r ∈ l → refuses l (of_option o (fail r d)).
Proof. intros Hr. destruct o; [apply errs_Ok|by apply refuses_fail]. Qed.
Lemma refuses_wrap {A} l (x : result A) r d : safe x → r ∈ l → refuses l (map_err (failWrap r d) x).
Proof. unfold safe. intros Hs Hr e. destruct x as [|[]]; simpl; intros [= <-]; first [done|by exists r, d]. Qed.
Lemma refuses_refuse {A} l (c : bool) r d (k : result A) :
  r ∈ l → (c = false → refuses l k) → refuses l (if c then Err (fail r d) else k).
Proof. intros Hr Hk. destruct c; [by apply refuses_fail|by apply Hk]. Qed.
Lemma refuses_weaken {A} l l' (r : result A) : l ⊆ l' → refuses l r → refuses l' r.
Proof. intros Hl Hr e He. destruct (Hr e He) as (x & d & -> & Hx). exists x, d. auto. Qed.

Definition outer_reasons : list string :=
  [ReasonBadOuter; ReasonBadVersion; ReasonUnknownField; ReasonAccessInvalid; ReasonUnknownSuite].
Definition layer1_reasons : list string :=
  outer_reasons ++ [ReasonWrongRecipient; ReasonUnknownKey; ReasonDecrypt; ReasonInternalError].
Definition layer2_reasons : list string := [ReasonBadWrap; ReasonSealedToClosedInteraction; ReasonDecrypt].
Definition inner_reasons : list string :=
  [ReasonBadInner; ReasonUnknownField; ReasonBadRK; ReasonIKeyMismatch; ReasonToMismatch; ReasonExpMismatch;
   ReasonKELTooLarge; ReasonBadKEL].

Ltac reason :=
  unfold layer1_reasons, outer_reasons, layer2_reasons, inner_reasons; cbn [app];
  repeat first [apply list_elem_of_here | apply list_elem_of_further].
Ltac refuse_step :=
  match goal with
  | |- refuses _ (Ok _) => apply errs_Ok
  | |- refuses _ (Err (fail _ _)) => apply refuses_fail; reason
  | |- refuses _ (of_option _ (fail _ _)) => apply refuses_option; reason
  | |- refuses _ (map_err (failWrap _ _) _) => apply refuses_wrap; [auto with safe|reason]
  | |- refuses _ (_ ≫= _) => apply errs_bind; [|intros ? ?]
  | |- refuses _ (if _ then Err (fail _ _) else _) => apply refuses_refuse; [reason|intros ?]
  end.

Lemma ParseOuter_refuses b : refuses outer_reasons (ParseOuter b).
Proof.
  unfold ParseOuter. repeat refuse_step.
  - destruct (has _ outerKeyExp); repeat refuse_step.
  - match goal with E : (255 <? ?s) || _ = false |- _ => apply Supported_true in E as -> end. by intros e [=].
Qed.

Lemma open1_refuses env self ring : refuses layer1_reasons (open1 env self ring).
Proof.
  unfold open1. apply errs_bind; [|intros ? _].
  - eapply refuses_weaken, ParseOuter_refuses. intros r Hr. apply elem_of_app. by left.
  - unfold HPKEInfo. repeat refuse_step.
Qed.

Lemma decodeWrap_refuses pt : refuses layer2_reasons (decodeWrap pt).
Proof. unfold decodeWrap. repeat refuse_step. destruct (has _ wrapKeyIKID); repeat refuse_step. Qed.

Lemma openLayer2_refuses to key w ikid : refuses layer2_reasons (openLayer2 to key w ikid).
Proof. unfold openLayer2, IXInfo. repeat refuse_step. Qed.

(** The one foreign error is that of the caller's lookup. *)
Lemma open2_refuses outer pt ix e :
  open2 outer pt ix = Err e →
  reason_in layer2_reasons e ∨ ∃ lookup ikid, ix = Some lookup ∧ lookup ikid = Err e.
Proof.
  unfold open2. intros [R|(w & _ & R)]%bind_Err; [left; by apply (decodeWrap_refuses pt)|].
  destruct (w_ikid w) as [ikid|]; [|done]. apply bind_Err in R as [R|(found & _ & R)].
  - right. destruct ix as [lookup|]; [|done]. eauto.
  - left. revert R. generalize e. change (refuses layer2_reasons (key ← of_option found (fail ReasonSealedToClosedInteraction "ikid");
      _ ← map_err (failWrap ReasonSealedToClosedInteraction "ikid") (answers key ikid);
      innerPT ← openLayer2 (oe_To outer) key w ikid; Ok (Some key, w, innerPT))).
    repeat refuse_step. apply openLayer2_refuses.
Qed.

Lemma ParseKEL_refuses b : refuses inner_reasons (ParseKEL b).
Proof. unfold ParseKEL. repeat refuse_step. Qed.

Lemma decodeInner_refuses pt : refuses inner_reasons (decodeInner pt).
Proof. unfold decodeInner. repeat refuse_step. Qed.

Lemma open3_refuses outer ack key w pt : refuses inner_reasons (open3 outer ack key w pt).
Proof.
  unfold open3. apply errs_bind; [apply decodeInner_refuses|intros [m i] _]. repeat refuse_step.
  destruct (in_KEL i); repeat refuse_step. apply ParseKEL_refuses.
Qed.

End Errors.

#[export] Hint Resolve @decodeFields_safe @decodeCap_safe : safe.
#[export] Hint Extern 1 (safe (rawUint _ _)) => apply raw_field_safe : safe.
#[export] Hint Extern 1 (safe (rawText _ _)) => apply raw_field_safe : safe.
#[export] Hint Extern 1 (safe (rawBytes _ _)) => apply raw_field_safe : safe.

