(* ===== verification/SealRoundTrip.v ===== *)
(** * SealRoundTrip: what [Seal] builds, [Open] takes apart and [VerifyInnerSig] accepts *)

From S2P Require Import Prelude Aid Cbor Platform Kel KelReference Codec KelSpec KelFacts KelProps Controller ControllerInv ControllerTheorems IdFile Notice NoticeTheorems Fields FieldsFacts Envelope EnvelopeFacts EnvelopeTheorems SealTheorems.

Section RoundTrip.
Context `{P : Platform} `{I : Items} `{H : HpkeContexts} {L : ItemsLaws I}.
Context `{CE : Coredet KeyEvent} `{DK : Strict (list SignedEvent)}.

(** ** The steps of a run of [Seal] *)

(** The second layer's sender. *)
Definition layer2_of (seed to : bytes) (rk : option RK) (two : option layer2Sender) : Prop :=
  match rk, two with
  | None, None => True
  | Some rk, Some (ikid, enc2, ctx) =>
      rk_check rk = Ok tt ∧ ikid = rk_KID rk ∧
      ∃ info, IXInfo to (rk_Suite rk) ikid = Ok info ∧ hpke_sender seed (rk_Pub rk) info = Some (enc2, ctx)
  | _, _ => False
  end.

Inductive seals (seed1 seed2 : bytes) (i : SealedInner) (rcp : EncKey) (sign : SignFunc) (o : SealOpts) (env ack : bytes) : Prop :=
  Seals info enc sender exported two fields pre sig s inner body wrap pt ct outer
    (SL_sealable : sealable i o)
    (SL_suite : ek_Suite rcp = SuiteX25519)
    (SL_info : HPKEInfo (in_To i) (ek_Suite rcp) (ek_KID rcp) = Ok info)
    (SL_sender : hpke_sender seed1 (ek_Pub rcp) info = Some (enc, sender))
    (SL_export : ctx_export sender DAckExporterContext AckKeyLen = Some exported)
    (SL_two : layer2_of seed2 (in_To i) (so_PeerRK o) two)
    (SL_fields : inner_fieldMap i = Ok fields)
    (SL_pre : sigPreimage fields enc (ek_KID rcp) (ek_Suite rcp) ((λ t, t.1.1) <$> two) ((λ t, t.1.2) <$> two) = Ok pre)
    (SL_sign : sign pre = (sig, in_KeyStateSeq i))
    (SL_len : len sig = SigLen)
    (SL_sig : encodeBytes sig = Ok s)
    (SL_inner : marshalFields (<[keySig := s]> fields) = Ok inner)
    (SL_body : match two with Some (_, _, ctx) => ctx_seal ctx inner = Some body | None => body = inner end)
    (SL_wrap : paddedMap (mkWrap ((λ t, t.1.1) <$> two) ((λ t, t.1.2) <$> two) body) = Ok (wrap, len pt))
    (SL_pt : marshal_fields wrap = Some pt)
    (SL_ct : ctx_seal sender pt = Some ct)
    (SL_outer : outer_fields (in_To i) (ek_Suite rcp) (ek_KID rcp) enc ct (so_Exp o) = Ok outer)
    (SL_env : marshal_fields outer = Some env)
    (SL_ack : ack = ackKey exported).

Lemma newLayer2Sender_Ok seed to rk two : newLayer2Sender seed to rk = Ok two → layer2_of seed to (Some rk) (Some two).
Proof.
  unfold newLayer2Sender. intros R. apply bind_Ok in R as ([] & Hc%map_err_Ok & R). apply refuse_Ok in R as [_ R].
  apply refuse_Ok in R as [_ R]. apply bind_Ok in R as (info & Hi%map_err_Ok & R).
  apply bind_Ok in R as ([enc2 ctx] & Hs%of_option_Ok & [= <-]). simpl. eauto.
Qed.

Lemma params_Some s : bool_decide (params s = None) = false → s = SuiteX25519.
Proof. unfold params. destruct (Z.eqb_spec s SuiteX25519); [done|]. by rewrite bool_decide_true. Qed.

Lemma Seal_seals seed1 seed2 i rcp sign o env ack :
  Seal seed1 seed2 (Some i) (Some rcp) (Some sign) o = Ok (env, ack) → seals seed1 seed2 i rcp sign o env ack.
Proof.
  unfold Seal. intros R. do 3 apply bind_Ok in R as (? & [= <-] & R).
  apply bind_Ok in R as ([] & Hs%checkForSeal_Ok & R).
  apply refuse_Ok in R as [Hp%params_Some R]. apply bind_Ok in R as ([] & _ & R). apply refuse_Ok in R as [_ R].
  apply bind_Ok in R as (info & Hi%map_err_Ok & R). apply bind_Ok in R as ([enc sender] & Hsd%of_option_Ok & R).
  apply bind_Ok in R as (x & Hx%of_option_Ok & R). apply bind_Ok in R as (two & Ht & R).
  apply bind_Ok in R as (f & Hf%map_err_Ok & R). apply bind_Ok in R as (pre & Hpre%map_err_Ok & R).
  destruct (sign pre) as [sig seq] eqn:Hsg. apply refuse_Ok in R as [->%negb_Zeqb_false R].
  apply refuse_Ok in R as [Hl%negb_Zeqb_false R]. apply bind_Ok in R as (s & Hse%map_err_Ok & R).
  apply bind_Ok in R as (inner & Hin%map_err_Ok & R). apply bind_Ok in R as (body & Hb & R).
  apply bind_Ok in R as ([wrap want] & Hw%map_err_Ok & R). apply bind_Ok in R as (pt & Hpt & R). apply map_err_Ok, marshalFields_Ok in Hpt.
  apply refuse_Ok in R as [Hlen%negb_Zeqb_false R]. subst want. apply bind_Ok in R as (ct & Hct%of_option_Ok & R).
  apply bind_Ok in R as (outer & Ho%map_err_Ok & R). apply bind_Ok in R as (b & Hbm & [= <- <-]). apply map_err_Ok, marshalFields_Ok in Hbm.
  econstructor; try done.
  - destruct (so_PeerRK o) as [rk|].
    + apply bind_Ok in Ht as (t & Ht%newLayer2Sender_Ok & [= <-]). exact Ht.
    + by injection Ht as <-.
  - destruct two as [[[ikid enc2] ctx]|]; [by apply of_option_Ok in Hb|by injection Hb as <-].
Qed.

(** ** The outer map *)

Lemma outer_fields_map to suite kid enc ct exp m :
  outer_fields to suite kid enc ct exp = Ok m →
  ∃ v t s k e c x, encodeText to = Ok t ∧ encodeUint suite = Ok s ∧ encodeBytes kid = Ok k ∧ encodeBytes enc = Ok e ∧
    encodeBytes ct = Ok c ∧ runs (if exp =? 0 then None else Some (encodeUint exp)) x ∧ items m ∧
    m = ins outerKeyExp x (<[outerKeyCT := c]> (<[outerKeyEnc := e]> (<[outerKeyKID := k]> (<[outerKeySuite := s]>
             (<[outerKeyTo := t]> {[outerKeyV := v]}))))).
Proof using L.
  unfold outer_fields. intros R.
  apply bind_Ok in R as (v & Hv & R). apply bind_Ok in R as (t & Ht & R). apply bind_Ok in R as (s & Hs & R).
  apply bind_Ok in R as (k & Hk & R). apply bind_Ok in R as (e & He & R). apply bind_Ok in R as (c & Hc & R).
  assert (∃ x, runs (if exp =? 0 then None else Some (encodeUint exp)) x ∧
    m = ins outerKeyExp x (<[outerKeyCT := c]> (<[outerKeyEnc := e]> (<[outerKeyKID := k]> (<[outerKeySuite := s]>
             (<[outerKeyTo := t]> {[outerKeyV := v]}))))) ∧ (∀ b, x = Some b → wellFormedItem b = true)) as (x & Hx & -> & Hi).
  { destruct (exp =? 0); [injection R as <-; by exists None|]. apply bind_Ok in R as (x & Hx & [= <-]).
    exists (Some x). split_and!; [unfold runs; simpl; by rewrite Hx|done|]. intros b [= <-]. by eapply encodeUint_item. }
  exists v, t, s, k, e, c, x. split_and!; try done. apply items_ins; [done|].
  repeat (apply items_insert; [eauto using encodeText_item, encodeUint_item, encodeBytes_item|]).
  apply items_empty.
Qed.

(** The members of the outer map, as [ParseOuter] reads them after the credential was set. *)
Lemma outer_sealed to exp suite kid enc ct m env a out e :
  is_u64 exp → is_u64 suite → outer_fields to suite kid enc ct exp = Ok m → marshal_fields m = Some env →
  SetAccess env a = Ok out → ParseOuter out = Ok e →
  oe_To e = to ∧ oe_Suite e = suite ∧ oe_KID e = kid ∧ oe_Enc e = enc ∧ oe_CT e = ct ∧
  oe_Exp e = if exp =? 0 then None else Some exp.
Proof using L.
  intros Hu Hsu (v & t & s & k & en & c & x & Ht & Hs & Hk & He & Hc & Hx & Hi & Em)%outer_fields_map Hm
    (raw & m' & _ & _ & Hi' & Hm' & Hi'' & Hm'' & _)%SetAccess_Ok (m'' & Hi3 & Hm3 & O)%ParseOuter_Ok.
  rewrite (marshal_fields_inj _ _ _ Hi3 Hi'' Hm3 Hm'') in O. rewrite (marshal_fields_inj _ _ _ Hi' Hi Hm' Hm), Em in O. clear Em.
  set (n := <[outerKeyCT:=c]> _) in O.
  assert (∀ j, j ≠ outerKeyAccess → j ≠ outerKeyExp → (<[outerKeyAccess := raw]> (ins outerKeyExp x n)) !! j = n !! j) as Hn.
  { intros j H1 H2. rewrite lookup_insert_ne, lookup_ins by done. by rewrite (proj2 (Z.eqb_neq outerKeyExp j)). }
  destruct O as [_ _ _ X [T _] [S _] [K _] [E _] [C _]].
  rewrite (rawText_encoded _ _ _ t Ht) in T by (rewrite Hn by done; unfold n; by small_lookup). injection T as <-.
  rewrite (rawUint_encoded _ _ _ s Hsu Hs) in S by (rewrite Hn by done; unfold n; by small_lookup). injection S as <-.
  rewrite (rawBytes_encoded _ _ _ k Hk) in K by (rewrite Hn by done; unfold n; by small_lookup). injection K as <-.
  rewrite (rawBytes_encoded _ _ _ en He) in E by (rewrite Hn by done; unfold n; by small_lookup). injection E as <-.
  rewrite (rawBytes_encoded _ _ _ c Hc) in C by (rewrite Hn by done; unfold n; by small_lookup). injection C as <-.
  split_and!; try done.
  unfold optional in X. rewrite lookup_insert_ne, lookup_ins in X by done. cbn [Z.eqb outerKeyExp Pos.eqb] in X.
  destruct (exp =? 0) eqn:E0.
  - destruct x; [done|]. unfold n in X. rewrite !lookup_insert_ne, lookup_singleton_ne in X by done. by injection X as <-.
  - destruct x as [xb|]; [|done]. unfold runs in Hx. injection Hx as Hx.
    rewrite (rawUint_encoded _ _ _ xb Hu Hx) in X by (rewrite lookup_insert_ne, lookup_ins by done; done). by injection X as <-.
Qed.

(** ** Opening *)

Context (kem_public : bytes → bytes) {HL : HpkeLaws H kem_public} {PL : PlatformLaws P}.

(** The recipient's ring holds the private half of the key sealed to; with a second layer, its
    interaction keys hold the private half of the key announced, under the interaction and the sender
    of the message. *)
Definition holds_key (ring : KeyRing) (rcp : EncKey) : Prop :=
  ∃ sk, ring (ek_KID rcp) = Some (mkKeyPair rcp sk) ∧ kem_private_ok sk = true ∧ kem_public sk = ek_Pub rcp.

Definition holds_ixkey (ix : option IXKeyLookup) (i : SealedInner) (rk : option RK) : Prop :=
  match rk with
  | None => True
  | Some rk => ∃ lookup key, ix = Some lookup ∧ lookup (rk_KID rk) = Ok (Some key) ∧ ik_RK key = rk ∧
      kem_private_ok (ik_Private key) = true ∧ kem_public (ik_Private key) = rk_Pub rk ∧
      ik_IX key = in_IX i ∧ ik_PeerAID key = in_From i
  end.

Lemma KID_length suite pub : len (KID suite pub) = KIDLen.
Proof using PL. unfold KID, len. rewrite length_take, sha256_length. done. Qed.

Lemma answers_own k : ik_Suite k = SuiteX25519 → len (ik_Pub k) = 32 → answers k (ik_KID k) = Ok tt.
Proof. intros Hs Hl. unfold answers. rewrite Hs. cbn -[ik_KID Z.eqb]. by rewrite Hl, beqb_refl. Qed.

(** Layer 1. *)
Lemma open1_sealed info enc exported pt ct rcp to e out ring :
  ParseOuter out = Ok e → oe_To e = to → oe_Suite e = ek_Suite rcp → oe_KID e = ek_KID rcp → oe_Enc e = enc → oe_CT e = ct →
  HPKEInfo to (ek_Suite rcp) (ek_KID rcp) = Ok info → holds_key ring rcp →
  (∀ sk, kem_public sk = ek_Pub rcp → kem_private_ok sk = true →
     ∃ c, hpke_recipient enc sk info = Some c ∧ ctx_open c ct = Some pt ∧
       ctx_export c DAckExporterContext AckKeyLen = Some exported) →
  open1 out to (Some ring) = Ok (e, ackKey exported, pt).
Proof.
  intros He E1 E2 E3 E4 E5 Hi (sk & Hr & Hok & Hpk) Hc. destruct (Hc sk Hpk Hok) as (c & C1 & C2 & C3).
  unfold open1. rewrite He. cbn [mbind result_bind]. rewrite E1, beqb_refl. cbn [negb of_option mbind result_bind].
  rewrite E3, Hr. cbn [of_option mbind result_bind kp_Public kp_Private]. rewrite E2, Z.eqb_refl, beqb_refl, Hok. cbn [negb orb].
  rewrite Hi. cbn [map_err mbind result_bind]. rewrite E4, C1. cbn [of_option mbind result_bind].
  rewrite E5, C2. cbn [of_option mbind result_bind]. by rewrite C3.
Qed.

(** Layer 2, or its absence. *)
Lemma open2_sealed seed2 i rk two body inner wrap pt e ix :
  layer2_of seed2 (oe_To e) rk two → holds_ixkey ix i rk →
  match two with Some (_, _, ctx) => ctx_seal ctx inner = Some body | None => body = inner end →
  paddedMap (mkWrap ((λ t, t.1.1) <$> two) ((λ t, t.1.2) <$> two) body) = Ok (wrap, len pt) →
  marshal_fields wrap = Some pt →
  ∃ key, open2 e pt ix = Ok (key, mkWrap ((λ t, t.1.1) <$> two) ((λ t, t.1.2) <$> two) body, inner) ∧
    (is_Some key ↔ is_Some rk) ∧ ∀ k, key = Some k → in_IX i = ik_IX k ∧ in_From i = ik_PeerAID k.
Proof using L HL PL.
  intros Htwo Hix Hb Hw Hpt. pose proof (paddedMap_wrap_map _ _ _ _ Hw Hpt eq_refl) as Hm.
  unfold open2. destruct rk as [rk|], two as [[[ikid enc2] ctx]|]; try done.
  - destruct Htwo as (Hc & -> & info & Hi & Hsd). destruct (proj1 (rk_check_Ok _) Hc) as [Hs Hlp].
    destruct Hix as (lookup & key & -> & Hlk & <- & Hok & Hpk & Hkx & Hkp).
    rewrite (decodeWrap_wrap_map _ _ _ Hm (conj (KID_length _ _) (hpke_enc_length _ _ _ _ _ Hsd)) Hpt).
    cbn [mbind result_bind fmap option_fmap option_map w_ikid fst snd]. rewrite Hlk. cbn [mbind result_bind of_option].
    change (rk_KID (ik_RK key)) with (ik_KID key) in *. rewrite (answers_own key Hs Hlp). cbn [map_err mbind result_bind]. unfold openLayer2. rewrite Hok. cbn [negb].
    cbn [ik_RK rk_Suite rk_Pub] in *. rewrite Hi. cbn [map_err mbind result_bind w_enc2].
    rewrite <- Hpk in Hsd. destruct (hpke_agree _ _ _ _ _ Hok Hsd) as (c' & -> & Hopen & _). cbn [of_option mbind result_bind w_body].
    rewrite (Hopen _ _ Hb). cbn [of_option mbind result_bind]. exists (Some key). split_and!; [done|by split|]. by intros k [= <-].
  - rewrite (decodeWrap_wrap_map _ _ _ Hm Logic.I Hpt). cbn [mbind result_bind fmap option_fmap option_map w_ikid w_body].
    exists None. subst body. split_and!; [done|split; intros [? E]; discriminate E|done].
Qed.

(** Step 4. *)
Lemma open3_sealed i o rcp e ack key fields sig s inner body ikid enc2 pre enc :
  sealable i o → inner_u64 i → inner_fieldMap i = Ok fields → encodeBytes sig = Ok s → len sig = SigLen →
  marshalFields (<[keySig := s]> fields) = Ok inner →
  sigPreimage fields enc (ek_KID rcp) (ek_Suite rcp) ikid enc2 = Ok pre →
  oe_To e = in_To i → oe_Suite e = ek_Suite rcp → oe_KID e = ek_KID rcp → oe_Enc e = enc →
  oe_Exp e = (if so_Exp o =? 0 then None else Some (so_Exp o)) →
  (∀ k, key = Some k → in_IX i = ik_IX k ∧ in_From i = ik_PeerAID k) →
  ∃ op, open3 e ack key (mkWrap ikid enc2 body) inner = Ok op ∧
    op_Outer op = e ∧ op_Inner op = set_sig sig i ∧ op_Preimage op = pre ∧ op_AckKey op = ack ∧
    op_Layers op = (if bool_decide (is_Some key) then 2 else 1) ∧ op_Access op = oe_Access e.
Proof using L.
  intros Hs Hu Hf Hsig Hl Hin Hpre E1 E2 E3 E4 E5 Hkey. unfold open3.
  rewrite (decodeInner_sealed _ _ _ _ _ _ Hs Hu Hf Hsig Hl Hin). cbn [mbind result_bind].
  cbn [set_sig in_IX in_From in_To in_Exp in_KEL in_RK in_Notices in_Grant w_ikid w_enc2].
  assert (match key with Some k => negb (beqb (in_IX i) (ik_IX k)) || negb (beqb (in_From i) (ik_PeerAID k)) | None => false end
          = false) as ->.
  { destruct key as [k|]; [|done]. destruct (Hkey k eq_refl) as [-> ->]. by rewrite !beqb_refl. }
  rewrite E1, beqb_refl, E5. cbn [negb].
  assert (match (if so_Exp o =? 0 then None else Some (so_Exp o)) with Some x => negb (x =? in_Exp i) | None => false end = false) as ->.
  { destruct (Z.eqb_spec (so_Exp o) 0); [done|]. destruct (sl_exp _ _ Hs) as [?| ->]; [done|]. by rewrite Z.eqb_refl. }
  rewrite sigPreimage_sig, E2, E3, E4, Hpre. pose proof (sl_kel _ _ Hs) as Hk.
  destruct (in_KEL i) as [kb|]; [destruct Hk as [_ [kel ->]]|]; cbn [map_err mbind result_bind]; eexists; (split; [reflexivity|]);
    unfold set_sig; split_and!; done.
Qed.

(** The sender's signature passes step 7 under its log, at any arrival. *)
Lemma speaks_VerifyInnerSig c s i sig pre arrival :
  speaks c s → snapshot_Sign s pre = (sig, in_KeyStateSeq i) → in_From i = c_aid c → 0 <= in_KeyStateSeq i →
  in_TS i ≠ 0 → arrival ≠ 0 → VerifyInnerSig (Some (set_sig sig i)) pre (KEL c) arrival = Ok tt.
Proof using PL.
  intros Hs Hsg Hf H0 Hts Har. destruct (speaks_signs c s pre Hs) as (sig' & seq & E & _ & Hlen & Hv).
  rewrite Hsg in E. injection E as <- <-. apply VerifyInnerSig_Ok; [done|].
  pose proof (proj1 (VerifyObject_spec _ _ _ _ _ _ H0) (Hv (in_TS i))) as (se & k & Ho).
  pose proof (proj1 (VerifyObject_spec _ _ _ _ _ _ H0) (Hv 0)) as (se0 & k0 & Ho0).
  exists se, k. constructor; [done|done|by rewrite <- Hf in Ho|].
  intros n Hn. destruct (o_time _ _ _ _ _ _ _ _ Ho0 n Hn) as [? _]. done.
Qed.

(** What [Seal] returns, opened. *)
Lemma sealed_opens seed1 seed2 i rcp sign o env ack a out ring ix :
  Seal seed1 seed2 (Some i) (Some rcp) (Some sign) o = Ok (env, ack) → inner_u64 i →
  SetAccess env (Some a) = Ok out → is_u64 (ac_Kind a) →
  holds_key ring rcp → holds_ixkey ix i (so_PeerRK o) →
  ∃ op sig, Open out (in_To i) (Some ring) ix = OpenOk op ∧
    op_Inner op = set_sig sig i ∧ op_AckKey op = ack ∧ op_Access op = Some a ∧
    op_Layers op = (match so_PeerRK o with Some _ => 2 | None => 1 end) ∧
    ∀ c s arrival, speaks c s → sign = snapshot_Sign s → in_From i = c_aid c → arrival ≠ 0 →
      VerifyInnerSig (Some (op_Inner op)) (op_Preimage op) (KEL c) arrival = Ok tt.
Proof using L HL PL.
  intros [info enc sender exported two fields pre sig s inner body wrap pt ct outer Hs Hsu Hi Hsd Hx Htwo Hf Hpre Hsg Hl
    Hsig Hin Hb Hw Hpt Hct Ho Hm ->]%Seal_seals Hu Ha Hk Hring Hix.
  destruct (SetAccess_parses _ _ _ Hk Ha) as (e & He & Hea).
  assert (is_u64 (ek_Suite rcp)) as Hsuu by by rewrite Hsu.
  assert (is_u64 (so_Exp o)) as Hue by (destruct (sl_exp _ _ Hs) as [-> | ->]; [done|apply Hu]).
  destruct (outer_sealed _ _ _ _ _ _ _ _ _ _ _ Hue Hsuu Ho Hm Ha He) as (E1 & E2 & E3 & E4 & E5 & E6).
  assert (open1 out (in_To i) (Some ring) = Ok (e, ackKey exported, pt)) as O1.
  { eapply open1_sealed; [done..|]. intros sk Hpk Hok. rewrite <- Hpk in Hsd.
    destruct (hpke_agree _ _ _ _ _ Hok Hsd) as (c & C1 & C2 & C3). exists c. split_and!; [done|by apply C2|by rewrite C3]. }
  rewrite <- E1 in Htwo. destruct (open2_sealed _ _ _ _ _ _ _ _ _ _ Htwo Hix Hb Hw Hpt) as (key & O2 & Hkey & Hkeys).
  destruct (open3_sealed _ _ _ _ (ackKey exported) key _ _ _ _ body _ _ _ _ Hs Hu Hf Hsig Hl Hin Hpre E1 E2 E3 E4 E6 Hkeys)
    as (op & O3 & P1 & P2 & P3 & P4 & P5 & P6).
  exists op, sig. split_and!; [|done|done|by rewrite P6| |].
  - apply Open_Ok. eauto 10.
  - rewrite P5. destruct (so_PeerRK o); [rewrite bool_decide_true by (apply Hkey; eauto)|
      rewrite bool_decide_false by (rewrite Hkey; by intros [])]; done.
  - intros c sn arrival Hsp -> Hfrom Har. rewrite P2, P3. eapply speaks_VerifyInnerSig; try done; [apply Hu|apply (sl_ts _ _ Hs)].
Qed.

(** C2: a sealed message arrives.  Whatever [Seal] returns, once a well-formed credential is set on it,
    opens for a recipient that holds the private half of the key it was sealed to (and, when a second
    layer was added, of the interaction key announced): [Open] gives back the inner the sender filled
    in, with its signature, the layers it has and the credential, and exports the ack_key the sender
    got.  When the signer is a live identity and the inner names it, [VerifyInnerSig] accepts the
    message under that identity's log at any arrival. *)
Theorem sealed_message_arrives seed1 seed2 i rcp sign o env ack a out ring ix :
  Seal seed1 seed2 (Some i) (Some rcp) (Some sign) o = Ok (env, ack) → inner_u64 i →
  SetAccess env (Some a) = Ok out → is_u64 (ac_Kind a) →
  holds_key ring rcp → holds_ixkey ix i (so_PeerRK o) →
  ∃ op sig, Open out (in_To i) (Some ring) ix = OpenOk op ∧
    op_Inner op = set_sig sig i ∧ op_AckKey op = ack ∧ op_Access op = Some a ∧
    op_Layers op = (match so_PeerRK o with Some _ => 2 | None => 1 end) ∧
    ∀ c s arrival, speaks c s → sign = snapshot_Sign s → in_From i = c_aid c → arrival ≠ 0 →
      VerifyInnerSig (Some (op_Inner op)) (op_Preimage op) (KEL c) arrival = Ok tt.
Proof using L HL PL. apply sealed_opens. Qed.
End RoundTrip.
