(* ===== verification/EnvelopeReference.v ===== *)
(** * EnvelopeReference: a concrete codec and a concrete HPKE, to run the models of seal/

    [ref_items] encodes a field map with its keys in order and refuses what it cannot read back, as
    [coredet.Marshal] does; it satisfies [ItemsLaws].  [ref_hpke] is a keyed hash with the interface
    and the laws of HPKE. *)

From stdpp Require Import sorting.
From S2P Require Import Prelude Cbor Platform Kel KelReference Notice Fields FieldsFacts Envelope EnvelopeTheorems.
Import Light.

(** ** The codec *)

Definition key_le (a b : Z * bytes) : Prop := a.1 <= b.1.
#[local] Instance key_le_dec : RelDecision key_le := λ a b, decide (a.1 <= b.1).

Definition encode_fields (m : fieldMap) : bytes :=
  cbor_head 5 (Z.of_nat (size m)) ++
  flat_map (λ kv, cbor_head 0 kv.1 ++ kv.2) (merge_sort key_le (map_to_list m)).

Definition decode_fields (b : bytes) : option fieldMap :=
  match decode b with
  | Some (CMap l) => if cbor_okb (CMap l) then Some (list_to_map (map (λ kv, (kv.1, encode kv.2)) l)) else None
  | _ => None
  end.

Definition decodes_item (b : bytes) : bool := match decode b with Some c => cbor_okb c | None => false end.

#[export] Instance ref_items : Items := {|
  marshal_fields m :=
    let b := encode_fields m in
    if (len b <=? MaxInt64) && bool_decide (decode_fields b = Some m) then Some b else None;
  unmarshal_fields := decode_fields;
  marshal_uint n := cbor_marshal (CUint n);
  unmarshal_uint b := match decode b with Some (CUint n) => Some n | _ => None end;
  marshal_text s := if ValidString s then cbor_marshal (CText s) else None;
  unmarshal_text b := match decode b with Some (CText s) => Some s | _ => None end;
  marshal_bytes s := cbor_marshal (CBytes s);
  unmarshal_bytes b := match decode b with Some (CBytes s) => Some s | _ => None end;
  marshal_list l := cbor_marshal (CArray (map CBytes l));
  unmarshal_raws b := match decode b with Some (CArray cs) => Some (map encode cs) | _ => None end;
  decodes := decodes_item;
|}.

Lemma decode_nil : decode [] = None.
Proof. reflexivity. Qed.

Lemma item_of_decode b c : decode b = Some c → cbor_okb c = true → wellFormedItem b = true.
Proof.
  intros Hd Hc. unfold wellFormedItem. cbn [decodes ref_items]. unfold decodes_item. rewrite Hd, Hc.
  destruct b; [by rewrite decode_nil in Hd|]. rewrite (proj2 (Z.eqb_neq _ _)); [done|]. by rewrite len_nil.
Qed.

Lemma item_of_marshal c b : cbor_marshal c = Some b → wellFormedItem b = true.
Proof.
  intros Hm. apply (item_of_decode b c); [by apply cbor_marshal_decode|]. unfold cbor_marshal in Hm.
  by destruct (cbor_okb c).
Qed.

Lemma major_head mj n r : 0 <= mj < 8 → 0 <= n → major (cbor_head mj n ++ r) = Some mj.
Proof.
  intros Hm Hn. unfold cbor_head.
  assert (∀ a, 0 <= a < 32 → Z.shiftr (mj * 32 + a) 5 = mj) as Ha.
  { intros a Ha. rewrite Z.shiftr_div_pow2 by lia. change (2 ^ 5) with 32. symmetry. apply (Z.div_unique _ _ mj a); lia. }
  repeat match goal with |- context [?a <? ?b] => destruct (Z.ltb_spec a b) end; cbn [major app]; f_equal; apply Ha; lia.
Qed.

Lemma major_marshal c b mj n r :
  cbor_marshal c = Some b → encode c = cbor_head mj n ++ r → 0 <= mj < 8 → 0 <= n → major b = Some mj.
Proof. intros Hm E H1 H2. unfold cbor_marshal in Hm. destruct (cbor_okb c); [|done]. injection Hm as <-. rewrite E. by apply major_head. Qed.

Lemma len_cbor_head mj n : len (cbor_head mj n) = cborHeadLen n.
Proof.
  unfold cbor_head, cborHeadLen, len.
  repeat match goal with |- context [?a <? ?b] => destruct (Z.ltb_spec a b) | |- context [?a <=? ?b] => destruct (Z.leb_spec a b) end;
    try lia; cbn [length]; unfold be; rewrite ?length_digits; lia.
Qed.

Lemma len_encode_fields m : len (encode_fields m) = encodedLen m.
Proof.
  unfold encode_fields, encodedLen. rewrite len_app, len_cbor_head, map_fold_foldr.
  assert (∀ l a, foldr (uncurry (λ k v n, n + (cborHeadLen k + len v))) a l
                 = a + len (flat_map (λ kv, cbor_head 0 kv.1 ++ kv.2) l)) as Hl.
  { induction l as [|[k v] l IH]; intros a; cbn [foldr flat_map uncurry fst snd]; [unfold len; simpl; lia|].
    rewrite IH, !len_app, len_cbor_head. lia. }
  rewrite Hl. f_equal. unfold len. f_equal. apply Permutation_length, Permutation_flat_map, merge_sort_Permutation.
Qed.

Lemma ref_fields m b : marshal_fields m = Some b → b = encode_fields m ∧ len b <= MaxInt64 ∧ decode_fields b = Some m.
Proof.
  cbn [marshal_fields ref_items]. intros Hm. destruct (len (encode_fields m) <=? MaxInt64) eqn:E1; [|done].
  destruct (bool_decide _) eqn:E2; [|done]. injection Hm as <-.
  apply Z.leb_le in E1. by apply bool_decide_eq_true in E2.
Qed.

Lemma decode_fields_Some b m :
  decode_fields b = Some m → ∃ l, decode b = Some (CMap l) ∧ cbor_okb (CMap l) = true ∧
    m = list_to_map (map (λ kv, (kv.1, encode kv.2)) l).
Proof.
  unfold decode_fields. destruct (decode b) as [[| | | | |l| | |]|]; try done.
  destruct (cbor_okb (CMap l)) eqn:E; [|done]. intros [= <-]. by exists l.
Qed.

Lemma decode_fields_items b m : decode_fields b = Some m → items m.
Proof.
  intros (l & _ & Hok & ->)%decode_fields_Some. simpl in Hok. apply andb_true_iff in Hok as [_ Hok].
  rewrite forallb_forall in Hok. intros k v Hv. apply elem_of_list_to_map_2 in Hv.
  apply list_elem_of_In, in_map_iff in Hv as ([k' c] & [= <- <-] & Hin). apply Hok in Hin. simpl in Hin.
  apply andb_true_iff in Hin as [_ Hc]. apply (item_of_decode _ c); [by apply decode_encode|done].
Qed.

Lemma ref_list l b :
  cbor_marshal (CArray (map CBytes l)) = Some b →
  ∃ rs, decode b = Some (CArray (map CBytes l)) ∧ rs = map encode (map CBytes l) ∧
    Forall2 (λ s r, cbor_marshal (CBytes s) = Some r) l rs.
Proof.
  intros Hm. exists (map encode (map CBytes l)). split_and!; [by apply cbor_marshal_decode|done|].
  unfold cbor_marshal in Hm. destruct (cbor_okb (CArray (map CBytes l))) eqn:Hok; [|done]. clear Hm.
  simpl in Hok. apply andb_true_iff in Hok as [_ Hok]. induction l as [|s l IH]; simpl in *; [constructor|].
  apply andb_true_iff in Hok as [Hs Hok]. constructor; [|by apply IH]. unfold cbor_marshal. simpl. by rewrite Hs.
Qed.

Ltac use_decode H :=
  apply cbor_marshal_decode in H; cbn [unmarshal_uint unmarshal_text unmarshal_bytes ref_items]; by rewrite H.

#[export] Instance ref_items_laws : ItemsLaws ref_items.
Proof.
  constructor.
  - intros m b _ (_ & _ & Hm)%ref_fields. exact Hm.
  - intros m b Hm. by apply (decode_fields_items b).
  - intros m b (_ & _ & (l & Hd & Hok & _)%decode_fields_Some)%ref_fields. by apply (item_of_decode b (CMap l)).
  - intros m b (-> & _ & _)%ref_fields. apply major_head; unfold majorMap; lia.
  - intros m b _ (-> & _ & _)%ref_fields. apply len_encode_fields.
  - by intros m b (_ & Hl & _)%ref_fields.
  - intros n b Hm. cbn [marshal_uint ref_items] in Hm. unfold cbor_marshal in Hm. destruct (cbor_okb _) eqn:E; [|done].
    by apply u64b_spec.
  - intros n b _ Hm. use_decode Hm.
  - intros n b Hm. exact (item_of_marshal _ _ Hm).
  - intros n b [Hn _] Hm. apply (major_marshal _ _ 0 n [] Hm); [by rewrite app_nil_r|lia|done].
  - intros s b Hm. cbn [marshal_text ref_items] in Hm. destruct (ValidString s); [|done]. use_decode Hm.
  - intros s b Hm. cbn [marshal_text ref_items] in Hm. destruct (ValidString s); [|done]. exact (item_of_marshal _ _ Hm).
  - intros s b Hm. cbn [marshal_text ref_items] in Hm. destruct (ValidString s); [|done].
    apply (major_marshal _ _ 3 (len s) s Hm); [done|lia|apply len_nonneg].
  - intros s b Hm. use_decode Hm.
  - intros s b Hm. exact (item_of_marshal _ _ Hm).
  - intros s b Hm. apply (major_marshal _ _ 2 (len s) s Hm); [done|lia|apply len_nonneg].
  - intros s b Hm. cbn [marshal_bytes ref_items] in Hm. unfold cbor_marshal in Hm. destruct (cbor_okb _); [|done].
    injection Hm as <-. cbn [encode]. by rewrite len_app, len_cbor_head.
  - intros s Hs. cbn [marshal_bytes ref_items]. unfold cbor_marshal. simpl. apply u64b_spec in Hs. rewrite Hs. eauto.
  - intros l b Hm. destruct (ref_list l b Hm) as (rs & Hd & -> & Hrs). eexists. split; [|exact Hrs]. cbn [unmarshal_raws ref_items]. by rewrite Hd.
  - intros l b Hm. exact (item_of_marshal _ _ Hm).
  - intros l b Hm. apply (major_marshal _ _ 4 (len (map CBytes l)) (flat_map encode (map CBytes l)) Hm); [done|lia|apply len_nonneg].
  - reflexivity.
  - split; reflexivity.
Qed.

(** ** HPKE *)

Definition ref_secret (pk enc info : bytes) : bytes := digest (pk ++ enc ++ info).
Definition ref_public (sk : bytes) : bytes := digest (str "public" ++ sk).
Definition ref_tag (secret pt : bytes) : bytes := digest (secret ++ pt).

#[export] Instance ref_hpke : HpkeContexts := {|
  hpke_ctx := bytes;
  kem_public_ok pk := len pk =? 32;
  kem_private_ok sk := len sk =? 32;
  hpke_sender seed pk info := let enc := digest (seed ++ pk) in Some (enc, ref_secret pk enc info);
  hpke_recipient enc sk info := Some (ref_secret (ref_public sk) enc info);
  ctx_seal secret pt := Some (ref_tag secret pt ++ pt);
  ctx_open secret ct := if beqb (take 32 ct) (ref_tag secret (drop 32 ct)) then Some (drop 32 ct) else None;
  ctx_export secret x n := Some (take (Z.to_nat n) (digest (secret ++ x)));
|}.

Lemma ref_tag_length secret pt : 32%nat = length (ref_tag secret pt).
Proof. unfold ref_tag. by rewrite light_length. Qed.

Lemma ref_open secret pt : ctx_open (HpkeContexts := ref_hpke) secret (ref_tag secret pt ++ pt) = Some pt.
Proof.
  cbn [ctx_open ref_hpke]. rewrite (take_app_length' _ _ _ (ref_tag_length secret pt)).
  rewrite (drop_app_length' _ _ _ (ref_tag_length secret pt)), beqb_refl. reflexivity.
Qed.

#[export] Instance ref_hpke_laws : HpkeLaws ref_hpke ref_public.
Proof.
  constructor.
  - intros seed sk info enc c _ [= <- <-]. eexists. split; [reflexivity|]. split; [|done].
    intros pt ct E. apply (inj Some) in E. rewrite <- E. apply ref_open.
  - intros seed pk info enc c [= <- _]. unfold len. by rewrite light_length.
Qed.
