(* ===== verification/SealSamples.v ===== *)
(** * SealSamples: one message, sealed, delivered and checked *)

From S2P Require Import Prelude Aid Cbor Platform Kel KelReference Codec KelSpec KelFacts KelProps Controller ControllerInv ControllerTheorems IdFile Notice Fields FieldsFacts Envelope EnvelopeFacts EnvelopeTheorems SealTheorems SealErrors SealRoundTrip EnvelopeReference.
Import Light.

(** The value of a run. *)
Definition get {A} (d : A) (r : result A) : A := match r with Ok a => a | Err _ => d end.

(** The sender and the recipient: two fresh identities. *)
Definition fresh (n : Z) (toad : Z) : Controller :=
  get (mkController [] [] None None None [] [] None) (incept (sample_key n) (sample_key (n + 1)) 1760000000000 toad).
Definition sealer : Controller := Eval vm_compute in fresh 1 ToadAgent.
Definition receiver : Controller := Eval vm_compute in fresh 11 ToadHub.
Definition sealer_snapshot : snapshot := mkSnapshot (c_aid sealer) 0 (c_kel sealer) (Some (sample_key 1)).

(** The recipient's epoch key and its interaction key. *)
Definition epoch_private : bytes := repeat 41 32.
Definition epoch_key : EncKey := Eval vm_compute in
  mkEncKey (KID SuiteX25519 (ref_public epoch_private)) SuiteX25519 (ref_public epoch_private) 1760000000000 1760086400000.
Definition epoch_pair : KeyPair := mkKeyPair epoch_key epoch_private.
Definition sample_ring : KeyRing := λ kid, if beqb kid (ek_KID epoch_key) then Some epoch_pair else None.

Definition ix_key : IXKey := Eval vm_compute in
  mkIXKey (str "ix-7") (c_aid sealer) SuiteX25519 (ref_public (repeat 42 32)) (repeat 42 32).
Definition sample_lookup : IXKeyLookup := λ ikid, if beqb ikid (ik_KID ix_key) then Ok (Some ix_key) else Ok None.

Definition sample_inner_kel : bytes := Eval vm_compute in get [] (MarshalKEL (KEL sealer)).
Definition sample_sealed_inner : SealedInner :=
  mkSealedInner (c_aid sealer) (sn_seq sealer_snapshot) (c_aid receiver) (str "anet.message/1") (str "ix-7") (repeat 5 16)
    1760000300000 1760000900000 (str "hello") (Some sample_inner_kel) [str "a witness notice"] None None
    (Some (ik_RK ix_key)) [] {[64 := [24; 42]; 65 := [1]]}.
Definition sample_opts : SealOpts := mkSealOpts (Some (ik_RK ix_key)) 0.
Definition sample_access : Access := mkAccess 0 None [].

Definition sample_envelope : bytes * bytes := Eval vm_compute in
  get ([], []) (Seal (repeat 7 32) (repeat 8 32) (Some sample_sealed_inner) (Some epoch_key)
                  (Some (snapshot_Sign sealer_snapshot)) sample_opts).
Definition sample_delivered : bytes := Eval vm_compute in get [] (SetAccess sample_envelope.1 (Some sample_access)).

Lemma sample_seal :
  Seal (repeat 7 32) (repeat 8 32) (Some sample_sealed_inner) (Some epoch_key) (Some (snapshot_Sign sealer_snapshot)) sample_opts
    = Ok (sample_envelope.1, sample_envelope.2) ∧
  SetAccess sample_envelope.1 (Some sample_access) = Ok sample_delivered.
Proof. split; vm_compute; reflexivity. Qed.

Lemma sample_inner_u64 : inner_u64 sample_sealed_inner.
Proof. unfold inner_u64, is_u64, two64. cbn [sample_sealed_inner in_KeyStateSeq in_TS in_Exp sealer_snapshot sn_seq]. lia. Qed.

Lemma sample_keys :
  sample_ring (ek_KID epoch_key) = Some (mkKeyPair epoch_key epoch_private) ∧
  sample_lookup (rk_KID (ik_RK ix_key)) = Ok (Some ix_key) ∧
  kem_private_ok epoch_private = true ∧ kem_private_ok (ik_Private ix_key) = true.
Proof. split_and!; vm_compute; reflexivity. Qed.

Lemma sample_ix_public : ref_public (ik_Private ix_key) = rk_Pub (ik_RK ix_key).
Proof. vm_compute. reflexivity. Qed.

Lemma sample_holds : holds_key ref_public sample_ring epoch_key.
Proof.
  exact (ex_intro _ epoch_private (conj (proj1 sample_keys) (conj (proj1 (proj2 (proj2 sample_keys))) eq_refl))).
Qed.

Lemma sample_parties :
  ik_IX ix_key = in_IX sample_sealed_inner ∧ ik_PeerAID ix_key = in_From sample_sealed_inner.
Proof. split; vm_compute; reflexivity. Qed.

Lemma sample_holds_ix : holds_ixkey ref_public (Some sample_lookup) sample_sealed_inner (so_PeerRK sample_opts).
Proof.
  unfold holds_ixkey, sample_opts. cbn [so_PeerRK]. exists sample_lookup, ix_key.
  refine (conj eq_refl (conj (proj1 (proj2 sample_keys)) (conj eq_refl
    (conj (proj2 (proj2 (proj2 sample_keys))) (conj sample_ix_public sample_parties))))).
Qed.

Lemma sample_access_u64 : is_u64 (ac_Kind sample_access).
Proof. done. Qed.

Lemma sealed_message_arrives_witness :
  ∃ op sig, Open sample_delivered (in_To sample_sealed_inner) (Some sample_ring) (Some sample_lookup) = OpenOk op ∧
    op_Inner op = set_sig sig sample_sealed_inner ∧ op_AckKey op = sample_envelope.2 ∧
    op_Access op = Some sample_access ∧ op_Layers op = 2 ∧
    ∀ c s arrival, speaks c s → snapshot_Sign sealer_snapshot = snapshot_Sign s →
      in_From sample_sealed_inner = c_aid c → arrival ≠ 0 →
      VerifyInnerSig (Some (op_Inner op)) (op_Preimage op) (KEL c) arrival = Ok tt.
Proof.
  exact (sealed_message_arrives ref_public (repeat 7 32) (repeat 8 32) sample_sealed_inner epoch_key
    (snapshot_Sign sealer_snapshot) sample_opts _ _ sample_access _ sample_ring (Some sample_lookup)
    (proj1 sample_seal) sample_inner_u64 (proj2 sample_seal) sample_access_u64 sample_holds sample_holds_ix).
Defined.

(** The same envelope under a capability. *)
Definition cap_access : Access := mkAccess 1 (Some (mkCap (Some (str "a capability body")) (Some (repeat 3 64)))) (repeat 4 64).
Definition sample_again : bytes := Eval vm_compute in get [] (SetAccess sample_delivered (Some cap_access)).

Definition no_opened : Opened :=
  mkOpened (mkSealedEnvelope 0 [] 0 [] [] [] None None) sample_sealed_inner None [] [] 0 None None None [] None.
Definition opened_of (r : outcome) : Opened := match r with OpenOk o => o | OpenErr _ _ => no_opened end.
Definition is_open (r : outcome) : bool := match r with OpenOk _ => true | OpenErr _ _ => false end.
Lemma opened_of_open r : is_open r = true → r = OpenOk (opened_of r).
Proof. by destruct r. Qed.

#[local] Notation open_sample env :=
  (Open env (in_To sample_sealed_inner) (Some sample_ring) (Some sample_lookup)).

Lemma sample_opens :
  SetAccess sample_delivered (Some cap_access) = Ok sample_again ∧
  is_open (open_sample sample_delivered) = true ∧ is_open (open_sample sample_again) = true ∧
  op_Preimage (opened_of (open_sample sample_delivered)) = op_Preimage (opened_of (open_sample sample_again)) ∧
  inj_onb sha256 [in_Body (op_Inner (opened_of (open_sample sample_delivered)));
                  in_Body (op_Inner (opened_of (open_sample sample_again)))] = true.
Proof. split_and!; vm_compute; reflexivity. Qed.

Lemma preimage_fixes_the_message_witness :
  set_sig [] (op_Inner (opened_of (open_sample sample_delivered))) =
  set_sig [] (op_Inner (opened_of (open_sample sample_again))).
Proof.
  destruct sample_opens as (_ & O1 & O2 & E & J).
  exact (proj1 (preimage_fixes_the_message sample_delivered (in_To sample_sealed_inner) (Some sample_ring) (Some sample_lookup)
    (opened_of (open_sample sample_delivered)) sample_again (in_To sample_sealed_inner) (Some sample_ring) (Some sample_lookup)
    (opened_of (open_sample sample_again)) (opened_of_open (open_sample sample_delivered) O1)
    (opened_of_open (open_sample sample_again) O2) E (inj_onb_true _ _ J))).
Defined.

Lemma cap_access_u64 : is_u64 (ac_Kind cap_access).
Proof. done. Qed.

Lemma credential_is_outside_the_digest_witness :
  (∃ e, ParseOuter sample_again = Ok e ∧ oe_Access e = Some cap_access) ∧
  EnvDigest sample_again = EnvDigest sample_delivered.
Proof.
  pose proof (credential_is_outside_the_digest sample_delivered cap_access sample_again cap_access_u64 (proj1 sample_opens)) as T.
  exact (conj (proj1 T) (proj1 (proj2 T))).
Defined.

Lemma sample_wrap_small : encodedLen (<[wrapKeyPad := [64]]> {[3 := repeat 0 300]}) <= 2305843009213693952.
Proof. vm_compute. discriminate. Qed.

Lemma padding_settles_witness :
  ∃ m target zeros pad, applyPad {[3 := repeat 0 300]} = Some (m, target) ∧ m = <[wrapKeyPad := pad]> {[3 := repeat 0 300]} ∧
    marshal_bytes zeros = Some pad ∧ Forall (eq 0) zeros ∧ encodedLen m = target.
Proof.
  destruct (padding_settles (L := ref_items_laws) {[3 := repeat 0 300]} sample_wrap_small)
    as (m & t & z & p & H1 & H2 & H3 & H4 & H5 & _).
  exact (ex_intro _ m (ex_intro _ t (ex_intro _ z (ex_intro _ p (conj H1 (conj H2 (conj H3 (conj H4 H5)))))))).
Defined.

(** A message from before a planned rotation, arriving within the grace and after it. *)
Definition sample_two_kel : list SignedEvent := [icp_event; rot_event].
Definition early_inner : SealedInner :=
  set_sig (ed25519_sign (sample_key 1) (str "preimage"))
    (mkSealedInner (se_EventID icp_event) 0 [] [] [] [] 1760000050000 1760000060000 [] None [] None None None [] ∅).

Lemma early_accepted :
  VerifyInnerSig (Some early_inner) (str "preimage") sample_two_kel 1760000200000 = Ok tt ∧
  is_Ok (VerifyInnerSig (Some early_inner) (str "preimage") sample_two_kel (1760000100000 + RotationGrace + 1)) = false.
Proof. split; vm_compute; reflexivity. Qed.

Lemma early_seq : is_u64 (in_KeyStateSeq early_inner).
Proof. done. Qed.

Lemma inner_signature_accepts_witness :
  (∃ se k, inner_signed early_inner (str "preimage") sample_two_kel 1760000200000 se k) ∧
  VerifyInnerSig (Some early_inner) (str "preimage") sample_two_kel 1760000100000 = Ok tt.
Proof.
  pose proof (inner_signature_accepts (CE := event_coredet) early_inner (str "preimage") sample_two_kel 1760000200000 early_seq) as T.
  refine (conj (proj1 (proj1 T) (proj1 early_accepted)) (proj2 T (proj1 early_accepted) 1760000100000 _)). lia.
Defined.

(** The recipient ended the interaction and deleted its key. *)
#[local] Notation closed_sample :=
  (Open sample_delivered (in_To sample_sealed_inner) (Some sample_ring) (Some (λ _, Ok None))).
Lemma closed_sample_fails :
  closed_sample = OpenErr (Some sample_envelope.2) (fail ReasonSealedToClosedInteraction "ikid").
Proof. vm_compute. reflexivity. Qed.

