(* ===== verification/EncKeys.v ===== *)
(** * EncKeys: published key sets (seal/enckeys.go, highwater.go, the end of envelope.go)

    An identity publishes a signed set of epoch keys and its mailbox key.  [SignEncKeySet] makes one,
    [VerifyEncKeySet] checks one against the owner's log, [SelectKey] is the key a sender seals to, and
    [DecideHighWater] is what a consumer does with a set given the one it holds. *)

From S2P Require Import Prelude Platform Aid Kel IdFile Fields Envelope.

(** ** Data *)

Definition EncKeySetType : bytes := str "anet.enckeys/2".
Definition MaxKeysPerSet : Z := 32.

(** The mailbox signing key. *)
Record Mbox := mkMbox { mb_Epoch : Z; mb_Pub : bytes }.

Record EncKeySet := mkEncKeySet {
  es_Type : bytes;
  es_AID : bytes;
  es_Seq : Z;
  es_Keys : list EncKey;
  es_IssuedAt : Z;
  es_Mbox : Mbox;
}.
Definition encKeySetKeys : list Z := [0; 1; 2; 3; 4; 5].

Record SignedEncKeySet := mkSignedEncKeySet { sk_Set : bytes; sk_KeyStateSeq : Z; sk_Sig : bytes }.

Definition ReasonAIDMismatch : string := "aid-mismatch".
Definition ReasonBadKeySet : string := "bad-keyset".
Definition ReasonNoUsableKey : string := "no-usable-key".

(** [StaticKeyRing]: the first pair of the list that has the kid; a nil pair is [None]. *)
Definition StaticKeyRing (r : list (option KeyPair)) : KeyRing := λ kid,
  match List.find (λ p, match p with Some kp => beqb (ek_KID (kp_Public kp)) kid | None => false end) r with
  | Some p => p
  | None => None
  end.

Definition firstUnknownKey (m : fieldMap) (n : Z) : option Z := least_key (λ k, n <=? k) m.

Section Keys.
Context `{P : Platform} `{I : Items}.
Context `{CE : Coredet KeyEvent} `{CS : Coredet EncKeySet} `{DS : Strict EncKeySet}.
Context `{CW : Coredet SignedEncKeySet} `{DW : Strict SignedEncKeySet}.

(** ** Epoch keys *)

Definition NewEncKey (suite : Z) (pub : bytes) (notBefore notAfter : Z) : EncKey :=
  mkEncKey (KID suite pub) suite pub notBefore notAfter.

Definition ValidAt (k : EncKey) (now : Z) : bool := (ek_NotBefore k <=? now) && (now <? ek_NotAfter k).

(** [newKeyPair]: [priv] and [pub] are the serialized halves of a key of the HPKE library. *)
Definition newKeyPair (suite : Z) (priv pub : bytes) (notBefore notAfter : Z) : result KeyPair :=
  let kp := mkKeyPair (NewEncKey suite pub notBefore notAfter) priv in
  _ ← map_err (failWrap ReasonInvalidInput "key validity") (enckey_check (kp_Public kp));
  Ok kp.

(** [DeriveKeyPair] and [GenerateKeyPair]: [derived] is what the library derives or draws. *)
Definition DeriveKeyPair (suite : Z) (derived : option (bytes * bytes)) (notBefore notAfter : Z) : result KeyPair :=
  refuse negb (Supported suite) with fail ReasonUnknownSuite "suite";
  '(priv, pub) ← of_option derived (fail ReasonInvalidInput "derive key");
  newKeyPair suite priv pub notBefore notAfter.
Definition GenerateKeyPair (suite : Z) (drawn : option (bytes * bytes)) (notBefore notAfter : Z) : result KeyPair :=
  refuse negb (Supported suite) with fail ReasonUnknownSuite "suite";
  '(priv, pub) ← of_option drawn (fail ReasonInternalError "generate key");
  newKeyPair suite priv pub notBefore notAfter.

(** ** Key sets *)

(** [NextSeq]; the addition cannot wrap. *)
Definition NextSeq (now lastSeq : Z) : Z :=
  if lastSeq =? MaxUint64 then lastSeq else Z.max now (u64 (lastSeq + 1)).

(** The loop over the keys: the kids seen so far and the previous [NotBefore]. *)
Fixpoint checkKeys (ks : list EncKey) (seen : list bytes) (prev : option Z) : result unit :=
  match ks with
  | [] => Ok tt
  | k :: ks =>
      _ ← map_err (failWrap ReasonBadKeySet "key") (enckey_check k);
      refuse existsb (beqb (ek_KID k)) seen with fail ReasonBadKeySet "key repeats a kid";
      refuse match prev with Some p => ek_NotBefore k <? p | None => false end
        with fail ReasonBadKeySet "keys not in ascending not_before order";
      checkKeys ks (ek_KID k :: seen) (Some (ek_NotBefore k))
  end.

Definition checkStructure (s : EncKeySet) : result unit :=
  refuse negb (beqb (es_Type s) EncKeySetType) with fail ReasonBadKeySet "type";
  refuse beqb (es_AID s) [] with fail ReasonBadKeySet "empty aid";
  refuse (len (es_Keys s) =? 0) || (MaxKeysPerSet <? len (es_Keys s)) with fail ReasonBadKeySet "keys, want 1..32";
  _ ← checkKeys (es_Keys s) [] None;
  refuse mb_Epoch (es_Mbox s) =? 0 with fail ReasonBadKeySet "mbox epoch is 0, want 1 or more";
  refuse negb (len (mb_Pub (es_Mbox s)) =? PublicKeySize) with fail ReasonBadKeySet "mbox pub length";
  refuse SmallOrderKey (mb_Pub (es_Mbox s)) with fail ReasonBadKeySet "mbox pub is a point of small order";
  Ok tt.

Definition checkValidAt (s : EncKeySet) (now : Z) : result unit :=
  let t := satAdd now ClockSkewMS in
  refuse negb (existsb (λ k, ValidAt k t) (es_Keys s)) with fail ReasonBadKeySet "no key valid at now + clock skew";
  Ok tt.

Definition decodeEncKeySet (b : bytes) : result EncKeySet :=
  m ← map_err (failWrap ReasonBadKeySet "decode") (decodeFields b);
  refuse match m !! 0 with
         | Some t => negb (bool_decide (unmarshal_text t = Some EncKeySetType))
         | None => false
         end with fail ReasonBadKeySet "type";
  refuse bool_decide (is_Some (firstUnknownKey m (len encKeySetKeys))) with fail ReasonBadKeySet "key is not a key of the set";
  refuse existsb (λ k, negb (has m k)) encKeySetKeys with fail ReasonBadKeySet "key is missing";
  s ← map_err (failWrap ReasonBadKeySet "decode") (UnmarshalStrict b);
  re ← map_err (failWrap ReasonBadKeySet "re-encode") (Marshal s);
  refuse negb (beqb re b) with fail ReasonBadKeySet "not the canonical encoding";
  Ok s.

Definition UnmarshalSignedEncKeySet (b : bytes) : result SignedEncKeySet :=
  m ← map_err (failWrap ReasonBadKeySet "decode signed key set") (decodeFields b);
  refuse existsb (λ k, negb (has m k)) [1; 2; 3] with fail ReasonBadKeySet "signed key set: key is missing";
  map_err (failWrap ReasonBadKeySet "decode signed key set") (UnmarshalStrict b).

Definition SignEncKeySet (set : option EncKeySet) (sign : option SignFunc) : result SignedEncKeySet :=
  s ← of_option set (fail ReasonInvalidInput "nil set or signer");
  sign ← of_option sign (fail ReasonInvalidInput "nil set or signer");
  _ ← checkStructure s;
  _ ← checkValidAt s (es_IssuedAt s);
  b ← map_err (failWrap ReasonInvalidInput "encode key set") (Marshal s);
  let '(sig, seq) := sign b in
  refuse negb (len sig =? SigLen) with fail ReasonInvalidInput "signer returned another signature length";
  Ok (mkSignedEncKeySet b seq sig).

Definition VerifyEncKeySet (signed : option SignedEncKeySet) (expectAID : bytes) (kel : list SignedEvent) (now : Z)
  : result EncKeySet :=
  signed ← of_option signed (fail ReasonBadKeySet "nil signed key set");
  set ← decodeEncKeySet (sk_Set signed);
  states ← map_err (failWrap ReasonBadKEL "replay") (Replay kel);
  final ← of_option (last states) Panic;
  refuse negb (beqb (ks_AID final) expectAID) with fail ReasonAIDMismatch "KEL replays to another AID";
  refuse negb (beqb (es_AID set) expectAID) with fail ReasonAIDMismatch "key set names another AID";
  refuse negb (len (sk_Sig signed) =? SigLen) with fail ReasonBadSig "signature length";
  refuse len states <=? sk_KeyStateSeq signed with fail ReasonBadKeyState "key_state_seq beyond KEL";
  refuse beqb (ks_Status final) StatusDeactivated with fail ReasonRevokedKey "AID is deactivated";
  ks ← of_option (states !! Z.to_nat (sk_KeyStateSeq signed)) Panic;
  refuse negb (beqb (ks_Status ks) StatusActive) with fail ReasonBadKeyState "a key set needs the current key";
  _ ← map_err fromVErr
        (VerifyObject kel expectAID (sk_KeyStateSeq signed) now (sk_Set signed) (sk_Sig signed));
  _ ← checkStructure set;
  _ ← checkValidAt set now;
  Ok set.

(** [VerifyInnerKeys] (envelope.go). *)
Definition VerifyInnerKeys (inner : option SealedInner) (kel : list SignedEvent) (now : Z)
  : result (SignedEncKeySet * EncKeySet) :=
  i ← of_option inner (fail ReasonBadInner "nil inner");
  signed ← UnmarshalSignedEncKeySet (match in_Keys i with Some b => b | None => [] end);
  set ← VerifyEncKeySet (Some signed) (in_From i) kel now;
  Ok (signed, set).

(** ** The key a sender uses *)

(** The two loops of [SelectKey]. *)
Definition latest (now : Z) (best : option EncKey) (k : EncKey) : option EncKey :=
  if negb (Supported (ek_Suite k)) || negb (ValidAt k now) then best
  else match best with
       | Some b => if ek_NotBefore b <=? ek_NotBefore k then Some k else best
       | None => Some k
       end.
Definition earliest (t : Z) (best : option EncKey) (k : EncKey) : option EncKey :=
  if negb (Supported (ek_Suite k)) || negb (ValidAt k t) then best
  else match best with
       | Some b => if ek_NotBefore k <? ek_NotBefore b then Some k else best
       | None => Some k
       end.

Definition SelectKey (set : option EncKeySet) (now : Z) : result EncKey :=
  s ← of_option set (fail ReasonNoUsableKey "nil key set");
  let best := match fold_left (latest now) (es_Keys s) None with
              | Some k => Some k
              | None => fold_left (earliest (satAdd now ClockSkewMS)) (es_Keys s) None
              end in
  k ← of_option best (fail ReasonNoUsableKey "no key of a supported suite is valid");
  Ok (NewEncKey (ek_Suite k) (ek_Pub k) (ek_NotBefore k) (ek_NotAfter k)).

(** ** High water *)

Inductive Decision := Ignore | Same | Fork | Replace.
Record Seen := mkSeen { seen_Seq : Z; seen_Set : bytes }.

Definition DecideHighWater (seen : option Seen) (seq : Z) (set : bytes) : Decision :=
  match seen with
  | None => Replace
  | Some s =>
      if seen_Seq s <? seq then Replace
      else if seq <? seen_Seq s then Ignore
      else if beqb set (seen_Set s) then Same
      else Fork
  end.

Definition DecideHighWaterSigned (seen : option Seen) (incoming : option SignedEncKeySet) : result Decision :=
  incoming ← of_option incoming (fail ReasonBadKeySet "nil signed key set");
  s ← decodeEncKeySet (sk_Set incoming);
  Ok (DecideHighWater seen (es_Seq s) (sk_Set incoming)).
End Keys.
