(* ===== verification/Access.v ===== *)
(** * Access: delivery capabilities and the grants that hand them over (seal/access.go, grant.go)

    A capability is a body signed by its owner's mailbox key; whoever holds the private half of the
    holder key it names delivers to the owner by signing the digest of each envelope.  A grant is a
    capability with the holder's seed, sent inside a message.  [VerifyAccess] is the hub's check of a
    delivery, [CheckGrant] the recipient's check of a grant; both name the first step that fails. *)

From S2P Require Import Prelude Platform Aid Kel Fields Envelope EncKeys.

(** ** Data *)

Definition CapType : bytes := str "anet.cap/1".
Definition CapClassContact : Z := 1.
Definition CapClassStranger : Z := 2.
Definition CapIDLen : Z := 16.
Definition CapExpGraceMS : Z := 5 * minuteMS.
Definition CapExpMaxAheadMS : Z := 31 * dayMS.
Definition accessLabel : bytes := str "anet-access/v2" ++ [0].
Definition SeedSize : Z := 32.

(** A nil [CapID] or [Holder] would encode as null; every path of the package that encodes a body
    checks their lengths first, so they are not told from empty ones here. *)
Record CapBody := mkCapBody {
  cb_Type : bytes;
  cb_Owner : bytes;
  cb_Epoch : Z;
  cb_CapID : bytes;
  cb_Class : Z;
  cb_CapExp : Z;
  cb_Holder : bytes;
}.

Record Grant := mkGrant {
  gr_Cap : Cap;
  gr_HolderSeed : bytes;
  gr_Home : bytes;
  gr_IX : option bytes;
  gr_P2P : option bytes;
  gr_Pay : option bool;
}.

(** The bytes of a slice that may be nil. *)
Definition slice (o : option bytes) : bytes := default [] o.

(** ** Direct addresses *)

(** Go's [strings.IndexByte] and [strings.LastIndexByte]. *)
Fixpoint index_byte (c : Z) (s : bytes) : option nat :=
  match s with
  | [] => None
  | x :: s => if x =? c then Some O else S <$> index_byte c s
  end.
Fixpoint last_index_byte (c : Z) (s : bytes) : option nat :=
  match s with
  | [] => None
  | x :: s => match last_index_byte c s with
              | Some i => Some (S i)
              | None => if x =? c then Some O else None
              end
  end.

(** Go's [net.SplitHostPort]: the host and the port. *)
Definition SplitHostPort (hostport : bytes) : result (bytes * bytes) :=
  i ← of_option (last_index_byte 58 hostport) (Errf "missing port in address");
  '(host, j, k) ←
    (if bool_decide (head hostport = Some 91) then
       e ← of_option (index_byte 93 hostport) (Errf "missing ']' in address");
       if (S e =? length hostport)%nat then Err (Errf "missing port in address")
       else if (S e =? i)%nat then Ok (take (e - 1) (drop 1 hostport), 1%nat, S e)
       else if bool_decide (hostport !! S e = Some 58) then Err (Errf "too many colons in address")
       else Err (Errf "missing port in address")
     else
       refuse has_byte 58 (take i hostport) with Errf "too many colons in address";
       Ok (take i hostport, 0%nat, 0%nat));
  refuse has_byte 91 (drop j hostport) with Errf "unexpected '[' in address";
  refuse has_byte 93 (drop k hostport) with Errf "unexpected ']' in address";
  Ok (host, drop (S i) hostport).

Definition maxP2PAddrLen : Z := 262.

(** The loop over the digits of a port; -1 when one is no digit or the number is already too big. *)
Fixpoint port_loop (port : bytes) (n : Z) : Z :=
  match port with
  | [] => n
  | c :: port => if (c <? 48) || (57 <? c) || (65535 <? n) then -1 else port_loop port (n * 10 + (c - 48))
  end.

Definition checkP2PAddr (a : bytes) : result unit :=
  refuse maxP2PAddrLen <? len a with Errf "over the longest address";
  '(host, port) ← map_err (λ _, Errf "not host:port") (SplitHostPort a);
  refuse beqb host [] with Errf "has no host";
  let n := port_loop port 0 in
  refuse beqb port [] || (n <? 1) || (65535 <? n) with Errf "port is not a number from 1 to 65535";
  Ok tt.
Definition ValidP2PAddr (a : bytes) : bool := is_Ok (checkP2PAddr a).

Section Access.
Context `{P : Platform} `{I : Items}.

(** ** Capability bodies *)

Definition capbody_Marshal (b : CapBody) : result bytes :=
  t ← encodeText (cb_Type b);
  o ← encodeText (cb_Owner b);
  e ← encodeUint (cb_Epoch b);
  i ← encodeBytes (cb_CapID b);
  c ← encodeUint (cb_Class b);
  x ← encodeUint (cb_CapExp b);
  h ← encodeBytes (cb_Holder b);
  marshalFields (<[6 := h]> (<[5 := x]> (<[4 := c]> (<[3 := i]> (<[2 := e]> (<[1 := o]> {[0 := t]})))))).

(** The members are all read before the first failure is reported, in the order of their keys. *)
Definition decodeCapBody (b : bytes) : result CapBody :=
  m ← map_err (Wrap "cap body") (decodeFields b);
  refuse bool_decide (is_Some (firstUnknownKey m 7)) with Errf "cap body has a key it does not name";
  t ← map_err (Wrap "cap body t") (rawText m 0);
  owner ← map_err (Wrap "cap body owner") (rawText m 1);
  epoch ← map_err (Wrap "cap body epoch") (rawUint m 2);
  id ← map_err (Wrap "cap body cap_id") (rawBytes m 3);
  class ← map_err (Wrap "cap body class") (rawUint m 4);
  exp ← map_err (Wrap "cap body cap_exp") (rawUint m 5);
  holder ← map_err (Wrap "cap body holder") (rawBytes m 6);
  let c := mkCapBody t owner epoch id class exp holder in
  refuse negb (len id =? CapIDLen) with Errf "cap body cap_id length";
  refuse negb (len holder =? PublicKeySize) with Errf "cap body holder length";
  refuse SmallOrderKey holder with Errf "cap body holder is a point of small order";
  re ← map_err (Wrap "cap body: re-encode") (capbody_Marshal c);
  refuse negb (beqb re b) with Errf "cap body is not the CoreDet encoding of its content";
  Ok c.

Definition UnmarshalCapBody (b : bytes) : result CapBody :=
  map_err (failWrap ReasonAccessInvalid "decode") (decodeCapBody b).
Definition UnmarshalCap (b : bytes) : result Cap := map_err (failWrap ReasonAccessInvalid "parse") (decodeCap b).

Definition cap_Marshal (c : option Cap) : result bytes :=
  c ← of_option c (fail ReasonInvalidInput "nil cap");
  b ← map_err (failWrap ReasonInvalidInput "encode cap") (cap_item c);
  _ ← map_err (failWrap ReasonInvalidInput "cap") (decodeCap b);
  Ok b.

Definition known_class (class : Z) : bool := (class =? CapClassContact) || (class =? CapClassStranger).

Definition checkIssue (b : CapBody) : result unit :=
  refuse negb (beqb (cb_Type b) CapType) with Errf "type";
  refuse beqb (cb_Owner b) [] || has_byte 0 (cb_Owner b) with Errf "owner must be an AID: not empty, no U+0000";
  refuse cb_Epoch b =? 0 with Errf "epoch 0; a mailbox key's epoch starts at 1";
  refuse negb (len (cb_CapID b) =? CapIDLen) with Errf "cap_id length";
  refuse negb (known_class (cb_Class b)) with Errf "class is neither contact (1) nor stranger (2)";
  refuse cb_CapExp b =? 0 with Errf "cap_exp is 0";
  refuse negb (len (cb_Holder b) =? PublicKeySize) with Errf "holder length";
  refuse SmallOrderKey (cb_Holder b) with Errf "holder is a point of small order";
  Ok tt.

(** The copy whose empty type is filled in. *)
Definition with_cap_type (b : CapBody) : CapBody :=
  mkCapBody (match cb_Type b with [] => CapType | t => t end) (cb_Owner b) (cb_Epoch b) (cb_CapID b) (cb_Class b)
    (cb_CapExp b) (cb_Holder b).

Definition SignCap (mbox : bytes) (body : option CapBody) : result Cap :=
  body ← of_option body (fail ReasonInvalidInput "nil cap body");
  refuse negb (len mbox =? PrivateKeySize) with fail ReasonInvalidInput "mailbox key length";
  let b := with_cap_type body in
  _ ← map_err (failWrap ReasonInvalidInput "cap body") (checkIssue b);
  enc ← map_err (failWrap ReasonInvalidInput "encode cap body") (capbody_Marshal b);
  Ok (mkCap (Some enc) (Some (ed25519_sign mbox enc))).

(** ** Proofs of possession *)

Definition accessInput (capID envDigest : bytes) : bytes := accessLabel ++ capID ++ envDigest.

(** The nil proof is []. *)
Definition SignAccess (holder capID envDigest : bytes) : bytes :=
  if negb (len holder =? PrivateKeySize) || negb (len capID =? CapIDLen) then []
  else ed25519_sign holder (accessInput capID envDigest).

Definition capExpInWindow (capExp now : Z) : bool :=
  let lo := if CapExpGraceMS <? now then now - CapExpGraceMS else 0 in
  (lo <=? capExp) && (capExp <=? satAdd now CapExpMaxAheadMS).

(** A failed step: its name is the detail. *)
Definition bad (step : string) : error := fail ReasonAccessInvalid step.

Definition VerifyAccess (a : option Access) (envDigest : bytes) (mbox : Mbox) (owner : bytes) (now : Z) : result unit :=
  a ← of_option a (bad "parse");
  refuse negb (ac_Kind a =? AccessKindCap) with bad "parse";
  cap ← of_option (ac_Cap a) (bad "parse");
  refuse negb (len (slice (cp_Sig cap)) =? SigLen) || negb (len (ac_Proof a) =? SigLen) with bad "parse";
  body ← map_err (failWrap ReasonAccessInvalid "decode") (decodeCapBody (slice (cp_Body cap)));
  refuse negb (known_class (cb_Class body)) with bad "decode";
  refuse negb (beqb (cb_Type body) CapType) with bad "type";
  refuse beqb owner [] || negb (beqb (cb_Owner body) owner) with bad "owner";
  refuse (mb_Epoch mbox =? 0) || negb (cb_Epoch body =? mb_Epoch mbox) with bad "epoch";
  refuse negb (len (mb_Pub mbox) =? PublicKeySize) || SmallOrderKey (mb_Pub mbox) with bad "sig";
  ok ← ed25519_Verify (mb_Pub mbox) (slice (cp_Body cap)) (slice (cp_Sig cap));
  refuse negb ok with bad "sig";
  refuse negb (capExpInWindow (cb_CapExp body) now) with bad "exp";
  ok ← ed25519_Verify (cb_Holder body) (accessInput (cb_CapID body) envDigest) (ac_Proof a);
  refuse negb ok with bad "proof";
  Ok tt.

(** ** Grants *)

(** [HolderKey]; the nil key is []. *)
Definition HolderKey (g : option Grant) : bytes :=
  match g with
  | Some g => if len (gr_HolderSeed g) =? SeedSize then ed25519_NewKeyFromSeed (gr_HolderSeed g) else []
  | None => []
  end.

Definition rawBool (m : fieldMap) (k : Z) : result bool :=
  raw ← of_option (m !! k) (Errf "field missing");
  if beqb raw [245] then Ok true
  else if beqb raw [244] then Ok false
  else Err (Errf "field is not a boolean").

Definition decodeGrant (raw : bytes) : result Grant :=
  m ← map_err (Wrap "grant") (decodeFields raw);
  refuse bool_decide (is_Some (firstKeyOutside m 1 6)) with Errf "grant has key";
  capRaw ← of_option (m !! 1) (Errf "grant: field 1 (cap) missing");
  cap ← map_err (Wrap "grant") (decodeCap capRaw);
  seed ← map_err (Wrap "grant holder_seed") (rawBytes m 2);
  refuse negb (len seed =? SeedSize) with Errf "grant holder_seed length";
  home ← map_err (Wrap "grant home") (rawText m 3);
  refuse negb (ValidAID home) with Errf "grant home is not an AID (identity.ValidAID)";
  ix ← optional m 4 (λ _, map_err (Wrap "grant ix") (rawText m 4));
  p2p ← optional m 5 (λ _, map_err (Wrap "grant p2p") (rawText m 5));
  _ ← match p2p with Some a => map_err (Wrap "grant p2p") (checkP2PAddr a) | None => Ok tt end;
  pay ← optional m 6 (λ _, map_err (Wrap "grant pay") (rawBool m 6));
  Ok (mkGrant cap seed home ix p2p pay).

Definition UnmarshalGrant (b : bytes) : result Grant := map_err (failWrap ReasonAccessInvalid "decode") (decodeGrant b).

Definition encodeBool (b : bool) : bytes := if b then [245] else [244].

(** The struct encoding, field by field; a nil seed, which encodes as null, is refused like an
    empty one. *)
Definition grant_item (g : Grant) : result bytes :=
  m ← put 1 (Some (cap_item (gr_Cap g))) ∅;
  m ← put 2 (Some (encodeBytes (gr_HolderSeed g))) m;
  m ← put 3 (Some (encodeText (gr_Home g))) m;
  m ← put 4 (encodeText <$> gr_IX g) m;
  m ← put 5 (encodeText <$> gr_P2P g) m;
  m ← put 6 ((λ b, Ok (encodeBool b)) <$> gr_Pay g) m;
  marshalFields m.

(** The step of the first misplaced member. *)
Definition grantPlacement (g : Grant) (body : CapBody) : option string :=
  if bool_decide (is_Some (gr_P2P g)) && (negb (cb_Class body =? CapClassContact) || bool_decide (is_Some (gr_IX g)))
  then Some "p2p"%string
  else if bool_decide (is_Some (gr_Pay g)) && bool_decide (is_Some (gr_IX g)) then Some "pay"%string
  else None.

Definition grant_Marshal (g : option Grant) : result bytes :=
  g ← of_option g (fail ReasonInvalidInput "nil grant");
  b ← map_err (failWrap ReasonInvalidInput "encode grant") (grant_item g);
  d ← map_err (failWrap ReasonInvalidInput "grant") (decodeGrant b);
  body ← map_err (failWrap ReasonInvalidInput "grant cap") (decodeCapBody (slice (cp_Body (gr_Cap d))));
  _ ← map_err (failWrap ReasonInvalidInput "grant cap body") (checkIssue body);
  refuse negb (beqb (ed25519_public (HolderKey (Some d))) (cb_Holder body))
    with fail ReasonInvalidInput "grant holder_seed is not the key of the capability's holder";
  match grantPlacement d body with
  | Some step => Err (fail ReasonInvalidInput ("grant " ++ step))
  | None => Ok b
  end.

Definition CheckGrant (inner : option SealedInner) (keys : option EncKeySet) (now : Z) : result (Grant * CapBody) :=
  i ← of_option inner (fail ReasonInvalidInput "nil inner");
  g ← map_err (failWrap ReasonAccessInvalid "decode") (decodeGrant (slice (in_Grant i)));
  body ← map_err (failWrap ReasonAccessInvalid "body") (decodeCapBody (slice (cp_Body (gr_Cap g))));
  refuse negb (beqb (cb_Type body) CapType) with bad "type";
  refuse negb (beqb (cb_Owner body) (in_From i)) with bad "owner";
  keys ← of_option keys (bad "keys");
  refuse negb (beqb (es_AID keys) (in_From i)) with bad "keys";
  let mbox := es_Mbox keys in
  refuse (mb_Epoch mbox =? 0) || negb (cb_Epoch body =? mb_Epoch mbox) with bad "epoch";
  refuse negb (len (mb_Pub mbox) =? PublicKeySize) || SmallOrderKey (mb_Pub mbox) with bad "sig";
  ok ← ed25519_Verify (mb_Pub mbox) (slice (cp_Body (gr_Cap g))) (slice (cp_Sig (gr_Cap g)));
  refuse negb ok with bad "sig";
  refuse negb (beqb (ed25519_public (HolderKey (Some g))) (cb_Holder body)) with bad "holder";
  refuse negb (known_class (cb_Class body)) with bad "class";
  refuse negb (capExpInWindow (cb_CapExp body) now) with bad "exp";
  refuse match gr_IX g with Some ix => negb (beqb ix (in_IX i)) | None => false end with bad "ix";
  match grantPlacement g body with
  | Some step => Err (bad step)
  | None => Ok (g, body)
  end.
End Access.
