(* ===== verification/AccessFacts.v ===== *)
(** * AccessFacts: capability bodies and grants read back, the expiry window, the checks *)

From S2P Require Import Prelude Checks Platform Aid Kel Fields FieldsFacts Envelope EnvelopeFacts EnvelopeTheorems EncKeys Access.

Section AccessFacts.
Context `{P : Platform} `{I : Items} {L : ItemsLaws I}.

(** ** Capability bodies *)

Definition capbody_map (t o e i c x h : bytes) : fieldMap :=
  <[6 := h]> (<[5 := x]> (<[4 := c]> (<[3 := i]> (<[2 := e]> (<[1 := o]> {[0 := t]}))))).

Lemma capbody_Marshal_Ok b x :
  capbody_Marshal b = Ok x ↔ ∃ t o e i c y h,
    encodeText (cb_Type b) = Ok t ∧ encodeText (cb_Owner b) = Ok o ∧ encodeUint (cb_Epoch b) = Ok e ∧
    encodeBytes (cb_CapID b) = Ok i ∧ encodeUint (cb_Class b) = Ok c ∧ encodeUint (cb_CapExp b) = Ok y ∧
    encodeBytes (cb_Holder b) = Ok h ∧ marshalFields (capbody_map t o e i c y h) = Ok x.
Proof.
  unfold capbody_Marshal. rewrite bind_Ok. setoid_rewrite bind_Ok. setoid_rewrite bind_Ok. setoid_rewrite bind_Ok.
  setoid_rewrite bind_Ok. setoid_rewrite bind_Ok. setoid_rewrite bind_Ok. unfold capbody_map. naive_solver.
Qed.

Lemma encodeUint_u64 n b : encodeUint n = Ok b → is_u64 n.
Proof using L. intros Hb%of_option_Ok. by eapply uint_range. Qed.

Record body_ok (b : CapBody) : Prop := {
  bo_id : len (cb_CapID b) = CapIDLen;
  bo_holder : len (cb_Holder b) = PublicKeySize;
  bo_point : SmallOrderKey (cb_Holder b) = false;
  bo_epoch : is_u64 (cb_Epoch b);
  bo_exp : is_u64 (cb_CapExp b);
}.

Lemma capbody_map_items t o e i c x h :
  Forall (λ b, wellFormedItem b = true) [t; o; e; i; c; x; h] → items (capbody_map t o e i c x h).
Proof.
  rewrite !Forall_cons. intros (? & ? & ? & ? & ? & ? & ? & _). unfold capbody_map.
  repeat apply items_insert; done.
Qed.

Lemma decodeCapBody_Ok x b :
  decodeCapBody x = Ok b ↔ capbody_Marshal b = Ok x ∧ len (cb_CapID b) = CapIDLen ∧
    len (cb_Holder b) = PublicKeySize ∧ SmallOrderKey (cb_Holder b) = false.
Proof using L.
  split.
  - unfold decodeCapBody. intros R. apply bind_Ok in R as (m & _ & R). apply refuse_Ok in R as [_ R].
    do 7 (apply bind_Ok in R as (? & _ & R)). apply refuse_Ok in R as [R1%negb_Zeqb_false R].
    apply refuse_Ok in R as [R2%negb_Zeqb_false R]. apply refuse_Ok in R as [R3 R].
    apply bind_Ok in R as (re & Hre%map_err_Ok & R). apply refuse_Ok in R as [->%negb_beqb_false [= <-]]. done.
  - intros [(t & o & e & i & c & y & h & H1 & H2 & H3 & H4 & H5 & H6 & H7 & H8)%capbody_Marshal_Ok (L1 & L2 & L3)].
    assert (items (capbody_map t o e i c y h)) as Hi.
    { apply capbody_map_items. repeat constructor;
        first [by eapply encodeText_item | by eapply encodeUint_item | by eapply encodeBytes_item]. }
    unfold decodeCapBody. rewrite (proj2 (decodeFields_Ok _ _) (conj Hi (proj1 (marshalFields_Ok _ _) H8))).
    cbn [map_err mbind result_bind]. unfold firstUnknownKey. rewrite (proj2 (no_least_key _ _)).
    2: { intros k. unfold capbody_map. rewrite !lookup_insert_is_Some, lookup_singleton_is_Some. intros Hk. apply Z.leb_gt.
         destruct Hk as [<-|[_ [<-|[_ [<-|[_ [<-|[_ [<-|[_ [<-|[_ <-]]]]]]]]]]]]; done. }
    rewrite (rawText_encoded _ 0 _ t H1), (rawText_encoded _ 1 _ o H2),
      (rawUint_encoded _ 2 _ e (encodeUint_u64 _ _ H3) H3), (rawBytes_encoded _ 3 _ i H4),
      (rawUint_encoded _ 4 _ c (encodeUint_u64 _ _ H5) H5), (rawUint_encoded _ 5 _ y (encodeUint_u64 _ _ H6) H6),
      (rawBytes_encoded _ 6 _ h H7) by (unfold capbody_map; by small_lookup).
    cbn [map_err mbind result_bind]. rewrite L1, L2, L3, !Z.eqb_refl. cbn [negb].
    replace (mkCapBody _ _ _ _ _ _ _) with b by by destruct b.
    rewrite (proj2 (capbody_Marshal_Ok b x)) by (unfold capbody_map in H8; eauto 20).
    cbn [map_err mbind result_bind]. by rewrite beqb_refl.
Qed.

Lemma decodeCapBody_body x b : decodeCapBody x = Ok b → body_ok b.
Proof using L.
  intros [(t & o & e & i & c & y & h & _ & _ & H3 & _ & _ & H6 & _)%capbody_Marshal_Ok (? & ? & ?)]%decodeCapBody_Ok.
  constructor; [done..|by eapply encodeUint_u64|by eapply encodeUint_u64].
Qed.

(** ** The expiry window *)

Lemma satAdd_spec a b : 0 <= b <= MaxUint64 → satAdd a b = Z.min (a + b) MaxUint64.
Proof. intros Hb. unfold satAdd. destruct (Z.ltb_spec (MaxUint64 - b) a); lia. Qed.

Lemma capExpInWindow_spec x now :
  is_u64 x → capExpInWindow x now = true ↔ now - CapExpGraceMS <= x <= now + CapExpMaxAheadMS.
Proof.
  intros [H0 Hx]. unfold capExpInWindow. rewrite satAdd_spec by done. unfold MaxUint64, two64 in *.
  assert (CapExpGraceMS = 300000 ∧ CapExpMaxAheadMS = 2678400000) as [-> ->] by done.
  rewrite andb_true_iff, !Z.leb_le. destruct (Z.ltb_spec 300000 now); lia.
Qed.

(** ** Grants *)

(** An optional member is read back as it was written. *)
Lemma optional_det {A} m k (enc : A → result bytes) (read : bytes → result A) (x x' : option A) :
  runs (enc <$> x) (m !! k) → optional m k read = Ok x' →
  (∀ a a' b, enc a = Ok b → m !! k = Some b → read b = Ok a' → a' = a) → x' = x.
Proof.
  intros Hr%runs_fmap Ho Hread. unfold optional in Ho. destruct (m !! k) as [b|], x as [a|]; try done.
  - apply bind_Ok in Ho as (a' & Ha' & [= <-]). by rewrite (Hread a a' b).
  - by injection Ho as <-.
Qed.

Definition grant_map (c s h ix p2p pay : option bytes) : fieldMap :=
  ins 6 pay (ins 5 p2p (ins 4 ix (ins 3 h (ins 2 s (ins 1 c ∅))))).

Record grant_members (g : Grant) (c s h : bytes) (ix p2p pay : option bytes) : Prop := {
  gm_cap : cap_item (gr_Cap g) = Ok c;
  gm_seed : encodeBytes (gr_HolderSeed g) = Ok s;
  gm_home : encodeText (gr_Home g) = Ok h;
  gm_ix : runs (encodeText <$> gr_IX g) ix;
  gm_p2p : runs (encodeText <$> gr_P2P g) p2p;
  gm_pay : runs ((λ b, Ok (encodeBool b)) <$> gr_Pay g) pay;
}.

Lemma grant_item_Ok g b :
  grant_item g = Ok b → ∃ c s h ix p2p pay, grant_members g c s h ix p2p pay ∧
    items (grant_map (Some c) (Some s) (Some h) ix p2p pay) ∧
    marshal_fields (grant_map (Some c) (Some s) (Some h) ix p2p pay) = Some b.
Proof using L.
  unfold grant_item. intros R.
  apply bind_Ok in R as (m1 & (o1 & (c & -> & H1)%runs_Some & ->)%put_Ok & R).
  apply bind_Ok in R as (m2 & (o2 & (s & -> & H2)%runs_Some & ->)%put_Ok & R).
  apply bind_Ok in R as (m3 & (o3 & (h & -> & H3)%runs_Some & ->)%put_Ok & R).
  apply bind_Ok in R as (m4 & (ix & H4 & ->)%put_Ok & R). apply bind_Ok in R as (m5 & (p2p & H5 & ->)%put_Ok & R).
  apply bind_Ok in R as (m6 & (pay & H6 & ->)%put_Ok & R). apply marshalFields_Ok in R.
  exists c, s, h, ix, p2p, pay. split_and!; [done| |done].
  assert (∀ x o, runs (encodeText <$> x) o → ∀ b0, o = Some b0 → wellFormedItem b0 = true) as Ht.
  { intros x o Hr%runs_fmap b0 ->. destruct x; [|done]. by eapply encodeText_item. }
  repeat apply items_ins; try apply items_empty; try (by eapply Ht); intros b0 [= <-] || intros b0 ->.
  - apply runs_fmap in H6. destruct (gr_Pay g) as [[]|]; [injection H6 as <-; apply bool_item..|done].
  - by eapply encodeText_item.
  - by eapply encodeBytes_item.
  - unfold cap_item in H1. apply bind_Ok in H1 as (? & _ & H1). apply bind_Ok in H1 as (? & _ & H1). by eapply marshalFields_item.
Qed.

Lemma decodeGrant_item g g' b : grant_item g = Ok b → decodeGrant b = Ok g' → g' = g.
Proof using L.
  intros (c & s & h & ix & p2p & pay & [M1 M2 M3 M4 M5 M6] & Hi & Hm)%grant_item_Ok D.
  unfold decodeGrant in D. rewrite (proj2 (decodeFields_Ok _ _) (conj Hi Hm)) in D. cbn [map_err mbind result_bind] in D.
  set (m := grant_map _ _ _ _ _ _) in D.
  assert (m !! 1 = Some c ∧ m !! 2 = Some s ∧ m !! 3 = Some h ∧ m !! 4 = ix ∧ m !! 5 = p2p ∧ m !! 6 = pay)
    as (E1 & E2 & E3 & E4 & E5 & E6).
  { unfold m, grant_map. rewrite !lookup_ins. cbn [Z.eqb Pos.eqb]. rewrite !lookup_empty. by destruct ix, p2p, pay. }
  apply refuse_Ok in D as [_ D]. rewrite E1 in D. cbn [of_option mbind result_bind] in D.
  apply bind_Ok in D as (cap & Hcap%map_err_Ok & D). destruct (decodeCap_item _ _ M1) as [Hc|[e He]]; [|congruence].
  rewrite Hc in Hcap. injection Hcap as <-.
  rewrite (rawBytes_encoded _ 2 _ s M2 E2) in D. cbn [map_err mbind result_bind] in D. apply refuse_Ok in D as [_ D].
  rewrite (rawText_encoded _ 3 _ h M3 E3) in D. cbn [map_err mbind result_bind] in D. apply refuse_Ok in D as [_ D].
  apply bind_Ok in D as (ix' & Hix & D). apply bind_Ok in D as (p2p' & Hp & D). apply bind_Ok in D as ([] & _ & D).
  apply bind_Ok in D as (pay' & Hpay & [= <-]).
  rewrite <- E4 in M4. rewrite <- E5 in M5. rewrite <- E6 in M6.
  rewrite (optional_det _ _ _ _ _ _ M4 Hix), (optional_det _ _ _ _ _ _ M5 Hp), (optional_det _ _ _ _ _ _ M6 Hpay);
    [by destruct g|..].
  - intros a a' b0 [= <-] Hk Hr%map_err_Ok. unfold rawBool in Hr. rewrite Hk in Hr. destruct a; by injection Hr as <-.
  - intros a a' b0 Ha Hk Hr%map_err_Ok. rewrite (rawText_encoded _ 5 _ b0 Ha Hk) in Hr. by injection Hr as <-.
  - intros a a' b0 Ha Hk Hr%map_err_Ok. rewrite (rawText_encoded _ 4 _ b0 Ha Hk) in Hr. by injection Hr as <-.
Qed.
End AccessFacts.
