(* ===== verification/AccessTheorems.v ===== *)
(** * AccessTheorems: what a hub admits and which grants a recipient keeps *)

From S2P Require Import Prelude Checks Platform Aid Kel Fields FieldsFacts Envelope EnvelopeFacts EnvelopeTheorems SealErrors EncKeys Access AccessFacts.

Lemma bad_inj s s' : bad s = bad s' → s = s'.
Proof. by intros [= ->]. Qed.

Section Theorems.
Context `{P : Platform} `{I : Items} {L : ItemsLaws I}.

(** ** Shared conditions *)

(** What holds of the body, once it decodes. *)
Definition when_body (x : bytes) (Q : CapBody → Prop) : Prop := ∀ b, decodeCapBody x = Ok b → Q b.

Lemma when_body_Ok x b Q : decodeCapBody x = Ok b → when_body x Q ↔ Q b.
Proof. intros Hb. unfold when_body. rewrite Hb. split; [auto|]. by intros HQ ? [= <-]. Qed.

Lemma some_body x b (Q : CapBody → Prop) : decodeCapBody x = Ok b → (∃ b, decodeCapBody x = Ok b ∧ Q b) ↔ Q b.
Proof. intros Hb. rewrite Hb. split; [by intros (? & [= ->] & ?)|eauto]. Qed.

Lemma guard_body x b Q (c : bool) : decodeCapBody x = Ok b → (c = false ↔ Q b) → c = false ↔ when_body x Q.
Proof. intros Hb ->. by rewrite (when_body_Ok _ _ _ Hb). Qed.

Definition class_known (b : CapBody) : Prop := cb_Class b = CapClassContact ∨ cb_Class b = CapClassStranger.
Definition in_window (now : Z) (b : CapBody) : Prop :=
  now - CapExpGraceMS <= cb_CapExp b <= now + CapExpMaxAheadMS.
Definition epoch_of (mbox : Mbox) (b : CapBody) : Prop := mb_Epoch mbox ≠ 0 ∧ cb_Epoch b = mb_Epoch mbox.
Definition signed_by (mbox : Mbox) (msg sig : bytes) : Prop :=
  len (mb_Pub mbox) = PublicKeySize ∧ SmallOrderKey (mb_Pub mbox) = false ∧ ed25519_verify (mb_Pub mbox) msg sig = true.

Lemma known_class_true b : negb (known_class (cb_Class b)) = false ↔ class_known b.
Proof. unfold known_class, class_known. rewrite negb_false_iff, orb_true_iff, !Z.eqb_eq. done. Qed.

Lemma in_window_true x b now :
  decodeCapBody x = Ok b → negb (capExpInWindow (cb_CapExp b) now) = false ↔ in_window now b.
Proof using L. intros [_ _ _ _ Hx]%decodeCapBody_body. rewrite negb_false_iff. by apply capExpInWindow_spec. Qed.

Lemma epoch_true mbox b : (mb_Epoch mbox =? 0) || negb (cb_Epoch b =? mb_Epoch mbox) = false ↔ epoch_of mbox b.
Proof. unfold epoch_of. rewrite orb_false_iff, negb_false_iff, Z.eqb_neq, Z.eqb_eq. done. Qed.

Lemma decodeCapBody_safe x : safe (decodeCapBody x).
Proof. unfold decodeCapBody, capbody_Marshal, encodeText, encodeUint, encodeBytes, marshalFields. safe_steps. Qed.

(** The mailbox signature: two guards under one name. *)
Lemma checked_sig {A} (R : A → Prop) l mbox msg sig k :
  (signed_by mbox msg sig → checked bad l R k) →
  checked bad (("sig"%string, signed_by mbox msg sig) :: l) R
    (refuse negb (len (mb_Pub mbox) =? PublicKeySize) || SmallOrderKey (mb_Pub mbox) with bad "sig";
     ok ← ed25519_Verify (mb_Pub mbox) msg sig; refuse negb ok with bad "sig"; k).
Proof.
  unfold signed_by. intros Hk. unfold ed25519_Verify. destruct (Z.eqb_spec (len (mb_Pub mbox)) PublicKeySize) as [E|E]; simpl.
  - destruct (SmallOrderKey (mb_Pub mbox)) eqn:E2; [apply checked_fail; by intros (? & ? & ?)|].
    destruct (ed25519_verify (mb_Pub mbox) msg sig) eqn:E3; simpl; [|apply (checked_fail bad R); by intros (? & ? & ?)].
    apply checked_cons; [done|]. by apply Hk.
  - apply (checked_fail bad R). by intros (? & ? & ?).
Qed.

(** ** The hub *)

(** The checks of a delivery under a capability, in order. *)
Definition access_checks (a : Access) (d : bytes) (mbox : Mbox) (owner : bytes) (now : Z) : list (string * Prop) :=
  let sig := slice (match ac_Cap a with Some c => cp_Sig c | None => None end) in
  let body := slice (match ac_Cap a with Some c => cp_Body c | None => None end) in
  [("parse", ac_Kind a = AccessKindCap ∧ ac_Cap a ≠ None ∧ len sig = SigLen ∧ len (ac_Proof a) = SigLen);
   ("decode", ∃ b, decodeCapBody body = Ok b ∧ class_known b);
   ("type", when_body body (λ b, cb_Type b = CapType));
   ("owner", owner ≠ [] ∧ when_body body (λ b, cb_Owner b = owner));
   ("epoch", when_body body (epoch_of mbox));
   ("sig", signed_by mbox body sig);
   ("exp", when_body body (in_window now));
   ("proof", when_body body (λ b, ed25519_verify (cb_Holder b) (accessInput (cb_CapID b) d) (ac_Proof a) = true))]%string.

Lemma VerifyAccess_checked a d mbox owner now :
  checked bad (access_checks a d mbox owner now) (λ _, True) (VerifyAccess (Some a) d mbox owner now).
Proof using L.
  unfold access_checks, VerifyAccess. cbn [of_option mbind result_bind].
  destruct (Z.eqb_spec (ac_Kind a) AccessKindCap) as [Hk|Hk]; simpl; [|apply checked_fail; naive_solver].
  destruct (ac_Cap a) as [cap|]; cbn [of_option mbind result_bind]; [|apply checked_fail; naive_solver].
  destruct (Z.eqb_spec (len (slice (cp_Sig cap))) SigLen) as [H1|H1]; simpl; [|apply checked_fail; naive_solver].
  destruct (Z.eqb_spec (len (ac_Proof a)) SigLen) as [H2|H2]; simpl; [|apply checked_fail; naive_solver].
  apply checked_cons; [done|].
  apply checked_bind; [apply decodeCapBody_safe|by intros []|intros e ->; by intros (? & ? & _)|intros b Hb].
  apply checked_refuse; [rewrite known_class_true; symmetry; by apply some_body|intros _].
  apply checked_refuse; [apply (guard_body _ _ _ _ Hb), negb_beqb_false|intros _].
  apply checked_refuse; [rewrite orb_false_iff, beqb_false; by rewrite (when_body_Ok _ _ _ Hb), negb_beqb_false|intros _].
  apply checked_refuse; [apply (guard_body _ _ _ _ Hb), epoch_true|intros _]. apply checked_sig. intros _.
  apply checked_refuse; [apply (guard_body _ _ _ _ Hb); by eapply in_window_true|intros _].
  unfold ed25519_Verify. rewrite (bo_holder _ (decodeCapBody_body _ _ Hb)), Z.eqb_refl. cbn [mbind result_bind].
  apply checked_refuse; [apply (guard_body _ _ _ _ Hb), negb_false_iff|intros _]. by apply checked_Ok.
Qed.

(** C17: the hub admits a delivery exactly when every check of the capability holds: a well-formed body
    of this type and a known class, issued by the recipient, in the epoch and under the signature of
    its current mailbox key, inside its window as integers (no sum wraps at either end), and a proof
    by the capability's holder over the digest of this envelope.  Otherwise it fails, never by a panic,
    at the first check of the list that does not hold, and only then. *)
Theorem capability_admits a d mbox owner now :
  (VerifyAccess (Some a) d mbox owner now = Ok tt ↔ Forall snd (access_checks a d mbox owner now)) ∧
  (∀ step, VerifyAccess (Some a) d mbox owner now = Err (bad step) ↔ first_refusal (access_checks a d mbox owner now) step) ∧
  (∀ e, VerifyAccess (Some a) d mbox owner now = Err e → ∃ step, e = bad step).
Proof using L.
  destruct (checked_decides _ _ _ _ bad_inj (VerifyAccess_checked a d mbox owner now)) as (H1 & H2 & H3).
  split_and!; [|done..]. rewrite <- H1. split; [eauto|]. by intros ([] & -> & _).
Qed.

(** ** The recipient of a grant *)

Lemma checkP2PAddr_safe a : safe (checkP2PAddr a).
Proof.
  unfold checkP2PAddr. safe_step. apply safe_bind; [|intros [host port] _; safe_steps].
  destruct (SplitHostPort a); simpl; [by safe_steps|by intros [=]].
Qed.

Lemma decodeGrant_safe raw : safe (decodeGrant raw).
Proof.
  unfold decodeGrant. repeat (safe_step; auto with safe);
    try (apply optional_safe; intros; repeat (safe_step; auto with safe)).
  - match goal with |- safe (match ?o with Some _ => _ | None => _ end) => destruct o end; [|by safe_steps].
    safe_step. apply checkP2PAddr_safe.
  - unfold rawBool. repeat (safe_step; auto with safe). repeat case_match; by intros [=].
Qed.

(** What holds of the grant and its body, once they decode. *)
Definition when_grant (raw : bytes) (Q : Grant → CapBody → Prop) : Prop :=
  ∀ g b, decodeGrant raw = Ok g → decodeCapBody (slice (cp_Body (gr_Cap g))) = Ok b → Q g b.

Lemma guard_grant raw g b Q (c : bool) :
  decodeGrant raw = Ok g → decodeCapBody (slice (cp_Body (gr_Cap g))) = Ok b →
  (c = false ↔ Q g b) → c = false ↔ when_grant raw Q.
Proof. intros Hg Hb ->. unfold when_grant. rewrite Hg. split; [intros HQ g' b' [= <-]; rewrite Hb; by intros [= <-]|eauto]. Qed.

Definition mbox_of (keys : option EncKeySet) : Mbox := match keys with Some ks => es_Mbox ks | None => mkMbox 0 [] end.

(** The checks of a grant, in order. *)
Definition grant_checks (i : SealedInner) (keys : option EncKeySet) (now : Z) : list (string * Prop) :=
  let raw := slice (in_Grant i) in
  [("decode", ∃ g, decodeGrant raw = Ok g);
   ("body", ∃ g b, decodeGrant raw = Ok g ∧ decodeCapBody (slice (cp_Body (gr_Cap g))) = Ok b);
   ("type", when_grant raw (λ _ b, cb_Type b = CapType));
   ("owner", when_grant raw (λ _ b, cb_Owner b = in_From i));
   ("keys", ∃ ks, keys = Some ks ∧ es_AID ks = in_From i);
   ("epoch", when_grant raw (λ _ b, epoch_of (mbox_of keys) b));
   ("sig", ∀ g, decodeGrant raw = Ok g →
      signed_by (mbox_of keys) (slice (cp_Body (gr_Cap g))) (slice (cp_Sig (gr_Cap g))));
   ("holder", when_grant raw (λ g b, ed25519_public (HolderKey (Some g)) = cb_Holder b));
   ("class", when_grant raw (λ _ b, class_known b));
   ("exp", when_grant raw (λ _ b, in_window now b));
   ("ix", when_grant raw (λ g _, ∀ ix, gr_IX g = Some ix → ix = in_IX i));
   ("p2p", when_grant raw (λ g b, gr_P2P g = None ∨ cb_Class b = CapClassContact ∧ gr_IX g = None));
   ("pay", when_grant raw (λ g _, gr_Pay g = None ∨ gr_IX g = None))]%string.

Lemma CheckGrant_checked i keys now :
  checked bad (grant_checks i keys now)
    (λ r, decodeGrant (slice (in_Grant i)) = Ok r.1 ∧ decodeCapBody (slice (cp_Body (gr_Cap r.1))) = Ok r.2)
    (CheckGrant (Some i) keys now).
Proof using L.
  unfold grant_checks, CheckGrant. cbn [of_option mbind result_bind].
  set (raw := slice (in_Grant i)).
  apply checked_bind; [apply decodeGrant_safe|by intros []|intros e ->; by intros [? ?]|intros g Hg].
  apply checked_cons; [by exists g|].
  apply checked_bind; [apply decodeCapBody_safe|by intros []| |intros b Hb].
  { intros e He (g' & b & Hg' & Hb). rewrite Hg in Hg'. injection Hg' as <-. congruence. }
  apply checked_cons; [by exists g, b|].
  apply checked_refuse; [apply (guard_grant _ _ _ _ _ Hg Hb), negb_beqb_false|intros _].
  apply checked_refuse; [apply (guard_grant _ _ _ _ _ Hg Hb), negb_beqb_false|intros _].
  apply checked_option; [intros -> (? & ? & _); done|intros ks ->]. cbn [mbox_of].
  apply checked_refuse; [rewrite negb_beqb_false; split; [eauto|by intros (? & [= <-] & ?)]|intros _].
  apply checked_refuse; [apply (guard_grant _ _ _ _ _ Hg Hb), epoch_true|intros _].
  match goal with |- checked _ ((_, ?Q) :: ?l) ?R ?r =>
    assert (checked bad (("sig"%string, signed_by (es_Mbox ks) (slice (cp_Body (gr_Cap g))) (slice (cp_Sig (gr_Cap g)))) :: l) R r) as Hc
  end.
  2: { eapply checked_iff; [|exact Hc]. split; [|eauto]. intros Hs g' Hg'. rewrite Hg in Hg'. by injection Hg' as <-. }
  apply checked_sig. intros _.
  apply checked_refuse; [apply (guard_grant _ _ _ _ _ Hg Hb), negb_beqb_false|intros _].
  apply checked_refuse; [apply (guard_grant _ _ _ _ _ Hg Hb), known_class_true|intros _].
  apply checked_refuse; [apply (guard_grant _ _ _ _ _ Hg Hb); by eapply in_window_true|intros _].
  apply checked_refuse.
  { apply (guard_grant _ _ _ _ _ Hg Hb). destruct (gr_IX g) as [ix|]; [|by split; [intros _ ? [=]|]].
    rewrite negb_beqb_false. split; [by intros -> ? [= <-]|eauto]. }
  intros _. unfold grantPlacement.
  match goal with |- context [if ?c then Some "p2p"%string else _] => destruct c eqn:Hp end.
  - apply checked_fail. intros Hq. apply andb_true_iff in Hp as [H1%bool_decide_eq_true Hp].
    destruct (Hq g b Hg Hb) as [E|[E1 E2]]; [rewrite E in H1; by destruct H1|].
    rewrite E1, E2, Z.eqb_refl in Hp. simpl in Hp. done.
  - apply checked_cons.
    { refine (proj1 (guard_grant _ _ _ _ _ Hg Hb _) Hp).
      destruct (gr_P2P g) as [p|], (gr_IX g) as [x|], (Z.eqb_spec (cb_Class b) CapClassContact); simpl; naive_solver. }
    destruct (bool_decide (is_Some (gr_Pay g)) && bool_decide (is_Some (gr_IX g))) eqn:Hy.
    + apply checked_fail. intros Hq. apply andb_true_iff in Hy as [H1%bool_decide_eq_true H2%bool_decide_eq_true].
      destruct (Hq g b Hg Hb) as [E|E]; rewrite E in *; [by destruct H1|by destruct H2].
    + apply checked_cons; [|by apply checked_Ok].
      refine (proj1 (guard_grant _ _ _ _ _ Hg Hb _) Hy).
      destruct (gr_Pay g), (gr_IX g); simpl; naive_solver.
Qed.

(** A grant is kept exactly when every check holds, and otherwise fails, never by a panic, at the
    first check of the list that does not hold, and only then; what is kept is the grant the message
    carries and the decoded body of its capability. *)
Theorem grants_kept i keys now :
  ((∃ g b, CheckGrant (Some i) keys now = Ok (g, b) ∧ decodeGrant (slice (in_Grant i)) = Ok g ∧
      decodeCapBody (slice (cp_Body (gr_Cap g))) = Ok b) ↔ Forall snd (grant_checks i keys now)) ∧
  (∀ step, CheckGrant (Some i) keys now = Err (bad step) ↔ first_refusal (grant_checks i keys now) step) ∧
  (∀ e, CheckGrant (Some i) keys now = Err e → ∃ step, e = bad step).
Proof using L.
  destruct (checked_decides _ _ _ _ bad_inj (CheckGrant_checked i keys now)) as (H1 & H2 & H3).
  split_and!; [|done..]. rewrite <- H1. split; [intros (g & b & ? & ? & ?); by exists (g, b)|].
  intros ([g b] & ? & ? & ?). by exists g, b.
Qed.

(** ** From the issuer to the hub *)

Lemma checkIssue_Ok b :
  checkIssue b = Ok tt → cb_Type b = CapType ∧ cb_Owner b ≠ [] ∧ cb_Epoch b ≠ 0 ∧ len (cb_CapID b) = CapIDLen ∧
    class_known b ∧ len (cb_Holder b) = PublicKeySize ∧ SmallOrderKey (cb_Holder b) = false.
Proof.
  unfold checkIssue. intros R. apply refuse_Ok in R as [R1%negb_beqb_false R].
  apply refuse_Ok in R as [[R2%beqb_false _]%orb_false_iff R]. apply refuse_Ok in R as [R3%Z.eqb_neq R].
  apply refuse_Ok in R as [R4%negb_Zeqb_false R]. apply refuse_Ok in R as [R5%known_class_true R].
  apply refuse_Ok in R as [_ R]. apply refuse_Ok in R as [R6%negb_Zeqb_false R]. by apply refuse_Ok in R as [R7 _].
Qed.

Lemma SignCap_Ok mk b cap :
  SignCap mk (Some b) = Ok cap → ∃ enc, cap = mkCap (Some enc) (Some (ed25519_sign mk enc)) ∧
    decodeCapBody enc = Ok (with_cap_type b) ∧ checkIssue (with_cap_type b) = Ok tt.
Proof using L.
  unfold SignCap. intros R. apply bind_Ok in R as (b' & [= <-]%of_option_Ok & R). apply refuse_Ok in R as [_ R].
  apply bind_Ok in R as ([] & Hi%map_err_Ok & R). apply bind_Ok in R as (enc & He%map_err_Ok & [= <-]).
  exists enc. split_and!; [done| |done]. apply checkIssue_Ok in Hi as (_ & _ & _ & ? & _ & ? & ?). by apply decodeCapBody_Ok.
Qed.

Lemma decodeGrant_seed raw g : decodeGrant raw = Ok g → len (gr_HolderSeed g) = SeedSize.
Proof.
  unfold decodeGrant. intros R. apply bind_Ok in R as (m & _ & R). apply refuse_Ok in R as [_ R].
  apply bind_Ok in R as (? & _ & R). apply bind_Ok in R as (? & _ & R). apply bind_Ok in R as (seed & _ & R).
  apply refuse_Ok in R as [Hs%negb_Zeqb_false R]. apply bind_Ok in R as (? & _ & R). apply refuse_Ok in R as [_ R].
  do 4 (apply bind_Ok in R as (? & _ & R)). by injection R as <-.
Qed.

Lemma grantPlacement_None g b :
  grantPlacement g b = None →
  (gr_P2P g = None ∨ cb_Class b = CapClassContact ∧ gr_IX g = None) ∧ (gr_Pay g = None ∨ gr_IX g = None).
Proof.
  unfold grantPlacement. destruct (gr_P2P g), (gr_IX g), (gr_Pay g), (Z.eqb_spec (cb_Class b) CapClassContact); simpl; try done; auto.
Qed.

Lemma grant_Marshal_Ok g gb :
  grant_Marshal (Some g) = Ok gb → ∃ b, decodeGrant gb = Ok g ∧ decodeCapBody (slice (cp_Body (gr_Cap g))) = Ok b ∧
    ed25519_public (HolderKey (Some g)) = cb_Holder b ∧ grantPlacement g b = None.
Proof using L.
  unfold grant_Marshal. intros R. apply bind_Ok in R as (g0 & [= <-]%of_option_Ok & R).
  apply bind_Ok in R as (x & Hx%map_err_Ok & R). apply bind_Ok in R as (d & Hd%map_err_Ok & R).
  pose proof (decodeGrant_item _ _ _ Hx Hd) as ->. apply bind_Ok in R as (b & Hb%map_err_Ok & R).
  apply bind_Ok in R as ([] & _ & R). apply refuse_Ok in R as [Hh%negb_beqb_false R].
  destruct (grantPlacement g b) eqn:E; [done|]. injection R as <-. eauto.
Qed.

(** An honest issuer: its mailbox key, the body it signed, the grant, the bytes of the grant. *)
Record issues (mk : bytes) (b : CapBody) (g : Grant) (gb : bytes) : Prop := {
  is_key : key_ok mk;
  is_point : SmallOrderKey (ed25519_public mk) = false;
  is_cap : SignCap mk (Some b) = Ok (gr_Cap g);
  is_grant : grant_Marshal (Some g) = Ok gb;
}.

Definition delivery (g : Grant) (b : CapBody) (d : bytes) : Access :=
  mkAccess AccessKindCap (Some (gr_Cap g)) (SignAccess (HolderKey (Some g)) (cb_CapID b) d).

Section Issued.
Context {PL : PlatformLaws P} (mk : bytes) (b : CapBody) (g : Grant) (gb : bytes) (Hi : issues mk b g gb).

Lemma public_length k : key_ok k → len (ed25519_public k) = PublicKeySize.
Proof using PL. intros (seed & Hs & ->). unfold ed25519_public, len. rewrite length_drop, ed25519_key_length; done. Qed.

Lemma sign_length k m : key_ok k → len (ed25519_sign k m) = SigLen.
Proof using PL. intros Hk. unfold len. by rewrite ed25519_sign_length. Qed.

(** What the issuer made, as its recipients read it. *)
Lemma issued : ∃ enc, gr_Cap g = mkCap (Some enc) (Some (ed25519_sign mk enc)) ∧
  decodeCapBody enc = Ok (with_cap_type b) ∧ checkIssue (with_cap_type b) = Ok tt ∧ decodeGrant gb = Ok g ∧
  ed25519_public (HolderKey (Some g)) = cb_Holder b ∧ key_ok (HolderKey (Some g)) ∧
  grantPlacement g (with_cap_type b) = None ∧ signed_by (mkMbox (cb_Epoch b) (ed25519_public mk)) enc (ed25519_sign mk enc).
Proof using L PL Hi.
  destruct Hi as [Hk Hp Hc Hg]. apply SignCap_Ok in Hc as (enc & Ec & Hd & Hiss).
  apply grant_Marshal_Ok in Hg as (b' & Hg & Hb' & Hh & Hpl). rewrite Ec in Hb'. simpl in Hb'. rewrite Hd in Hb'. injection Hb' as <-.
  exists enc. split_and!; try done.
  - unfold HolderKey. rewrite (decodeGrant_seed _ _ Hg), Z.eqb_refl. exists (gr_HolderSeed g). split; [|done].
    pose proof (decodeGrant_seed _ _ Hg). unfold len, SeedSize in *. lia.
  - split_and!; [by apply public_length|done|by apply ed25519_sign_verify].
Qed.

Lemma issued_kept i ks now :
  in_Grant i = Some gb → in_From i = cb_Owner b → (∀ ix, gr_IX g = Some ix → ix = in_IX i) →
  es_AID ks = cb_Owner b → es_Mbox ks = mkMbox (cb_Epoch b) (ed25519_public mk) → in_window now b →
  CheckGrant (Some i) (Some ks) now = Ok (g, with_cap_type b).
Proof using L PL Hi.
  intros H1 H2 H3 H4 H5 H6. destruct issued as (enc & Ec & Hd & (T & _ & Z0 & _ & Cl & _)%checkIssue_Ok & Hg & Hh & _ & Hp & Hs).
  apply grantPlacement_None in Hp as [Hp Hy].
  destruct (checked_decides _ _ _ _ bad_inj (CheckGrant_checked i (Some ks) now)) as ((_ & Hok) & _).
  destruct Hok as ([g' b'] & E & Eg & Eb).
  - unfold grant_checks. rewrite H1. change (slice (Some gb)) with gb. cbn [mbox_of]. rewrite H5.
    assert (∀ Q : Grant → CapBody → Prop, Q g (with_cap_type b) → when_grant gb Q) as Hw.
    { intros Q HQ g' b' Hg' Hb'. rewrite Hg in Hg'. injection Hg' as <-. rewrite Ec in Hb'. simpl in Hb'. rewrite Hd in Hb'.
      by injection Hb' as <-. }
    repeat (apply Forall_cons; split; cbn [fst snd]); try (apply Hw); try done; eauto.
    + exists g, (with_cap_type b). by rewrite Ec.
    + exists ks. by rewrite H4.
    + intros g' Hg'. rewrite Hg in Hg'. injection Hg' as <-. by rewrite Ec.
  - rewrite E. simpl in Eg, Eb. rewrite H1 in Eg. simpl in Eg. rewrite Hg in Eg. injection Eg as <-.
    rewrite Ec in Eb. simpl in Eb. rewrite Hd in Eb. by injection Eb as <-.
Qed.

Lemma issued_delivers d mbox owner now :
  in_window now b →
  let r := VerifyAccess (Some (delivery g b d)) d mbox owner now in
  (mbox = mkMbox (cb_Epoch b) (ed25519_public mk) → owner = cb_Owner b → r = Ok tt) ∧
  (owner = cb_Owner b → mb_Epoch mbox ≠ cb_Epoch b → r = Err (bad "epoch")) ∧
  (owner ≠ cb_Owner b → r = Err (bad "owner")).
Proof using L PL Hi.
  intros Hw r. destruct issued as (enc & Ec & Hd & Hiss & Hg & Hh & Hk & _ & Hs).
  apply checkIssue_Ok in Hiss as (T & O & Z0 & Il & Cl & _).
  destruct (checked_decides _ _ _ _ bad_inj (VerifyAccess_checked (delivery g b d) d mbox owner now)) as (Hok & Hbad & _).
  assert (∀ Q : CapBody → Prop, when_body enc Q ↔ Q (with_cap_type b)) as Hb by (intros Q; by apply when_body_Ok).
  assert (len (SignAccess (HolderKey (Some g)) (cb_CapID b) d) = SigLen ∧
          ed25519_verify (cb_Holder b) (accessInput (cb_CapID b) d) (SignAccess (HolderKey (Some g)) (cb_CapID b) d) = true)
    as [P1 P2].
  { assert (len (HolderKey (Some g)) = PrivateKeySize) as Hl.
    { destruct Hk as (seed & Hsl & ->). unfold len. by rewrite ed25519_key_length. }
    unfold SignAccess. rewrite Hl. cbn [with_cap_type cb_CapID] in Il. rewrite Il.
    split; [by apply sign_length|]. rewrite <- Hh. by apply ed25519_sign_verify. }
  assert (ac_Kind (delivery g b d) = AccessKindCap ∧ ac_Cap (delivery g b d) ≠ None ∧
          len (slice (cp_Sig (gr_Cap g))) = SigLen ∧ len (ac_Proof (delivery g b d)) = SigLen) as Hparse.
  { split_and!; [done|done| |done]. rewrite Ec. apply sign_length, Hi. }
  unfold access_checks in Hok, Hbad. cbn [ac_Cap delivery] in Hok, Hbad. rewrite Ec in Hok, Hbad. cbn [cp_Sig cp_Body slice default] in Hok, Hbad.
  rewrite Ec in Hparse. split_and!.
  - intros -> ->. destruct (proj2 Hok) as ([] & E & _); [|exact E]. repeat (apply Forall_cons; split; cbn [fst snd]); rewrite ?Hb; try done.
    + destruct Hparse as (? & _ & ? & ?). by split_and!.
    + by exists (with_cap_type b).
  - intros -> Hne. apply Hbad.
    destruct Hparse as (Hp1 & _ & Hp2 & Hp3).
    repeat (apply refusal_later; [first [done | by split_and! | by exists (with_cap_type b) | split; [done|]; by rewrite Hb | by rewrite Hb]|]).
    apply refusal_here. rewrite Hb. intros [_ E]. simpl in E. congruence.
  - intros Hne. apply Hbad.
    destruct Hparse as (Hp1 & _ & Hp2 & Hp3).
    repeat (apply refusal_later; [first [done | by split_and! | by exists (with_cap_type b) | by rewrite Hb]|]).
    apply refusal_here. rewrite Hb. intros [_ E]. simpl in E. congruence.
Qed.
End Issued.

(** C3: a granted capability delivers.  When an owner signs a capability with its mailbox key and sends
    it in a grant, a recipient that holds the owner's key set keeps the grant at any time in the
    capability's window, and can then deliver: on whatever envelope it sets the credential it makes
    with the granted seed, the envelope parses with that credential, its digest is the one signed, and
    the hub admits it for the owner, under the mailbox key it publishes, at any time in the window.
    Once the owner's mailbox key has another epoch the delivery fails at [epoch], and for any other
    owner it fails at [owner]. *)
Theorem granted_capability_delivers {PL : PlatformLaws P} mk b g gb i ks now :
  issues mk b g gb → in_Grant i = Some gb → in_From i = cb_Owner b → (∀ ix, gr_IX g = Some ix → ix = in_IX i) →
  es_AID ks = cb_Owner b → es_Mbox ks = mkMbox (cb_Epoch b) (ed25519_public mk) → in_window now b →
  CheckGrant (Some i) (Some ks) now = Ok (g, with_cap_type b) ∧
  ∀ env d out later, EnvDigest env = Ok d → in_window later b → SetAccess env (Some (delivery g b d)) = Ok out →
    ∃ e, ParseOuter out = Ok e ∧ EnvDigest out = Ok d ∧
      VerifyAccess (oe_Access e) d (es_Mbox ks) (cb_Owner b) later = Ok tt ∧
      (∀ mbox, mb_Epoch mbox ≠ cb_Epoch b →
        VerifyAccess (oe_Access e) d mbox (cb_Owner b) later = Err (bad "epoch")) ∧
      (∀ mbox owner, owner ≠ cb_Owner b → VerifyAccess (oe_Access e) d mbox owner later = Err (bad "owner")).
Proof using L.
  intros Hi H1 H2 H3 H4 H5 Hw. split; [by eapply issued_kept|]. intros env d out later Hd Hl Hs.
  destruct (SetAccess_parses env (delivery g b d) out) as (e & He & Ea); [done..|]. exists e. rewrite Ea, H5.
  rewrite (EnvDigest_SetAccess _ _ _ Hs). split_and!; [done|done|..].
  - by eapply issued_delivers.
  - intros mbox. by eapply issued_delivers.
  - intros mbox owner. by eapply issued_delivers.
Qed.
End Theorems.
