(* ===== verification/AccessSamples.v ===== *)
(** * AccessSamples: one capability, granted and used *)

From S2P Require Import Prelude Checks Platform Aid Kel KelReference Controller Fields Envelope EnvelopeTheorems EncKeys Access AccessFacts AccessTheorems EnvelopeReference SealSamples.
Import Light.

Definition mbox_key : bytes := sample_key 21.
Definition granted_body : CapBody :=
  mkCapBody [] (c_aid sealer) 1 (repeat 6 16) CapClassContact 1760086400000 (sample_pub 22).
Definition granted_cap : Cap := Eval vm_compute in get (mkCap None None) (SignCap mbox_key (Some granted_body)).
Definition sample_grant : Grant :=
  Eval vm_compute in mkGrant granted_cap (repeat 22 32) (c_aid receiver) None (Some (str "10.0.0.7:4001")) (Some true).
Definition grant_bytes : bytes := Eval vm_compute in get [] (grant_Marshal (Some sample_grant)).

Lemma sample_issues : issues mbox_key granted_body sample_grant grant_bytes.
Proof.
  constructor; [exists (repeat 21 32); by rewrite repeat_length|vm_compute; reflexivity..].
Qed.

Definition granting_inner : SealedInner :=
  Eval vm_compute in
  mkSealedInner (c_aid sealer) 0 (c_aid receiver) (str "anet.message/1") (str "ix-7") (repeat 5 16)
    1760000300000 1760000900000 (str "hello") None [] None (Some grant_bytes) None [] ∅.
Definition sealer_keys : EncKeySet :=
  Eval vm_compute in mkEncKeySet EncKeySetType (c_aid sealer) 1 [] 1760000000000 (mkMbox 1 (ed25519_public mbox_key)).

Lemma granting_facts :
  in_From granting_inner = cb_Owner granted_body ∧ es_AID sealer_keys = cb_Owner granted_body ∧
  es_Mbox sealer_keys = mkMbox (cb_Epoch granted_body) (ed25519_public mbox_key).
Proof. split_and!; vm_compute; reflexivity. Qed.
Lemma granted_no_ix ix : gr_IX sample_grant = Some ix → ix = in_IX granting_inner.
Proof. by intros [=]. Qed.
Lemma granted_window : in_window 1760000300000 granted_body.
Proof. unfold in_window, granted_body, CapExpGraceMS, CapExpMaxAheadMS, dayMS, hourMS, minuteMS. cbn [cb_CapExp]. lia. Qed.

(** An envelope that will carry the credential, and what it is then. *)
Definition plain_digest : bytes := Eval vm_compute in get [] (EnvDigest sample_delivered).
Definition granted_delivery : bytes :=
  Eval vm_compute in get [] (SetAccess sample_delivered (Some (delivery sample_grant granted_body plain_digest))).
Lemma delivery_set :
  EnvDigest sample_delivered = Ok plain_digest ∧
  SetAccess sample_delivered (Some (delivery sample_grant granted_body plain_digest)) = Ok granted_delivery.
Proof. split; vm_compute; reflexivity. Qed.

Lemma granted_capability_delivers_witness :
  ∃ e, ParseOuter granted_delivery = Ok e ∧ EnvDigest granted_delivery = Ok plain_digest ∧
    VerifyAccess (oe_Access e) plain_digest (es_Mbox sealer_keys) (cb_Owner granted_body) 1760000300000 = Ok tt.
Proof.
  destruct granting_facts as (F1 & F2 & F3).
  destruct (proj2 (granted_capability_delivers mbox_key granted_body sample_grant grant_bytes granting_inner sealer_keys
    1760000300000 sample_issues eq_refl F1 granted_no_ix F2 F3 granted_window)
    sample_delivered plain_digest granted_delivery 1760000300000 (proj1 delivery_set) granted_window (proj2 delivery_set))
    as (e & H1 & H2 & H3 & _).
  exact (ex_intro _ e (conj H1 (conj H2 H3))).
Defined.

(** Each step of the hub's check is reached. *)
Definition verify_at (a : Access) (d : bytes) (mbox : Mbox) (owner : bytes) (now : Z) : string :=
  match VerifyAccess (Some a) d mbox owner now with Err (Typed _ step) => step | _ => "" end.
Example every_step :
  let a := delivery sample_grant granted_body plain_digest in let now := 1760000300000 in
  let m := es_Mbox sealer_keys in let o := c_aid sealer in
  [verify_at (mkAccess 0 None []) plain_digest m o now; verify_at (mkAccess 1 (Some (mkCap (Some [1]) (cp_Sig granted_cap))) (ac_Proof a)) plain_digest m o now;
   verify_at a plain_digest m (c_aid receiver) now; verify_at a plain_digest (mkMbox 2 (mb_Pub m)) o now;
   verify_at a plain_digest (mkMbox 1 (sample_pub 22)) o now; verify_at a plain_digest m o (now + 86400000 * 2);
   verify_at a (repeat 0 32) m o now; verify_at a plain_digest m o now]
  = ["parse"; "decode"; "owner"; "epoch"; "sig"; "exp"; "proof"; ""]%string.
Proof. vm_compute. reflexivity. Qed.

(** The owner named is another: the hub's check stops at that step. *)
Lemma capability_admits_witness :
  Forall snd (access_checks (delivery sample_grant granted_body plain_digest) plain_digest (es_Mbox sealer_keys) (c_aid sealer) 1760000300000) ∧
  first_refusal (access_checks (delivery sample_grant granted_body plain_digest) plain_digest (es_Mbox sealer_keys) (c_aid receiver) 1760000300000)
    "owner".
Proof.
  assert (VerifyAccess (Some (delivery sample_grant granted_body plain_digest)) plain_digest (es_Mbox sealer_keys) (c_aid sealer)
            1760000300000 = Ok tt ∧
          VerifyAccess (Some (delivery sample_grant granted_body plain_digest)) plain_digest (es_Mbox sealer_keys) (c_aid receiver)
            1760000300000 = Err (bad "owner")) as [V1 V2] by (split; vm_compute; reflexivity).
  exact (conj
    (proj1 (proj1 (capability_admits (delivery sample_grant granted_body plain_digest) plain_digest (es_Mbox sealer_keys) (c_aid sealer)
                     1760000300000)) V1)
    (proj1 (proj1 (proj2 (capability_admits (delivery sample_grant granted_body plain_digest) plain_digest (es_Mbox sealer_keys)
                            (c_aid receiver) 1760000300000)) "owner"%string) V2)).
Defined.

Lemma grants_kept_witness : Forall snd (grant_checks granting_inner (Some sealer_keys) 1760000300000).
Proof.
  assert (match CheckGrant (Some granting_inner) (Some sealer_keys) 1760000300000 with
          | Ok (g, b) => decodeGrant (slice (in_Grant granting_inner)) = Ok g ∧ decodeCapBody (slice (cp_Body (gr_Cap g))) = Ok b
          | Err _ => False end) as V by (vm_compute; split; reflexivity).
  apply (proj1 (proj1 (grants_kept granting_inner (Some sealer_keys) 1760000300000))).
  destruct (CheckGrant (Some granting_inner) (Some sealer_keys) 1760000300000) as [[g b]|e]; [|destruct V].
  exact (ex_intro _ g (ex_intro _ b (conj eq_refl V))).
Defined.
