(* ===== verification/EncKeysTheorems.v ===== *)
(** * EncKeysTheorems: which key sets are believed, and which key is sealed to *)

From S2P Require Import Prelude Checks Platform Aid Kel KelSpec KelFacts KelProps Controller ControllerInv ControllerTheorems IdFile Notice Fields FieldsFacts Envelope EnvelopeFacts EnvelopeTheorems EncKeys AccessFacts.

(** A key set encodes as the map of its members, the type first; it is read back by the strict decoder. *)
Class SetCodec `{I : Items} (CS : Coredet EncKeySet) (DS : Strict EncKeySet) : Prop := {
  set_members s b : marshal s = Some b →
    ∃ m t, items m ∧ marshal_fields m = Some b ∧ (∀ k, is_Some (m !! k) ↔ k ∈ encKeySetKeys) ∧
      marshal_text (es_Type s) = Some t ∧ m !! 0 = Some t;
  set_read s b : marshal s = Some b → unmarshal b = Some s;
}.

Section KeySets.
Context `{P : Platform} `{I : Items} {L : ItemsLaws I}.
Context `{CE : Coredet KeyEvent} `{CS : Coredet EncKeySet} `{DS : Strict EncKeySet} {SC : SetCodec CS DS}.

Lemma checkStructure_type s : checkStructure s = Ok tt → es_Type s = EncKeySetType.
Proof. unfold checkStructure. intros R. by apply refuse_Ok in R as [E%negb_beqb_false _]. Qed.

Lemma decodeEncKeySet_marshal s b : es_Type s = EncKeySetType → marshal s = Some b → decodeEncKeySet b = Ok s.
Proof using L SC.
  intros Ht Hb. destruct (set_members _ _ Hb) as (m & t & Hi & Hm & Hk & Htx & H0).
  unfold decodeEncKeySet. rewrite (proj2 (decodeFields_Ok _ _) (conj Hi Hm)). cbn [map_err mbind result_bind].
  rewrite H0. rewrite (bool_decide_true (unmarshal_text t = Some EncKeySetType)) by (rewrite <- Ht; by apply text_inv).
  cbn [negb]. unfold firstUnknownKey. rewrite (proj2 (no_least_key _ _)).
  2: { intros k Hk'%Hk. unfold encKeySetKeys in *. apply Z.leb_gt. set_unfold. unfold len. simpl. lia. }
  replace (existsb (λ k, negb (has m k)) encKeySetKeys) with false.
  2: { symmetry. apply existsb_false, Forall_forall. intros k Hk'%Hk. apply negb_false_iff. unfold has. by apply bool_decide_true. }
  unfold UnmarshalStrict, Marshal. rewrite (set_read _ _ Hb). cbn [of_option map_err mbind result_bind]. rewrite Hb.
  cbn [of_option map_err mbind result_bind]. by rewrite beqb_refl.
Qed.

(** ** Which sets are accepted *)

Record key_set_ok (sg : SignedEncKeySet) (aid : bytes) (kel : list SignedEvent) (now : Z) (set : EncKeySet)
  (se : SignedEvent) (k : bytes) : Prop := {
  kso_decodes : decodeEncKeySet (sk_Set sg) = Ok set;
  kso_owner : es_AID set = aid;
  kso_sig : len (sk_Sig sg) = SigLen;
  kso_object : object_ok kel aid (sk_KeyStateSeq sg) now (sk_Set sg) (sk_Sig sg) se k;
  kso_current : last kel = Some se ∧ length kel = S (Z.to_nat (sk_KeyStateSeq sg));
  kso_structure : checkStructure set = Ok tt;
  kso_time : checkValidAt set now = Ok tt;
}.

Lemma last_state kel sts se0 se :
  replay kel = Ok sts → head kel = Some se0 → last kel = Some se → ke_Type (se_Event se) ≠ Deactivation →
  ∃ ks, last sts = Some ks ∧ sts !! pred (length kel) = Some ks ∧ ks_AID ks = se_EventID se0 ∧ ks_Status ks = StatusActive.
Proof.
  intros Hr Hh Hl Ha. pose proof (replay_length _ _ Hr) as Hn. rewrite last_lookup in Hl.
  destruct (replay_describes _ _ _ _ _ Hr Hh Hl) as (ks & Hks & [D1 _ _ _ D5 _ _]).
  exists ks. rewrite last_lookup, Hn. split_and!; [done..|]. rewrite D5. apply beqb_false in Ha. rewrite Ha.
  destruct (kel !! S (pred (length kel))) eqn:E; [|done]. apply lookup_lt_Some in E. destruct kel; simpl in *; lia.
Qed.

Lemma VerifyEncKeySet_Ok sg aid kel now set :
  0 <= sk_KeyStateSeq sg →
  VerifyEncKeySet (Some sg) aid kel now = Ok set ↔ ∃ se k, key_set_ok sg aid kel now set se k.
Proof.
  intros H0. unfold VerifyEncKeySet, Replay. cbn [of_option mbind result_bind].
  destruct statuses_distinct as (SA & SB & SCd & SD). split.
  - intros R. apply bind_Ok in R as (s & Hd & R). apply bind_Ok in R as (sts & Hr%map_err_Ok & R).
    apply bind_Ok in R as (fin & Hf%of_option_Ok & R). apply refuse_Ok in R as [Ha%negb_beqb_false R].
    apply refuse_Ok in R as [Ho%negb_beqb_false R]. apply refuse_Ok in R as [Hs%negb_Zeqb_false R].
    apply refuse_Ok in R as [Hlt%Z.leb_gt R]. apply refuse_Ok in R as [_ R].
    apply bind_Ok in R as (ks & Hks%of_option_Ok & R). apply refuse_Ok in R as [Hact%negb_beqb_false R].
    apply bind_Ok in R as ([] & Hv%map_err_Ok & R). apply bind_Ok in R as ([] & Hst & R). apply bind_Ok in R as ([] & Hva & [= ->]).
    apply VerifyObject_spec in Hv as (se & k & Hob); [|done]. exists se, k. constructor; try done.
    pose proof (o_event _ _ _ _ _ _ _ _ Hob) as He. destruct (replay_head _ _ Hr) as [se0 Hh].
    destruct (replay_describes _ _ _ _ _ Hr Hh He) as (ks' & Hks' & [_ _ _ _ D5 _ _]). rewrite Hks in Hks'. injection Hks' as <-.
    pose proof (o_alive _ _ _ _ _ _ _ _ Hob) as Hal%beqb_false. rewrite Hal, Hact in D5.
    destruct (kel !! S (Z.to_nat (sk_KeyStateSeq sg))) as [n|] eqn:En; [exfalso; apply beqb_false in SD; congruence|].
    apply lookup_ge_None in En. pose proof (lookup_lt_Some _ _ _ He). rewrite last_lookup.
    assert (length kel = S (Z.to_nat (sk_KeyStateSeq sg))) as E by lia. by rewrite E.
  - intros (se & k & [Hd Ho Hs Hob [Hl Hn] Hst Hva]). rewrite Hd. cbn [mbind result_bind].
    pose proof (o_replays _ _ _ _ _ _ _ _ Hob) as [sts Hr]%replay_is_Ok. rewrite Hr. cbn [map_err mbind result_bind].
    destruct (replay_head _ _ Hr) as [se0 Hh].
    destruct (last_state _ _ _ _ Hr Hh Hl (o_alive _ _ _ _ _ _ _ _ Hob)) as (ks & H1 & H2 & H3 & H4).
    rewrite H1. cbn [of_option mbind result_bind]. pose proof (o_aid _ _ _ _ _ _ _ _ Hob) as Ha. rewrite Hh in Ha.
    injection Ha as Ha. rewrite H3, Ha, Ho, beqb_refl, Hs, Z.eqb_refl. cbn [negb].
    pose proof (replay_length _ _ Hr) as Hln. rewrite (proj2 (Z.leb_gt _ _)) by (unfold len; lia).
    rewrite H4, SA. rewrite Hn in H2. simpl in H2. rewrite H2. cbn [of_option mbind result_bind]. rewrite H4, beqb_refl. cbn [negb].
    rewrite (proj2 (VerifyObject_spec _ _ _ _ _ _ H0)) by eauto. cbn [map_err mbind result_bind]. by rewrite Hst, Hva.
Qed.

(** C18: which key sets are believed.  A set is accepted exactly when its bytes decode, it names the
    expected owner, the log replays to that owner, the signature is by the key of the log's last event,
    which is no [dip], the set is well formed and one of its keys is valid at the time plus the clock
    skew; a set signed under any earlier event is refused, without grace. *)
Theorem key_sets_accepted sg aid kel now set :
  0 <= sk_KeyStateSeq sg →
  (VerifyEncKeySet (Some sg) aid kel now = Ok set ↔ ∃ se k, key_set_ok sg aid kel now set se k) ∧
  (∀ more, more ≠ [] → VerifyEncKeySet (Some sg) aid kel now = Ok set →
    ∀ set' later, VerifyEncKeySet (Some sg) aid (kel ++ more) later ≠ Ok set').
Proof.
  intros H0. split; [by apply VerifyEncKeySet_Ok|].
  intros more Hm (se & k & K)%VerifyEncKeySet_Ok set' later (se' & k' & K')%VerifyEncKeySet_Ok; [|done..].
  pose proof (proj2 (kso_current _ _ _ _ _ _ _ K)) as E1. pose proof (proj2 (kso_current _ _ _ _ _ _ _ K')) as E2.
  rewrite length_app in E2. destruct more; [done|]. simpl in E2. lia.
Qed.

(** ** The key a sender uses *)

Lemma checkKeys_Ok ks : ∀ seen prev,
  checkKeys ks seen prev = Ok tt → Forall (λ k, enckey_check k = Ok tt) ks.
Proof.
  induction ks as [|k ks IH]; intros seen prev R; [constructor|]. simpl in R.
  apply bind_Ok in R as ([] & Hc%map_err_Ok & R). apply refuse_Ok in R as [_ R]. apply refuse_Ok in R as [_ R].
  constructor; [done|]. by eapply IH.
Qed.

Lemma checkStructure_keys s : checkStructure s = Ok tt → Forall (λ k, enckey_check k = Ok tt) (es_Keys s).
Proof.
  unfold checkStructure. intros R. apply refuse_Ok in R as [_ R]. apply refuse_Ok in R as [_ R]. apply refuse_Ok in R as [_ R].
  apply bind_Ok in R as ([] & R & _). by eapply checkKeys_Ok.
Qed.

Lemma enckey_check_kid k : enckey_check k = Ok tt → ek_KID k = KID (ek_Suite k) (ek_Pub k).
Proof.
  unfold enckey_check. intros R. apply refuse_Ok in R as [_ R]. apply refuse_Ok in R as [_ R].
  apply bind_Ok in R as ([] & _ & R). by apply refuse_Ok in R as [E%negb_beqb_false _].
Qed.

Definition usable (k : EncKey) (now : Z) : Prop := Supported (ek_Suite k) = true ∧ ValidAt k now = true.

Lemma not_usable k now : negb (Supported (ek_Suite k)) || negb (ValidAt k now) = true ↔ ¬ usable k now.
Proof. unfold usable. destruct (Supported (ek_Suite k)), (ValidAt k now); simpl; naive_solver. Qed.

(** A loop that keeps the best usable key of a list, by an order on the beginnings. *)
Definition best_of (le : Z → Z → Prop) (now : Z) (ks : list EncKey) (r : option EncKey) : Prop :=
  match r with
  | Some b => b ∈ ks ∧ usable b now ∧ ∀ k, k ∈ ks → usable k now → le (ek_NotBefore k) (ek_NotBefore b)
  | None => ∀ k, k ∈ ks → ¬ usable k now
  end.

Lemma elem_of_snoc {A} (x y : A) xs : x ∈ xs ++ [y] ↔ x ∈ xs ∨ x = y.
Proof. by rewrite elem_of_app, list_elem_of_singleton. Qed.

Lemma best_fold (le : Z → Z → Prop) `{!PreOrder le} now (pick : option EncKey → EncKey → option EncKey) :
  (∀ best k, ¬ usable k now → pick best k = best) → (∀ k, usable k now → pick None k = Some k) →
  (∀ b k, usable k now → pick (Some b) k = Some k ∧ le (ek_NotBefore b) (ek_NotBefore k) ∨
                         pick (Some b) k = Some b ∧ le (ek_NotBefore k) (ek_NotBefore b)) →
  ∀ ks, best_of le now ks (fold_left pick ks None).
Proof.
  clear - PreOrder0.
  intros Hu H0 Hs ks. induction ks as [|k ks IH] using rev_ind; [intros k Hk; by apply elem_of_nil in Hk|].
  rewrite fold_left_app. simpl. destruct (decide (Supported (ek_Suite k) = true ∧ ValidAt k now = true)) as [Hk|Hk].
  - destruct (fold_left pick ks None) as [b|]; simpl in IH.
    + destruct IH as (B1 & B2 & B3). destruct (Hs b k Hk) as [[-> Hle]|[-> Hle]]; simpl.
      * split_and!; [set_solver|done|]. intros k' Hk' Hk''; apply elem_of_snoc in Hk' as [Hk'| ->]; [|done].
        etrans; [by apply B3|done].
      * split_and!; [set_solver|done|]. intros k' Hk' Hk''; apply elem_of_snoc in Hk' as [Hk'| ->]; [by apply B3|done].
    + rewrite (H0 k Hk). simpl. split_and!; [set_solver|done|].
      intros k' Hk' Hk''; apply elem_of_snoc in Hk' as [Hk'| ->]; [by destruct (IH k')|done].
  - rewrite (Hu _ k Hk). destruct (fold_left pick ks None) as [b|]; simpl in *.
    + destruct IH as (B1 & B2 & B3). split_and!; [set_solver|done|].
      intros k' Hk' Hk''; apply elem_of_snoc in Hk' as [Hk'| ->]; [by apply B3|by destruct Hk].
    + intros k' Hk'; apply elem_of_snoc in Hk' as [Hk'| ->]; [by apply IH|done].
Qed.

Lemma latest_best now ks : best_of Z.le now ks (fold_left (latest now) ks None).
Proof.
  apply best_fold; [apply _|..]; unfold latest.
  - intros best k Hk%not_usable. by rewrite Hk.
  - intros k [-> ->]. done.
  - intros b k [-> ->]. simpl. destruct (Z.leb_spec (ek_NotBefore b) (ek_NotBefore k)); [left|right]; split; try done; lia.
Qed.

Lemma earliest_best t ks : best_of Z.ge t ks (fold_left (earliest t) ks None).
Proof.
  apply best_fold; [split; [intros ?; lia|intros ? ? ? ? ?; lia]|..]; unfold earliest.
  - intros best k Hk%not_usable. by rewrite Hk.
  - intros k [-> ->]. done.
  - intros b k [-> ->]. simpl. destruct (Z.ltb_spec (ek_NotBefore k) (ek_NotBefore b)); [left|right]; split; try done; lia.
Qed.

Lemma SelectKey_Ok s now :
  checkStructure s = Ok tt →
  match SelectKey (Some s) now with
  | Ok k => k ∈ es_Keys s ∧ enckey_check k = Ok tt ∧
      (usable k now ∧ (∀ k', k' ∈ es_Keys s → usable k' now → ek_NotBefore k' <= ek_NotBefore k) ∨
       (∀ k', k' ∈ es_Keys s → ¬ usable k' now) ∧ usable k (satAdd now ClockSkewMS) ∧
       ∀ k', k' ∈ es_Keys s → usable k' (satAdd now ClockSkewMS) → ek_NotBefore k <= ek_NotBefore k')
  | Err e => ReasonOf e = ReasonNoUsableKey ∧
      ∀ k, k ∈ es_Keys s → ¬ usable k now ∧ ¬ usable k (satAdd now ClockSkewMS)
  end.
Proof.
  intros Hst%checkStructure_keys. unfold SelectKey. cbn [of_option mbind result_bind].
  assert (∀ k, k ∈ es_Keys s → enckey_check k = Ok tt ∧ NewEncKey (ek_Suite k) (ek_Pub k) (ek_NotBefore k) (ek_NotAfter k) = k) as Hck.
  { intros k Hk. rewrite Forall_forall in Hst. specialize (Hst k Hk). split; [done|]. unfold NewEncKey.
    rewrite <- (enckey_check_kid _ Hst). by destruct k. }
  pose proof (latest_best now (es_Keys s)) as Hl. destruct (fold_left (latest now) (es_Keys s) None) as [k|]; simpl in Hl |- *.
  - destruct Hl as (L1 & L2 & L3). destruct (Hck k L1) as [Hc ->]. auto.
  - pose proof (earliest_best (satAdd now ClockSkewMS) (es_Keys s)) as He.
    destruct (fold_left (earliest _) (es_Keys s) None) as [k|]; simpl in He |- *.
    + destruct He as (L1 & L2 & L3). destruct (Hck k L1) as [Hc ->]. split_and!; [done..|]. right. split_and!; [done..|].
      intros k' Hk Hu. specialize (L3 k' Hk Hu). lia.
    + split; [done|]. auto.
Qed.

(** C35: the key a sender seals to.  Of a well-formed set [SelectKey] returns a member that passes every
    check [Seal] makes of it: the one valid now that begins last, or, when none is valid now, the one
    valid at the end of the clock skew that begins first; and it fails only when no key of a supported
    suite is valid at either moment, so a set accepted at some time whose keys are all of supported
    suites has a key at that time. *)
Theorem selected_key_is_best s now :
  checkStructure s = Ok tt →
  (∀ k, SelectKey (Some s) now = Ok k →
     k ∈ es_Keys s ∧ enckey_check k = Ok tt ∧
     (usable k now ∧ (∀ k', k' ∈ es_Keys s → usable k' now → ek_NotBefore k' <= ek_NotBefore k) ∨
      (∀ k', k' ∈ es_Keys s → ¬ usable k' now) ∧ usable k (satAdd now ClockSkewMS) ∧
      ∀ k', k' ∈ es_Keys s → usable k' (satAdd now ClockSkewMS) → ek_NotBefore k <= ek_NotBefore k')) ∧
  (∀ e, SelectKey (Some s) now = Err e → ReasonOf e = ReasonNoUsableKey ∧
     ∀ k, k ∈ es_Keys s → ¬ usable k now ∧ ¬ usable k (satAdd now ClockSkewMS)) ∧
  (checkValidAt s now = Ok tt → (∀ k, k ∈ es_Keys s → Supported (ek_Suite k) = true) →
     ∃ k, SelectKey (Some s) now = Ok k).
Proof.
  intros Hst. pose proof (SelectKey_Ok s now Hst) as Hk. destruct (SelectKey (Some s) now) as [k|e]; split_and!; try done.
  - by intros k' [= <-].
  - eauto.
  - by intros e' [= <-].
  - intros Hv Hsup. exfalso. unfold checkValidAt in Hv. apply refuse_Ok in Hv as [Hv%negb_false_iff _].
    apply existsb_exists in Hv as (k & Hin & Hva). apply list_elem_of_In in Hin. destruct Hk as [_ Hk].
    destruct (Hk k Hin) as [_ Hn]. apply Hn. split; [by apply Hsup|done].
Qed.

(** ** Published sets *)

Lemma SignEncKeySet_Ok s sign sg :
  SignEncKeySet (Some s) (Some sign) = Ok sg →
  checkStructure s = Ok tt ∧ checkValidAt s (es_IssuedAt s) = Ok tt ∧ marshal s = Some (sk_Set sg) ∧
  sign (sk_Set sg) = (sk_Sig sg, sk_KeyStateSeq sg) ∧ len (sk_Sig sg) = SigLen.
Proof.
  unfold SignEncKeySet. intros R. do 2 apply bind_Ok in R as (? & [= <-]%of_option_Ok & R).
  apply bind_Ok in R as ([] & Hst & R). apply bind_Ok in R as ([] & Hv & R).
  apply bind_Ok in R as (b & Hb%map_err_Ok%of_option_Ok & R). destruct (sign b) as [sig seq] eqn:Hs.
  apply refuse_Ok in R as [Hl%negb_Zeqb_false [= <-]]. done.
Qed.

(** C25: what a live identity publishes is believed, until it rotates.  A set it signs and that names it
    is accepted under its log at every time one of its keys covers, the moment it was issued included;
    once the log has another event, accepted or not by anyone, the same set is refused at any time as
    signed by another key state or by a deactivated identity. *)
Theorem published_keys_are_believed {PL : PlatformLaws P} {CSE : Coredet SignedEvent} c sn s sg :
  speaks c sn → SignEncKeySet (Some s) (Some (snapshot_Sign sn)) = Ok sg → es_AID s = c_aid c → 0 <= sk_KeyStateSeq sg →
  (∀ now, checkValidAt s now = Ok tt → VerifyEncKeySet (Some sg) (c_aid c) (KEL c) now = Ok s) ∧
  VerifyEncKeySet (Some sg) (c_aid c) (KEL c) (es_IssuedAt s) = Ok s ∧
  ∀ more now, more ≠ [] → is_Ok (replay (KEL c ++ more)) = true →
    ∃ e, VerifyEncKeySet (Some sg) (c_aid c) (KEL c ++ more) now = Err e ∧
      (ReasonOf e = ReasonBadKeyState ∨ ReasonOf e = ReasonRevokedKey).
Proof using L SC.
  intros Hsp (Hst & Hi & Hm & Hsg & Hl)%SignEncKeySet_Ok Ha H0.
  destruct (speaks_signs c sn (sk_Set sg) Hsp) as (sig & seq & E & _ & _ & Hv). rewrite Hsg in E. injection E as <- <-.
  pose proof (decodeEncKeySet_marshal _ _ (checkStructure_type _ Hst) Hm) as Hd.
  pose proof (proj1 (VerifyObject_spec _ _ _ _ _ _ H0) (Hv 0)) as (se & k & Ho).
  assert (length (KEL c) = S (Z.to_nat (sk_KeyStateSeq sg))) as Hn.
  { pose proof (lookup_lt_Some _ _ _ (o_event _ _ _ _ _ _ _ _ Ho)) as Hlt.
    destruct (KEL c !! S (Z.to_nat (sk_KeyStateSeq sg))) as [n|] eqn:En.
    - by destruct (o_time _ _ _ _ _ _ _ _ Ho n En).
    - apply lookup_ge_None in En. lia. }
  assert (∀ now, checkValidAt s now = Ok tt → VerifyEncKeySet (Some sg) (c_aid c) (KEL c) now = Ok s) as Hall.
  { intros now Hva. apply VerifyEncKeySet_Ok; [done|].
    pose proof (proj1 (VerifyObject_spec _ _ _ _ _ _ H0) (Hv now)) as (se' & k' & Ho'). exists se', k'.
    constructor; try done. split; [|done]. rewrite last_lookup, Hn. apply Ho'. }
  split_and!; [done|by apply Hall|]. intros more now Hmore [sts Hr]%replay_is_Ok.
  unfold VerifyEncKeySet, Replay. cbn [of_option mbind result_bind]. rewrite Hd, Hr. cbn [map_err mbind result_bind].
  destruct (replay_last _ _ Hr) as (sl & fin & Hsl & Hf). destruct (replay_head _ _ Hr) as [se0 Hh].
  rewrite Hf. cbn [of_option mbind result_bind]. rewrite (replay_last_aid _ _ _ _ Hr Hf Hh).
  pose proof (o_aid _ _ _ _ _ _ _ _ Ho) as Haid.
  assert (head (KEL c ++ more) = head (KEL c)) as Hhd by (destruct (KEL c); [simpl in Hn; lia|done]).
  rewrite Hhd in Hh. rewrite Hh in Haid. injection Haid as ->.
  rewrite Ha, beqb_refl, Hl, Z.eqb_refl. cbn [negb]. pose proof (replay_length _ _ Hr) as Hln. rewrite length_app in Hln.
  rewrite (proj2 (Z.leb_gt _ _)) by (unfold len; lia).
  destruct (beqb (ks_Status fin) StatusDeactivated); [eexists; split; [reflexivity|by right]|].
  assert ((KEL c ++ more) !! Z.to_nat (sk_KeyStateSeq sg) = Some se) as He.
  { rewrite lookup_app_l by lia. apply Ho. }
  rewrite <- Hhd in Hh. destruct (replay_describes _ _ _ _ _ Hr Hh He) as (ks & Hks & [_ _ _ _ D5 _ _]).
  rewrite Hks. cbn [of_option mbind result_bind].
  pose proof (o_alive _ _ _ _ _ _ _ _ Ho) as Hal%beqb_false. rewrite Hal in D5.
  destruct (lookup_lt_is_Some_2 (KEL c ++ more) (S (Z.to_nat (sk_KeyStateSeq sg)))) as [n En].
  { rewrite length_app. destruct more; [done|]. simpl. lia. }
  rewrite En in D5. destruct statuses_distinct as (_ & _ & _ & SD). rewrite D5, SD. eexists. split; [reflexivity|by left].
Qed.

(** ** Sequence numbers and the high-water rule *)

(** A publisher stays ahead and a consumer never goes back.  The next sequence number is at least the
    clock, exceeds the last one except at the largest [uint64], where it stays, and never wraps, so a
    consumer that holds the last set replaces it by the next; a set is ignored exactly when its number
    is lower, a repeat exactly when number and bytes are equal, a fork exactly when only the number is;
    and whatever is decided, a consumer that keeps the incoming set on [Replace] and its own otherwise
    holds a number no lower than before. *)
Theorem high_water_only_rises now lastSeq set seq incoming :
  is_u64 now → is_u64 lastSeq → is_u64 seq →
  let next := NextSeq now lastSeq in
  is_u64 next ∧ (now <= next ∨ lastSeq = MaxUint64) ∧ (lastSeq < next ∨ lastSeq = MaxUint64 ∧ next = lastSeq) ∧
  (lastSeq < MaxUint64 → DecideHighWater (Some (mkSeen lastSeq set)) next incoming = Replace) ∧
  (DecideHighWater None seq incoming = Replace) ∧
  let d := DecideHighWater (Some (mkSeen lastSeq set)) seq incoming in
  (d = Replace ↔ lastSeq < seq) ∧ (d = Ignore ↔ seq < lastSeq) ∧ (d = Same ↔ seq = lastSeq ∧ incoming = set) ∧
  (d = Fork ↔ seq = lastSeq ∧ incoming ≠ set) ∧
  lastSeq <= (match d with Replace => seq | _ => lastSeq end).
Proof.
  unfold is_u64, NextSeq, DecideHighWater, u64. intros Hn Hl Hq. cbn [seen_Seq seen_Set].
  assert (∀ n, lastSeq < n → (if lastSeq <? n then Replace else Same) = Replace) as Hr.
  { intros n Hlt. by rewrite (proj2 (Z.ltb_lt _ _) Hlt). }
  destruct (Z.eqb_spec lastSeq MaxUint64) as [->|Hne].
  - split_and!; try done; try lia; unfold MaxUint64 in *;
      try (destruct (Z.ltb_spec (two64 - 1) seq), (Z.ltb_spec seq (two64 - 1)); try lia;
           destruct (beqb incoming set) eqn:Eb; first [apply beqb_true in Eb|apply beqb_false in Eb]; naive_solver lia).
  - unfold MaxUint64 in *. rewrite (Z.mod_small (lastSeq + 1)) by lia.
    split_and!; try lia; try done.
    + intros _. rewrite (proj2 (Z.ltb_lt lastSeq _)) by lia. done.
    + destruct (Z.ltb_spec lastSeq seq), (Z.ltb_spec seq lastSeq); try lia; destruct (beqb incoming set); naive_solver lia.
    + destruct (Z.ltb_spec lastSeq seq), (Z.ltb_spec seq lastSeq); try lia; destruct (beqb incoming set); naive_solver lia.
    + destruct (Z.ltb_spec lastSeq seq), (Z.ltb_spec seq lastSeq); try lia;
        destruct (beqb incoming set) eqn:Eb; first [apply beqb_true in Eb|apply beqb_false in Eb]; naive_solver lia.
    + destruct (Z.ltb_spec lastSeq seq), (Z.ltb_spec seq lastSeq); try lia;
        destruct (beqb incoming set) eqn:Eb; first [apply beqb_true in Eb|apply beqb_false in Eb]; naive_solver lia.
    + destruct (Z.ltb_spec lastSeq seq), (Z.ltb_spec seq lastSeq); try lia; destruct (beqb incoming set); lia.
Qed.
End KeySets.
