(* ===== verification/EncKeysSamples.v ===== *)
(** * EncKeysSamples: one published key set, believed and used *)

From S2P Require Import Prelude Checks Aid Cbor Platform Kel KelReference KelSpec Controller ControllerInv ControllerTheorems IdFile Notice Fields FieldsFacts Envelope EnvelopeTheorems EncKeys EncKeysTheorems EnvelopeReference SealSamples.
Import Light.

(** ** A codec of key sets

    It refuses what it cannot read back, so that the laws hold by construction. *)

Definition key_cbor (k : EncKey) : cbor :=
  CMap [(1, CBytes (ek_KID k)); (2, CUint (ek_Suite k)); (3, CBytes (ek_Pub k)); (4, CUint (ek_NotBefore k)); (5, CUint (ek_NotAfter k))].
Definition key_of (c : cbor) : EncKey :=
  match c with
  | CMap l => mkEncKey (as_bytes (member 1 l)) (as_uint (member 2 l)) (as_bytes (member 3 l)) (as_uint (member 4 l)) (as_uint (member 5 l))
  | _ => mkEncKey [] 0 [] 0 0
  end.
Definition mbox_cbor (m : Mbox) : cbor := CMap [(0, CUint (mb_Epoch m)); (1, CBytes (mb_Pub m))].

Definition set_of (m : fieldMap) : EncKeySet :=
  let get k := match m !! k with Some b => decode b | None => None end in
  mkEncKeySet (as_text (get 0)) (as_text (get 1)) (as_uint (get 2))
    (match get 3 with Some (CArray l) => map key_of l | _ => [] end) (as_uint (get 4))
    (match get 5 with Some (CMap l) => mkMbox (as_uint (member 0 l)) (as_bytes (member 1 l)) | _ => mkMbox 0 [] end).

#[export] Instance EncKey_dec : EqDecision EncKey.
Proof. solve_decision. Defined.
#[export] Instance Mbox_dec : EqDecision Mbox.
Proof. solve_decision. Defined.
#[export] Instance EncKeySet_dec : EqDecision EncKeySet.
Proof. solve_decision. Defined.

Definition read_set (b : bytes) : option EncKeySet := set_of <$> decode_fields b.
#[export] Instance set_strict : Strict EncKeySet := read_set.
Definition set_fields (s : EncKeySet) (t : bytes) : fieldMap :=
  {[0 := t; 1 := encode (CText (es_AID s)); 2 := encode (CUint (es_Seq s)); 3 := encode (CArray (map key_cbor (es_Keys s)));
    4 := encode (CUint (es_IssuedAt s)); 5 := encode (mbox_cbor (es_Mbox s))]}.
#[export] Instance set_coredet : Coredet EncKeySet := λ s,
  t ← marshal_text (es_Type s);
  b ← marshal_fields (set_fields s t);
  if bool_decide (read_set b = Some s) then Some b else None.

Lemma six_keys (v0 v1 v2 v3 v4 v5 : bytes) k :
  is_Some (({[0 := v0; 1 := v1; 2 := v2; 3 := v3; 4 := v4; 5 := v5]} : fieldMap) !! k) ↔ k ∈ encKeySetKeys.
Proof.
  change encKeySetKeys with [0; 1; 2; 3; 4; 5]. rewrite <- elem_of_dom, !dom_insert, dom_singleton. set_solver.
Qed.

Lemma set_marshal s b :
  marshal s = Some b → ∃ t, marshal_text (es_Type s) = Some t ∧ marshal_fields (set_fields s t) = Some b ∧ read_set b = Some s.
Proof.
  unfold marshal, set_coredet. intros (t & Ht & Hm)%bind_Some. apply bind_Some in Hm as (b' & Hm & Hr).
  destruct (bool_decide_reflect (read_set b' = Some s)) as [Hs|]; [|done]. injection Hr as ->. by exists t.
Qed.

#[export] Instance set_codec : SetCodec set_coredet set_strict.
Proof.
  constructor.
  - intros s b (t & Ht & Hm & _)%set_marshal. exists (set_fields s t), t. split_and!; [|exact Hm|apply six_keys|exact Ht|reflexivity].
    apply ref_fields in Hm as (_ & _ & Hd). exact (decode_fields_items b _ Hd).
  - intros s b (t & _ & _ & Hr)%set_marshal. exact Hr.
Qed.

(** ** The set of an agent *)

Definition first_key : EncKey := Eval vm_compute in NewEncKey SuiteX25519 (ref_public (repeat 41 32)) 1760000000000 1760086400000.
Definition second_key : EncKey := Eval vm_compute in NewEncKey SuiteX25519 (ref_public (repeat 43 32)) 1760080000000 1760166400000.
Definition sample_set : EncKeySet :=
  Eval vm_compute in mkEncKeySet EncKeySetType (c_aid sample_agent) 1760000000000 [first_key; second_key] 1760000000000
    (mkMbox 1 (ed25519_public (sample_key 21))).
Definition sample_signed_set : SignedEncKeySet :=
  Eval vm_compute in get (mkSignedEncKeySet [] 0 []) (SignEncKeySet (Some sample_set) (Some (snapshot_Sign sample_signer))).

Lemma sample_set_signed :
  SignEncKeySet (Some sample_set) (Some (snapshot_Sign sample_signer)) = Ok sample_signed_set.
Proof. vm_compute. reflexivity. Qed.
Lemma sample_set_owner : es_AID sample_set = c_aid sample_agent.
Proof. vm_compute. reflexivity. Qed.
Lemma sample_set_checks :
  checkStructure sample_set = Ok tt ∧ checkValidAt sample_set 1760100000000 = Ok tt ∧
  forallb (λ k, Supported (ek_Suite k)) (es_Keys sample_set) = true ∧
  VerifyEncKeySet (Some sample_signed_set) (c_aid sample_agent) (KEL sample_agent) 1760100000000 = Ok sample_set.
Proof. split_and!; vm_compute; reflexivity. Qed.
Lemma sample_set_seq : 0 <= sk_KeyStateSeq sample_signed_set.
Proof. done. Qed.

Lemma key_sets_accepted_witness :
  (∃ se k, key_set_ok sample_signed_set (c_aid sample_agent) (KEL sample_agent) 1760100000000 sample_set se k) ∧
  ∀ more, more ≠ [] → ∀ later, VerifyEncKeySet (Some sample_signed_set) (c_aid sample_agent) (KEL sample_agent ++ more) later ≠ Ok sample_set.
Proof.
  pose proof (key_sets_accepted sample_signed_set (c_aid sample_agent) (KEL sample_agent) 1760100000000 sample_set sample_set_seq) as [T1 T2].
  exact (conj (proj1 T1 (proj2 (proj2 (proj2 sample_set_checks))))
              (λ more Hm later, T2 more Hm (proj2 (proj2 (proj2 sample_set_checks))) sample_set later)).
Defined.

Lemma published_keys_are_believed_witness :
  VerifyEncKeySet (Some sample_signed_set) (c_aid sample_agent) (KEL sample_agent) 1760100000000 = Ok sample_set.
Proof.
  exact (proj1 (published_keys_are_believed (CE := event_coredet) (CSE := signed_coredet) sample_agent sample_signer sample_set
    sample_signed_set agent_speaks sample_set_signed sample_set_owner sample_set_seq)
    1760100000000 (proj1 (proj2 sample_set_checks))).
Defined.

Lemma selected_key_is_best_witness : ∃ k, SelectKey (Some sample_set) 1760100000000 = Ok k.
Proof.
  refine (proj2 (proj2 (selected_key_is_best sample_set 1760100000000 (proj1 sample_set_checks)))
            (proj1 (proj2 sample_set_checks)) _).
  intros k Hk%list_elem_of_In. exact (proj1 (forallb_forall _ _) (proj1 (proj2 (proj2 sample_set_checks))) k Hk).
Defined.

(** Before both keys, in the first, in both, after both. *)
Example selections :
  map (λ now, match SelectKey (Some sample_set) now with
              | Ok k => if beqb (ek_KID k) (ek_KID first_key) then "first" else "second"
              | Err e => ReasonOf e end)
    [1759999000000; 1760000000000; 1760079999999; 1760080000000; 1760166399999; 1760166400000; 1759999700000]%Z
  = ["no-usable-key"; "first"; "first"; "second"; "second"; "no-usable-key"; "first"]%string.
Proof. vm_compute. reflexivity. Qed.

Lemma high_water_only_rises_witness :
  is_u64 (NextSeq 1760000000000 1760000000005) ∧ 1760000000005 < NextSeq 1760000000000 1760000000005.
Proof.
  assert (is_u64 1760000000000 ∧ is_u64 1760000000005 ∧ is_u64 7) as (B1 & B2 & B3) by done.
  pose proof (high_water_only_rises 1760000000000 1760000000005 [1] 7 [2] B1 B2 B3) as (T1 & _ & T2 & _).
  split; [exact T1|]. destruct T2 as [T2|[T2 _]]; [exact T2|discriminate].
Defined.

(** Each refusal of [VerifyEncKeySet] on this set. *)
Definition reason_of {A} (r : result A) : string := match r with Ok _ => "ok" | Err e => ReasonOf e end.
Example key_set_reasons :
  let sg := sample_signed_set in let kel := KEL sample_agent in let o := c_aid sample_agent in let now := 1760100000000 in
  [reason_of (VerifyEncKeySet None o kel now);
   reason_of (VerifyEncKeySet (Some (mkSignedEncKeySet [1] 1 (sk_Sig sg))) o kel now);
   reason_of (VerifyEncKeySet (Some sg) o [] now);
   reason_of (VerifyEncKeySet (Some sg) (c_aid hub0) kel now);
   reason_of (VerifyEncKeySet (Some (mkSignedEncKeySet (sk_Set sg) 1 [])) o kel now);
   reason_of (VerifyEncKeySet (Some (mkSignedEncKeySet (sk_Set sg) 2 (sk_Sig sg))) o kel now);
   reason_of (VerifyEncKeySet (Some (mkSignedEncKeySet (sk_Set sg) 0 (sk_Sig sg))) o kel now);
   reason_of (VerifyEncKeySet (Some (mkSignedEncKeySet (sk_Set sg) 1 (repeat 0 64))) o kel now);
   reason_of (VerifyEncKeySet (Some sg) o kel 1770000000000);
   reason_of (VerifyEncKeySet (Some sg) o kel now)]
  = ["bad-keyset"; "bad-keyset"; "bad-kel"; "aid-mismatch"; "bad-sig"; "bad-key-state"; "bad-key-state"; "bad-sig"; "bad-keyset"; "ok"]%string.
Proof. vm_compute. reflexivity. Qed.
