(* ===== verification/Dack.v ===== *)
(** * Dack: delivery tokens (seal/dack.go)

    Both ends of an envelope hold its [ack_key].  With it the recipient answers the envelope by a
    [dack] of 80 bytes, a token that says processed or refused and an encrypted note; the sender
    decides a [dack] against the keys of the envelopes it sent.  [Aead] is ChaCha20-Poly1305. *)

From S2P Require Import Prelude Platform Aid Fields Envelope.

(** ** Data *)

Definition HandleLen : Z := 16.
Definition TokenLen : Z := 16.
Definition NoteLen : Z := 64.
Definition DAckLen : Z := TokenLen + NoteLen.
Definition MaxNoteReasonLen : Z := 30.
Definition MaxRetryAfterS : Z := 86400.

Definition dackHandleLabel : bytes := str "anet-dack-handle/v1".
Definition dackTokLabel : bytes := str "anet-dack-tok/v1".
Definition dackNoteLabel : bytes := str "anet-dack-note/v1".

Definition noteFormat : Z := 1.
Definition notePTLen : Z := 1 + 4 + 1 + MaxNoteReasonLen.

(** Constants of the cipher library. *)
Definition NonceSize : Z := 12.
Definition KeySize : Z := 32.
Definition Overhead : Z := 16.
Definition noteNonceLen : Z := NonceSize.

(** An [Outcome] is a [uint8], an [AckKey] 32 bytes. *)
Definition OutcomeProcessed : Z := 1.
Definition OutcomeRefused : Z := 2.

Record Note := mkNote { nt_Reason : bytes; nt_RetryAfterS : Z }.
Definition emptyNote : Note := mkNote [] 0.

#[export] Instance Note_dec : EqDecision Note.
Proof. solve_decision. Defined.

(** [chacha20poly1305]: [Seal] and [Open] under a key, a nonce and associated data. *)
Class Aead := {
  aead_Seal : bytes → bytes → bytes → bytes → bytes;
  aead_Open : bytes → bytes → bytes → bytes → option bytes;
}.

(** What is sealed opens, and is as long as its plaintext and a tag. *)
Class AeadLaws (A : Aead) : Prop := {
  aead_inv key nonce pt aad :
    len key = KeySize → len nonce = NonceSize → aead_Open key nonce (aead_Seal key nonce pt aad) aad = Some pt;
  aead_len key nonce pt aad : len (aead_Seal key nonce pt aad) = len pt + Overhead;
}.

(** ** Reasons and waits *)

Definition lower (c : Z) : bool := (97 <=? c) && (c <=? 122).
Definition reason_char (c : Z) : bool := lower c || (48 <=? c) && (c <=? 57) || (c =? 95).

Definition ValidNoteReason (s : bytes) : bool :=
  match s with
  | [] => false
  | c :: r => (len s <=? MaxNoteReasonLen) && lower c && forallb reason_char r
  end.

Definition retryTiers : list Z := [1; 5; 15; 60; 300; 900; 3600].

(** The [uint64] and [uint32] arithmetic, with its wrap-around. *)
Definition RetryBucket (seconds : Z) (dayWindow : bool) (nowMS : Z) : Z :=
  if dayWindow then
    let left := u64 (dayMS - nowMS mod dayMS) in
    let s := u64 (left + 999) / 1000 in
    let s := u64 (u64 (s + 899) / 900 * 900) in
    Z.min s MaxRetryAfterS mod 2 ^ 32
  else if seconds =? 0 then 0
  else match List.find (λ t, seconds <=? t) retryTiers with
       | Some t => t
       | None => List.last retryTiers 0
       end.

(** ** Notes *)

Definition encodeNotePT (n : Note) : bytes :=
  [noteFormat] ++ be 4 (Z.min (nt_RetryAfterS n) MaxRetryAfterS) ++ [len (nt_Reason n) mod 256]
  ++ take (Z.to_nat MaxNoteReasonLen) (nt_Reason n ++ repeat 0 (Z.to_nat MaxNoteReasonLen)).

Definition decodeNotePT (pt : bytes) : option Note :=
  if negb (len pt =? notePTLen) || negb (nth 0 pt 0 =? noteFormat) then None
  else
    let l := nth 5 pt 0 in
    if MaxNoteReasonLen <? l then None
    else
      let reason := take (Z.to_nat l) (drop 6 pt) in
      if (0 <? l) && negb (ValidNoteReason reason) then None
      else if existsb (λ b, negb (b =? 0)) (drop (6 + Z.to_nat l) pt) then None
      else Some (mkNote reason (Z.min (be_val (take 4 (drop 1 pt))) MaxRetryAfterS)).

Section DAck.
Context `{P : Platform} `{A : Aead}.

(** ** Tokens *)

Definition isZero (k : bytes) : bool := beqb k (repeat 0 (Z.to_nat AckKeyLen)).
Definition mac (k label extra : bytes) : bytes := hmac_sha256 k (label ++ extra).
Definition Handle (k : bytes) : bytes := take (Z.to_nat HandleLen) (mac k dackHandleLabel []).
Definition token (k : bytes) (o : Z) : bytes := take (Z.to_nat TokenLen) (mac k dackTokLabel [o]).
Definition noteKey (k : bytes) : bytes := mac k dackNoteLabel [].

(** ** Making a dack

    [chacha20poly1305.New] fails on a key that is not 32 bytes; the 12 bytes of the nonce are drawn
    by [MakeDAck]. *)
Definition makeDAck (k : bytes) (o : Z) (n : Note) (nonce : bytes) : result bytes :=
  refuse negb (o =? OutcomeProcessed) && negb (o =? OutcomeRefused) with fail ReasonInvalidInput "outcome";
  refuse negb (beqb (nt_Reason n) []) && negb (ValidNoteReason (nt_Reason n))
    with fail ReasonInvalidInput "note reason is not a reason code";
  refuse (o =? OutcomeProcessed) && negb (bool_decide (n = emptyNote))
    with fail ReasonInvalidInput "a processed token carries the empty note";
  refuse isZero k with failWrap ReasonInvalidInput "" (Errf "the zero ack_key is not an envelope's");
  let pt := encodeNotePT n in
  refuse negb (len (noteKey k) =? KeySize) with fail ReasonInternalError "note key";
  let tok := token k o in
  let ct := aead_Seal (noteKey k) nonce pt tok in
  refuse negb (len ct =? NoteLen - noteNonceLen) with fail ReasonInternalError "note ciphertext";
  Ok (tok ++ nonce ++ ct).

(** ** Deciding one *)

Definition openNote (k : bytes) (o : Z) (note : bytes) : option Note :=
  if negb (len note =? NoteLen) then None
  else if negb (len (noteKey k) =? KeySize) then None
  else
    let n := Z.to_nat noteNonceLen in
    pt ← aead_Open (noteKey k) (take n note) (drop n note) (token k o);
    decodeNotePT pt.

(** The two nested loops: the key, its index and the outcome of the first match. *)
Definition matches (k : bytes) (o : Z) (tok : bytes) : bool := beqb (token k o) tok.
Definition match_outcomes (k : bytes) (i : nat) (tok : bytes) (found : option (nat * bytes * Z)) : option (nat * bytes * Z) :=
  fold_left (λ found o, if matches k o tok && bool_decide (found = None) then Some (i, k, o) else found)
    [OutcomeProcessed; OutcomeRefused] found.
Fixpoint match_keys (keys : list bytes) (i : nat) (tok : bytes) (found : option (nat * bytes * Z)) : option (nat * bytes * Z) :=
  match keys with
  | [] => found
  | k :: keys => match_keys keys (S i) tok (if isZero k then found else match_outcomes k i tok found)
  end.

(** The returned [(idx, o, n, noteOK, ok)]. *)
Record decided := mkDecided { dk_idx : Z; dk_o : Z; dk_n : Note; dk_noteOK : bool; dk_ok : bool }.

Definition VerifyDAck (keys : list bytes) (dack : bytes) : decided :=
  if negb (len dack =? DAckLen) then mkDecided (-1) 0 emptyNote false false
  else match match_keys keys 0 (take (Z.to_nat TokenLen) dack) None with
       | None => mkDecided (-1) 0 emptyNote false false
       | Some (i, k, o) =>
           match openNote k o (drop (Z.to_nat TokenLen) dack) with
           | Some n => mkDecided (Z.of_nat i) o n true true
           | None => mkDecided (Z.of_nat i) o emptyNote false true
           end
       end.
End DAck.
