(* ===== verification/DackTheorems.v ===== *)
(** * DackTheorems: a dack says what the recipient decided, and only that *)

From S2P Require Import Prelude Checks Aid Platform Kel Controller ControllerTheorems IdFile Notice Fields FieldsFacts Envelope EnvelopeFacts EnvelopeTheorems SealTheorems SealRoundTrip Dack.

(** ** Notes *)

Definition note_ok (n : Note) : Prop := nt_Reason n = [] ∨ ValidNoteReason (nt_Reason n) = true.
(** The note a reader sees. *)
Definition capped (n : Note) : Note := mkNote (nt_Reason n) (Z.min (nt_RetryAfterS n) MaxRetryAfterS).

Lemma note_ok_len n : note_ok n → len (nt_Reason n) <= MaxNoteReasonLen.
Proof.
  intros [-> | Hv]; [done|]. unfold ValidNoteReason in Hv. destruct (nt_Reason n); [done|].
  apply andb_true_iff in Hv as [[Hv%Z.leb_le _]%andb_true_iff _]. done.
Qed.

Lemma len_encodeNotePT n : len (encodeNotePT n) = notePTLen.
Proof.
  unfold encodeNotePT, be, len, notePTLen, MaxNoteReasonLen. change (Z.to_nat 30) with 30%nat.
  rewrite !length_app, length_digits, length_take, length_app, repeat_length. cbn [length]. lia.
Qed.

Lemma decode_encode_note n :
  note_ok n → 0 <= nt_RetryAfterS n → decodeNotePT (encodeNotePT n) = Some (capped n).
Proof.
  intros Hn Hr. pose proof (note_ok_len n Hn) as Hl. pose proof (len_nonneg (nt_Reason n)) as H0.
  unfold decodeNotePT. rewrite len_encodeNotePT, Z.eqb_refl. unfold encodeNotePT, capped.
  set (r := nt_Reason n) in *. set (w := Z.min (nt_RetryAfterS n) MaxRetryAfterS).
  assert (length (be 4 w) = 4%nat) as Hb by apply length_digits.
  destruct (be 4 w) as [|b0 [|b1 [|b2 [|b3 [|]]]]] eqn:Eb; try done. clear Hb. cbn [app nth negb orb Z.eqb].
  unfold MaxNoteReasonLen in *. rewrite Z.mod_small by lia. rewrite (proj2 (Z.ltb_ge 30 _)) by lia.
  cbn [drop Nat.add]. change (Z.to_nat 30) with 30%nat.
  change (noteFormat =? noteFormat) with true. cbn [negb]. rewrite !drop_0.
  assert (take (Z.to_nat (len r)) (take 30 (r ++ repeat 0 30)) = r) as ->.
  { rewrite take_take, Nat.min_l by (unfold len in *; lia). unfold len. rewrite Nat2Z.id. apply take_app_length. }
  assert ((0 <? len r) && negb (ValidNoteReason r) = false) as ->.
  { destruct Hn as [E|E]; subst r; rewrite E; [done|apply andb_false_r]. }
  rewrite (proj2 (existsb_false _ _)).
  2: { rewrite skipn_firstn_comm, drop_app_ge by (unfold len; lia).
       unfold len. rewrite Nat2Z.id, Nat.sub_diag. cbn [drop].
       apply Forall_take. by repeat constructor. }
  f_equal. f_equal. change (take 4 (b0 :: b1 :: b2 :: b3 :: _)) with [b0; b1; b2; b3]. rewrite <- Eb.
  unfold be_val, be. rewrite undigits_digits by lia. unfold w, MaxRetryAfterS. rewrite Z.mod_small; lia.
Qed.

Lemma decodeNotePT_ok pt n :
  decodeNotePT pt = Some n → note_ok n ∧ nt_RetryAfterS n <= MaxRetryAfterS.
Proof.
  unfold decodeNotePT. destruct (_ || _); [done|]. set (l := nth 5 pt 0). destruct (MaxNoteReasonLen <? l); [done|].
  destruct (Z.ltb_spec 0 l) as [Hl|Hl].
  - destruct (ValidNoteReason _) eqn:Hv; [|done]. cbn [negb andb]. destruct (existsb _ _); [done|]. intros [= <-].
    split; [by right|]. cbn [nt_RetryAfterS]. lia.
  - cbn [andb]. destruct (existsb _ _); [done|]. intros [= <-]. split; [left|cbn [nt_RetryAfterS]; lia].
    cbn [nt_Reason]. by replace (Z.to_nat l) with 0%nat by lia.
Qed.

Section DAck.
Context `{P : Platform} `{A : Aead} {HL : HmacLaws P} {AL : AeadLaws A}.

(** ** Tokens *)

(** The first match of a token among the keys held: key [k], the [i]-th, at outcome [o]. *)
Record first_match (keys : list bytes) (tok : bytes) (i : nat) (k : bytes) (o : Z) : Prop := {
  fm_key : keys !! i = Some k;
  fm_nonzero : isZero k = false;
  fm_outcome : o = OutcomeProcessed ∨ o = OutcomeRefused;
  fm_token : token k o = tok;
  fm_least : o = OutcomeRefused → token k OutcomeProcessed ≠ tok;
  fm_first j k' : (j < i)%nat → keys !! j = Some k' → isZero k' = false →
    token k' OutcomeProcessed ≠ tok ∧ token k' OutcomeRefused ≠ tok;
}.

Lemma match_outcomes_found k i tok r : match_outcomes k i tok (Some r) = Some r.
Proof. unfold match_outcomes. simpl. by rewrite !andb_false_r. Qed.

Lemma match_outcomes_None k i tok :
  match_outcomes k i tok None =
    if beqb (token k OutcomeProcessed) tok then Some (i, k, OutcomeProcessed)
    else if beqb (token k OutcomeRefused) tok then Some (i, k, OutcomeRefused) else None.
Proof.
  unfold match_outcomes, matches. simpl. destruct (beqb (token k OutcomeProcessed) tok); simpl.
  - by rewrite andb_false_r.
  - by rewrite andb_true_r.
Qed.

Lemma match_keys_found keys tok r : ∀ i, match_keys keys i tok (Some r) = Some r.
Proof. induction keys as [|k keys IH]; intros i; simpl; [done|]. destruct (isZero k); [done|]. by rewrite match_outcomes_found. Qed.

Lemma first_match_cons k keys tok i k' o :
  (isZero k = false → token k OutcomeProcessed ≠ tok ∧ token k OutcomeRefused ≠ tok) →
  first_match (k :: keys) tok (S i) k' o ↔ first_match keys tok i k' o.
Proof.
  intros Hk. split; intros [F1 F2 F3 F4 F5 F6]; constructor; try done.
  - intros j k0 Hj. apply (F6 (S j)). lia.
  - intros [|j] k0 Hj; simpl; [intros [= <-]; apply Hk|]. apply F6. lia.
Qed.

Lemma match_keys_first keys tok : ∀ i,
  match match_keys keys i tok None with
  | Some (i', k, o) => ∃ j, i' = (i + j)%nat ∧ first_match keys tok j k o
  | None => ∀ j k o, ¬ first_match keys tok j k o
  end.
Proof.
  induction keys as [|k keys IH]; intros i; simpl; [by intros j k o [E _ _ _ _ _]|].
  assert ((isZero k = false → token k OutcomeProcessed ≠ tok ∧ token k OutcomeRefused ≠ tok) →
    match match_keys keys (S i) tok None with
    | Some (i', k0, o) => ∃ j, i' = (i + j)%nat ∧ first_match (k :: keys) tok j k0 o
    | None => ∀ j k0 o, ¬ first_match (k :: keys) tok j k0 o
    end) as Hskip.
  { intros Hk. specialize (IH (S i)). destruct (match_keys keys (S i) tok None) as [[[i' k'] o']|].
    - destruct IH as (j & -> & Hj). exists (S j). split; [lia|]. by apply first_match_cons.
    - intros [|j] k' o' F; [|by apply (IH j k' o'), (first_match_cons k)].
      destruct F as [E F2 F3 F4 _ _]. injection E as <-. destruct (Hk F2) as [H1 H2], F3; subst; done. }
  destruct (isZero k) eqn:Ez; [by apply Hskip|]. rewrite match_outcomes_None.
  destruct (beqb (token k OutcomeProcessed) tok) eqn:E1.
  - rewrite match_keys_found. apply beqb_true in E1. exists 0%nat. split; [lia|].
    constructor; try done; [by left|intros j k' Hj; lia].
  - apply beqb_false in E1. destruct (beqb (token k OutcomeRefused) tok) eqn:E2.
    + rewrite match_keys_found. apply beqb_true in E2. exists 0%nat. split; [lia|].
      constructor; try done; [by right|intros j k' Hj; lia].
    + apply beqb_false in E2. by apply Hskip.
Qed.

Lemma first_match_unique keys tok i k o i' k' o' :
  first_match keys tok i k o → first_match keys tok i' k' o' → i = i' ∧ k = k' ∧ o = o'.
Proof.
  intros F F'. assert (i = i') as <-.
  { destruct (Nat.lt_trichotomy i i') as [Hlt|[->|Hlt]]; [|done|]; exfalso.
    - destruct (fm_first _ _ _ _ _ F' i k Hlt (fm_key _ _ _ _ _ F) (fm_nonzero _ _ _ _ _ F)) as [N1 N2].
      destruct (fm_outcome _ _ _ _ _ F) as [E|E]; pose proof (fm_token _ _ _ _ _ F) as T; subst o; done.
    - destruct (fm_first _ _ _ _ _ F i' k' Hlt (fm_key _ _ _ _ _ F') (fm_nonzero _ _ _ _ _ F')) as [N1 N2].
      destruct (fm_outcome _ _ _ _ _ F') as [E|E]; pose proof (fm_token _ _ _ _ _ F') as T; subst o'; done. }
  pose proof (fm_key _ _ _ _ _ F) as E. rewrite (fm_key _ _ _ _ _ F') in E. injection E as ->. split_and!; [done..|].
  destruct (fm_outcome _ _ _ _ _ F) as [->| ->], (fm_outcome _ _ _ _ _ F') as [->| ->]; try done.
  - by destruct (fm_least _ _ _ _ _ F' eq_refl), (fm_token _ _ _ _ _ F).
  - by destruct (fm_least _ _ _ _ _ F eq_refl), (fm_token _ _ _ _ _ F').
Qed.

(** What a dack of 80 bytes is decided to be. *)
Lemma VerifyDAck_first keys d i k o :
  len d = DAckLen → first_match keys (take 16 d) i k o →
  VerifyDAck keys d =
    match openNote k o (drop 16 d) with
    | Some n => mkDecided (Z.of_nat i) o n true true
    | None => mkDecided (Z.of_nat i) o emptyNote false true
    end.
Proof.
  intros Hl F. unfold VerifyDAck. rewrite Hl, Z.eqb_refl. cbn [negb]. change (Z.to_nat TokenLen) with 16%nat.
  pose proof (match_keys_first keys (take 16 d) 0) as Hm. destruct (match_keys keys 0 (take 16 d) None) as [[[i' k'] o']|].
  - destruct Hm as (j & -> & F'). destruct (first_match_unique _ _ _ _ _ _ _ _ F F') as (<- & <- & <-). done.
  - by destruct (Hm i k o).
Qed.

Lemma VerifyDAck_none keys d :
  len d ≠ DAckLen ∨ (∀ i k o, ¬ first_match keys (take 16 d) i k o) →
  VerifyDAck keys d = mkDecided (-1) 0 emptyNote false false.
Proof.
  unfold VerifyDAck. change (Z.to_nat TokenLen) with 16%nat. intros [Hl|Hn].
  - by rewrite (proj2 (Z.eqb_neq _ _) Hl).
  - destruct (len d =? DAckLen); [|done]. cbn [negb].
    pose proof (match_keys_first keys (take 16 d) 0) as Hm. destruct (match_keys keys 0 (take 16 d) None) as [[[i' k'] o']|]; [|done].
    destruct Hm as (j & _ & F). by destruct (Hn j k' o').
Qed.

Lemma first_match_decide keys tok :
  (∃ i k o, first_match keys tok i k o) ∨ ∀ i k o, ¬ first_match keys tok i k o.
Proof.
  pose proof (match_keys_first keys tok 0) as Hm. destruct (match_keys keys 0 tok None) as [[[i' k'] o']|]; [|by right].
  destruct Hm as (j & _ & F). left. eauto.
Qed.

Lemma openNote_ok k o note n : openNote k o note = Some n → note_ok n ∧ nt_RetryAfterS n <= MaxRetryAfterS.
Proof.
  unfold openNote. destruct (negb _); [done|]. destruct (negb _); [done|]. intros (pt & _ & Hd)%bind_Some. by apply decodeNotePT_ok in Hd.
Qed.

(** C30: what a sender concludes from a dack.  A dack is taken exactly when it is 80 bytes and its first
    16 are a token of a nonzero key the sender holds, and then the outcome is that of the first key and
    the first outcome that match; the rest of the dack never changes index or outcome, so a note
    replaced on the way costs the note only.  A note reported as read has a valid or empty reason and a
    bounded wait, one that is not is the empty note; a refused dack has index -1 and nothing else. *)
Theorem dack_outcome_stands keys d :
  let v := VerifyDAck keys d in
  (dk_ok v = true ↔ len d = DAckLen ∧ ∃ i k o, first_match keys (take 16 d) i k o) ∧
  (∀ i k o, len d = DAckLen → first_match keys (take 16 d) i k o → dk_idx v = Z.of_nat i ∧ dk_o v = o) ∧
  (∀ d', len d' = len d → take 16 d' = take 16 d →
     let v' := VerifyDAck keys d' in dk_idx v' = dk_idx v ∧ dk_o v' = dk_o v ∧ dk_ok v' = dk_ok v) ∧
  note_ok (dk_n v) ∧ nt_RetryAfterS (dk_n v) <= MaxRetryAfterS ∧ (dk_noteOK v = false → dk_n v = emptyNote) ∧
  (dk_ok v = false → v = mkDecided (-1) 0 emptyNote false false).
Proof.
  cbv zeta. assert (note_ok emptyNote ∧ nt_RetryAfterS emptyNote <= MaxRetryAfterS) as [He1 He2] by (split; [by left|done]).
  destruct (decide (len d = DAckLen)) as [Hl|Hl].
  - destruct (first_match_decide keys (take 16 d)) as [(i & k & o & F)|Hn].
    + rewrite (VerifyDAck_first _ _ _ _ _ Hl F). split_and!.
      * split; [eauto|]. intros _. by destruct (openNote _ _ _).
      * intros i' k' o' _ F'. destruct (first_match_unique _ _ _ _ _ _ _ _ F F') as (<- & _ & <-). by destruct (openNote _ _ _).
      * intros d' Hl' Ht. rewrite Hl in Hl'. rewrite <- Ht in F. rewrite (VerifyDAck_first _ _ _ _ _ Hl' F).
        by destruct (openNote k o (drop 16 d')), (openNote k o (drop 16 d)).
      * destruct (openNote _ _ _) eqn:E; [|done]. by apply openNote_ok in E as [? _].
      * destruct (openNote _ _ _) eqn:E; [|done]. by apply openNote_ok in E as [_ ?].
      * by destruct (openNote _ _ _).
      * by destruct (openNote _ _ _).
    + rewrite (VerifyDAck_none keys d) by eauto. split_and!; try done.
      * split; [done|]. intros (_ & i & k & o & F). by destruct (Hn i k o).
      * intros i k o _ F. by destruct (Hn i k o).
      * intros d' _ Ht. rewrite <- Ht in Hn. by rewrite (VerifyDAck_none keys d') by eauto.
  - rewrite (VerifyDAck_none keys d) by eauto. split_and!; try done.
    + by split; [|intros [? _]].
    + intros d' Hl' _. rewrite (VerifyDAck_none keys d'); [done|]. left. congruence.
Qed.

(** ** Making one *)

(** What [makeDAck] accepts. *)
Record dack_input (k : bytes) (o : Z) (n : Note) : Prop := {
  di_outcome : o = OutcomeProcessed ∨ o = OutcomeRefused;
  di_note : note_ok n;
  di_processed : o = OutcomeProcessed → n = emptyNote;
  di_nonzero : isZero k = false;
}.

Lemma len_token k o : len (token k o) = TokenLen.
Proof using HL.
  unfold token, len. rewrite length_take. pose proof (hmac_length k (dackTokLabel ++ [o])) as E. unfold len in E.
  unfold mac. change (Z.to_nat TokenLen) with 16%nat. unfold TokenLen. lia.
Qed.

Lemma makeDAck_Ok k o n nonce d :
  makeDAck k o n nonce = Ok d ↔
    dack_input k o n ∧ d = token k o ++ nonce ++ aead_Seal (noteKey k) nonce (encodeNotePT n) (token k o).
Proof using HL AL.
  assert (len (noteKey k) = KeySize) as Hk by apply hmac_length.
  unfold makeDAck. rewrite Hk, aead_len, len_encodeNotePT. change (notePTLen + Overhead =? NoteLen - noteNonceLen) with true.
  rewrite Z.eqb_refl. cbn [negb]. split.
  - intros R. apply refuse_Ok in R as [E1 R]. apply refuse_Ok in R as [E2 R]. apply refuse_Ok in R as [E3 R].
    apply refuse_Ok in R as [E4 R]. injection R as <-. split; [|done].
    apply andb_false_iff in E1. rewrite !negb_false_iff, !Z.eqb_eq in E1. constructor; try done.
    + apply andb_false_iff in E2. rewrite !negb_false_iff in E2. destruct E2 as [E2%beqb_true|E2]; [by left|by right].
    + intros ->. rewrite Z.eqb_refl in E3. apply negb_false_iff in E3. by apply bool_decide_eq_true in E3.
  - intros [[Ho Hn Hp Hz] ->].
    assert (negb (o =? OutcomeProcessed) && negb (o =? OutcomeRefused) = false) as -> by (destruct Ho as [-> | ->]; done).
    assert (negb (beqb (nt_Reason n) []) && negb (ValidNoteReason (nt_Reason n)) = false) as ->.
    { destruct Hn as [-> | ->]; [done|apply andb_false_r]. }
    assert ((o =? OutcomeProcessed) && negb (bool_decide (n = emptyNote)) = false) as ->.
    { destruct Ho as [Ho|Ho]; [rewrite (Hp Ho), Ho|rewrite Ho]; done. }
    by rewrite Hz.
Qed.

(** The sender that holds the key reads the outcome and the note, at the index of the key. *)
Lemma dack_round_trip keys i k o n nonce d :
  len nonce = NonceSize → 0 <= nt_RetryAfterS n → makeDAck k o n nonce = Ok d → first_match keys (token k o) i k o →
  len d = DAckLen ∧ VerifyDAck keys d = mkDecided (Z.of_nat i) o (capped n) true true.
Proof using HL AL.
  intros Hnn Hr [[Ho Hn Hp Hz] ->]%makeDAck_Ok F. pose proof (len_token k o) as Ht.
  assert (len (token k o ++ nonce ++ aead_Seal (noteKey k) nonce (encodeNotePT n) (token k o)) = DAckLen) as Hl.
  { by rewrite !len_app, Ht, Hnn, aead_len, len_encodeNotePT. }
  assert (length (token k o) = 16%nat) as Ht' by (unfold len, TokenLen in Ht; lia).
  assert (length nonce = 12%nat) as Hnn' by (unfold len, NonceSize in Hnn; lia).
  split; [done|]. erewrite VerifyDAck_first; [|done|by rewrite take_app_length'].
  rewrite drop_app_length' by done. unfold openNote.
  assert (len (nonce ++ aead_Seal (noteKey k) nonce (encodeNotePT n) (token k o)) = NoteLen) as ->.
  { rewrite len_app, Hnn, aead_len, len_encodeNotePT. done. }
  assert (len (noteKey k) = KeySize) as Hk by apply hmac_length. rewrite Hk. cbn [negb Z.eqb NoteLen KeySize].
  change (negb (64 =? 64)) with false. change (negb (32 =? 32)) with false.
  change (Z.to_nat noteNonceLen) with 12%nat. rewrite take_app_length', drop_app_length', aead_inv by done.
  cbn [mbind option_bind]. by rewrite decode_encode_note.
Qed.
End DAck.

(** C7: the recipient's answer reaches the sender.  Of a message sealed and delivered, the recipient's
    [Open] yields a key with which [makeDAck] succeeds on every outcome and note it documents, for any
    nonce, and on nothing else; the 80 bytes it makes are decided by the sender, among all the keys it
    holds, as that outcome of that message, with the note's reason and its wait, capped, provided no
    earlier key's token (nor its own other one) is the same. *)
Theorem delivery_is_acknowledged `{P : Platform} `{I : Items} `{HC : HpkeContexts} `{A : Aead} {L : ItemsLaws I}
    {PL : PlatformLaws P} {HML : HmacLaws P} {AL : AeadLaws A} (kem_public : bytes → bytes) {HL : HpkeLaws HC kem_public}
    `{CE : Coredet KeyEvent} `{DK : Strict (list SignedEvent)}
    seed1 seed2 i rcp sign so env ack a out ring ix :
  Seal seed1 seed2 (Some i) (Some rcp) (Some sign) so = Ok (env, ack) → inner_u64 i →
  SetAccess env (Some a) = Ok out → is_u64 (ac_Kind a) →
  holds_key kem_public ring rcp → holds_ixkey kem_public ix i (so_PeerRK so) →
  ∃ op, Open out (in_To i) (Some ring) ix = OpenOk op ∧ op_AckKey op = ack ∧ ∀ o n nonce,
    (is_Ok (makeDAck (op_AckKey op) o n nonce) = true ↔ dack_input ack o n) ∧
    ∀ d keys at_, makeDAck (op_AckKey op) o n nonce = Ok d →
      len nonce = NonceSize → 0 <= nt_RetryAfterS n → first_match keys (token ack o) at_ ack o →
      len d = DAckLen ∧ VerifyDAck keys d = mkDecided (Z.of_nat at_) o (capped n) true true.
Proof.
  intros Hs Hu Ha Hk Hr Hx.
  destruct (sealed_opens kem_public _ _ _ _ _ _ _ _ _ _ _ _ Hs Hu Ha Hk Hr Hx) as (op & sig & Ho & _ & E & _).
  exists op. split; [done|]. split; [done|]. rewrite E. intros o n nonce. split.
  - split.
    + destruct (makeDAck ack o n nonce) as [d|e] eqn:Em; [|done]. by apply makeDAck_Ok in Em as [? _].
    + intros Hi. by rewrite (proj2 (makeDAck_Ok ack o n nonce _) (conj Hi eq_refl)).
  - intros d keys at_ Hd Hn Hw Hf. by apply (dack_round_trip keys at_ ack o n nonce d).
Qed.

(** ** Waits *)

Lemma tier_spec s now :
  s ≠ 0 → let r := RetryBucket s false now in
  In r retryTiers ∧ (s <= 3600 → s <= r) ∧ (3600 < s → r = 3600) ∧ ∀ t, In t retryTiers → s <= t → r <= t.
Proof.
  intros Hs. cbv zeta. unfold RetryBucket. rewrite (proj2 (Z.eqb_neq _ _) Hs). unfold retryTiers. cbn [List.find List.last].
  repeat match goal with |- context [?a <=? ?b] => destruct (Z.leb_spec a b) end;
    (split_and!; [simpl; tauto|lia|lia|]; intros t' Ht' Hle; simpl in Ht'; lia).
Qed.

(** The day window in one division. *)
Lemma day_spec now :
  RetryBucket 0 true now = (dayMS - now mod dayMS + 899999) / 900000 * 900 ∧ 0 < dayMS - now mod dayMS <= dayMS ∧
  ∀ s, RetryBucket s true now = RetryBucket 0 true now.
Proof.
  pose proof (Z.mod_pos_bound now dayMS ltac:(done)) as Hm. set (left := dayMS - now mod dayMS).
  assert (0 < left <= 86400000) as Hl by (subst left; unfold dayMS, hourMS, minuteMS in *; lia).
  split_and!; [|apply Hl|apply Hl|done]. unfold RetryBucket. fold left. unfold u64, MaxRetryAfterS, two64.
  rewrite (Z.mod_small left), (Z.mod_small (left + 999)) by lia.
  assert (0 <= (left + 999) / 1000 <= 86400) as H1.
  { split; [apply Z.div_pos; lia|]. apply Z.lt_succ_r, Z.div_lt_upper_bound; lia. }
  rewrite (Z.mod_small ((left + 999) / 1000 + 899)) by lia.
  assert (((left + 999) / 1000 + 899) / 900 = (left + 899999) / 900000) as ->.
  { replace 900000 with (1000 * 900) by done. rewrite <- Z.div_div by lia. f_equal.
    replace (left + 899999) with (left + 999 + 899 * 1000) by lia. by rewrite Z.div_add by lia. }
  assert (0 <= (left + 899999) / 900000 <= 96) as H2.
  { split; [apply Z.div_pos; lia|]. apply Z.lt_succ_r, Z.div_lt_upper_bound; lia. }
  rewrite (Z.mod_small (_ * 900)) by lia. rewrite Z.min_l by lia. apply Z.mod_small. lia.
Qed.

(** The wait a refusal names.  Without the day window it is 0 exactly for 0, a tier otherwise, no
    less than the wait asked when that is at most an hour and the least tier that is not, and never
    falls as the wait grows.  With it, it covers the time to the next UTC midnight, is a multiple of a
    quarter of an hour, at most a day, and less than a quarter of an hour too long; nothing overflows. *)
Theorem retry_waits s now :
  let r := RetryBucket s false now in
  let left := dayMS - now mod dayMS in let d := RetryBucket s true now in
  (r = 0 ↔ s = 0) ∧ (s ≠ 0 → In r retryTiers) ∧ (s <= 3600 → s <= r) ∧
  (∀ t, In t retryTiers → s <= t → r <= t) ∧ (∀ s', 0 < s → s <= s' → r <= RetryBucket s' false now) ∧
  0 < left <= dayMS ∧ left <= d * 1000 ∧ (d - 900) * 1000 < left ∧ d mod 900 = 0 ∧ 0 < d <= MaxRetryAfterS.
Proof.
  cbv zeta. destruct (day_spec now) as (Hd & Hl & ->). rewrite Hd. set (left := dayMS - now mod dayMS) in *.
  assert (∀ t, In t retryTiers → 0 < t <= 3600) as Htier by (intros t; simpl; lia).
  pose proof (Z.div_mod (left + 899999) 900000 ltac:(done)) as Hq.
  pose proof (Z.mod_pos_bound (left + 899999) 900000 ltac:(done)) as Hr.
  change dayMS with 86400000 in *. unfold MaxRetryAfterS.
  split_and!; try lia; [| | | | |by rewrite Z.mod_mul].
  - split; [|by intros ->]. destruct (decide (s = 0)) as [|Hs]; [done|]. intros E.
    destruct (tier_spec s now Hs) as [Hi _]. rewrite E in Hi. apply Htier in Hi. lia.
  - intros Hs. by destruct (tier_spec s now Hs) as [Hi _].
  - destruct (decide (s = 0)) as [->|Hs]; [done|]. by destruct (tier_spec s now Hs) as (_ & Hi & _).
  - destruct (decide (s = 0)) as [->|Hs]; [intros t Ht _; apply Htier in Ht; cbn; lia|].
    by destruct (tier_spec s now Hs) as (_ & _ & _ & Hi).
  - intros s' H0 Hle. destruct (tier_spec s now ltac:(lia)) as (Hi & _ & _ & Hmin).
    destruct (tier_spec s' now ltac:(lia)) as (Hi' & Hge & Htop & _). apply Htier in Hi.
    destruct (Z.le_gt_cases s' 3600) as [Hs'|Hs']; [apply Hmin; [done|]; specialize (Hge Hs'); lia|rewrite (Htop Hs'); lia].
Qed.
