(* ===== verification/DackSamples.v ===== *)
(** * DackSamples: a delivery, acknowledged *)

From S2P Require Import Prelude Aid Platform Kel KelReference Controller IdFile Notice Fields Envelope EnvelopeTheorems SealRoundTrip Dack DackTheorems EnvelopeReference SealSamples.
Import Light.

(** A tag over everything, in front of the plaintext. *)
Definition note_tag (key nonce pt aad : bytes) : bytes := take 16 (digest (key ++ nonce ++ aad ++ pt)).
#[export] Instance ref_aead : Aead := {|
  aead_Seal key nonce pt aad := note_tag key nonce pt aad ++ pt;
  aead_Open key nonce ct aad :=
    if beqb (take 16 ct) (note_tag key nonce (drop 16 ct) aad) then Some (drop 16 ct) else None;
|}.

Lemma note_tag_length key nonce pt aad : length (note_tag key nonce pt aad) = 16%nat.
Proof. unfold note_tag. by rewrite length_take, light_length. Qed.

#[export] Instance ref_aead_laws : AeadLaws ref_aead.
Proof.
  constructor; intros key nonce pt aad; cbn [aead_Open aead_Seal ref_aead].
  - intros _ _. rewrite (take_app_length' _ _ _ (eq_sym (note_tag_length key nonce pt aad))).
    by rewrite (drop_app_length' _ _ _ (eq_sym (note_tag_length key nonce pt aad))), beqb_refl.
  - rewrite len_app. unfold len. rewrite note_tag_length. unfold Overhead. lia.
Qed.

(** The recipient is busy; the sender sent two versions and the second arrived. *)
Definition sample_ack : bytes := Eval vm_compute in sample_envelope.2.
Definition busy : Note := mkNote (str "busy") 900.
Definition sample_nonce : bytes := repeat 8 12.
Definition sample_keys_held : list bytes := [repeat 0 32; repeat 17 32; sample_ack].
Definition sample_dack : bytes := Eval vm_compute in get [] (makeDAck sample_ack OutcomeRefused busy sample_nonce).

Lemma sample_dack_made : makeDAck sample_ack OutcomeRefused busy sample_nonce = Ok sample_dack.
Proof. vm_compute. reflexivity. Qed.

Lemma sample_first_match :
  first_match sample_keys_held (token sample_ack OutcomeRefused) 2 sample_ack OutcomeRefused.
Proof.
  constructor; [reflexivity|vm_compute; reflexivity|by right|reflexivity|intros _; vm_compute; discriminate|].
  intros [|[|j]] k' Hj; [intros [= <-]; vm_compute; discriminate|intros [= <-] _; split; vm_compute; discriminate|lia].
Qed.

Lemma delivery_is_acknowledged_witness :
  ∃ op, Open sample_delivered (in_To sample_sealed_inner) (Some sample_ring) (Some sample_lookup) = OpenOk op ∧
    makeDAck (op_AckKey op) OutcomeRefused busy sample_nonce = Ok sample_dack ∧
    VerifyDAck sample_keys_held sample_dack = mkDecided 2 OutcomeRefused busy true true.
Proof.
  destruct (delivery_is_acknowledged ref_public (repeat 7 32) (repeat 8 32) sample_sealed_inner epoch_key
    (snapshot_Sign sealer_snapshot) sample_opts _ _ sample_access _ sample_ring (Some sample_lookup)
    (proj1 sample_seal) sample_inner_u64 (proj2 sample_seal) sample_access_u64 sample_holds sample_holds_ix) as (op & Ho & Ha & T).
  assert (makeDAck (op_AckKey op) OutcomeRefused busy sample_nonce = Ok sample_dack) as Hd.
  { rewrite Ha. exact sample_dack_made. }
  exact (ex_intro _ op (conj Ho (conj Hd (proj2 (proj2 (T OutcomeRefused busy sample_nonce) sample_dack sample_keys_held 2%nat
    Hd eq_refl (Zle_bool_imp_le 0 900 eq_refl) sample_first_match))))).
Defined.

(** A note replaced on the way: the outcome stands, the note is lost. *)
Example note_replaced :
  VerifyDAck sample_keys_held (take 16 sample_dack ++ repeat 1 64) = mkDecided 2 OutcomeRefused emptyNote false true.
Proof. vm_compute. reflexivity. Qed.

Example waits : map (λ s, RetryBucket s false 0) [0; 1; 2; 5; 61; 3600; 4000000000] = [0; 1; 5; 5; 300; 3600; 3600].
Proof. reflexivity. Qed.
Example day_waits : map (RetryBucket 7 true) [0; 1760000000000; 1760054399999; 18446744073709551615] = [86400; 54900; 900; 35100].
Proof. vm_compute. reflexivity. Qed.
