(* ===== verification/Agenturi.v ===== *)
(** * Agenturi: agent:// names (agenturi/agenturi.go)

    [Parse] reads a name, [Serialize] writes the canonical form of what was read, and two names are
    the same when their canonical forms are.  Unicode normalization is a library's ([NFC]); the tables
    of Go's [unicode] package the code asks are data of a Unicode version ([is_Cf] and the scripts). *)

From stdpp Require Import sorting.
From S2P Require Import Prelude Text Utf8.

(** ** Data *)

Inductive Form := Concrete | CapabilityQuery.
Record QPair := mkQPair { q_Key : bytes; q_Value : bytes }.
Record ParseValue := mkParseValue {
  pv_Form : Form;
  pv_Org : bytes;
  pv_NS : bytes;
  pv_Svc : bytes;
  pv_Inst : bytes;
  pv_Capability : bytes;
  pv_Query : list QPair;
  pv_hasNS : bool;
  pv_hasSvc : bool;
  pv_hasInst : bool;
}.
Definition emptyValue : ParseValue := mkParseValue Concrete [] [] [] [] [] [] false false false.

(** [errf]: the reason and the text, the values of its verbs left out. *)
Definition errf (reason detail : string) : error := Typed reason detail.

(** ** Character classes *)

Definition isUnreserved (r : Z) : bool :=
  (97 <=? r) && (r <=? 122) || (65 <=? r) && (r <=? 90) || (48 <=? r) && (r <=? 57)
  || existsb (Z.eqb r) [45; 46; 95; 126].

Definition ucsRanges : list (Z * Z) :=
  [(160, 55295); (63744, 64975); (65008, 65519); (65536, 131069); (131072, 196605); (196608, 262141); (262144, 327677);
   (327680, 393213); (393216, 458749); (458752, 524285); (524288, 589821); (589824, 655357); (655360, 720893);
   (720896, 786429); (786432, 851965); (851968, 917501); (921600, 983037)].
Definition isUcschar (r : Z) : bool := existsb (λ p, (p.1 <=? r) && (r <=? p.2)) ucsRanges.

Definition hexVal (b : Z) : option Z :=
  if (48 <=? b) && (b <=? 57) then Some (b - 48)
  else if (97 <=? b) && (b <=? 102) then Some (b - 97 + 10)
  else if (65 <=? b) && (b <=? 70) then Some (b - 65 + 10)
  else None.

(** ** S1: decoding

    The loops of [decodeComponent] ([label] is true) and of [decodeQ]; they differ in what a star is. *)
Definition ascii_char (label : bool) (c : Z) : result unit :=
  refuse label && (c =? 42) with errf "WILDCARD_IN_LABEL" "literal * in label";
  refuse negb (isUnreserved c) with errf "ILLEGAL_CHAR" "octet not name-char";
  Ok tt.
Definition ucs_char (r : Z) : result unit :=
  refuse negb (isUcschar r) with errf "ILLEGAL_CHAR" "rune not name-char";
  Ok tt.

Fixpoint decode_loop (label : bool) (s : bytes) : result bytes :=
  match s with
  | [] => Ok []
  | c :: s =>
      if c =? 37 then
        match s with
        | h :: l :: s =>
            match hexVal h, hexVal l with
            | Some hi, Some lo => out ← decode_loop label s; Ok (hi * 16 + lo :: out)
            | _, _ => Err (errf "BAD_PCT_ENCODING" "non-hex escape")
            end
        | _ => Err (errf "BAD_PCT_ENCODING" "truncated escape")
        end
      else if c <? 128 then
        _ ← ascii_char label c;
        out ← decode_loop label s;
        Ok (c :: out)
      else
        match rune_size c s, s with
        | Some 2, a :: s => _ ← ucs_char (rune2 c a); out ← decode_loop label s; Ok (c :: a :: out)
        | Some 3, a :: b :: s => _ ← ucs_char (rune3 c a b); out ← decode_loop label s; Ok (c :: a :: b :: out)
        | Some 4, a :: b :: d :: s => _ ← ucs_char (rune4 c a b d); out ← decode_loop label s; Ok (c :: a :: b :: d :: out)
        | _, _ => Err (errf "BAD_UTF8" "invalid utf-8")
        end
  end.

Definition decodeComponent (s : bytes) : result bytes :=
  refuse beqb s [] with errf "EMPTY_LABEL" "empty component";
  out ← decode_loop true s;
  refuse negb (ValidString out) with errf "BAD_UTF8" "decoded bytes not valid utf-8";
  Ok out.

Definition decodeQ (s : bytes) : result bytes :=
  out ← decode_loop false s;
  refuse negb (ValidString out) with errf "BAD_UTF8" "decoded query bytes not valid utf-8";
  Ok out.

Section Names.
Context `{U : Unicode}.

(** ** S3: folding *)

Definition fold_rune (r : Z) : list Z :=
  if (r =? 8204) || (r =? 8205) then []
  else if r =? 223 then [115; 115]
  else if r =? 962 then [963]
  else if (65 <=? r) && (r <=? 90) then [r + 32]
  else [r].
(** The loop over the runes, writing to a builder. *)
Definition map_fold (s : bytes) : bytes := utf8 (flat_map fold_rune (runes s)).
Definition foldLabel (s : bytes) : bytes := NFC (map_fold (NFC s)).

(** ** S6: rejecting *)

Definition joiner (r : Z) : bool := (r =? 8204) || (r =? 8205).
Definition disallowed (r : Z) : bool := negb (joiner r) && (is_Cc r || is_Cf r || is_Zl r || is_Zp r).

(** The second loop: which scripts occur; a rune counts for the first that has it. *)
Definition has_latin (rs : list Z) : bool := existsb is_Latin rs.
Definition has_cyrillic (rs : list Z) : bool := existsb (λ r, negb (is_Latin r) && is_Cyrillic r) rs.
Definition has_greek (rs : list Z) : bool := existsb (λ r, negb (is_Latin r) && negb (is_Cyrillic r) && is_Greek r) rs.

Definition rejectCheck (label : bytes) : result unit :=
  refuse beqb label [] with errf "EMPTY_LABEL" "label folds to the empty string";
  refuse existsb disallowed (runes label) with errf "DISALLOWED_CODEPOINT" "code point";
  refuse has_latin (runes label) && (has_cyrillic (runes label) || has_greek (runes label))
    with errf "MIXED_SCRIPT" "Latin mixed with Cyrillic/Greek";
  Ok tt.

(** ** S2: markers

    [strings.EqualFold] against a word of lower-case ASCII letters, '=' excepted.  No letter of a
    multi-byte rune folds to a string of as many bytes, so on a prefix as long as the word, and on
    the scheme, whose letters fold to ASCII letters only, it compares ASCII letters without case. *)
Definition to_lower (c : Z) : Z := if (65 <=? c) && (c <=? 90) then c + 32 else c.
Definition EqualFold (s word : bytes) : bool := beqb (map to_lower s) word.

Definition markers : list (bytes * Z) := [(str "ns=", 2); (str "svc=", 3); (str "inst=", 4)].

Definition matchMarker (seg : bytes) : option (Z * bytes) :=
  match List.find (λ m, (len m.1 <=? len seg) && EqualFold (take (length m.1) seg) m.1) markers with
  | Some m => Some (m.2, drop (length m.1) seg)
  | None => None
  end.

(** ** Parsing *)

Definition assigned (v : ParseValue) (pos : Z) : bool :=
  if pos =? 2 then pv_hasNS v else if pos =? 3 then pv_hasSvc v else if pos =? 4 then pv_hasInst v else false.

Definition setPos (v : ParseValue) (pos : Z) (val : bytes) : ParseValue :=
  let '(mkParseValue f o n s i c q hn hs hi) := v in
  if pos =? 2 then mkParseValue f o val s i c q true hs hi
  else if pos =? 3 then mkParseValue f o n val i c q hn true hi
  else if pos =? 4 then mkParseValue f o n s val c q hn hs true
  else v.

(** A decoded, folded and checked label. *)
Definition read_label (s : bytes) : result bytes :=
  l ← decodeComponent s;
  let folded := foldLabel l in
  _ ← rejectCheck folded;
  Ok folded.

(** The loop over the marked segments. *)
Fixpoint parse_segs (segs : list bytes) (v : ParseValue) (pos : Z) : result ParseValue :=
  match segs with
  | [] => Ok v
  | seg :: segs =>
      match matchMarker seg with
      | None =>
          refuse has_byte 42 seg with errf "WILDCARD_IN_LABEL" "* outside capability-query authority";
          Err (errf "UNMARKED_SEGMENT" "segment has no marker")
      | Some (mpos, restseg) =>
          if mpos <=? pos then
            refuse assigned v mpos with errf "DUPLICATE_MARKER" "position twice";
            Err (errf "POSITION_ORDER" "marker position")
          else
            refuse assigned v mpos with errf "DUPLICATE_MARKER" "position twice";
            folded ← read_label restseg;
            parse_segs segs (setPos v mpos folded) mpos
      end
  end.

(** [parseQuery]: the loop over the pairs. *)
Fixpoint parse_pairs (pairs : list bytes) : result (list QPair) :=
  match pairs with
  | [] => Ok []
  | kv :: pairs =>
      '(k, val) ← of_option (cut_byte 61 kv) (errf "QUERY_SYNTAX" "pair has no =");
      refuse beqb k [] with errf "QUERY_SYNTAX" "empty key";
      dk ← decodeQ k;
      dv ← decodeQ val;
      out ← parse_pairs pairs;
      Ok (mkQPair (NFC dk) (NFC dv) :: out)
  end.
Definition parseQuery (qs : bytes) : result (list QPair) :=
  refuse beqb qs [] with errf "QUERY_SYNTAX" "empty query";
  parse_pairs (split_byte 38 qs).

(** [strings.Index(s, "://")], as the split around it. *)
Fixpoint cut_scheme (s : bytes) : option (bytes * bytes) :=
  match s with
  | [] => None
  | c :: r =>
      if has_prefix (str "://") s then Some ([], drop 3 s)
      else match cut_scheme r with Some (l, t) => Some (c :: l, t) | None => None end
  end.

Definition with_query (v : ParseValue) (q : list QPair) : ParseValue :=
  let '(mkParseValue f o n s i c _ hn hs hi) := v in mkParseValue f o n s i c q hn hs hi.

(** The path, by its first segment. *)
Definition parse_path (segs : list bytes) : result ParseValue :=
  match segs with
  | [] => Err Panic
  | seg0 :: rest =>
      if beqb seg0 [42] then
        match rest with
        | [seg] =>
            cap ← decodeComponent seg;
            let folded := foldLabel cap in
            _ ← rejectCheck folded;
            Ok (mkParseValue CapabilityQuery [] [] [] [] folded [] false false false)
        | _ => Err (errf "WILDCARD_FORM" "wildcard requires exactly one capability segment")
        end
      else
        refuse beqb seg0 [] with errf "EMPTY_AUTHORITY" "nothing after agent://";
        refuse has_byte 42 seg0 with errf "WILDCARD_IN_LABEL" "* in authority label";
        org ← read_label seg0;
        refuse existsb (λ seg, beqb seg []) rest with errf "EMPTY_LABEL" "empty path segment";
        parse_segs rest (mkParseValue Concrete org [] [] [] [] [] false false false) 1
  end.

Definition Parse (s : bytes) : result ParseValue :=
  refuse negb (ValidString s) with errf "BAD_UTF8" "input not valid utf-8";
  '(scheme, rest) ← of_option (cut_scheme s) (errf "SCHEME_MISMATCH" "no scheme separator");
  refuse negb (EqualFold scheme (str "agent")) with errf "SCHEME_MISMATCH" "scheme";
  refuse has_byte 35 rest with errf "FRAGMENT_PRESENT" "# present";
  let '(path, qs) := match cut_byte 63 rest with Some (p, q) => (p, Some q) | None => (rest, None) end in
  v ← parse_path (split_byte 47 path);
  match qs with
  | Some q => pairs ← parseQuery q; Ok (with_query v pairs)
  | None => Ok v
  end.

(** ** S4, S5, S7: serializing *)

(** ["%%%02X"]. *)
Definition hex_digit (n : Z) : Z := if n <? 10 then 48 + n else 55 + n.
Definition percent (b : Z) : bytes := [37; hex_digit (b / 16); hex_digit (b mod 16)].

Definition enc_rune (r : Z) : bytes :=
  if isUnreserved r || isUcschar r then encode_rune r else flat_map percent (encode_rune r).
Definition encLabel (s : bytes) : bytes := flat_map enc_rune (runes s).

Definition enc_pair (p : QPair) : bytes := encLabel (q_Key p) ++ [61] ++ encLabel (q_Value p).

Definition Serialize (v : ParseValue) : bytes :=
  str "agent://" ++
  match pv_Form v with
  | CapabilityQuery => str "*/" ++ encLabel (pv_Capability v)
  | Concrete =>
      encLabel (pv_Org v)
      ++ (if pv_hasNS v then str "/ns=" ++ encLabel (pv_NS v) else [])
      ++ (if pv_hasSvc v then str "/svc=" ++ encLabel (pv_Svc v) else [])
      ++ (if pv_hasInst v then str "/inst=" ++ encLabel (pv_Inst v) else [])
  end
  ++ (if (0 <? len (pv_Query v)) then [63] ++ join [38] (merge_sort bytes_le (map enc_pair (pv_Query v))) else []).

(** ** Comparing *)

Definition Canonical (s : bytes) : result bytes := v ← Parse s; Ok (Serialize v).

Definition Equals (a b : bytes) : result bool :=
  ca ← Canonical a;
  cb ← Canonical b;
  Ok (beqb ca cb).

Definition isConcrete (f : Form) : bool := match f with Concrete => true | CapabilityQuery => false end.

Definition ValidateCapabilityQuery (s : bytes) : result bytes :=
  v ← Parse s;
  refuse isConcrete (pv_Form v) with errf "WRONG_FORM" "not a capability query";
  Ok (Serialize v).

Definition RequireConcreteLocator (s : bytes) : result bytes :=
  v ← Parse s;
  refuse negb (isConcrete (pv_Form v)) with errf "WRONG_FORM" "not a concrete locator";
  Ok (Serialize v).
End Names.
