(* ===== verification/AgenturiFacts.v ===== *)
(** * AgenturiFacts: what a label and a query look like, written and read back *)

From stdpp Require Import sorting.
From S2P Require Import Prelude Checks Text Utf8 Agenturi.

(** What normalization is documented to do: its result is text, normal and empty only for the empty
    text; U+212A, which decomposes to K, is in no normal text; and from a text of runes that are
    their own fold, U+212A excepted, it makes no rune that is not. *)
Class UnicodeLaws (U : Unicode) : Prop := {
  nfc_text s : text s → text (NFC s);
  nfc_idem s : text s → NFC (NFC s) = NFC s;
  nfc_nonempty s : text s → NFC s = [] → s = [];
  nfc_kelvin s : text s → 8490 ∉ runes (NFC s);
  nfc_folded s : text s → Forall (λ r, fold_rune r = [r] ∧ r ≠ 8490) (runes s) →
    Forall (λ r, fold_rune r = [r]) (runes (NFC s));
}.

(** ** Separators *)

Lemma split_join c ws : ws ≠ [] → Forall (λ w, c ∉ w) ws → split_byte c (join [c] ws) = ws.
Proof.
  intros Hne Hws. induction Hws as [|w ws Hw Hws IH]; [done|]. destruct ws as [|w' ws]; [by apply split_byte_none|].
  change (join [c] (w :: w' :: ws)) with (w ++ c :: join [c] (w' :: ws)). rewrite split_byte_app by done. by rewrite IH.
Qed.

Lemma join_elem c ws x : x ∈ join [c] ws → x = c ∨ ∃ w, w ∈ ws ∧ x ∈ w.
Proof.
  induction ws as [|w ws IH]; [by intros ?%elem_of_nil|]. destruct ws as [|w' ws].
  - intros Hx. right. exists w. split; [by constructor|done].
  - change (join [c] (w :: w' :: ws)) with (w ++ [c] ++ join [c] (w' :: ws)).
    rewrite !elem_of_app, list_elem_of_singleton. intros [Hx|[Hx|Hx]]; [right; exists w; split; [by constructor|done]|by left|].
    destruct (IH Hx) as [|(u & Hu & Hxu)]; [by left|]. right. exists u. split; [by constructor|done].
Qed.

Lemma text_join c ws : 0 <= c < 128 → Forall text ws → text (join [c] ws).
Proof.
  intros Hc. induction 1 as [|w ws Hw Hws IH]; [apply text_nil|]. destruct ws as [|w' ws]; [done|].
  change (join [c] (w :: w' :: ws)) with (w ++ [c] ++ join [c] (w' :: ws)).
  apply text_app; [done|]. apply text_app; [|done]. apply text_ascii. by constructor.
Qed.

(** ** Characters *)

Lemma unreserved_ascii r : isUnreserved r = true → 0 <= r < 128 ∧ r ∉ [35; 37; 38; 42; 47; 58; 61; 63].
Proof.
  unfold isUnreserved. cbn [existsb]. intros Hr.
  assert (97 <= r <= 122 ∨ 65 <= r <= 90 ∨ 48 <= r <= 57 ∨ r = 45 ∨ r = 46 ∨ r = 95 ∨ r = 126) as Hc by lia.
  split; [lia|]. rewrite !not_elem_of_cons. split_and!; try lia. apply not_elem_of_nil.
Qed.

Lemma ucschar_high r : isUcschar r = true → 160 <= r.
Proof. unfold isUcschar, ucsRanges. cbn [existsb fst snd]. lia. Qed.

(** The lead byte of a character of several bytes, and its size. *)
Lemma char_long r c t s :
  char r (c :: t) → 128 <= r → 128 <= c ∧ rune_size c (t ++ s) = Some (len (c :: t)) ∧
  match t with
  | [a] => r = rune2 c a
  | [a; b] => r = rune3 c a b
  | [a; b; d] => r = rune4 c a b d
  | _ => False
  end.
Proof.
  intros Hc Hr. inversion Hc as [c' Hc'|c' a Hc' Ha|c' a b Hc' H1 H2 Ha Hb|c' a b d Hc' H1 H2 Ha Hb Hd]; subst; [lia|..];
    (split; [lia|]; split; [|done]; cbn [app]; unfold rune_size).
  - rewrite Ha. bdestr; done.
  - apply is_tail_spec in Ha. rewrite Hb. bdestr; done.
  - apply is_tail_spec in Ha. rewrite Hb, Hd. bdestr; done.
Qed.

Lemma decode_ascii label c s :
  isUnreserved c = true → decode_loop label (c :: s) = out ← decode_loop label s; Ok (c :: out).
Proof.
  intros Hc. destruct (unreserved_ascii c Hc) as [Hr Hn]. rewrite !not_elem_of_cons in Hn. destruct Hn as (_ & N & _ & N' & _).
  simpl. rewrite (proj2 (Z.eqb_neq c 37)) by done. rewrite (proj2 (Z.ltb_lt c 128)) by lia.
  unfold ascii_char. rewrite (proj2 (Z.eqb_neq c 42)) by done. by rewrite andb_false_r, Hc.
Qed.

Lemma decode_char label r s :
  scalar r → isUnreserved r || isUcschar r = true →
  decode_loop label (encode_rune r ++ s) = out ← decode_loop label s; Ok (encode_rune r ++ out).
Proof.
  intros Hs Hc. destruct (isUnreserved r) eqn:Hu.
  - destruct (unreserved_ascii r Hu) as [Hr _].
    assert (encode_rune r = [r]) as -> by (unfold encode_rune; rewrite (proj2 (scalarb_spec r) Hs); by rewrite (proj2 (Z.ltb_lt r 128)) by lia).
    by apply decode_ascii.
  - simpl in Hc. pose proof (ucschar_high r Hc) as Hh. pose proof (char_encode r Hs) as Hch.
    destruct (encode_rune r) as [|c t] eqn:E; [inversion Hch|].
    destruct (char_long r c t s Hch) as (H1 & H2 & H3); [lia|]. cbn [app decode_loop]. 
    rewrite (proj2 (Z.eqb_neq c 37)) by lia. rewrite (proj2 (Z.ltb_ge c 128)) by lia. rewrite H2.
    unfold ucs_char. destruct t as [|a [|b [|d [|]]]]; try done; cbn [app len length]; rewrite <- H3, Hc; done.
Qed.

Lemma hex_value n : 0 <= n < 16 → hexVal (hex_digit n) = Some n ∧ 48 <= hex_digit n <= 70 ∧ hex_digit n ∉ [58; 61; 63].
Proof.
  intros Hn. assert (n ∈ seqZ 0 16) as Hi by (apply elem_of_seqZ; lia). clear Hn. revert n Hi. apply Forall_forall.
  change (seqZ 0 16) with [0; 1; 2; 3; 4; 5; 6; 7; 8; 9; 10; 11; 12; 13; 14; 15].
  repeat constructor; unfold hex_digit; simpl; try lia; rewrite !not_elem_of_cons; split_and!; try lia; apply not_elem_of_nil.
Qed.

Lemma decode_percent label bs s :
  bytes_ok bs → decode_loop label (flat_map percent bs ++ s) = out ← decode_loop label s; Ok (bs ++ out).
Proof.
  induction 1 as [|b bs Hb _ IH]; simpl.
  - by destruct (decode_loop label s).
  - unfold byte_ok in Hb. destruct (hex_value (b / 16)) as (H1 & _); [Z.to_euclidean_division_equations; lia|].
    destruct (hex_value (b mod 16)) as (H2 & _); [Z.to_euclidean_division_equations; lia|].
    rewrite H1, H2, IH. destruct (decode_loop label s); [|done]. cbn [mbind result_bind].
    do 2 f_equal. rewrite (Z.div_mod b 16) at 3 by done. lia.
Qed.

Lemma encLabel_cons r s : scalar r → encLabel (encode_rune r ++ s) = enc_rune r ++ encLabel s.
Proof. intros Hr. unfold encLabel. by rewrite runes_encode. Qed.

Lemma decode_encLabel label s : text s → decode_loop label (encLabel s) = Ok s.
Proof.
  intros [Hok Hv]. revert s Hok Hv. apply valid_ind; [done|]. intros r s Hr _ _ IH. rewrite encLabel_cons by done.
  unfold enc_rune. destruct (isUnreserved r || isUcschar r) eqn:E.
  - rewrite decode_char by done. by rewrite IH.
  - rewrite decode_percent by apply encode_rune_ok. by rewrite IH.
Qed.

(** The bytes that separate parts of a name. *)
Definition seps : list Z := [35; 38; 42; 47; 58; 61; 63].
Definition no_seps (s : bytes) : Prop := Forall (λ c, c ∉ seps) s.

Lemma high_no_sep c : 128 <= c → c ∉ seps.
Proof. intros Hc. unfold seps. rewrite !not_elem_of_cons. split_and!; try lia. apply not_elem_of_nil. Qed.

Lemma char_no_seps r bs : char r bs → isUnreserved r || isUcschar r = true → no_seps bs.
Proof.
  intros Hc Hr. unfold no_seps. destruct (isUnreserved r) eqn:Hu.
  - destruct (unreserved_ascii r Hu) as [Ha Hn].
    assert (r ∉ seps) as Hs by (unfold seps; rewrite !not_elem_of_cons in *; naive_solver).
    inversion Hc; subst; [by repeat constructor|..]; rewrite ?is_tail_spec in *; unfold rune2, rune3, rune4 in Ha; exfalso;
      first [lia | destruct (Z.eq_dec c 224) | destruct (Z.eq_dec c 240)]; lia.
  - simpl in Hr. apply ucschar_high in Hr.
    inversion Hc; subst; [lia|..]; rewrite ?is_tail_spec in *; repeat constructor; apply high_no_sep; lia.
Qed.

Lemma percent_no_seps b : byte_ok b → no_seps (percent b) ∧ text (percent b).
Proof.
  unfold byte_ok. intros Hb. destruct (hex_value (b / 16)) as (_ & H1 & N1); [Z.to_euclidean_division_equations; lia|].
  destruct (hex_value (b mod 16)) as (_ & H2 & N2); [Z.to_euclidean_division_equations; lia|].
  unfold percent, no_seps, seps in *. rewrite !not_elem_of_cons in *. split.
  - repeat constructor; rewrite !not_elem_of_cons; split_and!; try lia; try apply not_elem_of_nil; tauto.
  - apply text_ascii. repeat constructor; lia.
Qed.

Lemma flat_percent bs : bytes_ok bs → no_seps (flat_map percent bs) ∧ text (flat_map percent bs).
Proof.
  induction 1 as [|b bs Hb _ [IH1 IH2]]; [split; [constructor|apply text_nil]|].
  destruct (percent_no_seps b Hb) as [P1 P2]. change (flat_map percent (b :: bs)) with (percent b ++ flat_map percent bs). split; [by apply Forall_app|by apply text_app].
Qed.

(** What is written of a text: text without separators, empty only for the empty text. *)
Lemma encLabel_ok s : text s → no_seps (encLabel s) ∧ text (encLabel s) ∧ (encLabel s = [] → s = []).
Proof.
  intros [Hok Hv]. revert s Hok Hv. apply valid_ind; [split_and!; [constructor|apply text_nil|done]|].
  intros r s Hr _ _ (IH1 & IH2 & _). rewrite encLabel_cons by done.
  assert (no_seps (enc_rune r) ∧ text (enc_rune r)) as [E1 E2].
  { unfold enc_rune. destruct (isUnreserved r || isUcschar r) eqn:E.
    - split; [by eapply char_no_seps, E; apply char_encode|apply text_rune].
    - apply flat_percent, encode_rune_ok. }
  split_and!; [by apply Forall_app|by apply text_app|].
  intros [En _]%app_nil. exfalso. pose proof (char_encode r Hr) as Hc. unfold enc_rune in En.
  destruct (encode_rune r) eqn:Ee; [inversion Hc|]. by destruct (isUnreserved r || isUcschar r).
Qed.

Lemma no_seps_notin c s : no_seps s → c ∈ seps → c ∉ s.
Proof. unfold no_seps. rewrite Forall_forall. naive_solver. Qed.

(** ** Folding *)

Section Folding.
Context `{U : Unicode} {L : UnicodeLaws U}.

Lemma fold_rune_id r :
  r ≠ 8204 → r ≠ 8205 → r ≠ 223 → r ≠ 962 → ¬ (65 <= r <= 90) → fold_rune r = [r].
Proof.
  intros. unfold fold_rune. do 4 (rewrite (proj2 (Z.eqb_neq r _)) by done). simpl.
  by destruct ((65 <=? r) && (r <=? 90)) eqn:E; [lia|].
Qed.

Lemma fold_rune_fixed r : scalar r → r ≠ 8490 → Forall (λ r', (fold_rune r' = [r'] ∧ r' ≠ 8490) ∧ scalar r') (fold_rune r).
Proof.
  intros Hs Hk. unfold scalar in *.
  destruct ((r =? 8204) || (r =? 8205)) eqn:E1; [unfold fold_rune at 2; rewrite E1; constructor|].
  assert (∀ r', r' = 115 ∨ r' = 963 ∨ 97 <= r' <= 122 ∨ r' = r ∧ fold_rune r = [r] →
    (fold_rune r' = [r'] ∧ r' ≠ 8490) ∧ (0 <= r' < 55296 ∨ 57344 <= r' <= 1114111)) as Hr.
  { intros r' Hr. assert (fold_rune r' = [r']) by (destruct Hr as [?|[?|[?|[-> ?]]]]; [apply fold_rune_id; lia..|done]).
    split; [split; [done|]|]; destruct Hr as [?|[?|[?|[-> ?]]]]; lia. }
  unfold fold_rune at 2. rewrite E1. destruct (r =? 223) eqn:E2; [constructor; [apply Hr; auto|constructor; [apply Hr; auto|constructor]]|].
  destruct (r =? 962) eqn:E3; [constructor; [apply Hr; auto|constructor]|].
  destruct ((65 <=? r) && (r <=? 90)) eqn:E4; (constructor; [|constructor]); apply Hr; [lia|].
  right. right. right. split; [done|]. unfold fold_rune. by rewrite E1, E2, E3, E4.
Qed.

Lemma map_fold_fixed s :
  text s → 8490 ∉ runes s →
  text (map_fold s) ∧ Forall (λ r, fold_rune r = [r] ∧ r ≠ 8490) (runes (map_fold s)).
Proof.
  intros [Hok Hv] Hk. destruct (utf8_runes s Hok Hv) as [_ Hs].
  assert (Forall (λ r', (fold_rune r' = [r'] ∧ r' ≠ 8490) ∧ scalar r') (flat_map fold_rune (runes s))) as Hf.
  { induction (runes s) as [|r rs IH]; [constructor|]. apply Forall_cons in Hs as [Hr Hs].
    apply not_elem_of_cons in Hk as [Hk1 Hk]. simpl. apply Forall_app. split; [by apply fold_rune_fixed|by apply IH]. }
  apply Forall_and in Hf as [Hf Hsc]. split; [by apply text_utf8|]. unfold map_fold. by rewrite (proj1 (runes_utf8 _ Hsc)).
Qed.

(** A label after S3: normal text whose runes are their own folds. *)
Record folded (l : bytes) : Prop := {
  fd_text : text l;
  fd_nfc : NFC l = l;
  fd_fixed : Forall (λ r, fold_rune r = [r]) (runes l);
}.

Lemma foldLabel_folded s : text s → folded (foldLabel s).
Proof using L.
  intros Hs. unfold foldLabel. destruct (map_fold_fixed (NFC s)) as [Ht Hf]; [by apply nfc_text|by apply nfc_kelvin|].
  constructor; [by apply nfc_text|by apply nfc_idem|by apply nfc_folded].
Qed.

Lemma folded_fold l : folded l → foldLabel l = l.
Proof.
  intros [[Hok Hv] Hn Hf]. unfold foldLabel. rewrite Hn. unfold map_fold.
  assert (flat_map fold_rune (runes l) = runes l) as ->.
  { induction Hf as [|r rs Hr _ IH]; [done|]. simpl. rewrite Hr, IH. done. }
  by rewrite (proj1 (utf8_runes l Hok Hv)).
Qed.
End Folding.

(** ** The order of pairs *)

