(* ===== verification/AgenturiTheorems.v ===== *)
(** * AgenturiTheorems: one canonical form to a name *)

From stdpp Require Import sorting.
From S2P Require Import Prelude Checks Text Utf8 Agenturi AgenturiFacts.

Section Names.
Context `{U : Unicode} {L : UnicodeLaws U}.

(** ** What [Parse] returns *)

Definition label_ok (l : bytes) : Prop := folded l ∧ rejectCheck l = Ok tt.

Record pair_ok (p : QPair) : Prop := {
  po_key : text (q_Key p) ∧ NFC (q_Key p) = q_Key p ∧ q_Key p ≠ [];
  po_value : text (q_Value p) ∧ NFC (q_Value p) = q_Value p;
}.

(** A position is a label when it is set and empty when it is not. *)
Definition position_ok (has : bool) (l : bytes) : Prop := if has then label_ok l else l = [].

Record name_ok (v : ParseValue) : Prop := {
  no_form :
    match pv_Form v with
    | Concrete => label_ok (pv_Org v) ∧ pv_Capability v = []
    | CapabilityQuery => label_ok (pv_Capability v) ∧ pv_Org v = [] ∧ pv_hasNS v = false ∧ pv_hasSvc v = false ∧ pv_hasInst v = false
    end;
  no_ns : position_ok (pv_hasNS v) (pv_NS v);
  no_svc : position_ok (pv_hasSvc v) (pv_Svc v);
  no_inst : position_ok (pv_hasInst v) (pv_Inst v);
  no_query : Forall pair_ok (pv_Query v);
}.

Lemma label_nonempty l : label_ok l → l ≠ [].
Proof. intros [_ Hr] ->. discriminate Hr. Qed.

(** Strong induction on a byte string, for the loops that read several bytes at a time. *)
Lemma bytes_ind (Q : bytes → Prop) : (∀ s, (∀ t, (length t < length s)%nat → Q t) → Q s) → ∀ s, Q s.
Proof.
  intros HQ s. remember (length s) as n eqn:En. revert s En. induction n as [n IH] using lt_wf_ind. intros s ->.
  apply HQ. intros t Ht. by eapply IH.
Qed.

Lemma hexVal_range b h : hexVal b = Some h → 0 <= h < 16.
Proof.
  unfold hexVal. intros Hh. destruct ((48 <=? b) && (b <=? 57)) eqn:E1; [injection Hh as <-; lia|].
  destruct ((97 <=? b) && (b <=? 102)) eqn:E2; [injection Hh as <-; lia|].
  destruct ((65 <=? b) && (b <=? 70)) eqn:E3; [injection Hh as <-; lia|done].
Qed.

Lemma decode_loop_ok label : ∀ s out, bytes_ok s → decode_loop label s = Ok out → bytes_ok out.
Proof.
  refine (bytes_ind _ _). intros [|c s] IH out Hok R; [by injection R as <-|]. apply Forall_cons in Hok as [Hc Hok]. simpl in R.
  assert (∀ s', (length s' < S (length s))%nat → ∀ o, bytes_ok s' → decode_loop label s' = Ok o → bytes_ok o) as IH'.
  { intros s' Hl o. by apply IH. }
  clear IH. destruct (c =? 37).
  - destruct s as [|h [|l s]]; [done..|]. destruct (hexVal h) as [hi|] eqn:E1; [|done]. destruct (hexVal l) as [lo|] eqn:E2; [|done].
    apply bind_Ok in R as (o & Ro & [= <-]). apply hexVal_range in E1. apply hexVal_range in E2.
    apply Forall_cons in Hok as [_ Hok]. apply Forall_cons in Hok as [_ Hok]. constructor; [unfold byte_ok; lia|].
    eapply IH'; [|done..]. simpl. lia.
  - destruct (c <? 128).
    + apply bind_Ok in R as ([] & _ & R). apply bind_Ok in R as (o & Ro & [= <-]). constructor; [done|]. eapply IH'; [|done..]. simpl. lia.
    + destruct (rune_size c s) as [z|]; [|done].
      assert (∀ n s' (w : result unit) f, s' = drop n s → (∀ o, bytes_ok o → bytes_ok (f o)) →
        (_ ← w; o ← decode_loop label s'; Ok (f o)) = Ok out → bytes_ok out) as Hstep.
      { intros n s' w f -> Hf Rw. apply bind_Ok in Rw as ([] & _ & Rw). apply bind_Ok in Rw as (o & Ro & [= <-]).
        apply Hf. eapply IH'; [|by apply Forall_drop|done]. rewrite length_drop. lia. }
      repeat match goal with
        | R : match ?x with _ => _ end = Ok _ |- _ => destruct x; try done
        end;
      repeat match goal with K : bytes_ok (_ :: _) |- _ => apply Forall_cons in K as [? K] | K : Forall byte_ok (_ :: _) |- _ => apply Forall_cons in K as [? K] end.
      all: first [eapply (Hstep 1%nat); [|..|exact R]; [done|intros o Ho; repeat (apply Forall_cons; split; [done|]); exact Ho]
                 |eapply (Hstep 2%nat); [|..|exact R]; [done|intros o Ho; repeat (apply Forall_cons; split; [done|]); exact Ho]
                 |eapply (Hstep 3%nat); [|..|exact R]; [done|intros o Ho; repeat (apply Forall_cons; split; [done|]); exact Ho]].
Qed.

Lemma decodeComponent_text s l : bytes_ok s → decodeComponent s = Ok l → text l.
Proof.
  intros Hok R. unfold decodeComponent in R. apply refuse_Ok in R as [_ R]. apply bind_Ok in R as (o & Ho & R).
  apply refuse_Ok in R as [Hv%negb_false_iff [= <-]]. split; [by eapply decode_loop_ok|done].
Qed.
Lemma decodeQ_text s l : bytes_ok s → decodeQ s = Ok l → text l.
Proof.
  intros Hok R. unfold decodeQ in R. apply bind_Ok in R as (o & Ho & R).
  apply refuse_Ok in R as [Hv%negb_false_iff [= <-]]. split; [by eapply decode_loop_ok|done].
Qed.

Lemma read_label_ok s l : bytes_ok s → read_label s = Ok l → label_ok l.
Proof using L.
  intros Hok R. unfold read_label in R. apply bind_Ok in R as (d & Hd & R). apply bind_Ok in R as ([] & Hr & [= <-]).
  split; [|done]. by eapply foldLabel_folded, decodeComponent_text.
Qed.

Lemma matchMarker_Some seg pos rest :
  bytes_ok seg → matchMarker seg = Some (pos, rest) → bytes_ok rest ∧ (pos = 2 ∨ pos = 3 ∨ pos = 4).
Proof.
  intros Hok. unfold matchMarker. destruct (List.find _ _) as [[m p]|] eqn:E; [|done]. intros [= <- <-].
  apply List.find_some in E as [Hin _]. cbn [fst snd]. split; [by apply Forall_drop|].
  simpl in Hin. destruct Hin as [[= _ <-]|[[= _ <-]|[[= _ <-]|[]]]]; auto.
Qed.

Lemma setPos_ok v pos l :
  name_ok v → pv_Form v = Concrete → label_ok l → (pos = 2 ∨ pos = 3 ∨ pos = 4) →
  name_ok (setPos v pos l) ∧ pv_Form (setPos v pos l) = Concrete ∧ pv_Query (setPos v pos l) = pv_Query v.
Proof.
  intros [N1 N2 N3 N4 N5] Hf Hl Hp. destruct v as [f o n s i c q hn hs hi]. cbn [pv_Form] in Hf. subst f.
  destruct Hp as [->|[->| ->]]; (split; [constructor|]; try done).
Qed.

Lemma parse_segs_ok segs : ∀ v pos v',
  Forall bytes_ok segs → name_ok v → pv_Form v = Concrete → pv_Query v = [] → parse_segs segs v pos = Ok v' →
  name_ok v' ∧ pv_Query v' = [].
Proof using L.
  induction segs as [|seg segs IH]; intros v pos v' Hok Hv Hf Hq R; simpl in R; [by injection R as <-|].
  apply Forall_cons in Hok as [Hs Hok]. destruct (matchMarker seg) as [[mpos rest]|] eqn:Hm.
  - apply matchMarker_Some in Hm as [Hr Hp]; [|done]. destruct (mpos <=? pos); [by destruct (assigned v mpos)|].
    apply refuse_Ok in R as [_ R]. apply bind_Ok in R as (l & Hl & R). apply read_label_ok in Hl; [|done].
    destruct (setPos_ok v mpos l Hv Hf Hl Hp) as (S1 & S2 & S3). by eapply IH in R; [|done..|rewrite S3].
  - by destruct (has_byte 42 seg).
Qed.

Lemma split_byte_ok c s : bytes_ok s → Forall bytes_ok (split_byte c s).
Proof.
  induction 1 as [|b s Hb _ IH]; simpl; [by repeat constructor|]. destruct (b =? c); [by repeat constructor|].
  destruct (split_byte c s) as [|w ws]; [constructor; [constructor; [done|constructor]|constructor]|]. apply Forall_cons in IH as [Hw Hws].
  constructor; [by constructor|done].
Qed.

Lemma parse_pairs_ok ps : ∀ q, Forall bytes_ok ps → parse_pairs ps = Ok q → Forall pair_ok q.
Proof using L.
  induction ps as [|p ps IH]; intros q Hok R; simpl in R; [by injection R as <-|]. apply Forall_cons in Hok as [Hp Hok].
  apply bind_Ok in R as ([k val] & Hc%of_option_Ok & R). apply cut_byte_Some in Hc as [_ ->].
  apply Forall_app in Hp as [Hk Hp]. apply Forall_cons in Hp as [_ Hp].
  apply refuse_Ok in R as [Hne%beqb_false R]. apply bind_Ok in R as (dk & Hdk & R). apply bind_Ok in R as (dv & Hdv & R).
  apply bind_Ok in R as (q' & Hq & [= <-]). pose proof (decodeQ_text _ _ Hk Hdk) as Tk. pose proof (decodeQ_text _ _ Hp Hdv) as Tv.
  constructor; [|by apply IH]. constructor; cbn [q_Key q_Value]; split_and!; try (by apply nfc_text); try (by apply nfc_idem).
  intros E. apply nfc_nonempty in E; [|done]. subst dk. unfold decodeQ in Hdk. apply bind_Ok in Hdk as (o & Ho & Hdk).
  apply refuse_Ok in Hdk as [_ [= ->]]. destruct k as [|c k]; [done|]. simpl in Ho.
  repeat match goal with
    | K : match ?x with _ => _ end = Ok _ |- _ => destruct x; try done
    | K : mbind _ _ = Ok _ |- _ => apply bind_Ok in K as (? & _ & K)
    end; discriminate.
Qed.

Lemma parse_path_ok segs v : Forall bytes_ok segs → parse_path segs = Ok v → name_ok v ∧ pv_Query v = [].
Proof using L.
  intros Hok R. destruct segs as [|seg0 rest]; [done|]. apply Forall_cons in Hok as [H0 Hok]. simpl in R.
  destruct (beqb seg0 [42]).
  - destruct rest as [|seg [|]]; [done| |done]. apply Forall_cons in Hok as [Hs _].
    apply bind_Ok in R as (l & Hl & R). apply bind_Ok in R as ([] & Hr & [= <-]). split; [|done].
    constructor; cbn; try done. split_and!; try done. split; [|done]. by eapply foldLabel_folded, decodeComponent_text.
  - apply refuse_Ok in R as [_ R]. apply refuse_Ok in R as [_ R]. apply bind_Ok in R as (org & Hl%read_label_ok & R); [|done].
    apply refuse_Ok in R as [_ R]. eapply parse_segs_ok; [exact Hok|..|exact R]; done.
Qed.

Lemma has_prefix_app p : ∀ s, has_prefix p s = true → s = p ++ drop (length p) s.
Proof.
  induction p as [|a p IH]; intros s Hp; [done|]. destruct s as [|b s]; [done|]. cbn [has_prefix] in Hp.
  apply andb_true_iff in Hp as [->%Z.eqb_eq Hp]. simpl. f_equal. by apply IH.
Qed.

Lemma cut_scheme_Some s l t : cut_scheme s = Some (l, t) → s = l ++ str "://" ++ t.
Proof.
  revert l t. induction s as [|c s IH]; intros l t; [done|]. cbn [cut_scheme].
  destruct (has_prefix (str "://") (c :: s)) eqn:Ep.
  - intros [= <- <-]. by apply has_prefix_app in Ep.
  - destruct (cut_scheme s) as [[l' t']|]; [|done]. intros [= <- <-]. by rewrite (IH l' t').
Qed.

Lemma Parse_name_ok s v : bytes_ok s → Parse s = Ok v → name_ok v.
Proof using L.
  intros Hok R. unfold Parse in R. apply refuse_Ok in R as [_ R]. apply bind_Ok in R as ([scheme rest] & Hc%of_option_Ok & R).
  apply cut_scheme_Some in Hc as ->. apply Forall_app in Hok as [_ [_ Hok]%Forall_app].
  apply refuse_Ok in R as [_ R]. apply refuse_Ok in R as [_ R].
  destruct (cut_byte 63 rest) as [[p q]|] eqn:Hq.
  - apply cut_byte_Some in Hq as [_ ->]. apply Forall_app in Hok as [Hp Hok]. apply Forall_cons in Hok as [_ Hok].
    apply bind_Ok in R as (v0 & Hv & R). apply bind_Ok in R as (ps & Hps & [= <-]).
    destruct (parse_path_ok _ _ (split_byte_ok _ _ Hp) Hv) as [[N1 N2 N3 N4 N5] _].
    unfold parseQuery in Hps. apply refuse_Ok in Hps as [_ Hps]. apply parse_pairs_ok in Hps; [|by apply split_byte_ok].
    destruct v0. by constructor.
  - apply bind_Ok in R as (v0 & Hv & [= <-]). by destruct (parse_path_ok _ _ (split_byte_ok _ _ Hok) Hv) as [? _].
Qed.

(** ** Reading the canonical form *)

Lemma label_text l : label_ok l → text l.
Proof. intros [[Ht _ _] _]. done. Qed.

Lemma label_read l :
  label_ok l → decodeComponent (encLabel l) = Ok l ∧ foldLabel l = l ∧ rejectCheck l = Ok tt.
Proof.
  intros Hl. pose proof (label_text l Hl) as Ht. destruct (encLabel_ok l Ht) as (_ & _ & Hne).
  destruct Hl as [Hf Hr]. split_and!; [|by apply folded_fold|done]. unfold decodeComponent.
  rewrite (proj2 (beqb_false _ _)).
  2: { intros ->%Hne. discriminate Hr. }
  rewrite decode_encLabel by done. cbn [mbind result_bind]. destruct Ht as [_ ->]. done.
Qed.

Lemma read_label_enc l : label_ok l → read_label (encLabel l) = Ok l.
Proof.
  intros Hl. destruct (label_read l Hl) as (H1 & H2 & H3). unfold read_label. rewrite H1. cbn [mbind result_bind].
  by rewrite H2, H3.
Qed.

Lemma marker_read w :
  matchMarker (str "ns=" ++ w) = Some (2, w) ∧ matchMarker (str "svc=" ++ w) = Some (3, w) ∧
  matchMarker (str "inst=" ++ w) = Some (4, w).
Proof.
  pose proof (len_nonneg w) as H0. unfold matchMarker, markers. cbn [List.find fst snd].
  rewrite !len_app. change (len (str "ns=")) with 3. change (len (str "svc=")) with 4. change (len (str "inst=")) with 5.
  split_and!; repeat match goal with |- context [?a <=? ?b] => destruct (Z.leb_spec a b) end; first [lia|reflexivity].
Qed.

(** The segments [Serialize] joins. *)
Definition marked (has : bool) (m l : bytes) : list bytes := if has then [m ++ encLabel l] else [].
Definition path_of (v : ParseValue) : list bytes :=
  match pv_Form v with
  | CapabilityQuery => [[42]; encLabel (pv_Capability v)]
  | Concrete =>
      encLabel (pv_Org v) :: marked (pv_hasNS v) (str "ns=") (pv_NS v) ++ marked (pv_hasSvc v) (str "svc=") (pv_Svc v)
      ++ marked (pv_hasInst v) (str "inst=") (pv_Inst v)
  end.
Definition order (q : list QPair) : list bytes := merge_sort bytes_le (map enc_pair q).
Definition query_of (q : list QPair) : bytes := if 0 <? len q then [63] ++ join [38] (order q) else [].

Lemma Serialize_path v : Serialize v = str "agent://" ++ join [47] (path_of v) ++ query_of (pv_Query v).
Proof.
  unfold Serialize, path_of, query_of, order, marked. f_equal. rewrite app_assoc. f_equal.
  destruct (pv_Form v); [|reflexivity]. destruct (pv_hasNS v), (pv_hasSvc v), (pv_hasInst v); cbn [app join]; rewrite ?app_nil_r; try reflexivity;
    rewrite <- ?app_assoc; reflexivity.
Qed.

Lemma parse_segs_none v pos : parse_segs [] v pos = Ok v.
Proof. done. Qed.

Lemma parse_path_of v : name_ok v → parse_path (path_of v) = Ok (with_query v []).
Proof.
  intros [N1 N2 N3 N4 _]. destruct v as [f o n s i c q hn hs hi].
  unfold path_of, marked, position_ok in *. cbn [pv_Form pv_Org pv_NS pv_Svc pv_Inst pv_Capability pv_hasNS pv_hasSvc pv_hasInst] in *.
  destruct f; cbn [parse_path with_query].
  - destruct N1 as [Hl ->]. destruct (encLabel_ok o (label_text o Hl)) as (Hs & _ & Hne).
    assert (encLabel o ≠ []) as Hne' by (intros E%Hne; by apply (label_nonempty o)).
    assert (has_byte 42 (encLabel o) = false) as Hst by (apply has_byte_false, no_seps_notin; [done|by repeat (first [apply list_elem_of_here|apply list_elem_of_further])]).
    assert (beqb (encLabel o) [42] = false) as ->.
    { apply beqb_false. intros E. rewrite E in Hst. discriminate. }
    rewrite (proj2 (beqb_false _ _) Hne'), Hst, read_label_enc by done. cbn [mbind result_bind].
    assert (∀ m w, m ≠ [] → beqb (m ++ w) [] = false) as Hm.
    { intros m w Hm. apply beqb_false. by intros [? _]%app_nil. }
    destruct hn, hs, hi; cbn [app existsb]; rewrite ?Hm by done; cbn [orb parse_segs];
      rewrite ?(proj1 (marker_read _)), ?(proj1 (proj2 (marker_read _))), ?(proj2 (proj2 (marker_read _)));
      cbn -[read_label]; rewrite ?read_label_enc by done; cbn -[read_label matchMarker];
      rewrite ?(proj1 (marker_read _)), ?(proj1 (proj2 (marker_read _))), ?(proj2 (proj2 (marker_read _)));
      cbn -[read_label]; rewrite ?read_label_enc by done; cbn -[read_label matchMarker];
      rewrite ?(proj1 (marker_read _)), ?(proj1 (proj2 (marker_read _))), ?(proj2 (proj2 (marker_read _)));
      cbn -[read_label]; rewrite ?read_label_enc by done; cbn -[read_label matchMarker]; by subst.
  - destruct N1 as (Hl & -> & -> & -> & ->). subst. destruct (label_read c Hl) as (H1 & H2 & H3).
    change (beqb [42] [42]) with true. cbn [mbind result_bind]. rewrite H1. cbn [mbind result_bind]. by rewrite H2, H3.
Qed.

Lemma pair_text p : pair_ok p → text (enc_pair p) ∧ 61 ∉ encLabel (q_Key p) ∧ 38 ∉ enc_pair p ∧ 35 ∉ enc_pair p ∧ enc_pair p ≠ [].
Proof.
  clear L.
  intros [(K1 & _ & _) [V1 _]]. destruct (encLabel_ok _ K1) as (Ks & Kt & _). destruct (encLabel_ok _ V1) as (Vs & Vt & _).
  unfold enc_pair. assert (∀ c, c ∈ seps → c ≠ 61 → c ∉ encLabel (q_Key p) ++ [61] ++ encLabel (q_Value p)) as Hn.
  { intros c Hc Hne. rewrite !not_elem_of_app, list_elem_of_singleton.
    split_and!; [by apply no_seps_notin|done|by apply no_seps_notin]. }
  split_and!.
  - apply text_app; [done|]. apply text_app; [|done]. apply text_ascii. by constructor.
  - apply no_seps_notin; [done|]. unfold seps. set_solver.
  - apply Hn; [unfold seps; set_solver|done].
  - apply Hn; [unfold seps; set_solver|done].
  - by intros [_ [? _]%app_nil]%app_nil.
Qed.

Lemma decodeQ_enc l : text l → decodeQ (encLabel l) = Ok l.
Proof. intros Ht. unfold decodeQ. rewrite decode_encLabel by done. cbn [mbind result_bind]. destruct Ht as [_ ->]. done. Qed.

Lemma parse_pairs_enc q : Forall pair_ok q → parse_pairs (map enc_pair q) = Ok q.
Proof.
  induction 1 as [|p q Hp _ IH]; [done|]. cbn [map parse_pairs]. destruct (pair_text p Hp) as (_ & H61 & _).
  assert (cut_byte 61 (enc_pair p) = Some (encLabel (q_Key p), encLabel (q_Value p))) as -> by by apply cut_byte_Some.
  cbn [of_option mbind result_bind]. destruct Hp as [(K1 & K2 & K3) [V1 V2]].
  destruct (encLabel_ok _ K1) as (_ & _ & Hne). rewrite (proj2 (beqb_false _ _)) by (by intros E%Hne).
  rewrite !decodeQ_enc by done. cbn [mbind result_bind]. rewrite IH. cbn [mbind result_bind]. rewrite K2, V2. by destruct p.
Qed.

Definition pair_le (p p' : QPair) : Prop := bytes_le (enc_pair p) (enc_pair p').
#[local] Instance pair_le_dec : RelDecision pair_le := λ p p', decide (bytes_le (enc_pair p) (enc_pair p')).
#[local] Instance pair_le_total : Total pair_le.
Proof. intros p p'. apply bytes_leb_total. Qed.

(** The pairs in the order of their spellings. *)
Definition sorted_pairs (q : list QPair) : list QPair := merge_sort pair_le q.

Lemma order_pairs q : order q = map enc_pair (sorted_pairs q) ∧ sorted_pairs q ≡ₚ q.
Proof.
  assert (sorted_pairs q ≡ₚ q) as Hp by apply merge_sort_Permutation. split; [|done]. unfold order.
  apply (Sorted_unique bytes_le); [apply Sorted_merge_sort, _| |].
  - assert (∀ l, Sorted pair_le l → Sorted bytes_le (map enc_pair l)) as Hs; [|by apply Hs, Sorted_merge_sort, _].
    intros l Hs. induction Hs as [|p l Hl IH Hh]; cbn [map]; [constructor|]. constructor; [done|].
    destruct Hh; cbn [map]; by constructor.
  - rewrite merge_sort_Permutation. by apply Permutation_map.
Qed.

Lemma order_perm q q' : q ≡ₚ q' → order q = order q'.
Proof.
  intros Hp. apply (Sorted_unique bytes_le); [apply Sorted_merge_sort, _..|]. unfold order.
  rewrite !merge_sort_Permutation. by apply Permutation_map.
Qed.

Lemma parse_query_of q :
  Forall pair_ok q → q ≠ [] → parseQuery (join [38] (order q)) = Ok (sorted_pairs q) ∧ text (join [38] (order q)) ∧ 35 ∉ join [38] (order q).
Proof.
  clear L.
  intros Hq Hne. destruct (order_pairs q) as [-> Hp]. rewrite <- Hp in Hq.
  assert (sorted_pairs q ≠ []) as Hs by (intros E; rewrite E in Hp; by apply Permutation_nil_l in Hp).
  revert Hq Hs. generalize (sorted_pairs q). clear q Hne Hp. intros q Hq Hs.
  assert (Forall (λ w, text w ∧ 38 ∉ w ∧ 35 ∉ w ∧ w ≠ []) (map enc_pair q)) as Hw.
  { apply Forall_map. eapply Forall_impl; [exact Hq|]. intros p Hok. destruct (pair_text p Hok) as (? & _ & ? & ? & ?). done. }
  split_and!.
  - unfold parseQuery. rewrite split_join.
    + rewrite (proj2 (beqb_false _ _)); [by apply parse_pairs_enc|]. intros E. destruct q as [|p q]; [done|].
      apply Forall_cons in Hw as [(_ & _ & _ & Hn) _]. destruct q; cbn in E; [done|]. by apply app_nil in E as [? _].
    + by destruct q.
    + eapply Forall_impl; [exact Hw|]. by intros w (_ & ? & _).
  - apply text_join; [done|]. eapply Forall_impl; [exact Hw|]. by intros w (? & _).
  - intros [E|(w & Hin & Hx)]%join_elem; [done|]. rewrite Forall_forall in Hw. by destruct (Hw w Hin) as (_ & _ & ? & _).
Qed.

Lemma path_of_ok v :
  name_ok v → path_of v ≠ [] ∧ Forall (λ w, text w ∧ 47 ∉ w ∧ 35 ∉ w ∧ 63 ∉ w) (path_of v).
Proof.
  clear L.
  intros [N1 N2 N3 N4 _].
  assert (∀ l, label_ok l → text (encLabel l) ∧ 47 ∉ encLabel l ∧ 35 ∉ encLabel l ∧ 63 ∉ encLabel l) as Hl.
  { intros l Hl%label_text. destruct (encLabel_ok l Hl) as (Hs & Ht & _).
    split_and!; [done|..]; (apply no_seps_notin; [done|unfold seps; set_solver]). }
  assert (∀ has m l, position_ok has l → text m → 47 ∉ m → 35 ∉ m → 63 ∉ m →
    Forall (λ w, text w ∧ 47 ∉ w ∧ 35 ∉ w ∧ 63 ∉ w) (marked has m l)) as Hm.
  { intros has m l Hp T1 T2 T3 T4. unfold marked, position_ok in *. destruct has; [|constructor]. apply Forall_singleton.
    destruct (Hl l Hp) as (? & ? & ? & ?). rewrite !not_elem_of_app. split_and!; try done. by apply text_app. }
  assert (∀ m, m = str "ns=" ∨ m = str "svc=" ∨ m = str "inst=" → text m ∧ 47 ∉ m ∧ 35 ∉ m ∧ 63 ∉ m) as Hk.
  { intros m Hm'. destruct Hm' as [->|[->| ->]]; (split_and!; [apply text_ascii; vm_compute; repeat constructor; done|..]);
      by (apply has_byte_false; vm_compute). }
  unfold path_of. destruct (pv_Form v).
  - split; [done|]. constructor; [apply Hl, N1|]. destruct (Hk (str "ns=")) as (? & ? & ? & ?); [auto|].
    destruct (Hk (str "svc=")) as (? & ? & ? & ?); [auto|]. destruct (Hk (str "inst=")) as (? & ? & ? & ?); [auto|].
    rewrite !Forall_app. split_and!; by apply Hm.
  - split; [done|]. constructor; [|constructor; [apply Hl, N1|constructor]].
    split_and!; [apply text_ascii; by constructor|set_solver..].
Qed.

(** What is read of the canonical form: the same name, its pairs sorted. *)
Lemma Parse_Serialize v : name_ok v → Parse (Serialize v) = Ok (with_query v (sorted_pairs (pv_Query v))).
Proof.
  clear L.
  intros Hv. destruct (path_of_ok v Hv) as [Hne Hp]. pose proof (parse_path_of v Hv) as Hpp. rewrite Serialize_path.
  set (path := join [47] (path_of v)) in *.
  assert (text path ∧ 35 ∉ path ∧ 63 ∉ path) as (P1 & P2 & P3).
  { subst path. split_and!.
    - apply text_join; [done|]. eapply Forall_impl; [exact Hp|]. by intros w (? & _).
    - intros [E|(w & Hin & Hx)]%join_elem; [done|]. rewrite Forall_forall in Hp. by destruct (Hp w Hin) as (_ & _ & ? & _).
    - intros [E|(w & Hin & Hx)]%join_elem; [done|]. rewrite Forall_forall in Hp. by destruct (Hp w Hin) as (_ & _ & _ & ?). }
  assert (split_byte 47 path = path_of v) as Hsp.
  { apply split_join; [done|]. eapply Forall_impl; [exact Hp|]. by intros w (_ & ? & _). }
  assert (text (query_of (pv_Query v)) ∧ 35 ∉ query_of (pv_Query v)) as [Q1 Q2].
  { unfold query_of. destruct (pv_Query v) as [|p q] eqn:Eq; [split; [apply text_nil|apply not_elem_of_nil]|].
    destruct (parse_query_of (p :: q)) as (_ & T1 & T2); [rewrite <- Eq; apply Hv|done|].
    rewrite (proj2 (Z.ltb_lt 0 _)) by (unfold len; simpl; lia). split; [apply text_app; [apply text_ascii; by constructor|done]|].
    rewrite not_elem_of_app. split; [set_solver|done]. }
  unfold Parse. assert (text (str "agent://" ++ path ++ query_of (pv_Query v))) as [_ ->].
  { apply text_app; [apply text_ascii; vm_compute; repeat constructor; done|by apply text_app]. }
  cbn [negb]. assert (∀ r, cut_scheme (str "agent://" ++ r) = Some (str "agent", r)) as -> by reflexivity.
  cbn [of_option mbind result_bind]. change (EqualFold (str "agent") (str "agent")) with true. cbn [negb].
  assert (has_byte 35 (path ++ query_of (pv_Query v)) = false) as ->.
  { apply has_byte_false. by rewrite not_elem_of_app. }
  unfold query_of. destruct (pv_Query v) as [|p q] eqn:Eq.
  - cbn [len length Z.of_nat Z.ltb Z.compare]. rewrite app_nil_r.
    destruct (cut_byte 63 path) as [[a b]|] eqn:Ec.
    { apply cut_byte_Some in Ec as [_ E]. exfalso. apply P3. rewrite E. set_solver. }
    rewrite Hsp, Hpp. reflexivity.
  - rewrite (proj2 (Z.ltb_lt 0 _)) by (unfold len; simpl; lia). cbn [app].
    rewrite (proj2 (cut_byte_Some 63 (path ++ 63 :: join [38] (order (p :: q))) path _) (conj P3 eq_refl)).
    rewrite Hsp, Hpp. cbn [mbind result_bind].
    destruct (parse_query_of (p :: q)) as (-> & _ & _); [rewrite <- Eq; apply Hv|done|]. cbn [mbind result_bind].
    destruct v. done.
Qed.

Lemma Serialize_sorted v : Serialize (with_query v (sorted_pairs (pv_Query v))) = Serialize v.
Proof.
  rewrite !Serialize_path. destruct (order_pairs (pv_Query v)) as [_ Hp].
  destruct v as [f o n s i c q hn hs hi]. cbn [with_query pv_Query] in *.
  change (path_of (mkParseValue f o n s i c (sorted_pairs q) hn hs hi)) with (path_of (mkParseValue f o n s i c q hn hs hi)).
  do 2 f_equal. unfold query_of. rewrite (order_perm _ _ Hp). unfold len. by rewrite (Permutation_length Hp).
Qed.

(** ** Errors *)

Definition parseReasons : list string :=
  ["BAD_UTF8"; "SCHEME_MISMATCH"; "FRAGMENT_PRESENT"; "EMPTY_LABEL"; "BAD_PCT_ENCODING"; "WILDCARD_IN_LABEL"; "ILLEGAL_CHAR";
   "DISALLOWED_CODEPOINT"; "MIXED_SCRIPT"; "WILDCARD_FORM"; "EMPTY_AUTHORITY"; "UNMARKED_SEGMENT"; "DUPLICATE_MARKER";
   "POSITION_ORDER"; "QUERY_SYNTAX"]%string.
Definition parse_error (e : error) : Prop := ∃ r d, e = errf r d ∧ In r parseReasons.

Lemma errs_errf {A} r d : In r parseReasons → errs_in parse_error (Err (A := A) (errf r d)).
Proof. intros Hr e [= <-]. by exists r, d. Qed.
Lemma errs_refuse {A} (c : bool) r d (k : result A) :
  In r parseReasons → errs_in parse_error k → errs_in parse_error (if c then Err (errf r d) else k).
Proof. intros Hr Hk. destruct c; [by apply errs_errf|done]. Qed.

Ltac parse_step :=
  match goal with
  | |- errs_in _ (Ok _) => apply errs_Ok
  | |- errs_in _ (Err (errf _ _)) => apply errs_errf; simpl; tauto
  | |- errs_in _ (if _ then Err (errf _ _) else _) => apply errs_refuse; [simpl; tauto|]
  | |- errs_in _ (_ ≫= _) => apply errs_bind; [|intros ? ?]
  end.

Lemma decode_loop_errs label s : errs_in parse_error (decode_loop label s).
Proof.
  revert s. refine (bytes_ind _ _). intros [|c s] IH; [apply errs_Ok|].
  assert (∀ n f, errs_in parse_error (o ← decode_loop label (drop n s); Ok (f o : bytes))) as Hn.
  { intros n f. parse_step; [apply IH; rewrite length_drop; simpl; lia|apply errs_Ok]. }
  assert (∀ n r f, errs_in parse_error (_ ← ucs_char r; o ← decode_loop label (drop n s); Ok (f o : bytes))) as Hu.
  { intros n r f. parse_step; [unfold ucs_char; repeat parse_step|apply Hn]. }
  cbn [decode_loop]. destruct (c =? 37).
  - destruct s as [|h [|l s]]; [parse_step..|]. destruct (hexVal h), (hexVal l); [apply (Hn 2%nat)|parse_step..].
  - destruct (c <? 128); [parse_step; [unfold ascii_char; repeat parse_step|apply (Hn 0%nat)]|].
    destruct (rune_size c s) as [z|]; [|parse_step].
    repeat match goal with |- errs_in _ (match ?x with _ => _ end) => destruct x; try (parse_step; fail) end;
      first [apply (Hu 1%nat)|apply (Hu 2%nat)|apply (Hu 3%nat)|parse_step].
Qed.

Lemma decodeComponent_errs s : errs_in parse_error (decodeComponent s).
Proof. unfold decodeComponent. do 2 parse_step; [apply decode_loop_errs|repeat parse_step]. Qed.
Lemma decodeQ_errs s : errs_in parse_error (decodeQ s).
Proof. unfold decodeQ. parse_step; [apply decode_loop_errs|repeat parse_step]. Qed.
Lemma rejectCheck_errs l : errs_in parse_error (rejectCheck l).
Proof. unfold rejectCheck. repeat parse_step. Qed.
Lemma read_label_errs s : errs_in parse_error (read_label s).
Proof. unfold read_label. parse_step; [apply decodeComponent_errs|]. parse_step; [apply rejectCheck_errs|parse_step]. Qed.

Lemma parse_segs_errs segs : ∀ v pos, errs_in parse_error (parse_segs segs v pos).
Proof.
  induction segs as [|seg segs IH]; intros v pos; cbn [parse_segs]; [parse_step|].
  destruct (matchMarker seg) as [[mpos rest]|]; [|repeat parse_step].
  destruct (mpos <=? pos); [repeat parse_step|]. parse_step. parse_step; [apply read_label_errs|apply IH].
Qed.

Lemma parse_pairs_errs ps : errs_in parse_error (parse_pairs ps).
Proof.
  induction ps as [|p ps IH]; cbn [parse_pairs]; [parse_step|].
  parse_step; [destruct (cut_byte 61 p); cbn [of_option]; parse_step|].
  match goal with |- errs_in _ (let '(_, _) := ?x in _) => destruct x end.
  parse_step. parse_step; [apply decodeQ_errs|]. parse_step; [apply decodeQ_errs|]. parse_step; [apply IH|parse_step].
Qed.

Lemma split_byte_cons c s : split_byte c s ≠ [].
Proof. destruct s as [|b s]; simpl; [done|]. destruct (b =? c); [done|]. by destruct (split_byte c s). Qed.

Lemma parse_path_errs segs : segs ≠ [] → errs_in parse_error (parse_path segs).
Proof.
  destruct segs as [|seg0 rest]; [done|]. intros _. cbn [parse_path]. destruct (beqb seg0 [42]).
  - destruct rest as [|seg [|]]; [parse_step| |parse_step]. parse_step; [apply decodeComponent_errs|].
    parse_step; [apply rejectCheck_errs|parse_step].
  - do 2 parse_step. parse_step; [apply read_label_errs|]. parse_step. apply parse_segs_errs.
Qed.

Lemma Parse_errs s : errs_in parse_error (Parse s).
Proof.
  unfold Parse. parse_step. parse_step; [destruct (cut_scheme s); cbn [of_option]; parse_step|].
  match goal with |- errs_in _ (let '(_, _) := ?x in _) => destruct x as [scheme rest] end. do 2 parse_step.
  destruct (cut_byte 63 rest) as [[p q]|]; (parse_step; [apply parse_path_errs, split_byte_cons|]); [|parse_step].
  parse_step; [unfold parseQuery; parse_step; apply parse_pairs_errs|parse_step].
Qed.

(** ** Names *)

(** C28: what [Parse] returns.  Of any bytes it returns a well-formed name or an error with one of its
    fifteen reasons, and never panics.  In a well-formed name every label present is normal text, its
    own fold, passes the reject rules and is not empty; positions not given are empty; a capability
    query has no positions; and the pairs are normal text with keys that are not empty. *)
Theorem parsed_names_are_well_formed s :
  bytes_ok s →
  match Parse s with
  | Ok v => name_ok v
  | Err e => parse_error e
  end.
Proof using L.
  intros Hok. pose proof (Parse_errs s) as He. destruct (Parse s) as [v|e] eqn:E; [by eapply Parse_name_ok|by apply He].
Qed.

(** Two values are the same name: all but the order of the pairs. *)
Definition same_name (v w : ParseValue) : Prop :=
  with_query v [] = with_query w [] ∧ pv_Query v ≡ₚ pv_Query w.

Lemma with_query_eq v w q : with_query v [] = with_query w [] → with_query v q = with_query w q.
Proof. destruct v, w. cbn. by intros [= -> -> -> -> -> -> -> -> ->]. Qed.

Lemma Serialize_same v w : name_ok v → name_ok w → Serialize v = Serialize w ↔ same_name v w.
Proof.
  intros Hv Hw. split.
  - intros E. pose proof (Parse_Serialize v Hv) as R. rewrite E, (Parse_Serialize w Hw) in R. injection R as R.
    destruct (order_pairs (pv_Query v)) as [_ P1], (order_pairs (pv_Query w)) as [_ P2].
    assert (sorted_pairs (pv_Query v) = sorted_pairs (pv_Query w)) as Eq by (destruct v, w; cbn in *; congruence).
    split; [destruct v, w; cbn in *; congruence|]. by rewrite <- P1, Eq, P2.
  - intros [E P]. rewrite !Serialize_path. assert (path_of v = path_of w) as -> by (destruct v, w; cbn in *; injection E as -> -> -> -> -> -> -> -> ->; done).
    do 2 f_equal. unfold query_of. rewrite (order_perm _ _ P). unfold len. by rewrite (Permutation_length P).
Qed.

(** C16: one canonical form to a name.  The canonical form of a name is itself a name, its own canonical
    form, equal to what it was made from, and reads back to the same labels and pairs; and two names are
    [Equals] exactly when they parse to the same form, labels and positions and the same pairs in any
    order, so no other difference is lost and none is invented. *)
Theorem one_canonical_form_per_name s v :
  bytes_ok s → Parse s = Ok v →
  let c := Serialize v in
  Canonical s = Ok c ∧ Canonical c = Ok c ∧ Equals s c = Ok true ∧
  (∃ v', Parse c = Ok v' ∧ same_name v' v) ∧
  ∀ s' v', bytes_ok s' → Parse s' = Ok v' →
    ∃ b, Equals s s' = Ok b ∧ (b = true ↔ same_name v v').
Proof using L.
  intros Hok Hp. cbv zeta. pose proof (Parse_name_ok _ _ Hok Hp) as Hn.
  assert (Canonical s = Ok (Serialize v)) as C1 by (unfold Canonical; by rewrite Hp).
  assert (Canonical (Serialize v) = Ok (Serialize v)) as C2.
  { unfold Canonical. rewrite Parse_Serialize by done. cbn [mbind result_bind]. by rewrite Serialize_sorted. }
  split_and!; [done|done|unfold Equals; rewrite C1, C2; cbn [mbind result_bind]; by rewrite beqb_refl| |].
  - eexists. split; [by apply Parse_Serialize|]. destruct (order_pairs (pv_Query v)) as [_ P]. by destruct v.
  - intros s' v' Hok' Hp'. pose proof (Parse_name_ok _ _ Hok' Hp') as Hn'. exists (beqb (Serialize v) (Serialize v')). split.
    + unfold Equals. rewrite C1. unfold Canonical. rewrite Hp'. done.
    + rewrite beqb_true. by apply Serialize_same.
Qed.
End Names.
