(* ===== verification/AgenturiSamples.v ===== *)
(** * AgenturiSamples: names read with a small normalization

    [ref_unicode] normalizes the two singletons U+212A and U+212B and knows a few ranges of each script. *)

From S2P Require Import Prelude Checks Utf8 Agenturi AgenturiFacts AgenturiTheorems.

Definition singleton (r : Z) : Z := if r =? 8490 then 75 else if r =? 8491 then 197 else r.
#[export] Instance ref_unicode : Unicode := {|
  NFC s := utf8 (map singleton (runes s));
  is_Cf r := (r =? 173) || (8203 <=? r) && (r <=? 8207);
  is_Latin r := (65 <=? r) && (r <=? 90) || (97 <=? r) && (r <=? 122) || (192 <=? r) && (r <=? 591);
  is_Cyrillic r := (1024 <=? r) && (r <=? 1279);
  is_Greek r := (880 <=? r) && (r <=? 1023);
|}.

Lemma singleton_facts r :
  scalar r → scalar (singleton r) ∧ singleton (singleton r) = singleton r ∧ singleton r ≠ 8490 ∧
  (fold_rune r = [r] → r ≠ 8490 → fold_rune (singleton r) = [singleton r]).
Proof.
  intros Hs. unfold singleton. destruct (Z.eqb_spec r 8490); [split_and!; [unfold scalar; lia|done..]|].
  destruct (Z.eqb_spec r 8491); [split_and!; [unfold scalar; lia|done..]|].
  rewrite !(proj2 (Z.eqb_neq _ _)) by done. done.
Qed.

Lemma ref_runes s : text s → runes (NFC s) = map singleton (runes s) ∧ text (NFC s) ∧ Forall scalar (runes s).
Proof.
  intros [Hok Hv]. destruct (utf8_runes s Hok Hv) as [_ Hs]. cbn [NFC ref_unicode].
  assert (Forall scalar (map singleton (runes s))) as Hm.
  { apply Forall_map. eapply Forall_impl; [exact Hs|]. intros r Hr. apply singleton_facts, Hr. }
  split_and!; [apply runes_utf8, Hm|by apply text_utf8|done].
Qed.

#[export] Instance ref_unicode_laws : UnicodeLaws ref_unicode.
Proof.
  constructor; intros s Ht; destruct (ref_runes s Ht) as (R1 & R2 & R3).
  - exact R2.
  - cbn [NFC ref_unicode] in *. rewrite R1. f_equal. clear -R3. induction R3 as [|r rs Hr _ IH]; [done|]. cbn [map].
    rewrite IH. f_equal. apply singleton_facts, Hr.
  - intros E. rewrite E in R1. destruct Ht as [Hok Hv]. destruct (utf8_runes s Hok Hv) as [<- _].
    by destruct (runes s).
  - rewrite R1. intros Hin. apply list_elem_of_In, in_map_iff in Hin as (r & E & Hin). apply list_elem_of_In in Hin.
    rewrite Forall_forall in R3. by destruct (singleton_facts r (R3 r Hin)) as (_ & _ & ? & _).
  - intros Hf. rewrite R1. apply Forall_map. rewrite Forall_forall in *. intros r Hr.
    destruct (singleton_facts r (R3 r Hr)) as (_ & _ & _ & F). by apply F; apply Hf.
Qed.

(** Three spellings of one name, and a fourth of another. *)
Definition spelled : bytes := str "AGENT://ACME%2dcorp/NS=Pr%6fd/svc=%E2%84%AAey?b=2&a=%7E&b=1".
Definition respelled : bytes := str "agent://acme-corp/ns=prod/Svc=KEY?b=1&b=2&a=~".
Definition other_name : bytes := str "agent://acme-corp/ns=prod/svc=key?b=1&b=2&a=A".
Definition canonical_spelling : bytes := str "agent://acme-corp/ns=prod/svc=key?a=~&b=1&b=2".

Example canonical_spellings :
  map Canonical [spelled; respelled; canonical_spelling] = repeat (Ok canonical_spelling) 3 ∧
  Equals spelled other_name = Ok false.
Proof. split; vm_compute; reflexivity. Qed.

Definition parsed (s : bytes) : ParseValue := match Parse s with Ok v => v | Err _ => emptyValue end.
Definition spelled_value : ParseValue := Eval vm_compute in parsed spelled.
Definition respelled_value : ParseValue := Eval vm_compute in parsed respelled.
Lemma sample_parses : Parse spelled = Ok spelled_value ∧ Parse respelled = Ok respelled_value.
Proof. split; vm_compute; reflexivity. Qed.

Lemma bytes_okb s : forallb (λ c, (0 <=? c) && (c <? 256)) s = true → bytes_ok s.
Proof. intros Hs. apply Forall_forall. intros c Hc%list_elem_of_In. rewrite forallb_forall in Hs. specialize (Hs c Hc). unfold byte_ok. lia. Qed.

Lemma one_canonical_form_per_name_witness :
  Canonical (Serialize spelled_value) = Ok (Serialize spelled_value) ∧ same_name spelled_value respelled_value.
Proof.
  assert (bytes_ok spelled ∧ bytes_ok respelled) as [B1 B2] by (split; apply bytes_okb; vm_compute; reflexivity).
  destruct (one_canonical_form_per_name spelled spelled_value B1 (proj1 sample_parses)) as (_ & T2 & _ & _ & T).
  split; [exact T2|]. destruct (T respelled respelled_value B2 (proj2 sample_parses)) as (b & Hb & Hs).
  apply Hs. assert (Equals spelled respelled = Ok true) as E by (vm_compute; reflexivity). rewrite E in Hb.
  injection Hb as <-. reflexivity.
Defined.

Lemma parsed_names_are_well_formed_witness : name_ok spelled_value.
Proof.
  assert (bytes_ok spelled) as B by (apply bytes_okb; vm_compute; reflexivity).
  pose proof (parsed_names_are_well_formed spelled B) as T. rewrite (proj1 sample_parses) in T. exact T.
Defined.

(** One input for each reason. *)
Definition parse_reason (s : bytes) : string := match Parse s with Err (Typed r _) => r | Err _ => "untyped" | Ok _ => "" end.
Example every_reason :
  map parse_reason [[255]; str "acme"; str "http://acme"; str "agent://acme#x"; str "agent://acme//ns=a"; str "agent://ac%2"; str "agent://ac*me";
                 str "agent://ac me"; str "agent://a%07"; str "agent://a%D0%B0"; str "agent://*"; str "agent://"; str "agent://acme/x";
                 str "agent://a/ns=b/ns=c"; str "agent://a/svc=b/ns=c"; str "agent://a?b"; str "agent://a%E2%80%8Db"]
  = ["BAD_UTF8"; "SCHEME_MISMATCH"; "SCHEME_MISMATCH"; "FRAGMENT_PRESENT"; "EMPTY_LABEL"; "BAD_PCT_ENCODING"; "WILDCARD_IN_LABEL"; "ILLEGAL_CHAR";
     "DISALLOWED_CODEPOINT"; "MIXED_SCRIPT"; "WILDCARD_FORM"; "EMPTY_AUTHORITY"; "UNMARKED_SEGMENT"; "DUPLICATE_MARKER";
     "POSITION_ORDER"; "QUERY_SYNTAX"; ""]%string.
Proof. vm_compute. reflexivity. Qed.
