(* ===== verification/Recovery.v ===== *)
(** * Recovery: the recovery seed and its file (identity/recovery.go)

    Every next key of an identity is derived from a 32-byte recovery seed ([RecoverySeed]), which is kept
    in a text file: a header that repeats what the file states, and a base64 block holding the seed
    sealed under a passphrase or under a local key.  [sealRecoveryPassphrase] and [sealRecoveryLocal]
    write one, [OpenRecoveryFile] and [OpenRecoveryFileLocal] open it, [ParseRecoveryFile] reads what it
    states, [WithRecoveryNote] adds lines for people.  Buffers that are cleared on return are not
    modelled. *)

From S2P Require Import Prelude Text Utf8 Aid Platform.

(** ** Parameters *)

(** [argon2.IDKey] at the parameters of a recovery file: passphrase and salt to a key. *)
Class Argon := argon2id : bytes → bytes → bytes.

(** XChaCha20-Poly1305 under a key, a nonce and associated data. *)
Class XAead := {
  xaead_NewX : bytes → bool;  (** whether [chacha20poly1305.NewX] takes the key *)
  xaead_Seal : bytes → bytes → bytes → bytes → bytes;
  xaead_Open : bytes → bytes → bytes → bytes → option bytes;
}.

(** ** Constants and errors *)

Definition MinPassphraseRunes : Z := 12.
Definition recoveryType : bytes := str "anet.recovery/1".
Definition recoveryHeader : bytes := str "anet-recovery v1".
Definition nextKeyLabel : bytes := str "anet-kel-next/v1".
Definition kdfArgon2id : bytes := str "argon2id".
Definition kdfLocal : bytes := str "local".
Definition recoveryAEAD : bytes := str "xchacha20poly1305".
Definition argon2Time : Z := 3.
Definition argon2MemKiB : Z := 64 * 1024.
Definition argon2Lanes : Z := 4.
Definition recoverySalt : Z := 16.
Definition recoveryNonce : Z := 24.
Definition recoveryRSLen : Z := 32.
Definition recoveryBase64Line : Z := 64.
Definition maxRecoveryHubLen : Z := 2048.
Definition maxRecoveryFileLen : Z := Z.shiftl 16 10.
Definition xOverhead : Z := 16.
Definition xKeySize : Z := 32.

Definition ErrRecoveryFormat : error := Errf "identity: not a valid recovery file".
Definition ErrRecoveryPassphrase : error := Errf "identity: the recovery file does not open with this passphrase".
Definition ErrRecoveryUnprotected : error := Errf "identity: the recovery file has no passphrase yet; it opens only with the local recovery key of its own data directory".
Definition ErrRecoveryWrongIdentity : error := Errf "identity: the recovery file's header does not match its sealed block".
Definition ErrPassphraseTooShort : error := Errf "identity: the recovery passphrase is shorter than 12 characters".
Definition ErrPassphraseNotUTF8 : error := Errf "identity: the recovery passphrase is not UTF-8 text; switch the terminal to UTF-8 and type it again".
Definition ErrNextKeyInput : error := Errf "identity: not a usable input for next-key derivation".
Definition errAEAD : error := Errf "identity: the recovery block does not open".

(** ** Data *)

Record Commit := mkCommit { cm_Seq : Z; cm_Digest : bytes }.
Record RecoveryFileInfo := mkRecoveryFileInfo { ri_AID : bytes; ri_Hub : bytes; ri_Commits : Commit; ri_Unprotected : bool }.

Record recoveryKDF := mkRecoveryKDF { kd_Alg : bytes; kd_T : Z; kd_MKiB : Z; kd_P : Z; kd_Salt : bytes }.
Record recoveryCommits := mkRecoveryCommits { rcm_Seq : Z; rcm_Digest : bytes }.
Record recoveryBlob := mkRecoveryBlob {
  rv_Type : bytes;
  rv_AID : bytes;
  rv_KDF : recoveryKDF;
  rv_AEAD : bytes;
  rv_Nonce : bytes;
  rv_Hub : bytes;
  rv_Commits : recoveryCommits;
  rv_CT : bytes;
}.
Record recoveryFile := mkRecoveryFile { rf_blob : recoveryBlob; rf_noted : bool }.

(** What [OpenRecoveryFile] returns. *)
Record opened := mkOpenedSeed { od_RS : bytes; od_AID : bytes; od_Hub : bytes; od_Commits : Commit }.

Definition set_CT (b : recoveryBlob) (ct : bytes) : recoveryBlob :=
  mkRecoveryBlob (rv_Type b) (rv_AID b) (rv_KDF b) (rv_AEAD b) (rv_Nonce b) (rv_Hub b) (rv_Commits b) ct.

(** An all-zero array of 32 bytes. *)
Definition zero32 (b : bytes) : bool := beqb b (repeat 0 32).

(** ** What a file may state *)

Definition checkHeaderAID (aid : bytes) : result unit :=
  refuse negb (ValidAID aid) with Errf "identity: not an AID, so it cannot name the identity of a recovery file";
  Ok tt.

Definition notTokenRune (r : Z) : bool := IsSpace r || is_Cc r || (r =? 65279).
Definition checkHub (hub : bytes) : result unit :=
  refuse (maxRecoveryHubLen <? len hub) || negb (ValidString hub) || existsb notTokenRune (runes hub)
    with Errf "identity: the hub hint must be one line without spaces";
  Ok tt.

Definition validKDF (k : recoveryKDF) : bool :=
  if beqb (kd_Alg k) kdfArgon2id then
    (kd_T k =? argon2Time) && (kd_MKiB k =? argon2MemKiB) && (kd_P k =? argon2Lanes) && (len (kd_Salt k) =? recoverySalt)
  else if beqb (kd_Alg k) kdfLocal then
    (kd_T k =? 0) && (kd_MKiB k =? 0) && (kd_P k =? 0) && (len (kd_Salt k) =? 0)
  else false.

(** A refusal of the format, with its detail.  A digest that is not ASCII is refused by the case check or
    by the hex reader, with one error and different texts. *)
Definition format (detail : string) : error := Wrap detail ErrRecoveryFormat.

Definition parseCommitsLine (v : bytes) : result Commit :=
  '(s, h) ← of_option (cut_byte 32 v) (format "the commits line is not <seq> <64 hex digits>");
  refuse beqb s [] || (1 <? len s) && bool_decide (head s = Some 48) || negb (len h =? 2 * Sha256Size) || negb (beqb (lower_ascii h) h)
    with format "the commits line is not <seq> <64 hex digits>";
  refuse existsb (λ r, (r <? 48) || (57 <? r)) s with format "the commits seq is not a decimal number";
  seq ← map_err (λ _, format "the commits seq is not a decimal number") (ParseUint s 64);
  d ← of_option (hex_decode h) (format "the commits digest is not hex");
  Ok (mkCommit seq d).

(** ** The text *)

(** The loop that cuts the base64 into lines; every round takes 64 characters off. *)
Fixpoint b64_lines (fuel : nat) (enc : bytes) : bytes :=
  match fuel with
  | O => enc ++ [10]
  | S fuel =>
      if recoveryBase64Line <? len enc then take 64 enc ++ [10] ++ b64_lines fuel (drop 64 enc)
      else enc ++ [10]
  end.

Definition renderRecovery (b : recoveryBlob) (raw : bytes) : bytes :=
  recoveryHeader ++ [10]
  ++ str "AID " ++ rv_AID b ++ [10]
  ++ (if beqb (rv_Hub b) [] then [] else str "hub " ++ rv_Hub b ++ [10])
  ++ str "commits " ++ decimal (rcm_Seq (rv_Commits b)) ++ [32] ++ hex_encode (rcm_Digest (rv_Commits b)) ++ [10; 10]
  ++ let enc := b64_encode raw in b64_lines (length enc) enc.

(** [strings.TrimPrefix] of the byte-order mark, [strings.TrimSuffix] of a carriage return. *)
Definition bom : bytes := [239; 187; 191].
Definition trim_bom (b : bytes) : bytes := if has_prefix bom b then drop 3 b else b.
Definition trim_cr (l : bytes) : bytes := if bool_decide (last l = Some 13) then removelast l else l.

(** The header lines read so far; a key seen is one with a value. *)
Record header := mkHeader { h_AID : option bytes; h_hub : option bytes; h_commits : option bytes }.
Definition set_header (h : header) (k v : bytes) : result header :=
  let bad := format "header line is not one of AID, hub, commits with a value, each once" in
  if beqb k (str "AID") then refuse bool_decide (is_Some (h_AID h)) with bad; Ok (mkHeader (Some v) (h_hub h) (h_commits h))
  else if beqb k (str "hub") then refuse bool_decide (is_Some (h_hub h)) with bad; Ok (mkHeader (h_AID h) (Some v) (h_commits h))
  else if beqb k (str "commits") then refuse bool_decide (is_Some (h_commits h)) with bad; Ok (mkHeader (h_AID h) (h_hub h) (Some v))
  else Err (format "header line is not one of AID, hub, commits").

(** The loop over the header: up to a blank line or the end. *)
Fixpoint header_lines (ls : list bytes) (h : header) : result (header * list bytes) :=
  match ls with
  | [] => Ok (h, [])
  | l :: ls' =>
      if beqb l [] then Ok (h, ls)
      else
        '(k, v) ← of_option (cut_byte 32 l) (format "header line is not one of AID, hub, commits with a value, each once");
        refuse beqb v [] with format "header line is not one of AID, hub, commits with a value, each once";
        h ← set_header h k v;
        header_lines ls' h
  end.

(** The loop over the block: the lines up to a blank one, joined, and the lines after. *)
Fixpoint block_lines (ls : list bytes) : bytes * list bytes :=
  match ls with
  | [] => ([], [])
  | l :: ls' => if beqb l [] then ([], ls) else let '(enc, rest) := block_lines ls' in (l ++ enc, rest)
  end.

Section Recovery.
Context `{P : Platform} `{U : Unicode} `{A : Argon} `{X : XAead}.
Context `{CB : Coredet recoveryBlob} `{DB : Strict recoveryBlob}.

(** ** Next keys *)

(** Go's [hkdf.Key] with SHA-256 and an output of one block. *)
Definition hkdf_Key (secret salt info : bytes) : bytes := hmac_sha256 (hmac_sha256 salt secret) (info ++ [1]).

Definition nextSeed (rs aid : bytes) (seq : Z) : result bytes :=
  refuse beqb aid [] with Wrap "the AID is empty" ErrNextKeyInput;
  refuse has_byte 0 aid with Wrap "the AID holds U+0000" ErrNextKeyInput;
  refuse negb (ValidString aid) with Wrap "the AID is not valid UTF-8" ErrNextKeyInput;
  refuse zero32 rs with Wrap "the recovery seed is all zero" ErrNextKeyInput;
  Ok (hkdf_Key rs nextKeyLabel (aid ++ [0] ++ u64be seq)).

Definition RecoverySeed (rs aid : bytes) (seq : Z) : result bytes :=
  s ← nextSeed rs aid seq;
  Ok (ed25519_NewKeyFromSeed s).

Definition NextDigest (rs aid : bytes) (seq : Z) : result bytes :=
  k ← RecoverySeed rs aid seq;
  Ok (sha256 (ed25519_public k)).

(** ** Passphrases *)

Definition CheckPassphrase (p : bytes) : result unit :=
  refuse negb (ValidString p) with ErrPassphraseNotUTF8;
  refuse RuneCountInString (NFC p) <? MinPassphraseRunes with Wrap "after normalization" ErrPassphraseTooShort;
  Ok tt.

Definition passphraseKey (nfcPass salt : bytes) : bytes := argon2id nfcPass salt.

(** ** The block *)

Definition aad (b : recoveryBlob) : result bytes := Marshal (set_CT b []).

Definition decodeRecoveryBlob (raw : bytes) : result recoveryBlob :=
  b ← map_err (λ _, format "the block does not decode") (UnmarshalStrict raw);
  back ← map_err (λ _, format "the block is not in canonical form, or lacks a required key") (Marshal b);
  refuse negb (beqb back raw) with format "the block is not in canonical form, or lacks a required key";
  refuse negb (beqb (rv_Type b) recoveryType) with format "key 0";
  refuse negb (is_Ok (checkHeaderAID (rv_AID b))) with format "key 1 is not a usable AID";
  refuse negb (validKDF (rv_KDF b)) with format "key 2 is neither the argon2id nor the local key derivation";
  refuse negb (beqb (rv_AEAD b) recoveryAEAD) with format "key 3";
  refuse negb (len (rv_Nonce b) =? recoveryNonce) with format "key 4 is not a 24-byte nonce";
  refuse negb (is_Ok (checkHub (rv_Hub b))) with format "key 5 is not a usable hub hint";
  refuse negb (len (rcm_Digest (rv_Commits b)) =? Sha256Size) with format "key 6 does not hold a 32-byte digest";
  refuse negb (len (rv_CT b) =? recoveryRSLen + xOverhead) with format "key 7 is not a sealed 32-byte seed";
  Ok b.

(** ** Sealing *)

Definition NewX (key : bytes) : result unit :=
  refuse negb (xaead_NewX key) with Errf "chacha20poly1305: bad key length";
  Ok tt.

Definition sealRecovery (rs aid hub : bytes) (commits : Commit) (kdf : recoveryKDF) (key nonce : bytes) : result bytes :=
  _ ← checkHeaderAID aid;
  _ ← checkHub hub;
  refuse negb (len nonce =? recoveryNonce) with Errf "identity: a recovery nonce is 24 bytes";
  want ← NextDigest rs aid (cm_Seq commits);
  refuse negb (beqb want (cm_Digest commits)) with Errf "identity: commits is not what this recovery seed commits to";
  let b := mkRecoveryBlob recoveryType aid kdf recoveryAEAD nonce hub (mkRecoveryCommits (cm_Seq commits) (cm_Digest commits)) [] in
  aad ← aad b;
  _ ← NewX key;
  let b := set_CT b (xaead_Seal key (rv_Nonce b) rs aad) in
  raw ← Marshal b;
  Ok (renderRecovery b raw).

Definition sealRecoveryPassphrase (rs aid hub : bytes) (commits : Commit) (passphrase salt nonce : bytes) : result bytes :=
  _ ← CheckPassphrase passphrase;
  refuse negb (len salt =? recoverySalt) with Errf "identity: a recovery salt is 16 bytes";
  let key := passphraseKey (NFC passphrase) salt in
  sealRecovery rs aid hub commits (mkRecoveryKDF kdfArgon2id argon2Time argon2MemKiB argon2Lanes salt) key nonce.

Definition sealRecoveryLocal (rs aid hub : bytes) (commits : Commit) (localKey nonce : bytes) : result bytes :=
  refuse zero32 localKey with Errf "identity: the local recovery key is all zero";
  sealRecovery rs aid hub commits (mkRecoveryKDF kdfLocal 0 0 0 []) localKey nonce.

(** ** Reading *)

Definition parse_lines (lines : list bytes) : result recoveryFile :=
  lines0 ← of_option (head lines) Panic;
  refuse negb (beqb lines0 recoveryHeader) with format "the first line";
  '(h, rest) ← header_lines (drop 1 lines) (mkHeader None None None);
  hAID ← of_option (h_AID h) (format "the header lacks the AID or commits line");
  hCommits ← of_option (h_commits h) (format "the header lacks the AID or commits line");
  refuse negb (is_Ok (checkHeaderAID hAID)) with format "the AID line does not hold an AID";
  hc ← parseCommitsLine hCommits;
  let '(enc, after) := block_lines (drop 1 rest) in
  let noted := existsb (λ l, negb (beqb l [])) after in
  refuse len enc =? 0 with format "no base64 block after the header";
  raw ← of_option (b64_decode enc) (format "the block is not base64");
  blob ← decodeRecoveryBlob raw;
  refuse negb (beqb hAID (rv_AID blob)) || negb (cm_Seq hc =? rcm_Seq (rv_Commits blob))
      || negb (beqb (cm_Digest hc) (rcm_Digest (rv_Commits blob)))
      || match h_hub h with Some hHub => negb (beqb hHub (rv_Hub blob)) | None => false end
    with ErrRecoveryWrongIdentity;
  Ok (mkRecoveryFile blob noted).

Definition parseRecovery (b : bytes) : result recoveryFile :=
  refuse maxRecoveryFileLen <? len b with format "larger than the bound";
  refuse negb (ValidString b) with format "not UTF-8 text";
  parse_lines (map trim_cr (split_byte 10 (trim_bom b))).

Definition WithRecoveryNote (file : bytes) (lines : list bytes) : result bytes :=
  f ← parseRecovery file;
  refuse rf_noted f with Errf "identity: the recovery file already has a note";
  refuse bool_decide (lines = []) with Errf "identity: no note lines";
  refuse existsb (λ l, beqb l [] || negb (ValidString l) || existsb is_Cc (runes l)) lines
    with Errf "identity: a recovery note line must be one non-empty line of text";
  let out := file ++ [10] ++ flat_map (λ l, l ++ [10]) lines in
  _ ← map_err (λ _, Errf "identity: the recovery file with this note would not read back") (parseRecovery out);
  Ok out.

(** ** Opening *)

(** [recoveryFile.commit]: the digest copied into an array of 32. *)
Definition commit (f : recoveryFile) : Commit :=
  let c := rv_Commits (rf_blob f) in mkCommit (rcm_Seq c) (take 32 (rcm_Digest c ++ repeat 0 32)).

Definition open_seed (f : recoveryFile) (key : bytes) : result bytes :=
  let b := rf_blob f in
  aad ← map_err (λ _, format "aad") (aad b);
  _ ← NewX key;
  pt ← of_option (xaead_Open key (rv_Nonce b) (rv_CT b) aad) errAEAD;
  refuse negb (len pt =? recoveryRSLen) with format "the sealed seed is not 32 bytes";
  let bad := format "the sealed seed does not commit to what the file states" in
  d ← map_err (λ _, bad) (NextDigest pt (rv_AID b) (rcm_Seq (rv_Commits b)));
  refuse negb (beqb d (rcm_Digest (rv_Commits b))) with bad;
  Ok pt.

Definition result_of (f : recoveryFile) (rs : bytes) : opened := mkOpenedSeed rs (rv_AID (rf_blob f)) (rv_Hub (rf_blob f)) (commit f).

Definition OpenRecoveryFile (b passphrase : bytes) : result opened :=
  f ← parseRecovery b;
  refuse negb (beqb (kd_Alg (rv_KDF (rf_blob f))) kdfArgon2id) with ErrRecoveryUnprotected;
  refuse negb (ValidString passphrase) with ErrPassphraseNotUTF8;
  let key := passphraseKey (NFC passphrase) (kd_Salt (rv_KDF (rf_blob f))) in
  rs ← map_err (λ e, if errors_Is e errAEAD then ErrRecoveryPassphrase else e) (open_seed f key);
  Ok (result_of f rs).

Definition OpenRecoveryFileLocal (b localKey : bytes) : result opened :=
  f ← parseRecovery b;
  refuse negb (beqb (kd_Alg (rv_KDF (rf_blob f))) kdfLocal) with format "it is protected by a passphrase, not by the local recovery key";
  refuse zero32 localKey with format "the local recovery key is all zero";
  rs ← map_err (λ e, if errors_Is e errAEAD then format "it does not open with this local recovery key" else e) (open_seed f localKey);
  Ok (result_of f rs).

Definition ParseRecoveryFile (b : bytes) : result RecoveryFileInfo :=
  f ← parseRecovery b;
  let blob := rf_blob f in
  Ok (mkRecoveryFileInfo (rv_AID blob) (rv_Hub blob) (commit f) (beqb (kd_Alg (rv_KDF blob)) kdfLocal)).
End Recovery.
