(* ===== verification/RecoveryFacts.v ===== *)
(** * RecoveryFacts: the text of a recovery file, written and read line by line *)

From S2P Require Import Prelude Checks Text Utf8 Aid Platform Recovery.

(** ** Lines *)

Definition unlines (ls : list bytes) : bytes := flat_map (λ l, l ++ [10]) ls.

Lemma split_unlines ls s : Forall (λ l, 10 ∉ l) ls → split_byte 10 (unlines ls ++ s) = ls ++ split_byte 10 s.
Proof.
  induction 1 as [|l ls Hl _ IH]; [done|]. change (unlines (l :: ls)) with ((l ++ [10]) ++ unlines ls).
  rewrite <- !app_assoc. cbn [app]. rewrite split_byte_app by done. by rewrite IH.
Qed.

Lemma unlines_app a b : unlines (a ++ b) = unlines a ++ unlines b.
Proof. apply flat_map_app. Qed.

(** A file copied by a system that ends lines with a carriage return and a line feed. *)
Definition crlf (s : bytes) : bytes := flat_map (λ c, if c =? 10 then [13; 10] else [c]) s.

Lemma crlf_app a b : crlf (a ++ b) = crlf a ++ crlf b.
Proof. apply flat_map_app. Qed.

Lemma crlf_line l : 10 ∉ l → crlf l = l.
Proof.
  induction l as [|c l IH]; [done|]. intros [Hc Hl]%not_elem_of_cons. change (crlf (c :: l)) with ((if c =? 10 then [13; 10] else [c]) ++ crlf l).
  rewrite (proj2 (Z.eqb_neq c 10)) by done. by rewrite IH.
Qed.

Lemma crlf_unlines ls : Forall (λ l, 10 ∉ l) ls → crlf (unlines ls) = unlines (map (λ l, l ++ [13]) ls).
Proof.
  induction 1 as [|l ls Hl _ IH]; [done|]. change (unlines (l :: ls)) with ((l ++ [10]) ++ unlines ls).
  cbn [map]. change (unlines ((l ++ [13]) :: map (λ l, l ++ [13]) ls)) with (((l ++ [13]) ++ [10]) ++ unlines (map (λ l, l ++ [13]) ls)).
  rewrite !crlf_app, crlf_line, IH by done. by rewrite <- !app_assoc.
Qed.

Lemma trim_cr_snoc l : trim_cr (l ++ [13]) = l.
Proof. unfold trim_cr. rewrite last_snoc, bool_decide_true by done. apply removelast_last. Qed.
Lemma trim_cr_none l : 13 ∉ l → trim_cr l = l.
Proof.
  unfold trim_cr. intros Hl. rewrite bool_decide_false; [done|]. intros E. apply Hl.
  by apply last_Some_elem_of in E.
Qed.

(** The lines of a text, as the parser sees them. *)
Definition lines_of (b : bytes) : list bytes := map trim_cr (split_byte 10 (trim_bom b)).

Definition plain (ls : list bytes) : Prop := Forall (λ l, 10 ∉ l ∧ 13 ∉ l) ls.

Lemma trim_bom_bom b : trim_bom (bom ++ b) = b.
Proof. reflexivity. Qed.
Lemma trim_bom_header s : trim_bom (recoveryHeader ++ s) = recoveryHeader ++ s.
Proof. reflexivity. Qed.

Lemma lines_unlines ls : plain ls → head ls = Some recoveryHeader →
  let b := unlines ls in
  Forall (λ b', lines_of b' = ls ++ [[]]) [b; bom ++ b; crlf b; bom ++ crlf b].
Proof.
  intros Hp Hh. cbv zeta. assert (Forall (λ l, 10 ∉ l) ls) as H10 by (eapply Forall_impl; [exact Hp|]; by intros l []).
  assert (map trim_cr (split_byte 10 (unlines ls)) = ls ++ [[]]) as E1.
  { rewrite <- (app_nil_r (unlines ls)), split_unlines, map_app by done. cbn [split_byte map]. f_equal.
    clear Hh H10. induction Hp as [|l ls [_ Hl] _ IH]; [done|]. cbn [map]. by rewrite IH, trim_cr_none. }
  assert (map trim_cr (split_byte 10 (crlf (unlines ls))) = ls ++ [[]]) as E2.
  { rewrite crlf_unlines by done. rewrite <- (app_nil_r (unlines _)), split_unlines, map_app.
    - cbn [split_byte map]. f_equal. clear. induction ls as [|l ls IH]; [done|]. cbn [map]. by rewrite IH, trim_cr_snoc.
    - apply Forall_map. eapply Forall_impl; [exact H10|]. intros l Hl. cbn. rewrite not_elem_of_app, list_elem_of_singleton. done. }
  assert (∃ t, unlines ls = recoveryHeader ++ [10] ++ t) as [t Et].
  { destruct ls as [|l ls]; [done|]. injection Hh as ->. exists (unlines ls). unfold unlines. cbn [flat_map]. by rewrite <- app_assoc. }
  assert (crlf (unlines ls) = recoveryHeader ++ [13; 10] ++ crlf t) as Ec.
  { rewrite Et, !crlf_app. reflexivity. }
  unfold lines_of. repeat (apply Forall_cons; split); [| | | |constructor].
  - rewrite Et, trim_bom_header, <- Et. exact E1.
  - rewrite trim_bom_bom. exact E1.
  - rewrite Ec, trim_bom_header, <- Ec. exact E2.
  - rewrite trim_bom_bom. exact E2.
Qed.

(** The ways a file of lines is copied: with a byte-order mark, with CRLF line ends. *)
Definition copies (f : bytes) : list bytes := [f; bom ++ f; crlf f; bom ++ crlf f].

Lemma text_unlines ls : Forall text ls → text (unlines ls).
Proof.
  induction 1 as [|l ls Ht _ IH]; [apply text_nil|]. unfold unlines. cbn [flat_map]. apply text_app; [|done].
  apply text_app; [done|]. apply text_ascii. by constructor.
Qed.

Lemma text_crlf ls : Forall (λ l, 10 ∉ l) ls → Forall text ls → text (crlf (unlines ls)).
Proof.
  intros H10 Ht. rewrite crlf_unlines by done. apply text_unlines, Forall_map. eapply Forall_impl; [exact Ht|].
  intros l Hl. cbv beta. apply text_app; [done|]. apply text_ascii. by constructor.
Qed.

Lemma text_bom : text bom.
Proof. split; [|reflexivity]. unfold bytes_ok, bom. repeat (constructor; [unfold byte_ok; lia|]). constructor. Qed.

Lemma copies_lines ls copy :
  plain ls → Forall text ls → head ls = Some recoveryHeader → copy ∈ copies (unlines ls) →
  lines_of copy = ls ++ [[]] ∧ text copy.
Proof.
  intros Hp Ht Hh. pose proof (lines_unlines _ Hp Hh) as Hl. cbv zeta in Hl. rewrite !Forall_cons in Hl.
  destruct Hl as (E1 & E2 & E3 & E4 & _). assert (Forall (λ l, 10 ∉ l) ls) as H10 by (eapply Forall_impl; [exact Hp|]; by intros l []).
  pose proof (text_unlines _ Ht) as T1. pose proof (text_crlf _ H10 Ht) as T2. pose proof text_bom as Tb.
  unfold copies. rewrite !elem_of_cons. intros [->|[->|[->|[->|[]%elem_of_nil]]]]; split; auto using text_app.
Qed.

Lemma len_unlines ls : len (unlines ls) = len (concat ls) + len ls.
Proof.
  induction ls as [|l ls IH]; [done|]. change (unlines (l :: ls)) with ((l ++ [10]) ++ unlines ls).
  cbn [concat]. rewrite !len_app, IH. unfold len. cbn [length]. lia.
Qed.

Lemma len_copies ls copy :
  Forall (λ l, 10 ∉ l) ls → copy ∈ copies (unlines ls) → len copy <= len (unlines ls) + len ls + 3.
Proof.
  intros H10. assert (len (crlf (unlines ls)) = len (unlines ls) + len ls) as Ec.
  { rewrite crlf_unlines by done. clear. induction ls as [|l ls IH]; [done|]. unfold unlines in *. cbn [map flat_map].
    rewrite !len_app, IH. unfold len. cbn [length]. lia. }
  pose proof (len_nonneg ls). unfold copies. rewrite !elem_of_cons.
  intros [->|[->|[->|[->|[]%elem_of_nil]]]]; rewrite ?len_app, ?Ec; change (len bom) with 3; lia.
Qed.

(** ** The base64 block *)

Fixpoint chunks (fuel : nat) (enc : bytes) : list bytes :=
  match fuel with
  | O => [enc]
  | S fuel => if recoveryBase64Line <? len enc then take 64 enc :: chunks fuel (drop 64 enc) else [enc]
  end.

Lemma b64_lines_chunks fuel : ∀ enc, b64_lines fuel enc = unlines (chunks fuel enc).
Proof.
  induction fuel as [|fuel IH]; intros enc; cbn [b64_lines chunks]; [by unfold unlines; simpl; rewrite app_nil_r|].
  destruct (recoveryBase64Line <? len enc); [|by unfold unlines; simpl; rewrite app_nil_r].
  rewrite IH. unfold unlines. cbn [flat_map]. by rewrite <- app_assoc.
Qed.

Lemma chunks_facts fuel (Q : Z → Prop) : ∀ enc, enc ≠ [] → Forall Q enc →
  concat (chunks fuel enc) = enc ∧ Forall (λ l, l ≠ [] ∧ Forall Q l) (chunks fuel enc) ∧
  64 * (len (chunks fuel enc) - 1) <= len enc.
Proof.
  induction fuel as [|fuel IH]; intros enc Hne HQ; cbn [chunks].
  - split_and!; [simpl; by rewrite app_nil_r|by repeat constructor|unfold len; simpl; lia].
  - destruct (recoveryBase64Line <? len enc) eqn:E.
    + apply Z.ltb_lt in E. unfold recoveryBase64Line, len in E.
      destruct (IH (drop 64 enc)) as (H1 & H2 & H3); [|by apply Forall_drop|].
      { intros Hd. apply (f_equal length) in Hd. rewrite length_drop in Hd. simpl in Hd. lia. }
      split_and!.
      * cbn [concat]. by rewrite H1, take_drop.
      * constructor; [|done]. split; [|by apply Forall_take]. destruct enc; [done|]. by simpl.
      * unfold len in *. cbn [length]. rewrite length_drop in H3. lia.
    + split_and!; [simpl; by rewrite app_nil_r|by repeat constructor|unfold len; simpl; lia].
Qed.

Lemma block_lines_app ls after :
  Forall (λ l, l ≠ []) ls → block_lines (ls ++ [] :: after) = (concat ls, [] :: after).
Proof.
  induction 1 as [|l ls Hl _ IH]; [done|]. cbn [app block_lines concat]. rewrite (proj2 (beqb_false _ _) Hl). by rewrite IH.
Qed.

(** ** The lines of a rendered file *)

Definition commits_text (c : Commit) : bytes := decimal (cm_Seq c) ++ [32] ++ hex_encode (cm_Digest c).
Definition head_lines (aid hub : bytes) (c : Commit) : list bytes :=
  [recoveryHeader; str "AID " ++ aid] ++ (if beqb hub [] then [] else [str "hub " ++ hub]) ++ [str "commits " ++ commits_text c; []].
Definition commit_of (b : recoveryBlob) : Commit := mkCommit (rcm_Seq (rv_Commits b)) (rcm_Digest (rv_Commits b)).
Definition file_lines (b : recoveryBlob) (raw : bytes) : list bytes :=
  head_lines (rv_AID b) (rv_Hub b) (commit_of b) ++ let enc := b64_encode raw in chunks (length enc) enc.

Lemma renderRecovery_lines b raw : renderRecovery b raw = unlines (file_lines b raw).
Proof.
  unfold renderRecovery, file_lines, head_lines, commits_text, commit_of. cbv zeta. rewrite !unlines_app, b64_lines_chunks.
  unfold unlines. cbn [flat_map cm_Seq cm_Digest]. destruct (beqb (rv_Hub b) []); cbn [flat_map]; rewrite <- ?app_assoc; cbn [app]; rewrite ?app_nil_r, <- ?app_assoc; reflexivity.
Qed.

(** An AID is printable ASCII. *)
Lemma b32_char_range v : 0 <= v < 32 → 50 <= b32_char v <= 122.
Proof.
  intros Hv. assert (v ∈ seqZ 0 32) as Hi by (apply elem_of_seqZ; lia). clear Hv. revert v Hi. apply Forall_forall.
  vm_compute. repeat constructor; discriminate.
Qed.

Lemma aid_chars aid : ValidAID aid = true → Forall (λ c, 50 <= c <= 122) aid ∧ aid ≠ [] ∧ len aid = 59.
Proof.
  intros Hv. assert (len aid = 59) as Hl.
  { unfold ValidAID in Hv. destruct aid as [|c t]; [done|]. go_inv. unfold aidLen in *.
    repeat match goal with K : _ && _ = true |- _ => apply andb_true_iff in K as [? ?] end.
    repeat match goal with K : (_ =? _) = true |- _ => apply Z.eqb_eq in K end. lia. }
  apply ValidAID_spec in Hv as (d & _ & _ & ->). split_and!; [|done|done]. apply Forall_app. split; [by repeat constructor|].
  rewrite EncodeToString_digits. apply Forall_map. eapply Forall_impl; [apply b32_digits_range|]. intros v Hr. by apply b32_char_range.
Qed.

(** The ASCII bytes of a text are runes of it. *)
Lemma char_ascii r bs c : char r bs → 0 <= c < 128 → c ∈ bs → c = r.
Proof.
  intros Hch Hc Hin. destruct Hch; rewrite ?is_tail_spec in *; rewrite ?elem_of_cons in Hin;
    repeat match goal with K : _ ∨ _ |- _ => destruct K as [K|K] | K : _ ∈ [] |- _ => by apply elem_of_nil in K end; lia.
Qed.

Lemma ascii_rune s c : text s → 0 <= c < 128 → c ∈ s → c ∈ runes s.
Proof.
  intros [Hok Hv] Hc. revert s Hok Hv. refine (valid_ind (λ s, c ∈ s → c ∈ runes s) _ _); [by intros ?%elem_of_nil|]. intros r s Hr _ _ IH.
  rewrite runes_encode by done. rewrite elem_of_app, elem_of_cons. intros [Hin|Hin]; [|right; by apply IH].
  left. by apply (char_ascii r (encode_rune r)); [apply char_encode|..].
Qed.

Lemma hub_plain hub : bytes_ok hub → checkHub hub = Ok tt → text hub ∧ len hub <= maxRecoveryHubLen ∧ 10 ∉ hub ∧ 13 ∉ hub.
Proof.
  unfold checkHub. intros Hok R. apply refuse_Ok in R as [[[Hl Hv]%orb_false_iff Hr]%orb_false_iff _].
  apply Z.ltb_ge in Hl. apply negb_false_iff in Hv. assert (text hub) as Ht by by split.
  apply existsb_false in Hr. rewrite Forall_forall in Hr.
  split_and!; [done|done|..]; intros Hin; (apply ascii_rune in Hin; [|done|lia]); by specialize (Hr _ Hin).
Qed.

Lemma commits_plain c :
  is_u64 (cm_Seq c) → bytes_ok (cm_Digest c) → len (cm_Digest c) = 32 →
  parseCommitsLine (commits_text c) = Ok c ∧ Forall (λ x, 32 <= x < 128) (commits_text c) ∧ len (commits_text c) <= 20 + 1 + 64.
Proof.
  intros Hs Hd Hl. destruct (decimal_reads (cm_Seq c) Hs) as [(D1 & D2 & D3) Hp].
  destruct (hex_round_trip (cm_Digest c) Hd) as (X1 & X2 & X3 & X4). unfold commits_text. split_and!.
  - unfold parseCommitsLine.
    assert (cut_byte 32 (decimal (cm_Seq c) ++ [32] ++ hex_encode (cm_Digest c)) = Some (decimal (cm_Seq c), hex_encode (cm_Digest c))) as ->.
    { apply cut_byte_Some. split; [|done]. apply decimal_not_in; [apply Hs|]. unfold is_digit. lia. }
    cbn [of_option mbind result_bind]. rewrite (proj2 (beqb_false _ _) D2), X2, X3, Hl, beqb_refl.
    change (2 * 32 =? 2 * Sha256Size) with true.
    assert ((1 <? len (decimal (cm_Seq c))) && bool_decide (head (decimal (cm_Seq c)) = Some 48) = false) as ->.
    { destruct (1 <? len (decimal (cm_Seq c))) eqn:E; [|done]. apply Z.ltb_lt in E. cbn [andb]. by apply bool_decide_eq_false, D3. }
    cbn [orb negb]. rewrite (proj2 (existsb_false _ _)).
    2: { eapply Forall_impl; [exact D1|]. intros x Hx. unfold is_digit in Hx. cbv beta in *; lia. }
    rewrite Hp, X1. cbn [map_err of_option mbind result_bind]. by destruct c.
  - rewrite !Forall_app. split_and!; [|by repeat constructor|].
    + eapply Forall_impl; [exact D1|]. unfold is_digit. intros x Hx. cbv beta in *; lia.
    + eapply Forall_impl; [exact X4|]. intros x Hx. cbv beta in *; lia.
  - rewrite !len_app, X2, Hl. assert (len (decimal (cm_Seq c)) <= 20); [|unfold len in *; simpl in *; lia].
    unfold decimal. assert (∀ f n, len (dec_digits f n) <= Z.of_nat f) as Hf; [|apply (Hf 20%nat)].
    induction f as [|f IH]; intros n; cbn [dec_digits]; [done|]. destruct (n <? 10); [unfold len; cbn [length]; lia|].
    rewrite len_app. specialize (IH (n / 10)). unfold len in *. cbn [length] in *. lia.
Qed.
