(* ===== verification/RecoveryTheorems.v ===== *)
(** * RecoveryTheorems: a sealed seed is recovered, and only a seed the file commits to *)

From S2P Require Import Prelude Checks Text Utf8 Aid Platform Kel Recovery RecoveryFacts.

(** The ciphers and the codec are inverses; their outputs have the documented lengths. *)
Class XAeadLaws (X : XAead) : Prop := {
  xaead_key key : len key = xKeySize → xaead_NewX key = true;
  xaead_inv key nonce pt aad :
    xaead_NewX key = true → len nonce = recoveryNonce → xaead_Open key nonce (xaead_Seal key nonce pt aad) aad = Some pt;
  xaead_len key nonce pt aad : len (xaead_Seal key nonce pt aad) = len pt + xOverhead;
}.
Class ArgonLaws (A : Argon) : Prop := argon_len p s : len (argon2id p s) = xKeySize.

(** The bytes of a blob's strings; the heads of its encoding take 133 bytes at most. *)
Definition blob_bytes (b : recoveryBlob) : Z :=
  len (rv_Type b) + len (rv_AID b) + len (kd_Alg (rv_KDF b)) + len (kd_Salt (rv_KDF b)) + len (rv_AEAD b) + len (rv_Nonce b)
  + len (rv_Hub b) + len (rcm_Digest (rv_Commits b)) + len (rv_CT b).
Class BlobCodec `(CB : Coredet recoveryBlob, DB : Strict recoveryBlob) : Prop := {
  blob_read b x : marshal b = Some x → unmarshal x = Some b;
  blob_ok b x : marshal b = Some x → bytes_ok x ∧ x ≠ [];
  blob_len b x : marshal b = Some x → len x <= 133 + blob_bytes b;
}.

(** ** Reading the lines of a file *)

Lemma header_read aid hub c rest :
  aid ≠ [] → commits_text c ≠ [] →
  header_lines (drop 1 (head_lines aid hub c) ++ rest) (mkHeader None None None) =
    Ok (mkHeader (Some aid) (if beqb hub [] then None else Some hub) (Some (commits_text c)), [] :: rest).
Proof.
  intros Ha Hc. unfold head_lines.
  assert (∀ l w, l ≠ [] → beqb (l ++ w) [] = false) as Hne by (intros l w Hl; apply beqb_false; by intros [? _]%app_nil).
  assert (∀ w, cut_byte 32 (str "AID " ++ w) = Some (str "AID", w) ∧ cut_byte 32 (str "hub " ++ w) = Some (str "hub", w) ∧
               cut_byte 32 (str "commits " ++ w) = Some (str "commits", w)) as Hcut by (intros w; split_and!; reflexivity).
  destruct (beqb hub []) eqn:Eh; cbn [app drop header_lines];
    rewrite ?Hne by done; rewrite ?(proj1 (Hcut _)), ?(proj1 (proj2 (Hcut _))), ?(proj2 (proj2 (Hcut _)));
    cbn [of_option mbind result_bind]; rewrite ?(proj2 (beqb_false _ _) Ha), ?(proj2 (beqb_false _ _) Hc), ?Eh; reflexivity.
Qed.

Section Recovery.
Context `{P : Platform} `{U : Unicode} `{A : Argon} `{X : XAead}.
Context `{CB : Coredet recoveryBlob} `{DB : Strict recoveryBlob}.

(** ** The block *)

Record blob_valid (b : recoveryBlob) : Prop := {
  bv_type : rv_Type b = recoveryType;
  bv_aid : ValidAID (rv_AID b) = true;
  bv_kdf : validKDF (rv_KDF b) = true;
  bv_aead : rv_AEAD b = recoveryAEAD;
  bv_nonce : len (rv_Nonce b) = recoveryNonce;
  bv_hub : checkHub (rv_Hub b) = Ok tt;
  bv_digest : len (rcm_Digest (rv_Commits b)) = Sha256Size;
  bv_ct : len (rv_CT b) = recoveryRSLen + xOverhead;
}.

Lemma is_Ok_unit (r : result unit) : is_Ok r = true ↔ r = Ok tt.
Proof. destruct r as [[]|]; done. Qed.

Lemma checkHeaderAID_Ok aid : checkHeaderAID aid = Ok tt ↔ ValidAID aid = true.
Proof. unfold checkHeaderAID. rewrite refuse_Ok, negb_false_iff. tauto. Qed.

Lemma decodeRecoveryBlob_Ok raw b :
  decodeRecoveryBlob raw = Ok b ↔ unmarshal raw = Some b ∧ marshal b = Some raw ∧ blob_valid b.
Proof.
  unfold decodeRecoveryBlob, UnmarshalStrict, Marshal. split.
  - intros R. apply bind_Ok in R as (b' & Hu%map_err_Ok%of_option_Ok & R).
    apply bind_Ok in R as (back & Hm%map_err_Ok%of_option_Ok & R). apply refuse_Ok in R as [->%negb_beqb_false R].
    apply refuse_Ok in R as [R1%negb_beqb_false R]. apply refuse_Ok in R as [R2%negb_false_iff%is_Ok_unit%checkHeaderAID_Ok R].
    apply refuse_Ok in R as [R3%negb_false_iff R]. apply refuse_Ok in R as [R4%negb_beqb_false R].
    apply refuse_Ok in R as [R5%negb_Zeqb_false R]. apply refuse_Ok in R as [R6%negb_false_iff%is_Ok_unit R].
    apply refuse_Ok in R as [R7%negb_Zeqb_false R]. apply refuse_Ok in R as [R8%negb_Zeqb_false [= ->]]. done.
  - intros (Hu & Hm & [V1 V2 V3 V4 V5 V6 V7 V8]). rewrite Hu. cbn [of_option map_err mbind result_bind].
    rewrite Hm. cbn [of_option map_err mbind result_bind]. rewrite beqb_refl, V1, V4, V3, V5, V7, V8, !beqb_refl, !Z.eqb_refl.
    rewrite (proj2 (checkHeaderAID_Ok _) V2), V6. done.
Qed.

Lemma parse_file b raw more :
  decodeRecoveryBlob raw = Ok b → bytes_ok raw → raw ≠ [] → is_u64 (rcm_Seq (rv_Commits b)) → bytes_ok (rcm_Digest (rv_Commits b)) →
  parse_lines (file_lines b raw ++ [] :: more) = Ok (mkRecoveryFile b (existsb (λ l, negb (beqb l [])) more)).
Proof.
  intros Hd Hraw Hne Hs Hdig. pose proof (proj1 (decodeRecoveryBlob_Ok _ _) Hd) as (_ & _ & V).
  destruct (aid_chars _ (bv_aid _ V)) as (_ & Ha & _).
  destruct (commits_plain (commit_of b) Hs Hdig (bv_digest _ V)) as (Hc & _ & _).
  destruct (b64_quanta_encode raw Hraw) as (_ & Hb & Henc). specialize (Henc Hne).
  destruct (chunks_facts (length (b64_encode raw)) b64_ok (b64_encode raw) Henc Hb) as (C1 & C2 & _).
  unfold parse_lines, file_lines. cbn [head_lines app head of_option mbind result_bind]. rewrite beqb_refl. cbn [negb].
  change (drop 1 (recoveryHeader :: ?l)) with l.
  pose proof (header_read (rv_AID b) (rv_Hub b) (commit_of b)
    (chunks (length (b64_encode raw)) (b64_encode raw) ++ [] :: more) Ha) as Hh.
  unfold head_lines in *. cbn [app drop] in *. rewrite <- !app_assoc in *. cbn [app] in *. rewrite Hh.
  2: { intros E. rewrite E in Hc. discriminate. }
  cbn [mbind result_bind h_AID h_commits h_hub of_option drop].
  rewrite (proj2 (checkHeaderAID_Ok _) (bv_aid _ V)). cbn [is_Ok negb]. rewrite Hc. cbn [mbind result_bind].
  rewrite drop_0, block_lines_app by (eapply Forall_impl; [exact C2|]; by intros l []). rewrite C1.
  rewrite (proj2 (Z.eqb_neq _ 0)) by (destruct (b64_encode raw); [done|unfold len; simpl; lia]).
  rewrite b64_round_trip by done. cbn [of_option mbind result_bind]. rewrite Hd. cbn [mbind result_bind].
  unfold commit_of. cbn [cm_Seq cm_Digest]. rewrite !beqb_refl, Z.eqb_refl. cbn [negb orb].
  destruct (beqb (rv_Hub b) []); [|rewrite beqb_refl]; cbn [negb existsb]; by rewrite beqb_refl.
Qed.

(** ** Next keys *)

Lemma nextSeed_Ok rs aid seq s :
  nextSeed rs aid seq = Ok s →
  0 ∉ aid ∧ aid ≠ [] ∧ zero32 rs = false ∧ s = hkdf_Key rs nextKeyLabel (aid ++ [0] ++ u64be seq).
Proof.
  unfold nextSeed. intros R. apply refuse_Ok in R as [R1%beqb_false R]. apply refuse_Ok in R as [R2%has_byte_false R].
  apply refuse_Ok in R as [_ R]. apply refuse_Ok in R as [R3 [= <-]]. done.
Qed.

Lemma NextDigest_Ok {PL : PlatformLaws P} {HL : HmacLaws P} rs aid seq d :
  NextDigest rs aid seq = Ok d →
  ∃ k, RecoverySeed rs aid seq = Ok k ∧ key_ok k ∧ nextDigest (ed25519_public k) = d ∧ len d = 32 ∧ bytes_ok d.
Proof.
  unfold NextDigest. intros R. apply bind_Ok in R as (k & Hk & [= <-]). exists k. split; [done|].
  unfold RecoverySeed in Hk. apply bind_Ok in Hk as (s & Hs & [= <-]). apply nextSeed_Ok in Hs as (_ & _ & _ & ->).
  split_and!; [|reflexivity|unfold len; by rewrite sha256_length|apply sha256_bytes].
  eexists. split; [apply Nat2Z.inj, hmac_length|reflexivity].
Qed.

(** ** Sealing *)

Inductive seals (rs aid hub : bytes) (c : Commit) (kdf : recoveryKDF) (key nonce file : bytes) (b : recoveryBlob) (raw : bytes) : Prop :=
  Seals a
    (SR_aid : ValidAID aid = true) (SR_hub : checkHub hub = Ok tt) (SR_nonce : len nonce = recoveryNonce)
    (SR_key : xaead_NewX key = true) (SR_digest : NextDigest rs aid (cm_Seq c) = Ok (cm_Digest c))
    (SR_aad : marshal (set_CT b []) = Some a)
    (SR_blob : b = mkRecoveryBlob recoveryType aid kdf recoveryAEAD nonce hub (mkRecoveryCommits (cm_Seq c) (cm_Digest c))
                     (xaead_Seal key nonce rs a))
    (SR_raw : marshal b = Some raw) (SR_file : file = renderRecovery b raw).

Lemma sealRecovery_seals rs aid hub c kdf key nonce file :
  sealRecovery rs aid hub c kdf key nonce = Ok file → ∃ b raw, seals rs aid hub c kdf key nonce file b raw.
Proof.
  unfold sealRecovery. intros R. apply bind_Ok in R as ([] & Ha%checkHeaderAID_Ok & R). apply bind_Ok in R as ([] & Hh & R).
  apply refuse_Ok in R as [Hn%negb_Zeqb_false R]. apply bind_Ok in R as (d & Hd & R). apply refuse_Ok in R as [->%negb_beqb_false R].
  apply bind_Ok in R as (a & Hm & R). unfold aad, Marshal in Hm. apply of_option_Ok in Hm.
  apply bind_Ok in R as ([] & Hk & R). unfold NewX in Hk. apply refuse_Ok in Hk as [Hk%negb_false_iff _].
  apply bind_Ok in R as (raw & Hr & [= <-]). unfold Marshal in Hr. apply of_option_Ok in Hr.
  exists (mkRecoveryBlob recoveryType aid kdf recoveryAEAD nonce hub (mkRecoveryCommits (cm_Seq c) (cm_Digest c)) (xaead_Seal key nonce rs a)), raw.
  by eapply Seals.
Qed.

Context {PL : PlatformLaws P} {HL : HmacLaws P} {XL : XAeadLaws X} {AL : ArgonLaws A} {BC : BlobCodec CB DB}.

(** What becomes of a file: it is copied, or given a note and copied. *)
Inductive kept (file : bytes) : bytes → Prop :=
  | kept_copy copy : copy ∈ copies file → kept file copy
  | kept_noted lines noted copy :
      Forall bytes_ok lines → WithRecoveryNote file lines = Ok noted → copy ∈ copies noted → len copy <= maxRecoveryFileLen → kept file copy.

Section Sealed.
Context (rs aid hub : bytes) (c : Commit) (kdf : recoveryKDF) (key nonce file : bytes) (b : recoveryBlob) (raw : bytes).
Hypothesis (Hseal : seals rs aid hub c kdf key nonce file b raw).
Hypotheses (Hrs : len rs = recoveryRSLen) (Hkdf : validKDF kdf = true) (Hok : bytes_ok hub) (Hseq : is_u64 (cm_Seq c)).

Lemma seals_valid : decodeRecoveryBlob raw = Ok b ∧ bytes_ok raw ∧ raw ≠ [] ∧ blob_valid b ∧ len raw <= 2400.
Proof using PL HL XL BC Hseal Hrs Hkdf.
  destruct Hseal as [a Ha Hh Hn Hk Hd Hm Hb Hr Hf].
  destruct (NextDigest_Ok _ _ _ _ Hd) as (_ & _ & _ & _ & Hl & _). pose proof (aid_chars aid Ha) as (_ & _ & Hal).
  assert (blob_valid b) as V.
  { rewrite Hb. constructor; cbn; try done. by rewrite xaead_len, Hrs. }
  destruct (blob_ok b raw Hr) as [R1 R2]. split_and!; [|done..|].
  - apply decodeRecoveryBlob_Ok. split_and!; [by apply blob_read|done..].
  - etrans; [by apply blob_len|]. unfold blob_bytes.
    assert (len (rv_Type b) = 15 ∧ len (rv_AEAD b) = 17) as [-> ->] by (rewrite Hb; done).
    assert (len (rv_AID b) = 59) as -> by (rewrite Hb; done). rewrite (bv_nonce _ V), (bv_digest _ V), (bv_ct _ V).
    assert (len (kd_Alg (rv_KDF b)) <= 8 ∧ len (kd_Salt (rv_KDF b)) <= 16) as [K1 K2].
    { rewrite Hb. cbn [rv_KDF]. clear -Hkdf. unfold validKDF, recoverySalt in Hkdf.
      destruct (beqb (kd_Alg kdf) kdfArgon2id) eqn:E1; [apply beqb_true in E1 as ->|].
      - repeat (apply andb_true_iff in Hkdf as [? Hkdf]). apply Z.eqb_eq in Hkdf. rewrite Hkdf. done.
      - destruct (beqb (kd_Alg kdf) kdfLocal) eqn:E2; [apply beqb_true in E2 as ->|done].
        repeat (apply andb_true_iff in Hkdf as [? Hkdf]). apply Z.eqb_eq in Hkdf. rewrite Hkdf. done. }
    assert (len (rv_Hub b) <= maxRecoveryHubLen) as K3.
    { rewrite Hb. cbn [rv_Hub]. clear -Hh. unfold checkHub in Hh. apply refuse_Ok in Hh as [[[Hl _]%orb_false_iff _]%orb_false_iff _].
      by apply Z.ltb_ge in Hl. }
    unfold recoveryNonce, Sha256Size, recoveryRSLen, xOverhead, maxRecoveryHubLen in *. lia.
Qed.

(** The lines of the file: plain text, about 5500 bytes at most. *)
Lemma seals_lines :
  let ls := file_lines b raw in
  plain ls ∧ Forall text ls ∧ head ls = Some recoveryHeader ∧ len (unlines ls) + len ls <= 6000.
Proof using PL HL XL BC Hseal Hrs Hkdf Hok Hseq.
  cbv zeta. destruct seals_valid as (_ & Hraw & Hne & V & Hlen).
  destruct Hseal as [a Ha Hh Hn Hk Hd Hm Hb Hr Hf]. destruct (NextDigest_Ok _ _ _ _ Hd) as (_ & _ & _ & _ & Hdl & Hdb).
  destruct (hub_plain hub Hok Hh) as (H1 & H2 & H3 & H4). destruct (aid_chars aid Ha) as (A1 & A2 & A3).
  destruct (commits_plain c Hseq Hdb Hdl) as (_ & C1 & C2).
  destruct (b64_quanta_encode raw Hraw) as (_ & B1 & B2). specialize (B2 Hne).
  destruct (chunks_facts (length (b64_encode raw)) b64_ok (b64_encode raw) B2 B1) as (K1 & K2 & K3).
  pose proof (len_b64_encode raw) as B3.
  unfold file_lines. assert (rv_AID b = aid ∧ rv_Hub b = hub ∧ commit_of b = c) as (-> & -> & ->) by (rewrite Hb; by destruct c).
  cbv zeta. set (cs := chunks (length (b64_encode raw)) (b64_encode raw)) in *.
  assert (∀ l, Forall (λ x, 11 <= x < 128 ∧ x ≠ 13) l → text l ∧ 10 ∉ l ∧ 13 ∉ l) as Hascii.
  { intros l Hl. split_and!; [apply text_ascii; eapply Forall_impl; [exact Hl|]; cbv beta; lia|..];
      intros Hin; rewrite Forall_forall in Hl; specialize (Hl _ Hin); cbv beta in Hl; lia. }
  assert (Forall (λ l, text l ∧ 10 ∉ l ∧ 13 ∉ l) (head_lines aid hub c ++ cs)) as Hall.
  { unfold head_lines. apply Forall_app_2; [|eapply Forall_impl; [exact K2|]; intros l [_ Hl]; apply Hascii; eapply Forall_impl; [exact Hl|]; unfold b64_ok; cbv beta; lia].
    assert (∀ l, forallb (λ x, (11 <=? x) && (x <? 128) && negb (x =? 13)) l = true → Forall (λ x, 11 <= x < 128 ∧ x ≠ 13) l) as Hdec.
    { clear. intros l Hl. rewrite forallb_forall in Hl. apply Forall_forall. intros x Hx%list_elem_of_In%Hl. lia. }
    apply Forall_app_2; [|apply Forall_app_2].
    - constructor; [by apply Hascii, Hdec|constructor; [|constructor]]. apply Hascii, Forall_app_2; [by apply Hdec|].
      eapply Forall_impl; [exact A1|]. cbv beta. lia.
    - destruct (beqb hub []); [constructor|]. constructor; [|constructor]. rewrite !not_elem_of_app.
      destruct (Hascii (str "hub ")) as (U1 & U2 & U3); [by apply Hdec|]. split; [by apply text_app|done].
    - constructor; [|constructor; [|constructor]]; [|by apply Hascii]. apply Hascii, Forall_app_2; [by apply Hdec|].
      eapply Forall_impl; [exact C1|]. cbv beta. lia. }
  apply Forall_and in Hall as [T1 T2]. split_and!; [exact T2|exact T1|done|].
  rewrite len_unlines, concat_app, !len_app, K1. unfold head_lines. unfold maxRecoveryHubLen in *.
  destruct (beqb hub []); cbn [concat app]; rewrite ?len_app, A3 || rewrite ?len_app;
    change (len recoveryHeader) with 16; change (len (str "AID ")) with 4; change (len (str "hub ")) with 4;
    change (len (str "commits ")) with 8; unfold len in *; cbn [length] in *; lia.
Qed.

(** The text with further lines, as it is copied, parses to the blob. *)
Lemma seals_read more tail copy :
  tail ++ [[]] = [] :: more → plain tail → Forall text tail → copy ∈ copies (unlines (file_lines b raw ++ tail)) →
  len copy <= maxRecoveryFileLen →
  parseRecovery copy = Ok (mkRecoveryFile b (existsb (λ l, negb (beqb l [])) more)).
Proof using PL HL XL BC Hseal Hrs Hkdf Hok Hseq.
  intros Hm Hp Ht Hc Hlen. destruct seals_lines as (L1 & L2 & L3 & L4). destruct seals_valid as (V1 & V2 & V3 & V4 & V5).
  destruct (copies_lines (file_lines b raw ++ tail) copy) as [Hl [_ Hv]]; [by apply Forall_app_2|by apply Forall_app_2|done|done|].
  unfold parseRecovery. rewrite (proj2 (Z.ltb_ge maxRecoveryFileLen _)) by done. rewrite Hv. cbn [negb].
  fold (lines_of copy). rewrite Hl, <- app_assoc, Hm. apply parse_file; try done.
  - destruct Hseal as [a Ha Hh Hn Hk Hd Hma Hb Hr Hf]. by rewrite Hb.
  - destruct Hseal as [a Ha Hh Hn Hk Hd Hma Hb Hr Hf]. destruct (NextDigest_Ok _ _ _ _ Hd) as (_ & _ & _ & _ & _ & ?). by rewrite Hb.
Qed.

Lemma seals_file : file = unlines (file_lines b raw).
Proof using Hseal. destruct Hseal as [? ? ? ? ? ? ? ? ? ->]. apply renderRecovery_lines. Qed.

Lemma seals_parse copy : copy ∈ copies file → parseRecovery copy = Ok (mkRecoveryFile b false).
Proof using PL HL XL BC Hseal Hrs Hkdf Hok Hseq.
  intros Hc. destruct seals_lines as (L1 & _ & _ & L4).
  apply (seals_read [] []); [done|constructor|constructor|by rewrite app_nil_r, <- seals_file|].
  assert (Forall (λ l, 10 ∉ l) (file_lines b raw)) as H10 by (eapply Forall_impl; [exact L1|]; by intros l []).
  rewrite seals_file in Hc. pose proof (len_copies _ _ H10 Hc). change maxRecoveryFileLen with 16384. lia.
Qed.

(** A note is for people: the file under it reads as before, up to the mark. *)
Lemma seals_noted lines noted copy :
  Forall bytes_ok lines → WithRecoveryNote file lines = Ok noted → copy ∈ copies noted → len copy <= maxRecoveryFileLen →
  parseRecovery copy = Ok (mkRecoveryFile b true).
Proof using PL HL XL BC Hseal Hrs Hkdf Hok Hseq.
  intros Hby R Hc Hl. unfold WithRecoveryNote in R. apply bind_Ok in R as (f & _ & R). apply refuse_Ok in R as [_ R].
  apply refuse_Ok in R as [Hne%bool_decide_eq_false R]. apply refuse_Ok in R as [Hls R].
  apply bind_Ok in R as (f' & _ & R). apply existsb_false in Hls.
  assert (Forall (λ l, l ≠ [] ∧ text l ∧ 10 ∉ l ∧ 13 ∉ l) lines) as Hlines.
  { clear -Hby Hls. induction Hby as [|l ls Hb _ IH]; [constructor|]. apply Forall_cons in Hls as [Hl Hls]. constructor; [|by apply IH].
    apply orb_false_iff in Hl as [[Hn%beqb_false Hv%negb_false_iff]%orb_false_iff Hc]. apply existsb_false in Hc. rewrite Forall_forall in Hc.
    assert (text l) as Ht by by split. split_and!; [done|done|..]; intros Hin; (apply ascii_rune in Hin; [|done|lia]); by specialize (Hc _ Hin). }
  assert (noted = unlines (file_lines b raw ++ [] :: lines)) as E.
  { rewrite unlines_app, <- seals_file. by injection R as <-. }
  rewrite E in Hc. rewrite (seals_read (lines ++ [[]]) ([] :: lines) copy); try done.
  - destruct lines as [|l ls]; [done|]. apply Forall_cons in Hlines as [[Hn%beqb_false _] _]. cbn [app existsb]. by rewrite Hn.
  - constructor; [split; apply not_elem_of_nil|]. eapply Forall_impl; [exact Hlines|]. by intros l (_ & _ & ?).
  - constructor; [apply text_nil|]. eapply Forall_impl; [exact Hlines|]. by intros l (_ & ? & _).
Qed.

(** The block opens under the key it was sealed with, and states what was sealed. *)
Lemma seals_open noted : open_seed (mkRecoveryFile b noted) key = Ok rs ∧ result_of (mkRecoveryFile b noted) rs = mkOpenedSeed rs aid hub c.
Proof using PL HL XL BC Hseal Hrs Hkdf Hok Hseq.
  destruct Hseal as [a Ha Hh Hn Hk Hd Hm Hb Hr Hf]. destruct (NextDigest_Ok _ _ _ _ Hd) as (_ & _ & _ & _ & Hl & _). split.
  - unfold open_seed, aad, Marshal, NewX. cbn [rf_blob]. rewrite Hm. cbn [of_option map_err mbind result_bind].
    rewrite Hk. cbn [negb mbind result_bind]. subst b. cbn [rv_Nonce rv_CT rv_AID rv_Commits rcm_Seq rcm_Digest].
    rewrite xaead_inv by done. cbn [of_option mbind result_bind]. rewrite Hrs, Z.eqb_refl, Hd. cbn [negb map_err mbind result_bind].
    by rewrite beqb_refl.
  - unfold result_of, commit. cbn [rf_blob]. subst b. cbn [rv_AID rv_Hub rv_Commits rcm_Seq rcm_Digest].
    rewrite take_app_length' by (unfold len in Hl; lia). by destruct c.
Qed.

Lemma seals_kept copy : kept file copy → ∃ noted, parseRecovery copy = Ok (mkRecoveryFile b noted).
Proof using PL HL XL BC Hseal Hrs Hkdf Hok Hseq.
  intros [? Hc|lines noted ? Hb Hn Hc Hl]; [exists false; by apply seals_parse|exists true]. by apply (seals_noted lines noted).
Qed.

Lemma seals_blob : rv_KDF b = kdf ∧ rv_AID b = aid ∧ rv_Hub b = hub.
Proof using Hseal. destruct Hseal as [? ? ? ? ? ? ? -> ? ?]. done. Qed.

(** What a reader of any copy gets. *)
Lemma seals_read_back copy :
  kept file copy →
  ParseRecoveryFile copy = Ok (mkRecoveryFileInfo aid hub c (beqb (kd_Alg kdf) kdfLocal)) ∧
  (kd_Alg kdf = kdfArgon2id → ∀ p, ValidString p = true → passphraseKey (NFC p) (kd_Salt kdf) = key →
     OpenRecoveryFile copy p = Ok (mkOpenedSeed rs aid hub c)) ∧
  (kd_Alg kdf ≠ kdfArgon2id → ∀ p, OpenRecoveryFile copy p = Err ErrRecoveryUnprotected) ∧
  (kd_Alg kdf = kdfLocal → zero32 key = false → OpenRecoveryFileLocal copy key = Ok (mkOpenedSeed rs aid hub c)) ∧
  (kd_Alg kdf ≠ kdfLocal → ∀ k, ∃ d, OpenRecoveryFileLocal copy k = Err (format d)).
Proof using PL HL XL BC Hseal Hrs Hkdf Hok Hseq.
  intros Hk. destruct (seals_kept copy Hk) as [noted Hp]. destruct (seals_open noted) as [Ho Hr].
  destruct seals_blob as (Bk & Ba & Bh).
  unfold ParseRecoveryFile, OpenRecoveryFile, OpenRecoveryFileLocal. rewrite Hp. cbn [mbind result_bind rf_blob]. rewrite Bk, Ba, Bh. split_and!.
  - unfold result_of in Hr. by injection Hr as _ _ ->.
  - intros -> p Hv ->. rewrite beqb_refl, Hv, Ho. cbn [negb map_err mbind result_bind]. by rewrite Hr.
  - intros Hne p. by rewrite (proj2 (beqb_false _ _) Hne).
  - intros -> Hz. rewrite beqb_refl, Hz, Ho. cbn [negb map_err mbind result_bind]. by rewrite Hr.
  - intros Hne k. rewrite (proj2 (beqb_false _ _) Hne). cbn [negb]. eauto.
Qed.
End Sealed.

(** ** What sealing gives up *)

(** C9: A recovery seed sealed under a passphrase or under a local key is read back: from the file as it was written, with a byte-order
    mark, with CRLF line ends, and with any note added under it, the file states the identity, hub and commitment that were sealed, and
    opens to the seed for every passphrase that normalizes to the one it was sealed with (for the local key in the other form); a file
    under a passphrase does not open as a local one, nor a local one under any passphrase. *)
Theorem sealed_seed_is_recovered rs aid hub c :
  len rs = recoveryRSLen → bytes_ok hub → is_u64 (cm_Seq c) →
  (∀ pass salt nonce file, sealRecoveryPassphrase rs aid hub c pass salt nonce = Ok file →
     ∀ copy, kept file copy →
       ParseRecoveryFile copy = Ok (mkRecoveryFileInfo aid hub c false) ∧
       (∀ pass', ValidString pass' = true → NFC pass' = NFC pass → OpenRecoveryFile copy pass' = Ok (mkOpenedSeed rs aid hub c)) ∧
       (∀ k, ∃ d, OpenRecoveryFileLocal copy k = Err (format d))) ∧
  (∀ localKey nonce file, sealRecoveryLocal rs aid hub c localKey nonce = Ok file →
     ∀ copy, kept file copy →
       ParseRecoveryFile copy = Ok (mkRecoveryFileInfo aid hub c true) ∧
       OpenRecoveryFileLocal copy localKey = Ok (mkOpenedSeed rs aid hub c) ∧
       (∀ pass, OpenRecoveryFile copy pass = Err ErrRecoveryUnprotected)).
Proof using PL HL XL BC.
  intros Hrs Hok Hseq. split.
  - intros pass salt nonce file R. unfold sealRecoveryPassphrase in R. apply bind_Ok in R as ([] & _ & R).
    apply refuse_Ok in R as [Hs%negb_false_iff (b & raw & Hseal)%sealRecovery_seals]. intros copy Hk.
    eapply seals_read_back in Hk as (R1 & R2 & _ & _ & R5); [|exact Hseal|done..].
    split_and!; [exact R1| |by apply R5]. intros p Hv En. apply R2; [done..|]. cbn [kd_Salt]. by rewrite En.
  - intros k nonce file R. unfold sealRecoveryLocal in R. apply refuse_Ok in R as [Hz (b & raw & Hseal)%sealRecovery_seals].
    intros copy Hk. eapply seals_read_back in Hk as (R1 & _ & R3 & R4 & _); [|exact Hseal|done..].
    split_and!; [exact R1|by apply R4|by apply R3].
Qed.

(** ** What opening guarantees *)

(** An error of the format, or of a header that differs from the block. *)
Definition unreadable (e : error) : Prop := (∃ d, e = format d) ∨ e = ErrRecoveryWrongIdentity.

Ltac as_unreadable := first [left; eexists; reflexivity|right; reflexivity].

Ltac fails := repeat first [fails_step as_unreadable|match goal with p : _ * _ |- _ => destruct p end|solve [auto]].

Lemma unreadable_parse b : fails_as unreadable (parseRecovery b).
Proof.
  assert (∀ k v h, fails_as unreadable (set_header h k v)) as Hset.
  { intros k v h. unfold set_header. repeat case_match; first [exact I|as_unreadable]. }
  assert (∀ ls h, fails_as unreadable (header_lines ls h)) as Hlines.
  { induction ls as [|l ls IH]; intros h; cbn [header_lines]; [exact I|]. destruct (beqb l []); [exact I|].
    fails. }
  assert (∀ v, fails_as unreadable (parseCommitsLine v)) as Hcommits.
  { intros v. unfold parseCommitsLine. fails. }
  assert (∀ raw, fails_as unreadable (decodeRecoveryBlob raw)) as Hblob.
  { intros raw. unfold decodeRecoveryBlob. fails. }
  unfold parseRecovery. repeat (fails_step as_unreadable). unfold parse_lines.
  assert (∃ l ls, map trim_cr (split_byte 10 (trim_bom b)) = l :: ls) as (l & ls & ->).
  { destruct (trim_bom b) as [|x s]; cbn [split_byte]; [by do 2 eexists|]. repeat case_match; by do 2 eexists. }
  cbn [head of_option mbind result_bind]. fails.
  destruct (block_lines _) as [enc after]. fails.
Qed.

Lemma parsed_blob b f : parseRecovery b = Ok f → blob_valid (rf_blob f).
Proof.
  unfold parseRecovery, parse_lines. intros R. apply refuse_Ok in R as [_ R]. apply refuse_Ok in R as [_ R].
  apply bind_Ok in R as (l0 & _ & R). apply refuse_Ok in R as [_ R]. apply bind_Ok in R as ([h rest] & _ & R).
  apply bind_Ok in R as (? & _ & R). apply bind_Ok in R as (? & _ & R). apply refuse_Ok in R as [_ R].
  apply bind_Ok in R as (? & _ & R). destruct (block_lines _) as [enc after]. apply refuse_Ok in R as [_ R].
  apply bind_Ok in R as (raw & _ & R). apply bind_Ok in R as (blob & Hd & R). apply refuse_Ok in R as [_ [= <-]].
  by apply decodeRecoveryBlob_Ok in Hd as (_ & _ & ?).
Qed.

(** A seed that opens is of 32 bytes and derives the next key the file states. *)
Definition committed (o : opened) : Prop :=
  ValidAID (od_AID o) = true ∧ checkHub (od_Hub o) = Ok tt ∧ len (od_RS o) = recoveryRSLen ∧ zero32 (od_RS o) = false ∧
  ∃ k, RecoverySeed (od_RS o) (od_AID o) (cm_Seq (od_Commits o)) = Ok k ∧ key_ok k ∧
    nextDigest (ed25519_public k) = cm_Digest (od_Commits o).

Lemma open_seed_facts b f key :
  parseRecovery b = Ok f → len key = xKeySize →
  match open_seed f key with Ok rs => committed (result_of f rs) | Err e => unreadable e ∨ e = errAEAD end.
Proof using PL HL XL.
  intros Hp%parsed_blob Hk. unfold open_seed, NewX, aad. rewrite (xaead_key key Hk). cbn [negb].
  assert (∀ d, unreadable (format d)) as Hf by (intros d; left; eauto).
  destruct (Marshal _) as [a|]; cbn [map_err mbind result_bind]; [|auto]. cbn.
  destruct (xaead_Open _ _ _ _) as [pt|]; cbn [of_option mbind result_bind]; [|auto].
  destruct (len pt =? recoveryRSLen) eqn:El; cbn [negb]; [apply Z.eqb_eq in El|auto].
  destruct (NextDigest _ _ _) as [d|] eqn:Ed; cbn [map_err mbind result_bind]; [|auto].
  destruct (beqb d _) eqn:Eb; cbn [negb]; [apply beqb_true in Eb as ->|auto].
  destruct (NextDigest_Ok _ _ _ _ Ed) as (k & Hk1 & Hk2 & Hk3 & Hl & _). unfold committed, result_of, commit.
  cbn [od_AID od_Hub od_RS od_Commits cm_Seq cm_Digest]. rewrite take_app_length' by (unfold len in Hl; lia).
  destruct Hp. split_and!; eauto. unfold RecoverySeed in Hk1. apply bind_Ok in Hk1 as (s & Hs & _). by apply nextSeed_Ok in Hs as (_ & _ & ? & _).
Qed.

(** C10: What opens is what the file commits to: a seed is returned only if it is 32 bytes, not all zero, and derives, for the file's
    identity and sequence number, a next key whose digest is the one the file states; the identity, hub and commitment returned are those
    [ParseRecoveryFile] reads.  Every failure is one of the package's errors, and no input makes an opener panic. *)
Theorem opened_seed_is_committed b pass localKey :
  len localKey = xKeySize →
  match OpenRecoveryFile b pass with
  | Ok o => committed o ∧ ParseRecoveryFile b = Ok (mkRecoveryFileInfo (od_AID o) (od_Hub o) (od_Commits o) false)
  | Err e => unreadable e ∨ e = ErrRecoveryUnprotected ∨ e = ErrPassphraseNotUTF8 ∨ e = ErrRecoveryPassphrase
  end ∧
  match OpenRecoveryFileLocal b localKey with
  | Ok o => committed o ∧ ParseRecoveryFile b = Ok (mkRecoveryFileInfo (od_AID o) (od_Hub o) (od_Commits o) true)
  | Err e => unreadable e
  end.
Proof using PL HL XL AL.
  intros Hk. unfold OpenRecoveryFile, OpenRecoveryFileLocal, ParseRecoveryFile. pose proof (unreadable_parse b) as Hb.
  destruct (parseRecovery b) as [f|e] eqn:Hp; cbn [mbind result_bind]; [|simpl in Hb; auto].
  assert (∀ d, unreadable (format d)) as Hf by (intros d; left; eauto).
  assert (∀ e, unreadable e → errors_Is e errAEAD = false) as Hn by (by intros e [[d ->]| ->]).
  split.
  - destruct (beqb _ _) eqn:Ea; cbn [negb]; [apply beqb_true in Ea|auto]. destruct (ValidString pass); cbn [negb]; [|auto].
    pose proof (open_seed_facts b f (passphraseKey (NFC pass) (kd_Salt (rv_KDF (rf_blob f)))) Hp (argon_len _ _)) as Ho.
    destruct (open_seed _ _) as [rs|e]; cbn [map_err mbind result_bind].
    + split; [exact Ho|]. by rewrite Ea.
    + destruct Ho as [Ho| ->]; [|by auto]. by rewrite (Hn e Ho); auto.
  - destruct (beqb _ _); cbn [negb]; [|auto]. destruct (zero32 localKey); [auto|].
    pose proof (open_seed_facts b f localKey Hp Hk) as Ho.
    destruct (open_seed _ _) as [rs|e]; cbn [map_err mbind result_bind].
    + split; [exact Ho|]. done.
    + destruct Ho as [Ho| ->]; [|apply Hf]. by rewrite (Hn e Ho).
Qed.
End Recovery.
