(* ===== verification/RecoverySamples.v ===== *)
(** * RecoverySamples: a seed sealed, copied, annotated and opened *)

From S2P Require Import Prelude Cbor Checks Text Utf8 Aid Platform Kel KelReference Codec Agenturi AgenturiSamples Recovery RecoveryFacts RecoveryTheorems.
Import Light.

(** ** Concrete parameters *)

#[export] Instance ref_argon : Argon := λ p s, digest (digest p ++ s).
#[export] Instance ref_argon_laws : ArgonLaws ref_argon.
Proof. intros p s. unfold argon2id, ref_argon, len. by rewrite light_length. Qed.

(** A tag over everything, in front of the plaintext. *)
Definition seed_tag (key nonce pt aad : bytes) : bytes := take 16 (digest (key ++ nonce ++ aad ++ pt)).
#[export] Instance ref_xaead : XAead := {|
  xaead_NewX key := len key =? xKeySize;
  xaead_Seal key nonce pt aad := seed_tag key nonce pt aad ++ pt;
  xaead_Open key nonce ct aad :=
    if beqb (take 16 ct) (seed_tag key nonce (drop 16 ct) aad) then Some (drop 16 ct) else None;
|}.

Lemma seed_tag_length key nonce pt aad : length (seed_tag key nonce pt aad) = 16%nat.
Proof. unfold seed_tag. by rewrite length_take, light_length. Qed.

#[export] Instance ref_xaead_laws : XAeadLaws ref_xaead.
Proof.
  constructor; intros key; [|intros nonce pt aad..]; cbn [xaead_NewX xaead_Open xaead_Seal ref_xaead].
  - apply Z.eqb_eq.
  - intros _ _. rewrite (take_app_length' _ _ _ (eq_sym (seed_tag_length key nonce pt aad))).
    by rewrite (drop_app_length' _ _ _ (eq_sym (seed_tag_length key nonce pt aad))), beqb_refl.
  - rewrite len_app. unfold len. rewrite seed_tag_length. unfold xOverhead. lia.
Qed.

(** ** The encoding of a blob *)

Definition kdf_cbor (k : recoveryKDF) : cbor :=
  CMap (field 1 (CText (kd_Alg k)) ++ omitempty 2 (kd_T k =? 0) (CUint (kd_T k)) ++ omitempty 3 (kd_MKiB k =? 0) (CUint (kd_MKiB k)) ++
        omitempty 4 (kd_P k =? 0) (CUint (kd_P k)) ++ omitempty 5 (beqb (kd_Salt k) []) (CBytes (kd_Salt k))).
Definition kdf_of_cbor (o : option cbor) : recoveryKDF :=
  match o with
  | Some (CMap l) => mkRecoveryKDF (as_text (member 1 l)) (as_uint (member 2 l)) (as_uint (member 3 l)) (as_uint (member 4 l)) (as_bytes (member 5 l))
  | _ => mkRecoveryKDF [] 0 0 0 []
  end.

Definition commits_cbor (c : recoveryCommits) : cbor := CArray [CUint (rcm_Seq c); CBytes (rcm_Digest c)].
Definition commits_of_cbor (o : option cbor) : recoveryCommits :=
  match o with Some (CArray [s; d]) => mkRecoveryCommits (as_uint (Some s)) (as_bytes (Some d)) | _ => mkRecoveryCommits 0 [] end.

Definition blob_cbor (b : recoveryBlob) : cbor :=
  CMap (field 0 (CText (rv_Type b)) ++ field 1 (CText (rv_AID b)) ++ field 2 (kdf_cbor (rv_KDF b)) ++ field 3 (CText (rv_AEAD b)) ++
        field 4 (CBytes (rv_Nonce b)) ++ field 5 (CText (rv_Hub b)) ++ field 6 (commits_cbor (rv_Commits b)) ++
        omitempty 7 (beqb (rv_CT b) []) (CBytes (rv_CT b))).
Definition blob_of_cbor (c : cbor) : recoveryBlob :=
  match c with
  | CMap l =>
      mkRecoveryBlob (as_text (member 0 l)) (as_text (member 1 l)) (kdf_of_cbor (member 2 l)) (as_text (member 3 l)) (as_bytes (member 4 l))
        (as_text (member 5 l)) (commits_of_cbor (member 6 l)) (as_bytes (member 7 l))
  | _ => mkRecoveryBlob [] [] (mkRecoveryKDF [] 0 0 0 []) [] [] [] (mkRecoveryCommits 0 []) []
  end.

Lemma kdf_of_cbor_kdf k : kdf_of_cbor (Some (kdf_cbor k)) = k.
Proof.
  destruct k as [alg t m p salt]. unfold kdf_cbor, omitempty, beqb. cbn [kd_Alg kd_T kd_MKiB kd_P kd_Salt].
  destruct (Z.eqb_spec t 0), (Z.eqb_spec m 0), (Z.eqb_spec p 0); case_bool_decide; subst; reflexivity.
Qed.

Lemma blob_of_cbor_blob b : blob_of_cbor (blob_cbor b) = b.
Proof.
  destruct b as [ty aid k ae no hub [s d] ct]. unfold blob_cbor, omitempty, beqb.
  cbn -[kdf_of_cbor kdf_cbor]. rewrite kdf_of_cbor_kdf. case_bool_decide; cbn; by subst.
Qed.

(** The encoder refuses bytes that are not bytes. *)
Definition writes (b : recoveryBlob) (x : bytes) : Prop := bytes_ok x ∧ len x <= 133 + blob_bytes b.
#[export] Instance writes_dec b x : Decision (writes b x).
Proof. unfold writes, bytes_ok, byte_ok. apply _. Defined.
#[export] Instance blob_coredet : Coredet recoveryBlob := λ b,
  x ← cbor_marshal (blob_cbor b); if decide (writes b x) then Some x else None.
#[export] Instance blob_strict : Strict recoveryBlob := codec_unmarshal blob_of_cbor.

#[export] Instance blob_codec : BlobCodec blob_coredet blob_strict.
Proof.
  assert (∀ b x, marshal b = Some x → cbor_marshal (blob_cbor b) = Some x ∧ writes b x) as Hm.
  { intros b x. unfold marshal, blob_coredet. destruct (cbor_marshal (blob_cbor b)) as [y|]; [|done].
    cbn [mbind option_bind]. destruct (decide (writes b y)); [|done]. by intros [= <-]. }
  constructor; intros b x [Hc [Hx Hl]]%Hm.
  - exact (codec_inv blob_cbor blob_of_cbor blob_of_cbor_blob b x Hc).
  - split; [done|]. intros ->. by apply (codec_item blob_cbor b).
  - done.
Qed.

(** ** A file *)

Definition recovered_aid : bytes := Eval vm_compute in str "b" ++ EncodeToString (aidPrefix ++ repeat 5 32).
Definition rec_seed : bytes := repeat 11 32.
Definition rec_digest : bytes := Eval vm_compute in match NextDigest rec_seed recovered_aid 2 with Ok d => d | Err _ => [] end.
Definition rec_commit : Commit := mkCommit 2 rec_digest.
Definition rec_hub : bytes := str "https://hub.example".
(** "a long passphrase", with a letter that NFC replaces. *)
Definition typed : bytes := str "a long pass " ++ [226; 132; 170].
Definition retyped : bytes := str "a long pass K".
Lemma typed_differently : typed ≠ retyped ∧ NFC typed = NFC retyped.
Proof. split; [discriminate|vm_compute; reflexivity]. Qed.

Definition got (r : result bytes) : bytes := match r with Ok b => b | Err _ => [] end.
Definition rec_salt : bytes := repeat 3 16.
Definition rec_nonce : bytes := repeat 4 24.
Definition rec_local_key : bytes := repeat 9 32.
Definition rec_file : bytes := Eval vm_compute in got (sealRecoveryPassphrase rec_seed recovered_aid rec_hub rec_commit typed rec_salt rec_nonce).
Definition rec_local : bytes := Eval vm_compute in got (sealRecoveryLocal rec_seed recovered_aid rec_hub rec_commit rec_local_key rec_nonce).
Definition rec_note : list bytes := [str "Keep this file offline."; str "  It restores the identity."].
Definition rec_noted : bytes := Eval vm_compute in got (WithRecoveryNote rec_file rec_note).
(** The annotated file, through a system that marks and ends lines its own way. *)
Definition rec_copy : bytes := Eval vm_compute in bom ++ crlf rec_noted.
Definition rec_opened : opened := mkOpenedSeed rec_seed recovered_aid rec_hub rec_commit.

Lemma rec_sealed :
  sealRecoveryPassphrase rec_seed recovered_aid rec_hub rec_commit typed rec_salt rec_nonce = Ok rec_file ∧
  sealRecoveryLocal rec_seed recovered_aid rec_hub rec_commit rec_local_key rec_nonce = Ok rec_local ∧
  WithRecoveryNote rec_file rec_note = Ok rec_noted.
Proof. split_and!; vm_compute; reflexivity. Qed.

Lemma rec_bytes : bytes_ok rec_hub ∧ Forall bytes_ok rec_note.
Proof.
  split; [apply (bool_decide_unpack (bytes_ok rec_hub)); vm_compute; exact I|].
  apply (bool_decide_unpack (Forall bytes_ok rec_note)). vm_compute. exact I.
Qed.

Lemma rec_kept : kept rec_file rec_copy.
Proof.
  apply (kept_noted rec_file rec_note rec_noted); [apply rec_bytes|apply rec_sealed| |vm_compute; discriminate].
  unfold copies. right. right. right. left.
Qed.

Lemma crlf_copy f : crlf f ∈ copies f.
Proof. unfold copies. right. right. left. Qed.

Lemma sealed_seed_is_recovered_witness :
  sealRecoveryPassphrase rec_seed recovered_aid rec_hub rec_commit typed rec_salt rec_nonce = Ok rec_file ∧
  OpenRecoveryFile rec_copy retyped = Ok rec_opened ∧
  sealRecoveryLocal rec_seed recovered_aid rec_hub rec_commit rec_local_key rec_nonce = Ok rec_local ∧
  OpenRecoveryFileLocal (crlf rec_local) rec_local_key = Ok rec_opened.
Proof.
  destruct (sealed_seed_is_recovered rec_seed recovered_aid rec_hub rec_commit eq_refl (proj1 rec_bytes) (conj (Zle_bool_imp_le 0 2 eq_refl) eq_refl)) as [Hp Hl].
  destruct (Hp typed rec_salt rec_nonce rec_file (proj1 rec_sealed) rec_copy rec_kept) as (_ & Ho & _).
  destruct (Hl rec_local_key rec_nonce rec_local (proj1 (proj2 rec_sealed)) (crlf rec_local)
    (kept_copy _ _ (crlf_copy rec_local))) as (_ & Hol & _).
  exact (conj (proj1 rec_sealed) (conj (Ho retyped eq_refl (eq_sym (proj2 typed_differently)))
    (conj (proj1 (proj2 rec_sealed)) Hol))).
Defined.

(** A wrong passphrase, a header line that names another hub, a seed that commits to something else. *)
Definition retitled : bytes := Eval vm_compute in take 93 rec_file ++ [120] ++ drop 94 rec_file.
Example refused_openings :
  OpenRecoveryFile rec_copy (str "a long pass k") = Err ErrRecoveryPassphrase ∧
  OpenRecoveryFile retitled retyped = Err ErrRecoveryWrongIdentity ∧
  OpenRecoveryFile rec_local retyped = Err ErrRecoveryUnprotected ∧
  OpenRecoveryFile rec_file [255] = Err ErrPassphraseNotUTF8.
Proof. split_and!; vm_compute; reflexivity. Qed.

Lemma opened_seed_is_committed_witness :
  OpenRecoveryFile rec_copy retyped = Ok rec_opened ∧ committed rec_opened ∧
  unreadable (format "it is protected by a passphrase, not by the local recovery key").
Proof.
  destruct (opened_seed_is_committed rec_copy retyped rec_local_key eq_refl) as [Ho Hl].
  assert (OpenRecoveryFile rec_copy retyped = Ok rec_opened) as E by (vm_compute; reflexivity).
  assert (OpenRecoveryFileLocal rec_copy rec_local_key = Err (format "it is protected by a passphrase, not by the local recovery key")) as El
    by (vm_compute; reflexivity).
  rewrite E in Ho. rewrite El in Hl. exact (conj E (conj (proj1 Ho) Hl)).
Defined.
