(* ===== verification/Supply.v ===== *)
(** * Supply: supply epoch records (ael/supply.go)

    Once an epoch a hub states, on its own chain, how much credit it owes in total and the root of the
    tree of liabilities that sums to it.  [SupplyEpochRecord] builds the record, [ParseSupplyEpoch] reads
    one and refuses whatever is not exactly a supply epoch, [UnmarshalEventRecord] reads a record as it
    travels. *)

From stdpp Require Import sorting.
From S2P Require Import Prelude Cbor Text Platform Kel Controller Ael.

(** ** Data *)

Definition EvSupplyEpoch : bytes := str "anet.supply.epoch".
Definition SupplyEpochVersion : Z := 2.
Definition SupplyMinDepth : Z := 4.
Definition SupplyMaxDepth : Z := 32.
Definition MaxOutstanding : Z := Z.shiftl 1 63 - 1.

Definition ErrSupplyEpoch : error := Errf "ael: not a well-formed supply epoch record".
Definition supply_err (detail : string) : error := Wrap detail ErrSupplyEpoch.

Record SupplyEpoch := mkSupplyEpoch {
  sp_FromDay : Z;
  sp_ToDay : Z;
  sp_Root : bytes;
  sp_Outstanding : Z;
  sp_Depth : Z;
}.

Record supplyPayload := mkSupplyPayload {
  pl_V : Z;
  pl_FromDay : Z;
  pl_ToDay : Z;
  pl_Root : bytes;
  pl_Outstanding : Z;
  pl_Depth : Z;
}.

(** The data item a payload encodes as: its tags name the members, and CoreDet orders them by length
    and then by bytes. *)
Definition payload_cbor (p : supplyPayload) : cbor :=
  CObj [(str "v", CUint (pl_V p)); (str "root", CText (pl_Root p)); (str "depth", CUint (pl_Depth p));
        (str "to_day", CUint (pl_ToDay p)); (str "from_day", CUint (pl_FromDay p)); (str "outstanding", CUint (pl_Outstanding p))].

Definition supplyMembers : list bytes := [str "depth"; str "from_day"; str "outstanding"; str "root"; str "to_day"; str "v"].

(** The members of a decoded [map[string]any]: [coredet.Unmarshal] into one, and its keys in some order. *)
Class TextMembers := text_members : bytes → option (list bytes).

(** ** Operations *)

Definition check (p : SupplyEpoch) : result unit :=
  refuse sp_ToDay p <? sp_FromDay p with supply_err "from_day is after to_day";
  refuse MaxOutstanding <? sp_Outstanding p with supply_err "outstanding is over 2^63 - 1";
  refuse (sp_Depth p <? SupplyMinDepth) || (SupplyMaxDepth <? sp_Depth p) with supply_err "depth is out of range";
  Ok tt.

Definition payload_of (p : SupplyEpoch) : supplyPayload :=
  mkSupplyPayload SupplyEpochVersion (sp_FromDay p) (sp_ToDay p) (hex_encode (sp_Root p)) (sp_Outstanding p) (u64 (sp_Depth p)).

Definition SupplyEpochRecord (hubAID : bytes) (p : SupplyEpoch) : result EventRecord :=
  refuse beqb hubAID [] with supply_err "no hub AID";
  _ ← check p;
  Ok (mkEventRecord hubAID 0 [] EvSupplyEpoch VersionMajor2 (payload_cbor (payload_of p)) 0 [] 0 [] [] [] 0 []).

(** The hub's chain and clock: what the caller sets before it signs. *)
Definition place (r : EventRecord) (seq : Z) (prev : bytes) (ts : Z) : EventRecord :=
  mkEventRecord (r_ChainDID r) seq prev (r_EventType r) (r_VersionMajor r) (r_Payload r) ts (r_SignerAID r) (r_KeyStateSeq r)
    (r_CriticalExtensions r) (r_ID r) (r_Sig r) (r_VersionMinor r) (r_CorrID r).

Section Supply.
Context `{CC : Coredet cbor} `{DP : Strict supplyPayload} `{TM : TextMembers} `{CR : Coredet EventRecord} `{DR : Strict EventRecord}.

#[export] Instance payload_coredet : Coredet supplyPayload := λ p, marshal (payload_cbor p).

Definition ParseSupplyEpoch (rec : option EventRecord) : result SupplyEpoch :=
  rec ← of_option rec (supply_err "no record");
  refuse negb (beqb (r_EventType rec) EvSupplyEpoch) with supply_err "event type";
  refuse negb (r_VersionMajor rec =? VersionMajor2) || negb (r_VersionMinor rec =? 0) with supply_err "version";
  refuse beqb (r_ChainDID rec) [] with supply_err "no chain";
  refuse (0 <? len (r_CriticalExtensions rec)) || negb (beqb (r_CorrID rec) [])
    with supply_err "a supply epoch carries no extensions and no correlation id";
  raw ← map_err (λ _, supply_err "payload") (Marshal (r_Payload rec));
  names ← of_option (text_members raw) (supply_err "the payload is not a map of text keys");
  let names := merge_sort bytes_le names in
  refuse negb (beqb (join [44] names) (join [44] supplyMembers)) with supply_err "the payload has other members";
  p ← map_err (λ _, supply_err "payload") (UnmarshalStrict raw : result supplyPayload);
  back ← map_err (λ _, supply_err "a payload member has a value of another type") (Marshal p);
  refuse negb (beqb back raw) with supply_err "a payload member has a value of another type";
  refuse negb (pl_V p =? SupplyEpochVersion) with supply_err "payload v";
  refuse negb (len (pl_Root p) =? 64) || negb (beqb (lower_ascii (pl_Root p)) (pl_Root p))
    with supply_err "root is not 64 lower-case hex digits";
  root ← of_option (hex_decode (pl_Root p)) (supply_err "root is not 64 lower-case hex digits");
  refuse SupplyMaxDepth <? pl_Depth p with supply_err "depth is out of range";
  let out := mkSupplyEpoch (pl_FromDay p) (pl_ToDay p) root (pl_Outstanding p) (pl_Depth p) in
  _ ← check out;
  Ok out.

Definition UnmarshalEventRecord (b : bytes) : result EventRecord :=
  r ← map_err (Wrap "ael: record does not decode") (UnmarshalStrict b);
  let bad := Errf "ael: record is not in its one canonical encoding" in
  back ← map_err (λ _, bad) (Marshal r);
  refuse negb (beqb back b) with bad;
  Ok r.
End Supply.
