(* ===== verification/SupplyTheorems.v ===== *)
(** * SupplyTheorems: exactly which records are supply epochs, and what a published one lets an account check *)

From stdpp Require Import sorting.
From S2P Require Import Prelude Cbor Checks Text Platform Kel Controller ControllerTheorems Liabtree LiabtreeFacts LiabtreeTheorems Ael Supply.

(** Decoding a map of text keys gives its keys, in no particular order. *)
Class MembersLaws `(CC : Coredet cbor, TM : TextMembers) : Prop :=
  members_of l x : marshal (CObj l) = Some x → ∃ ks, text_members x = Some ks ∧ ks ≡ₚ map fst l.

(** A record reads back. *)
Record epoch_wf (p : SupplyEpoch) : Prop := {
  ew_root : len (sp_Root p) = 32;
  ew_bytes : bytes_ok (sp_Root p);
  ew_days : sp_FromDay p <= sp_ToDay p;
  ew_outstanding : sp_Outstanding p <= MaxOutstanding;
  ew_depth : SupplyMinDepth <= sp_Depth p <= SupplyMaxDepth;
}.

(** The record states [p] and nothing else: only its place in the chain, its time and its signature are free. *)
Record states (r : EventRecord) (p : SupplyEpoch) : Prop := {
  st_type : r_EventType r = EvSupplyEpoch;
  st_version : r_VersionMajor r = VersionMajor2 ∧ r_VersionMinor r = 0;
  st_chain : r_ChainDID r ≠ [];
  st_plain : r_CriticalExtensions r = [] ∧ r_CorrID r = [];
  st_payload : r_Payload r = payload_cbor (payload_of p);
}.

Section Supply.
Context `{CC : Coredet cbor} `{DP : Strict supplyPayload} `{TM : TextMembers} `{CR : Coredet EventRecord} `{DR : Strict EventRecord}.

Lemma check_Ok p :
  check p = Ok tt ↔ sp_FromDay p <= sp_ToDay p ∧ sp_Outstanding p <= MaxOutstanding ∧ SupplyMinDepth <= sp_Depth p <= SupplyMaxDepth.
Proof.
  unfold check. rewrite !refuse_Ok, orb_false_iff, !Z.ltb_ge. split; [intros (? & ? & [? ?] & _); lia|].
  intros (? & ? & ? & ?). done.
Qed.

Lemma supply_names ks : ks ≡ₚ supplyMembers → merge_sort bytes_le ks = supplyMembers.
Proof.
  intros Hp. apply (Sorted_unique bytes_le); [apply Sorted_merge_sort, _| |by rewrite merge_sort_Permutation].
  repeat constructor.
Qed.

Context {CI : CoredetInj cbor} {SI : @StrictInv supplyPayload payload_coredet DP} {ML : MembersLaws CC TM}.

Lemma parse_states r p :
  ParseSupplyEpoch (Some r) = Ok p → states r p ∧ epoch_wf p ∧ is_Some (marshal (r_Payload r)).
Proof using CI.
  unfold ParseSupplyEpoch. cbn [of_option mbind result_bind]. intros R.
  apply refuse_Ok in R as [R1%negb_beqb_false R]. apply refuse_Ok in R as [[R2%negb_Zeqb_false R3%negb_Zeqb_false]%orb_false_iff R].
  apply refuse_Ok in R as [R4%beqb_false R]. apply refuse_Ok in R as [[R5%Z.ltb_ge R6%negb_beqb_false]%orb_false_iff R].
  apply bind_Ok in R as (raw & Hm%map_err_Ok & R). unfold Marshal in Hm. apply of_option_Ok in Hm.
  apply bind_Ok in R as (names & _ & R). apply refuse_Ok in R as [_ R].
  apply bind_Ok in R as (pl & _ & R). apply bind_Ok in R as (back & Hb%map_err_Ok & R). unfold Marshal in Hb. apply of_option_Ok in Hb.
  apply refuse_Ok in R as [->%negb_beqb_false R]. apply refuse_Ok in R as [Rv%negb_Zeqb_false R].
  apply refuse_Ok in R as [[Rl%negb_Zeqb_false Rh%negb_beqb_false]%orb_false_iff R].
  apply bind_Ok in R as (root & Hr%of_option_Ok & R). apply refuse_Ok in R as [Rd R].
  apply bind_Ok in R as ([] & (C1 & C2 & C3)%check_Ok & [= <-]). cbn [sp_FromDay sp_ToDay sp_Outstanding sp_Depth] in *.
  destruct (hex_decode_lower _ _ Hr Rh) as [He Hok]. destruct (hex_round_trip root Hok) as (_ & Hlen & _).
  assert (r_Payload r = payload_cbor pl) as Hp by (eapply marshal_inj; [exact Hm|exact Hb]).
  split_and!; [|constructor; cbn; try done; rewrite He in Hlen; lia|by rewrite Hm].
  constructor; [done..| |].
  - split; [|done]. destruct (r_CriticalExtensions r); [done|unfold len in R5; simpl in R5; lia].
  - rewrite Hp. f_equal. destruct pl as [v fd td rt o d]. unfold payload_of.
    cbn [pl_V pl_FromDay pl_ToDay pl_Root pl_Outstanding pl_Depth sp_FromDay sp_ToDay sp_Root sp_Outstanding sp_Depth] in *.
    rewrite He, Rv. f_equal. symmetry. unfold u64, SupplyMinDepth, SupplyMaxDepth, two64 in *. apply Z.mod_small. lia.
Qed.

Lemma states_parse r p :
  states r p → epoch_wf p → is_Some (marshal (r_Payload r)) → ParseSupplyEpoch (Some r) = Ok p.
Proof using SI ML.
  intros [S1 [S2 S3] S4 [S5 S6] S7] [W1 W2 W3 W4 W5] [raw Hraw]. rewrite S7 in Hraw. unfold ParseSupplyEpoch. cbn [of_option mbind result_bind].
  rewrite S1, S2, S3, S5, S6, S7, beqb_refl. rewrite (proj2 (beqb_false _ _) S4). cbn [negb orb Z.eqb].
  destruct (members_of _ _ Hraw) as (ks & Hks & Hp).
  change (negb (VersionMajor2 =? VersionMajor2)) with false. change (0 <? len (@nil bytes)) with false. rewrite beqb_refl. cbn [negb orb].
  assert (Marshal (payload_cbor (payload_of p)) = Ok raw) as -> by (unfold Marshal; by rewrite Hraw).
  cbn [map_err mbind result_bind]. rewrite Hks. cbn [of_option mbind result_bind].
  rewrite (supply_names ks) by (rewrite Hp; apply (bool_decide_unpack _); vm_compute; exact I).
  rewrite beqb_refl. cbn [negb].
  unfold UnmarshalStrict. rewrite (unmarshal_marshal (payload_of p) raw) by exact Hraw. cbn [of_option map_err mbind result_bind].
  unfold Marshal. replace (marshal (payload_of p)) with (Some raw) by (symmetry; exact Hraw). cbn [of_option map_err mbind result_bind].
  rewrite beqb_refl. destruct (hex_round_trip _ W2) as (X1 & X2 & X3 & _). cbn [payload_of pl_V pl_Root pl_FromDay pl_ToDay pl_Outstanding pl_Depth].
  rewrite X1, X2, X3, W1, beqb_refl. cbn [of_option mbind result_bind negb orb]. unfold SupplyMinDepth, SupplyMaxDepth in *.
  assert (u64 (sp_Depth p) = sp_Depth p) as -> by (unfold u64, two64; apply Z.mod_small; lia).
  rewrite (proj2 (Z.ltb_ge _ _)) by lia. rewrite (proj2 (check_Ok _)) by done. by destruct p.
Qed.

Lemma parse_fails rec : fails_as (λ e, ∃ d, e = supply_err d) (ParseSupplyEpoch rec).
Proof using.
  clear. unfold ParseSupplyEpoch, check. repeat fails_step ltac:(by eexists).
Qed.

(** C20: Which records are supply epochs: [ParseSupplyEpoch] reads [p] out of a record exactly when the record is of the event type and
    version of a supply epoch, on a named chain, without extensions or correlation id, its payload is the six members that state [p]
    and nothing more, and [p] is in range; every refusal is [ErrSupplyEpoch] with a detail. *)
Theorem parse_supply_epoch_accepts rec :
  (∀ p, ParseSupplyEpoch rec = Ok p ↔ ∃ r, rec = Some r ∧ states r p ∧ epoch_wf p ∧ is_Some (marshal (r_Payload r))) ∧
  (∀ e, ParseSupplyEpoch rec = Err e → ∃ d, e = supply_err d).
Proof using CI SI ML.
  split.
  - intros p. split; [|intros (r & -> & ? & ? & ?); by apply states_parse]. intros Hp.
    destruct rec as [r|]; [|done]. exists r. split; [done|by apply parse_states].
  - intros e He. pose proof (parse_fails rec) as Hf. by rewrite He in Hf.
Qed.
End Supply.

Section Published.
Context `{P : Platform} `{CE : Coredet KeyEvent} `{CS : Coredet SignedEvent} `{CL : Coredet leafContent}.
Context `{CC : Coredet cbor} `{DP : Strict supplyPayload} `{TM : TextMembers} `{CR : Coredet EventRecord} `{DR : Strict EventRecord}.

(** A record that a live signer signed verifies against its log, and its content is as it was. *)
Lemma record_Sign_verifies `{!PlatformLaws P} c s r r' :
  speaks c s → record_Sign r s = Ok r' →
  record_Verify r' (KEL c) = Ok tt ∧ ∃ seq id sig, r' = set_id (set_signer r (c_aid c) seq) id sig.
Proof.
  intros Hs R. unfold record_Sign in R. apply bind_Ok in R as (seq & _ & R). apply bind_Ok in R as (pre & Hp & R).
  apply bind_Ok in R as (id & Hid & R). destruct (speaks_signs c s pre Hs) as (sig & signed & Hsig & Ha & _ & Hv).
  rewrite Hsig, Ha in *. apply refuse_Ok in R as [->%negb_Zeqb_false [= <-]]. split; [|eauto].
  unfold record_Verify. change (Preimage (set_id ?x _ _)) with (Preimage x). rewrite Hp. cbn [map_err mbind result_bind].
  rewrite Hid. cbn [map_err mbind result_bind]. change (r_ID (set_id _ id sig)) with id. rewrite beqb_refl. cbn [negb].
  change (r_SignerAID _) with (c_aid c). change (r_KeyStateSeq _) with seq. change (r_Sig _) with sig. by rewrite Hv.
Qed.

Lemma UnmarshalEventRecord_Marshal `{!StrictInv EventRecord} r b : Marshal r = Ok b → UnmarshalEventRecord b = Ok r.
Proof.
  unfold UnmarshalEventRecord, UnmarshalStrict. intros Hm. pose proof Hm as Hb. unfold Marshal in Hb. apply of_option_Ok in Hb.
  rewrite (unmarshal_marshal r b Hb). cbn [of_option map_err mbind result_bind]. rewrite Hm. cbn [map_err mbind result_bind].
  by rewrite beqb_refl.
Qed.

(** C15: A supply epoch lets every account check the total.  For the tree built over the balances of an epoch, the record of its root, sum
    and depth is well formed; signed by the hub and sent, it decodes to itself, verifies against the hub's log, and parses to exactly
    that epoch, whose total is the sum of the balances; and against the root, total and depth it states the proof of every account
    verifies, with the account's balance. *)
Theorem published_supply_is_provable `{!PlatformLaws P} (SI : @StrictInv supplyPayload payload_coredet DP) (RI : StrictInv EventRecord)
  (ML : MembersLaws CC TM) hub s leaves fromDay toDay rand t :
  speaks hub s → c_aid hub ≠ [] → Forall (λ l, is_u64 (l_Balance l)) leaves → Build leaves toDay rand = Ok t → fromDay <= toDay →
  ∃ root, Root t = Ok root ∧
    let p := mkSupplyEpoch fromDay toDay root (sum (map l_Balance leaves)) (Depth t) in
    Outstanding t = Ok (sp_Outstanding p) ∧
    ∃ r, SupplyEpochRecord (c_aid hub) p = Ok r ∧
      ∀ seq prev ts r' b, record_Sign (place r seq prev ts) s = Ok r' → Marshal r' = Ok b → is_Some (marshal (r_Payload r)) →
        UnmarshalEventRecord b = Ok r' ∧ record_Verify r' (KEL hub) = Ok tt ∧ ParseSupplyEpoch (Some r') = Ok p ∧
        ∀ l, l ∈ leaves → ∃ pf, ProofOf t (l_AID l) = Ok (Some pf) ∧ pf_AID pf = l_AID l ∧ pf_Balance pf = l_Balance l ∧
          Liabtree.Verify pf (sp_Root p) (sp_Outstanding p) (sp_Depth p) = Ok tt.
Proof.
  intros Hs Ha Hb Ht Hd. destruct (build_proves_every_account leaves toDay rand t Hb Ht) as (T1 & T2 & T3 & _ & root & T4 & [m ->] & T5).
  eexists. split; [exact T4|]. cbv zeta. cbn [sp_Outstanding sp_Root sp_Depth]. split; [exact T3|].
  set (p := mkSupplyEpoch _ _ _ _ _).
  assert (epoch_wf p) as Hw.
  { constructor; cbn; [unfold len; by rewrite sha256_length|apply sha256_bytes|done|exact T2|exact T1]. }
  eexists. split.
  { unfold SupplyEpochRecord. rewrite (proj2 (beqb_false _ _) Ha), (proj2 (check_Ok p)) by by destruct Hw. reflexivity. }
  intros seq prev ts r' b Hsig Hm Hpl. destruct (record_Sign_verifies _ _ _ _ Hs Hsig) as [Hv (q & id & sig & ->)].
  split_and!; [by apply UnmarshalEventRecord_Marshal|exact Hv| |exact T5].
  apply states_parse; [by constructor|exact Hw|exact Hpl].
Qed.
End Published.
