(* ===== verification/SupplySamples.v ===== *)
(** * SupplySamples: an epoch of a hub, published and checked *)

From S2P Require Import Prelude Cbor Checks Text Platform Kel KelReference Codec Controller ControllerTheorems Liabtree LiabtreeFacts LiabtreeTheorems Ael AelTheorems Supply SupplyTheorems.
Import Light.

(** ** Concrete parameters *)

#[export] Instance item_inj : CoredetInj cbor.
Proof. intros a b x. apply cbor_marshal_inj. Qed.

#[export] Instance ref_members : TextMembers := λ b, match decode b with Some (CObj l) => Some (map fst l) | _ => None end.
#[export] Instance ref_members_laws : MembersLaws item_coredet ref_members.
Proof.
  intros l x Hm. apply cbor_marshal_decode in Hm. exists (map fst l). split; [|done].
  unfold text_members, ref_members. by rewrite Hm.
Qed.

Definition payload_of_cbor (c : cbor) : supplyPayload :=
  match c with
  | CObj [(_, v); (_, root); (_, depth); (_, to); (_, from); (_, out)] =>
      mkSupplyPayload (as_uint (Some v)) (as_uint (Some from)) (as_uint (Some to)) (as_text (Some root)) (as_uint (Some out)) (as_uint (Some depth))
  | _ => mkSupplyPayload 0 0 0 [] 0 0
  end.
Lemma payload_of_cbor_payload p : payload_of_cbor (payload_cbor p) = p.
Proof. by destruct p. Qed.
#[export] Instance payload_strict : Strict supplyPayload := codec_unmarshal payload_of_cbor.
#[export] Instance payload_strict_inv : @StrictInv supplyPayload payload_coredet payload_strict.
Proof. exact (codec_inv payload_cbor payload_of_cbor payload_of_cbor_payload). Qed.

Definition record_cbor (r : EventRecord) : cbor :=
  CMap (field 1 (CText (r_ChainDID r)) ++ field 2 (CUint (r_Seq r)) ++ field 3 (CText (r_PrevID r)) ++ field 4 (CText (r_EventType r)) ++
        field 5 (CUint (r_VersionMajor r)) ++ field 6 (r_Payload r) ++ field 7 (int_cbor (r_Timestamp r)) ++ field 8 (CText (r_SignerAID r)) ++
        field 9 (CUint (r_KeyStateSeq r)) ++
        omitempty 10 (bool_decide (r_CriticalExtensions r = [])) (CArray (map CText (r_CriticalExtensions r))) ++
        omitempty 11 (beqb (r_ID r) []) (CText (r_ID r)) ++ omitempty 12 (beqb (r_Sig r) []) (CBytes (r_Sig r)) ++
        omitempty 13 (r_VersionMinor r =? 0) (CUint (r_VersionMinor r)) ++ omitempty 14 (beqb (r_CorrID r) []) (CText (r_CorrID r))).
Definition record_of_cbor (c : cbor) : EventRecord :=
  match c with
  | CMap l =>
      mkEventRecord (as_text (member 1 l)) (as_uint (member 2 l)) (as_text (member 3 l)) (as_text (member 4 l)) (as_uint (member 5 l))
        (default CNull (member 6 l)) (as_int (member 7 l)) (as_text (member 8 l)) (as_uint (member 9 l)) (as_list as_text (member 10 l))
        (as_text (member 11 l)) (as_bytes (member 12 l)) (as_uint (member 13 l)) (as_text (member 14 l))
  | _ => mkEventRecord [] 0 [] [] 0 CNull 0 [] 0 [] [] [] 0 []
  end.
Lemma record_of_cbor_record r : record_of_cbor (record_cbor r) = r.
Proof.
  destruct r as [did seq prev ty vm pl ts aid ks ext id sig vmin corr]. unfold record_cbor, omitempty, beqb.
  assert (as_list as_text (Some (CArray (map CText ext))) = ext) as He by (simpl; rewrite map_map; apply map_id).
  cbn [r_ChainDID r_Seq r_PrevID r_EventType r_VersionMajor r_Payload r_Timestamp r_SignerAID r_KeyStateSeq r_CriticalExtensions r_ID r_Sig r_VersionMinor r_CorrID].
  destruct (Z.eqb_spec vmin 0); repeat case_bool_decide; subst; unfold record_of_cbor; cbn -[as_int int_cbor as_list] in *;
    rewrite ?He, as_int_int; reflexivity.
Qed.
#[export] Instance record_coredet : Coredet EventRecord := codec_marshal record_cbor.
#[export] Instance record_strict : Strict EventRecord := codec_unmarshal record_of_cbor.
#[export] Instance record_strict_inv : StrictInv EventRecord.
Proof. exact (codec_inv record_cbor record_of_cbor record_of_cbor_record). Qed.

(** ** An epoch *)

Definition epoch_root : bytes := Eval vm_compute in sample_root.
Definition epoch : SupplyEpoch := mkSupplyEpoch 19994 20000 epoch_root 123 4.
Definition no_record : EventRecord := mkEventRecord [] 0 [] [] 0 CNull 0 [] 0 [] [] [] 0 [].
Definition epoch_record : EventRecord := Eval vm_compute in
  match r ← SupplyEpochRecord (c_aid hub0) epoch; record_Sign (place r 7 GenesisPrev 1760000160000) hub_snapshot with Ok r => r | Err _ => no_record end.
Definition epoch_bytes : bytes := Eval vm_compute in match Marshal epoch_record with Ok b => b | Err _ => [] end.

Lemma epoch_published :
  (∃ r, SupplyEpochRecord (c_aid hub0) epoch = Ok r ∧ record_Sign (place r 7 GenesisPrev 1760000160000) hub_snapshot = Ok epoch_record ∧
     is_Some (marshal (r_Payload r))) ∧
  Marshal epoch_record = Ok epoch_bytes ∧ c_aid hub0 ≠ [] ∧ Root sample_tree = Ok epoch_root.
Proof. split_and!; [eexists; split_and!; [vm_compute; reflexivity..|vm_compute; eexists; reflexivity]|vm_compute; first [reflexivity|discriminate]..]. Qed.

Lemma published_supply_is_provable_witness :
  UnmarshalEventRecord epoch_bytes = Ok epoch_record ∧ record_Verify epoch_record (KEL hub0) = Ok tt ∧
  ParseSupplyEpoch (Some epoch_record) = Ok epoch ∧
  ∃ pf, ProofOf sample_tree (str "bob") = Ok (Some pf) ∧ pf_Balance pf = 20 ∧ Liabtree.Verify pf epoch_root 123 4 = Ok tt.
Proof.
  destruct epoch_published as ((r & Hr & Hs & Hp) & Hm & Ha & Hroot).
  assert (Forall (λ l, is_u64 (l_Balance l)) sample_leaves) as Hb by (repeat constructor; vm_compute; congruence).
  destruct (published_supply_is_provable payload_strict_inv record_strict_inv ref_members_laws hub0 hub_snapshot sample_leaves 19994 20000
    sample_rand sample_tree hub_speaks Ha Hb sample_tree_ok (Zle_bool_imp_le 19994 20000 eq_refl)) as (root & Hroot' & _ & r' & Hr' & H).
  rewrite Hroot in Hroot'. injection Hroot' as <-.
  assert (mkSupplyEpoch 19994 20000 epoch_root (sum (map l_Balance sample_leaves)) (Depth sample_tree) = epoch) as E by (vm_compute; reflexivity).
  rewrite E in Hr', H. rewrite Hr in Hr'. injection Hr' as <-.
  destruct (H 7 GenesisPrev 1760000160000 epoch_record epoch_bytes Hs Hm Hp) as (H1 & H2 & H3 & H4).
  destruct (H4 (mkLeaf (str "bob") 20) (list_elem_of_further _ _ _ (list_elem_of_here _ _))) as (pf & P1 & _ & P3 & P4).
  exact (conj H1 (conj H2 (conj H3 (ex_intro _ pf (conj P1 (conj P3 P4)))))).
Defined.

(** The record stands for the epoch; with one more member, an account, it is no supply epoch. *)
Definition epoch_members : list (bytes * cbor) := Eval vm_compute in match payload_cbor (payload_of epoch) with CObj l => l | _ => [] end.
Definition with_payload (c : cbor) : EventRecord :=
  mkEventRecord (r_ChainDID epoch_record) 7 [] EvSupplyEpoch 2 c 0 [] 0 [] [] [] 0 [].
Lemma parse_supply_epoch_accepts_witness :
  ParseSupplyEpoch (Some epoch_record) = Ok epoch ∧
  ∃ d, ParseSupplyEpoch (Some (with_payload (CObj (epoch_members ++ [(str "account", CText (str "bob"))])))) = Err (supply_err d).
Proof.
  split.
  - apply (proj1 (parse_supply_epoch_accepts (Some epoch_record)) epoch). exists epoch_record. split; [reflexivity|].
    split; [constructor; vm_compute; first [discriminate|reflexivity|split; reflexivity]|].
    split; [|vm_compute; eexists; reflexivity]. constructor; [reflexivity| |vm_compute; discriminate|vm_compute; discriminate|split; vm_compute; discriminate].
    apply (bool_decide_unpack _). vm_compute. exact I.
  - assert (∃ e, ParseSupplyEpoch (Some (with_payload (CObj (epoch_members ++ [(str "account", CText (str "bob"))])))) = Err e) as [e He]
      by (vm_compute; eexists; reflexivity).
    destruct (proj2 (parse_supply_epoch_accepts _) e He) as [d Hd]. exists d. by rewrite He, Hd.
Defined.
