(* ===== verification/Regpow.v ===== *)
(** * Regpow: the proof of work of a registration (regpow/regpow.go)

    [Hash] and [Check] are what a hub runs; [Solve] is what a daemon runs.  Its search is concurrent: a
    goroutine per CPU tries its own residue class of nonces, the first to find one sends it and cancels
    the others.  [search_step] is one step of one goroutine, of the caller, or of the caller's context,
    in any order. *)

From S2P Require Import Prelude Platform.

(** ** Constants *)

Definition Bits : Z := 22.
Definition MaxNonce : Z := 32.
Definition HourMillis : Z := 3600000.
Definition hashLabel : bytes := str "anet-regpow/v1".
Definition seedLabel : bytes := str "anet-regpow-seed/v1".
Definition ErrNUL : error := Errf "regpow: an AID holds U+0000".
Definition ErrNonce : error := Errf "regpow: the nonce is not 1 to 32 bytes".

Definition Hour (ms : Z) : Z := ms / HourMillis.
Definition NotAfter (hour : Z) : Z := u64 ((hour + 2) * HourMillis).

(** ** The hash *)

(** [bits.LeadingZeros64]. *)
Definition LeadingZeros64 (w : Z) : Z := if w =? 0 then 64 else 63 - Z.log2 w.

(** The loop over the words of a hash, [k] of them left. *)
Fixpoint zero_words (k : nat) (h : bytes) (n : Z) : Z :=
  match k with
  | O => n
  | S k =>
      let w := be_val (take 8 h) in
      if negb (w =? 0) then n + LeadingZeros64 w else zero_words k (drop 8 h) (n + 64)
  end.
Definition zeroBits (h : bytes) : Z := zero_words 4 h 0.

Definition prefix (hubAID aid seed : bytes) : result bytes :=
  refuse has_byte 0 hubAID || has_byte 0 aid with ErrNUL;
  Ok (hashLabel ++ [0] ++ hubAID ++ [0] ++ aid ++ [0] ++ seed).

Section Regpow.
Context `{P : Platform}.

Definition Seed (key : bytes) (hour : Z) : bytes := hmac_sha256 key (seedLabel ++ u64be hour).

Definition Hash (hubAID aid seed nonce : bytes) : result bytes :=
  refuse (len nonce <? 1) || (MaxNonce <? len nonce) with ErrNonce;
  b ← prefix hubAID aid seed;
  Ok (sha256 (b ++ nonce)).

Definition Check (hubAID aid seed nonce : bytes) (want : Z) : bool :=
  if (want <? 1) || (256 <? want) then false
  else match Hash hubAID aid seed nonce with Ok h => want <=? zeroBits h | Err _ => false end.

(** ** The hasher

    A [hash.Hash] is what was written to it; [MarshalBinary] saves that and [UnmarshalBinary] restores
    it.  Either may be missing or fail: [saves] says whether the state was saved, [restores] whether
    it is restored in a call. *)

Record hasher := mkHasher { hs_d : bytes; hs_state : option bytes; hs_pre : bytes }.

Definition newHasher (saves : bool) (pre : bytes) : hasher :=
  if saves then mkHasher pre (Some pre) pre else mkHasher [] None pre.

Definition hasher_sum (restores : bool) (h : hasher) (nonce : bytes) : hasher * bytes :=
  match hs_state h with
  | Some st =>
      if restores then (mkHasher (st ++ nonce) (Some st) (hs_pre h), sha256 (st ++ nonce))
      else (h, sha256 (hs_pre h ++ nonce))
  | None => (h, sha256 (hs_pre h ++ nonce))
  end.

(** ** The search *)

Definition checkEvery : Z := 4096.

(** A goroutine: before its look at the context, before its hash, before [cancel], returned. *)
Inductive worker :=
  | Looks (c i : Z) (h : hasher)
  | Hashes (c i : Z) (h : hasher)
  | Cancels
  | Returned.

Inductive search_outcome := Received (c : Z) | Closed.

Record search_state := mkSearch {
  ss_workers : list worker;
  ss_found : list Z;
  ss_cancelled : bool;
  ss_parent : bool;
  ss_outcome : option search_outcome;
}.

Definition Cancelled (s : search_state) : bool := ss_cancelled s || ss_parent s.

Definition set_worker (s : search_state) (w : nat) (x : worker) : search_state :=
  mkSearch (<[w := x]> (ss_workers s)) (ss_found s) (ss_cancelled s) (ss_parent s) (ss_outcome s).

Definition start (pre : bytes) (saves : bool) (workers : nat) : search_state :=
  mkSearch (map (λ w, Looks (Z.of_nat w) 0 (newHasher saves pre)) (seq 0 workers)) [] false false None.

(** An [int] that counts up. *)
Definition int_succ (i : Z) : Z := (i + 1 + two63) mod two64 - two63.

Inductive search_step (want : Z) (n : Z) : search_state → search_state → Prop :=
  (** [i%checkEvery == 0 && ctx.Err() != nil]; a look that does not return goes on to the hash. *)
  | look_stop s w c i h :
      ss_workers s !! w = Some (Looks c i h) → Z.rem i checkEvery = 0 → Cancelled s = true →
      search_step want n s (set_worker s w Returned)
  | look_on s w c i h :
      ss_workers s !! w = Some (Looks c i h) → Z.rem i checkEvery ≠ 0 ∨ Cancelled s = false →
      search_step want n s (set_worker s w (Hashes c i h))
  | hash_found s w c i h restores h' out :
      ss_workers s !! w = Some (Hashes c i h) → hasher_sum restores h (u64be c) = (h', out) → want <= zeroBits out →
      search_step want n s
        (mkSearch (<[w := Cancels]> (ss_workers s)) (ss_found s ++ [c]) (ss_cancelled s) (ss_parent s) (ss_outcome s))
  | hash_next s w c i h restores h' out :
      ss_workers s !! w = Some (Hashes c i h) → hasher_sum restores h (u64be c) = (h', out) → zeroBits out < want →
      search_step want n s (set_worker s w (Looks (u64 (c + n)) (int_succ i) h'))
  | cancel s w :
      ss_workers s !! w = Some Cancels →
      search_step want n s
        (mkSearch (<[w := Returned]> (ss_workers s)) (ss_found s) true (ss_parent s) (ss_outcome s))
  (** [c, ok := <-found]; the channel is closed when every goroutine has returned. *)
  | receive s c found :
      ss_outcome s = None → ss_found s = c :: found →
      search_step want n s (mkSearch (ss_workers s) found true (ss_parent s) (Some (Received c)))
  | closed s :
      ss_outcome s = None → ss_found s = [] → Forall (λ x, x = Returned) (ss_workers s) →
      search_step want n s (mkSearch (ss_workers s) [] true (ss_parent s) (Some Closed))
  (** The caller's context ends. *)
  | parent_ends s :
      search_step want n s (mkSearch (ss_workers s) (ss_found s) (ss_cancelled s) true (ss_outcome s)).

(** [search] from the outcome on; [parent] is [parent.Err()], the caller's error. *)
Definition errStopped : error := Errf "regpow: the search stopped without a result".
Definition search_result (o : search_outcome) (parent : option error) : result bytes :=
  match o with
  | Received c => Ok (u64be c)
  | Closed => match parent with Some e => Err e | None => Err errStopped end
  end.

(** At least one goroutine. *)
Definition nworkers (workers : Z) : Z := if workers <? 1 then 1 else workers.

(** The runs of [search]: what it returns after some steps; an ended parent has an error. *)
Definition searches (pre : bytes) (want workers : Z) (ctxErr : error) (r : result bytes) : Prop :=
  let n := nworkers workers in
  ∃ saves s o, rtc (search_step want n) (start pre saves (Z.to_nat n)) s ∧ ss_outcome s = Some o ∧
    r = search_result o (if ss_parent s then Some ctxErr else None).

Definition errSolveWant : error := Errf "regpow: a challenge for %d bits; every hub asks for %d".
Definition errSolveCheck : error := Errf "regpow: internal error: the nonce found does not pass Check".

(** [Solve], with [GOMAXPROCS] workers: it returns [r] when it can. *)
Inductive solves (hubAID aid seed : bytes) (want procs : Z) (ctxErr : error) : result bytes → Prop :=
  | solve_want : (want <? 1) || (Bits <? want) = true → solves hubAID aid seed want procs ctxErr (Err errSolveWant)
  | solve_prefix e :
      (want <? 1) || (Bits <? want) = false → prefix hubAID aid seed = Err e → solves hubAID aid seed want procs ctxErr (Err e)
  | solve_search pre r :
      (want <? 1) || (Bits <? want) = false → prefix hubAID aid seed = Ok pre → searches pre want procs ctxErr r →
      solves hubAID aid seed want procs ctxErr
        (nonce ← r; refuse negb (Check hubAID aid seed nonce want) with errSolveCheck; Ok nonce).
End Regpow.
