(* ===== verification/RegpowTheorems.v ===== *)
(** * RegpowTheorems: what a proof of work is, and that the concurrent search returns one *)

From S2P Require Import Prelude Platform Regpow.

(** ** Leading zeros *)

Lemma zero_words_ge k : ∀ h n, bytes_ok h → n <= zero_words k h n.
Proof.
  induction k as [|k IH]; intros h n Hok; cbn [zero_words]; [done|].
  destruct (be_val (take 8 h) =? 0) eqn:E; cbn [negb].
  - etrans; [|apply IH, Forall_drop, Hok]. lia.
  - unfold LeadingZeros64. rewrite E. apply Z.eqb_neq in E.
    pose proof (undigits_range 256 (take 8 h) eq_refl (Forall_take _ _ _ Hok)) as [H0 H1].
    assert (256 ^ Z.of_nat (length (take 8 h)) <= 2 ^ 64) as Hle.
    { change (2 ^ 64) with (256 ^ 8). apply Z.pow_le_mono_r; [lia|]. rewrite length_take. lia. }
    assert (Z.log2 (be_val (take 8 h)) < 64); [|lia]. unfold be_val in *. apply Z.log2_lt_pow2; lia.
Qed.

Lemma pow256 k : 0 <= k → 256 ^ k = 2 ^ (8 * k).
Proof. intros Hk. change 256 with (2 ^ 8). by rewrite <- Z.pow_mul_r by lia. Qed.

Lemma be_val_range h : bytes_ok h → 0 <= be_val h < 2 ^ (8 * Z.of_nat (length h)).
Proof. intros Hok. rewrite <- pow256 by lia. by apply (undigits_range 256). Qed.

Lemma zero_words_spec k : ∀ h n want,
  bytes_ok h → length h = (8 * k)%nat → 0 <= want <= 64 * Z.of_nat k →
  want + n <= zero_words k h n ↔ be_val h < 2 ^ (64 * Z.of_nat k - want).
Proof.
  induction k as [|k IH]; intros h n want Hok Hl Hw.
  - destruct h; [|done]. replace want with 0 by lia. cbn. lia.
  - cbn [zero_words]. set (K := 64 * Z.of_nat k) in *.
    assert (be_val h = be_val (take 8 h) * 2 ^ K + be_val (drop 8 h)) as Hv.
    { rewrite <- (take_drop 8 h) at 1. unfold be_val. rewrite undigits_app, length_drop, Hl, pow256 by lia. do 3 f_equal. unfold K. lia. }
    assert (0 <= be_val (drop 8 h) < 2 ^ K) as Hr.
    { pose proof (be_val_range (drop 8 h) (Forall_drop _ _ _ Hok)) as Hu. rewrite length_drop, Hl in Hu.
      replace K with (8 * Z.of_nat (8 * S k - 8)) by (unfold K; lia). exact Hu. }
    assert (0 <= be_val (take 8 h) < 2 ^ 64) as Ht.
    { pose proof (be_val_range (take 8 h) (Forall_take _ _ _ Hok)) as Hu. rewrite length_take, Hl in Hu.
      replace (8 `min` (8 * S k))%nat with 8%nat in Hu by lia. exact Hu. }
    replace (64 * Z.of_nat (S k) - want) with (K + (64 - want)) by (unfold K; lia).
    pose proof (Z.pow_pos_nonneg 2 K) as HK. unfold K in HK. fold K in HK.
    destruct (be_val (take 8 h) =? 0) eqn:E; cbn [negb]; [apply Z.eqb_eq in E|apply Z.eqb_neq in E].
    + rewrite E in Hv. destruct (Z.le_gt_cases want 64) as [Hle|Hgt].
      * split; [intros _|intros _].
        -- rewrite Hv, Z.pow_add_r by lia. pose proof (Z.pow_pos_nonneg 2 (64 - want)). nia.
        -- etrans; [|apply zero_words_ge, Forall_drop, Hok]. lia.
      * pose proof (IH (drop 8 h) (n + 64) (want - 64)) as Hi. rewrite Hv.
        replace (K + (64 - want)) with (K - (want - 64)) by lia. rewrite <- Hi; [|by apply Forall_drop|rewrite length_drop, Hl; lia|lia].
        split; lia.
    + unfold LeadingZeros64. rewrite (proj2 (Z.eqb_neq _ _) E). rewrite Hv.
      assert (0 <= Z.log2 (be_val (take 8 h)) < 64) as Hlog by (split; [apply Z.log2_nonneg|apply Z.log2_lt_pow2; lia]).
      destruct (Z.le_gt_cases want 64) as [Hle|Hgt].
      * rewrite Z.pow_add_r by lia. trans (be_val (take 8 h) < 2 ^ (64 - want)).
        -- rewrite Z.log2_lt_pow2 by lia. lia.
        -- nia.
      * assert (2 ^ (K + (64 - want)) <= 2 ^ K) by (apply Z.pow_le_mono_r; lia). split; [lia|nia].
Qed.

Lemma zeroBits_spec h want : bytes_ok h → len h = 32 → 0 <= want <= 256 → want <= zeroBits h ↔ be_val h < 2 ^ (256 - want).
Proof.
  intros Hok Hl Hw. unfold zeroBits. rewrite <- (zero_words_spec 4 h 0 want); [by rewrite Z.add_0_r|done|unfold len in Hl; lia|lia].
Qed.

(** ** The hash input *)

Lemma prefix_Ok hub aid seed b :
  prefix hub aid seed = Ok b ↔ 0 ∉ hub ∧ 0 ∉ aid ∧ b = hashLabel ++ [0] ++ hub ++ [0] ++ aid ++ [0] ++ seed.
Proof.
  unfold prefix. rewrite refuse_Ok, orb_false_iff, !has_byte_false. split; [by intros [[? ?] [= <-]]|by intros (? & ? & ->)].
Qed.

Lemma cut_unique (c : Z) a x b y : c ∉ a → c ∉ b → a ++ [c] ++ x = b ++ [c] ++ y → a = b ∧ x = y.
Proof.
  revert b. induction a as [|u a IH]; intros [|v b] Ha Hb E; cbn in E; simplify_eq.
  - done.
  - exfalso. apply Hb. by left.
  - exfalso. apply Ha. by left.
  - apply not_elem_of_cons in Ha as [_ Ha], Hb as [_ Hb]. destruct (IH b Ha Hb H0) as [-> ->]. done.
Qed.

(** One input, one registration. *)
Lemma prefix_inj hub aid seed b nonce hub' aid' seed' b' nonce' :
  prefix hub aid seed = Ok b → prefix hub' aid' seed' = Ok b' → len seed = len seed' → b ++ nonce = b' ++ nonce' →
  hub = hub' ∧ aid = aid' ∧ seed = seed' ∧ nonce = nonce'.
Proof.
  intros (H1 & H2 & ->)%prefix_Ok (H1' & H2' & ->)%prefix_Ok Hs E. rewrite <- !app_assoc in E. apply app_inv_head in E.
  cbn [app] in E. injection E as E. apply (cut_unique 0) in E as [-> E]; [|done..]. apply (cut_unique 0) in E as [-> E]; [|done..].
  apply app_inj_len in E as [-> ->]; [done|unfold len in Hs; lia].
Qed.

Section Theorems.
Context `{P : Platform}.

(** The work in [c] for the input [pre]. *)
Definition wins (pre : bytes) (want c : Z) : Prop := want <= zeroBits (sha256 (pre ++ u64be c)).

(** ** The hasher *)

Definition hasher_ok (pre : bytes) (h : hasher) : Prop := hs_pre h = pre ∧ (hs_state h = None ∨ hs_state h = Some pre).

Lemma newHasher_ok saves pre : hasher_ok pre (newHasher saves pre).
Proof. destruct saves; split; simpl; auto. Qed.

Lemma hasher_sum_spec restores pre h nonce h' out :
  hasher_ok pre h → hasher_sum restores h nonce = (h', out) → hasher_ok pre h' ∧ out = sha256 (pre ++ nonce).
Proof.
  intros [Hp Hs] E. unfold hasher_sum in E. destruct Hs as [Hs|Hs]; rewrite Hs in E; [|destruct restores];
    injection E as <- <-; unfold hasher_ok; rewrite ?Hp; cbn; auto.
Qed.

(** ** The search *)

Section Search.
Context (pre : bytes) (want n : Z).
Hypothesis (Hn : 1 <= n < two63).

Definition nonce_at (w m : Z) : Z := u64 (w + m * n).
Definition untried (w m : Z) : Prop := ∀ k, 0 <= k < m → ¬ wins pre want (nonce_at w k).
(** A found nonce: it has the work, and it is the first of its class that has. *)
Definition first_win (c : Z) : Prop := ∃ w m, 0 <= w < n ∧ 0 <= m ∧ c = nonce_at w m ∧ wins pre want c ∧ untried w m.

Definition worker_ok (w : Z) (x : worker) : Prop :=
  match x with
  | Looks c _ h | Hashes c _ h => ∃ m, 0 <= m ∧ c = nonce_at w m ∧ untried w m ∧ hasher_ok pre h
  | Cancels | Returned => True
  end.

Record search_ok (s : search_state) : Prop := {
  so_workers : length (ss_workers s) = Z.to_nat n;
  so_each w x : ss_workers s !! w = Some x → worker_ok (Z.of_nat w) x;
  so_found : Forall first_win (ss_found s);
  so_outcome c : ss_outcome s = Some (Received c) → first_win c;
  so_cancel : ss_cancelled s = true ∨ Cancels ∈ ss_workers s → ss_found s ≠ [] ∨ is_Some (ss_outcome s);
  so_returned : Returned ∈ ss_workers s → Cancelled s = true;
  so_closed : ss_outcome s = Some Closed → ss_parent s = true;
}.

Lemma start_ok saves : search_ok (start pre saves (Z.to_nat n)).
Proof using Hn.
  constructor; cbn [start ss_workers ss_found ss_cancelled ss_parent ss_outcome]; try done.
  - by rewrite length_map, length_seq.
  - intros w x Hx. apply list_lookup_fmap_Some in Hx as (k & -> & Hk). apply lookup_seq in Hk as [-> Hk]. cbn. exists 0.
    split_and!; [done| |intros ? ?; lia|apply newHasher_ok]. unfold nonce_at, u64. rewrite Z.mod_small; [lia|unfold two63, two64 in *; lia].
  - intros [?|Hin]; [done|]. apply list_elem_of_fmap in Hin as (? & [=] & _).
  - intros Hin. apply list_elem_of_fmap in Hin as (? & [=] & _).
Qed.

Lemma elem_insert (l : list worker) w x y : y ∈ <[w := x]> l → y = x ∨ y ∈ l.
Proof.
  intros (k & Hk)%list_elem_of_lookup. apply list_lookup_insert_Some in Hk as [(-> & -> & _)|[_ Hk]]; [by left|right].
  by eapply list_elem_of_lookup_2.
Qed.

(** One goroutine moves. *)
Lemma update_ok s w x found cancelled :
  search_ok s → worker_ok (Z.of_nat w) x → Forall first_win found → (ss_found s ≠ [] → found ≠ []) →
  (cancelled = true ∨ x = Cancels → ss_cancelled s = true ∨ Cancels ∈ ss_workers s ∨ found ≠ []) →
  (ss_cancelled s = true → cancelled = true) → (x = Returned → cancelled = true ∨ ss_parent s = true) →
  search_ok (mkSearch (<[w := x]> (ss_workers s)) found cancelled (ss_parent s) (ss_outcome s)).
Proof.
  intros [S1 S2 S3 S4 S5 S6 S7] Hx Hf Hne Hc Hm Hr. constructor; cbn [ss_workers ss_found ss_cancelled ss_parent ss_outcome]; try done.
  - by rewrite length_insert.
  - intros v y [(-> & -> & _)|[_ Hy]]%list_lookup_insert_Some; [done|by apply S2].
  - intros H. assert (ss_cancelled s = true ∨ Cancels ∈ ss_workers s ∨ found ≠ []) as [?|[?|?]]; [| | |by left].
    + destruct H as [H|[H|H]%elem_insert]; auto.
    + destruct S5; auto.
    + destruct S5; auto.
  - intros [H|H]%elem_insert; unfold Cancelled in *; cbn [ss_cancelled ss_parent]; apply orb_true_iff; [symmetry in H; auto|].
    apply S6, orb_true_iff in H as [?|?]; auto.
Qed.

Lemma nonce_next w m : u64 (nonce_at w m + n) = nonce_at w (m + 1).
Proof. unfold nonce_at, u64. rewrite Z.add_mod_idemp_l by done. f_equal. lia. Qed.

Lemma search_step_ok s s' : search_ok s → search_step want n s s' → search_ok s'.
Proof using Hn.
  intros Hs Hstep. pose proof Hs as [S1 S2 S3 S4 S5 S6 S7].
  destruct Hstep as [s w c i h Hw Hi Hc|s w c i h Hw Hi|s w c i h rs h' out Hw Hsum Hz|s w c i h rs h' out Hw Hsum Hz|s w Hw|s c found Ho Hf|s Ho Hf Ha|s].
  - apply update_ok; [done|exact I|done|done|intros [?|[=]]; auto|done|]. intros _. by apply orb_true_iff.
  - apply update_ok; [done|exact (S2 _ _ Hw)|done|done|intros [?|[=]]; auto|done|by intros [=]].
  - pose proof (S2 _ _ Hw) as (m & Hm & -> & Ht & Hh). destruct (hasher_sum_spec _ _ _ _ _ _ Hh Hsum) as [Hh' ->].
    apply update_ok; [done|exact I| | | |done|by intros [=]].
    + apply Forall_app_2; [done|]. apply Forall_singleton. exists (Z.of_nat w), m. split_and!; try done; [lia|].
      apply lookup_lt_Some in Hw. lia.
    + intros _ [_ ?]%app_nil. done.
    + intros _. right. right. by intros [_ ?]%app_nil.
  - pose proof (S2 _ _ Hw) as (m & Hm & -> & Ht & Hh). destruct (hasher_sum_spec _ _ _ _ _ _ Hh Hsum) as [Hh' ->].
    apply update_ok; [done| |done|done|intros [?|[=]]; auto|done|by intros [=]]. exists (m + 1). split_and!; [lia|apply nonce_next| |done].
    intros k Hk. destruct (decide (k = m)) as [->|]; [unfold wins; lia|apply Ht; lia].
  - apply update_ok; [done|exact I|done|done| |done|by left]. intros _. right. left. by eapply list_elem_of_lookup_2.
  - rewrite Hf in S3. apply Forall_cons in S3 as [H1 H2].
    constructor; cbn [ss_workers ss_found ss_cancelled ss_parent ss_outcome]; try done.
    + by intros c' [= <-].
    + by intros _; right; eauto.
  - constructor; cbn [ss_workers ss_found ss_cancelled ss_parent ss_outcome]; try done; [by intros _; right; eauto|].
    intros _. assert (∃ x, ss_workers s !! 0%nat = Some x) as [x Hx] by (apply lookup_lt_is_Some_2; lia).
    rewrite Forall_lookup in Ha. rewrite (Ha _ _ Hx) in Hx. apply list_elem_of_lookup_2, S6, orb_true_iff in Hx as [Hx|?]; [|done].
    destruct S5 as [?|[? ?]]; [by left|congruence|congruence].
  - constructor; cbn [ss_workers ss_found ss_cancelled ss_parent ss_outcome]; try done. intros _. apply orb_true_r.
Qed.

Lemma reachable_ok saves s : rtc (search_step want n) (start pre saves (Z.to_nat n)) s → search_ok s.
Proof using Hn.
  pose proof (start_ok saves) as Hs. intros Hr. revert Hs. induction Hr as [|x y z Hxy _ IH]; [done|]. intros Hx. by apply IH, (search_step_ok x).
Qed.

(** Nothing found: nobody has cancelled, and every goroutine is at work. *)
Lemma search_open s :
  search_ok s → ss_outcome s = None → ss_parent s = false → ss_found s = [] →
  Cancelled s = false ∧ ∀ w, (w < Z.to_nat n)%nat → ∃ c i h, ss_workers s !! w = Some (Looks c i h) ∨ ss_workers s !! w = Some (Hashes c i h).
Proof.
  intros [S1 S2 S3 S4 S5 S6 S7] Ho Hp Hf. rewrite Ho, Hf in S5.
  assert (Cancelled s = false) as Hc.
  { unfold Cancelled. rewrite Hp, orb_false_r. apply not_true_iff_false. intros Hc. by destruct S5 as [?|[? ?]]; [left| |]. }
  split; [done|]. intros w Hw. rewrite <- S1 in Hw. destruct (lookup_lt_is_Some_2 _ _ Hw) as [x Hx].
  destruct x as [c i h|c i h| |]; [by exists c, i, h; left|by exists c, i, h; right|exfalso..]; apply list_elem_of_lookup_2 in Hx.
  - by destruct S5 as [?|[? ?]]; [right| |].
  - apply S6 in Hx. congruence.
Qed.

Lemma search_receives s : ss_outcome s = None → ss_parent s = false → ss_found s ≠ [] →
  ∃ s' c, rtc (search_step want n) s s' ∧ ss_outcome s' = Some (Received c) ∧ ss_parent s' = false.
Proof.
  intros Ho Hp Hf. destruct (ss_found s) as [|c found] eqn:E; [done|]. eexists _, c. split; [by eapply rtc_once, receive|]. done.
Qed.

(** A goroutine at its [m]-th nonce, with the work at its [last]. *)
Lemma search_progress (w : nat) last d : ∀ s m,
  search_ok s → ss_outcome s = None → ss_parent s = false → wins pre want (nonce_at (Z.of_nat w) last) →
  (∃ i h, hasher_ok pre h ∧ (ss_workers s !! w = Some (Looks (nonce_at (Z.of_nat w) m) i h) ∨
                             ss_workers s !! w = Some (Hashes (nonce_at (Z.of_nat w) m) i h))) →
  0 <= m <= last → last - m <= Z.of_nat d →
  ∃ s' c, rtc (search_step want n) s s' ∧ ss_outcome s' = Some (Received c) ∧ ss_parent s' = false.
Proof using Hn.
  induction d as [|d IH]; intros s m Hs Ho Hp Hwin (i & h & Hh & Hw) Hm Hd;
    (destruct (decide (ss_found s = [])) as [Hf|Hf]; [|by apply search_receives]);
    destruct (search_open s Hs Ho Hp Hf) as [Hc _].
  1,2: set (c := nonce_at (Z.of_nat w) m) in *.
  1,2: assert (∃ s1 i h, rtc (search_step want n) s s1 ∧ search_ok s1 ∧ ss_outcome s1 = None ∧ ss_parent s1 = false ∧
               ss_workers s1 !! w = Some (Hashes c i h) ∧ hasher_ok pre h) as (s1 & i1 & h1 & R1 & Hs1 & Ho1 & Hp1 & Hw1 & Hh1).
  1,3: destruct Hw as [Hw|Hw]; [|by exists s, i, h];
       pose proof (look_on want n s w c i h Hw (or_intror Hc)) as Hst; eexists _, i, h;
       split_and!; [by apply rtc_once|by apply (search_step_ok s)|done|done|by apply list_lookup_insert_eq, (lookup_lt_Some _ _ _ Hw)|done].
  all: destruct (hasher_sum true h1 (u64be c)) as [h2 out] eqn:Esum;
    destruct (hasher_sum_spec _ _ _ _ _ _ Hh1 Esum) as [Hh2 Eout].
  all: assert (want <= zeroBits out → ∃ s' c, rtc (search_step want n) s s' ∧ ss_outcome s' = Some (Received c) ∧ ss_parent s' = false) as Hfound by
    (intros Hz; pose proof (hash_found want n s1 w c i1 h1 true h2 out Hw1 Esum Hz) as Hst;
     destruct (search_receives (mkSearch (<[w := Cancels]> (ss_workers s1)) (ss_found s1 ++ [c]) (ss_cancelled s1) (ss_parent s1) (ss_outcome s1)) Ho1 Hp1) as (s' & c' & R & H); [by intros [_ [=]]%app_nil|];
     exists s', c'; split; [etrans; [exact R1|]; by eapply rtc_l; [exact Hst|]|done]).
  - apply Hfound. rewrite Eout. unfold c. replace m with last by lia. exact Hwin.
  - destruct (Z.le_gt_cases want (zeroBits out)) as [Hz|Hz]; [by apply Hfound|].
    pose proof (hash_next want n s1 w c i1 h1 true h2 out Hw1 Esum ltac:(lia)) as Hst.
    assert (m ≠ last) by (intros ->; unfold wins in Hwin; fold c in Hwin; rewrite <- Eout in Hwin; lia).
    edestruct (IH _ (m + 1) (search_step_ok _ _ Hs1 Hst) Ho1 Hp1 Hwin) as (s' & c' & R & HR); [|lia|lia|].
    + exists (int_succ i1), h2. split; [done|]. left. cbn [set_worker ss_workers]. unfold c. rewrite nonce_next.
      by apply list_lookup_insert_eq, (lookup_lt_Some _ _ _ Hw1).
    + exists s', c'. split; [etrans; [exact R1|]; by eapply rtc_l; [exact Hst|]|done].
Qed.

(** As long as its context lasts, a search that has not returned can still return a nonce, if there is one. *)
Lemma search_can_finish s c :
  search_ok s → ss_outcome s = None → ss_parent s = false → is_u64 c → wins pre want c →
  ∃ s' c', rtc (search_step want n) s s' ∧ ss_outcome s' = Some (Received c') ∧ ss_parent s' = false.
Proof using Hn.
  intros Hs Ho Hp Hc Hwin. destruct (decide (ss_found s = [])) as [Hf|Hf]; [|by apply search_receives].
  destruct (search_open s Hs Ho Hp Hf) as [_ Hw]. pose proof (Z.mod_pos_bound c n ltac:(lia)) as Hr.
  set (w := Z.to_nat (c mod n)). destruct (Hw w) as (c0 & i & h & Hx); [unfold w; lia|].
  assert (nonce_at (Z.of_nat w) (c / n) = c) as Ec.
  { unfold nonce_at, w. rewrite Z2Nat.id by lia. rewrite (Z.mul_comm _ n), Z.add_comm, <- Z.div_mod by lia. by apply Z.mod_small. }
  assert (∃ m, 0 <= m ∧ c0 = nonce_at (Z.of_nat w) m ∧ untried (Z.of_nat w) m ∧ hasher_ok pre h) as (m & Hm & -> & Ht & Hh).
  { destruct Hx as [Hx|Hx]; exact (so_each s Hs _ _ Hx). }
  assert (0 <= c / n) by (apply Z.div_pos; [apply Hc|lia]).
  apply (search_progress w (c / n) (Z.to_nat (c / n - m)) s m); try done; [by rewrite Ec|by exists i, h| |].
  - split; [done|]. apply Z.le_ngt. intros Hlt. apply (Ht (c / n)); [lia|]. by rewrite Ec.
  - destruct (Z.le_gt_cases m (c / n)); lia.
Qed.
End Search.

(** ** What a hub checks and what a daemon finds *)

(** The input of the hash. *)
Definition work_input (hub aid seed nonce : bytes) : bytes := hashLabel ++ [0] ++ hub ++ [0] ++ aid ++ [0] ++ seed ++ nonce.

Lemma Check_spec hub aid seed nonce want :
  Check hub aid seed nonce want = true ↔
  1 <= want <= 256 ∧ 1 <= len nonce <= MaxNonce ∧ 0 ∉ hub ∧ 0 ∉ aid ∧ want <= zeroBits (sha256 (work_input hub aid seed nonce)).
Proof.
  unfold Check, Hash. destruct ((want <? 1) || (256 <? want)) eqn:Ew; [split; [done|lia]|].
  apply orb_false_iff in Ew as [?%Z.ltb_ge ?%Z.ltb_ge].
  destruct ((len nonce <? 1) || (MaxNonce <? len nonce)) eqn:En; [split; [done|lia]|].
  apply orb_false_iff in En as [?%Z.ltb_ge ?%Z.ltb_ge].
  destruct (prefix hub aid seed) as [b|e] eqn:Ep; cbn [mbind result_bind].
  - apply prefix_Ok in Ep as (? & ? & ->). unfold work_input. rewrite <- !app_assoc, Z.leb_le. tauto.
  - split; [done|]. intros (_ & _ & Hh & Ha & _). pose proof (proj2 (prefix_Ok hub aid seed _) (conj Hh (conj Ha eq_refl))). congruence.
Qed.

(** C34: A proof of work is what it says.  [Check] accepts exactly the nonces of 1 to 32 bytes for which the SHA-256 of the input, read as a
    number, is below 2^(256-want), for AIDs without U+0000 and 1 to 256 bits; and an input names one hub, one AID, one seed and one
    nonce, so the work for one registration is no work for another unless SHA-256 collides. *)
Theorem check_is_the_work {PL : PlatformLaws P} hub aid seed nonce want :
  (Check hub aid seed nonce want = true ↔
   1 <= want <= 256 ∧ 1 <= len nonce <= MaxNonce ∧ 0 ∉ hub ∧ 0 ∉ aid ∧
   be_val (sha256 (work_input hub aid seed nonce)) < 2 ^ (256 - want)) ∧
  (∀ hub' aid' seed' nonce', 0 ∉ hub → 0 ∉ aid → 0 ∉ hub' → 0 ∉ aid' → len seed = len seed' →
     work_input hub aid seed nonce = work_input hub' aid' seed' nonce' →
     hub = hub' ∧ aid = aid' ∧ seed = seed' ∧ nonce = nonce').
Proof.
  split.
  - rewrite Check_spec. assert (1 <= want <= 256 →
      want <= zeroBits (sha256 (work_input hub aid seed nonce)) ↔ be_val (sha256 (work_input hub aid seed nonce)) < 2 ^ (256 - want)); [|tauto].
    intros Hw. apply zeroBits_spec; [apply sha256_bytes|unfold len; by rewrite sha256_length|lia].
  - intros hub' aid' seed' nonce' H1 H2 H1' H2' Hs E. unfold work_input in E.
    eapply prefix_inj; [by apply prefix_Ok|by apply prefix_Ok|done|]. by rewrite <- !app_assoc.
Qed.

Lemma wins_Check hub aid seed pre want c :
  1 <= want <= Bits → prefix hub aid seed = Ok pre → Check hub aid seed (u64be c) want = true ↔ wins pre want c.
Proof.
  intros Hw (? & ? & ->)%prefix_Ok. rewrite Check_spec. unfold wins, work_input. rewrite <- !app_assoc.
  unfold len. rewrite length_u64be. unfold Bits, MaxNonce in *. split; [tauto|]. intros ?. split_and!; done || lia.
Qed.

Lemma search_returns pre want procs ctxErr r :
  procs < two63 → searches pre want procs ctxErr r →
  match r with Ok nonce => ∃ c, nonce = u64be c ∧ first_win pre want (nworkers procs) c | Err e => e = ctxErr end.
Proof.
  intros Hp (saves & s & o & Hr & Ho & ->).
  assert (1 <= nworkers procs < two63) as Hn by (unfold nworkers, two63 in *; destruct (Z.ltb_spec procs 1); lia).
  pose proof (reachable_ok pre want _ Hn saves s Hr) as Hs. destruct o as [c|]; cbn [search_result].
  - exists c. split; [done|]. by apply (so_outcome _ _ _ _ Hs).
  - by rewrite (so_closed _ _ _ _ Hs Ho).
Qed.

(** C19: Solving returns the work.  Whatever the interleaving of its goroutines, what [Solve] returns passes [Check], and with one
    processor it is the smallest nonce that does; it fails only for a challenge out of range, for an AID with U+0000, or with the error
    of its caller's context: neither of its two internal errors is reachable.  While the context lasts, a search that has not returned
    can still return a nonce whenever some 8-byte nonce passes. *)
Theorem solve_returns_the_work hub aid seed want procs ctxErr :
  procs < two63 →
  (∀ r, solves hub aid seed want procs ctxErr r →
     match r with
     | Ok nonce => Check hub aid seed nonce want = true ∧
         ∃ c, is_u64 c ∧ nonce = u64be c ∧ (procs <= 1 → ∀ c', 0 <= c' < c → Check hub aid seed (u64be c') want = false)
     | Err e => (e = errSolveWant ∧ ¬ 1 <= want <= Bits) ∨ (e = ErrNUL ∧ (0 ∈ hub ∨ 0 ∈ aid)) ∨ e = ctxErr
     end) ∧
  (∀ pre c saves s, 1 <= want <= Bits → prefix hub aid seed = Ok pre → is_u64 c → Check hub aid seed (u64be c) want = true →
     rtc (search_step want (nworkers procs)) (start pre saves (Z.to_nat (nworkers procs))) s → ss_outcome s = None → ss_parent s = false →
     ∃ s' c', rtc (search_step want (nworkers procs)) s s' ∧ ss_outcome s' = Some (Received c') ∧
       solves hub aid seed want procs ctxErr (Ok (u64be c'))).
Proof.
  intros Hp. assert (1 <= nworkers procs < two63) as Hn by (unfold nworkers, two63 in *; destruct (Z.ltb_spec procs 1); lia).
  assert (∀ pre c, 1 <= want <= Bits → prefix hub aid seed = Ok pre → first_win pre want (nworkers procs) c →
    Check hub aid seed (u64be c) want = true) as Hfirst.
  { intros pre c Hw Hpre (w & m & _ & _ & _ & Hwin & _). by apply (wins_Check hub aid seed pre want c Hw Hpre). }
  split.
  - intros r [Hw|e Hw Hpre|pre r0 Hw Hpre Hr].
    + left. split; [done|]. lia.
    + right. left. unfold prefix in Hpre. destruct (has_byte 0 hub || has_byte 0 aid) eqn:E; [|done]. injection Hpre as <-. split; [done|].
      apply orb_true_iff in E as [E|E]; [left|right]; apply dec_stable; intros Hnot; apply has_byte_false in Hnot; congruence.
    + apply orb_false_iff in Hw as [?%Z.ltb_ge ?%Z.ltb_ge]. apply (search_returns _ _ _ _ _ Hp) in Hr.
      destruct r0 as [nonce|e]; cbn [mbind result_bind]; [|by subst; auto]. destruct Hr as (c & -> & Hc).
      rewrite (Hfirst pre c) by done. cbn [negb]. split; [by apply (Hfirst pre)|].
      destruct Hc as (w & m & Hwn & Hm & -> & Hwin & Ht). exists (nonce_at (nworkers procs) w m).
      assert (is_u64 (nonce_at (nworkers procs) w m)) as Hu by (apply Z.mod_pos_bound; done). split_and!; [done|done|].
      intros Hone c' Hc'. apply not_true_iff_false. intros Hck%(wins_Check hub aid seed pre want c'); [|done|done].
      assert (nworkers procs = 1) as En by (unfold nworkers; destruct (Z.ltb_spec procs 1); lia). rewrite En in *.
      replace w with 0 in * by lia. unfold nonce_at, u64 in *. rewrite Z.add_0_l, Z.mul_1_r in *.
      assert (m mod two64 <= m) by (apply Z.mod_le; done).
      apply (Ht c'); [lia|]. unfold nonce_at, u64. rewrite Z.add_0_l, Z.mul_1_r, Z.mod_small; [done|]. destruct Hu. lia.
  - intros pre c saves s Hw Hpre Hc Hck Hr Ho Hpar. apply (wins_Check hub aid seed pre want c Hw Hpre) in Hck.
    pose proof (reachable_ok pre want _ Hn saves s Hr) as Hs.
    destruct (search_can_finish pre want _ Hn s c Hs Ho Hpar Hc Hck) as (s' & c' & R & Ho' & Hp'). exists s', c'. split_and!; [done..|].
    assert (searches pre want procs ctxErr (Ok (u64be c'))) as Hsr.
    { exists saves, s', (Received c'). split_and!; [by etrans|done|done]. }
    assert (Check hub aid seed (u64be c') want = true) as Hc'.
    { apply (Hfirst pre); [done..|]. apply (so_outcome _ _ _ _ (reachable_ok pre want _ Hn saves s' ltac:(by etrans))). done. }
    pose proof (solve_search hub aid seed want procs ctxErr pre (Ok (u64be c'))) as Hsol. cbn [mbind result_bind] in Hsol.
    rewrite Hc' in Hsol. apply Hsol; [|done|done]. apply orb_false_iff. rewrite !Z.ltb_ge. lia.
Qed.
End Theorems.
