(* ===== verification/RegpowSamples.v ===== *)
(** * RegpowSamples: a challenge solved *)

From S2P Require Import Prelude Platform Regpow RegpowTheorems.
Import Light.

Definition work_hub : bytes := str "hub".
Definition work_aid : bytes := str "agent-34".
Definition work_seed : bytes := Eval vm_compute in Seed (repeat 1 32) (Hour 1760000160000).

Definition work_nonce : Z := 7.
Example work_has_five_bits : zeroBits (sha256 (work_input work_hub work_aid work_seed (u64be work_nonce))) = 5 ∧
  Check work_hub work_aid work_seed (u64be work_nonce) 5 = true ∧ Check work_hub work_aid work_seed (u64be work_nonce) 6 = false ∧
  Check work_hub (work_aid ++ [0]) work_seed (u64be work_nonce) 1 = false ∧ Check work_hub work_aid work_seed [] 1 = false.
Proof. vm_compute. repeat split. Qed.

Lemma check_is_the_work_witness :
  be_val (sha256 (work_input work_hub work_aid work_seed (u64be work_nonce))) < 2 ^ (256 - 5) ∧
  (∀ aid', 0 ∉ aid' → work_input work_hub work_aid work_seed [1] = work_input work_hub aid' work_seed [1] → aid' = work_aid).
Proof.
  destruct (check_is_the_work (PL := light_laws) work_hub work_aid work_seed (u64be work_nonce) 5) as [Hc _].
  destruct (check_is_the_work (PL := light_laws) work_hub work_aid work_seed [1] 5) as [_ Hi].
  assert (0 ∉ work_hub ∧ 0 ∉ work_aid) as [H1 H2] by (split; apply has_byte_false; vm_compute; reflexivity).
  split.
  - assert (Check work_hub work_aid work_seed (u64be work_nonce) 5 = true) as E by (vm_compute; reflexivity).
    exact (proj2 (proj2 (proj2 (proj2 (proj1 Hc E))))).
  - intros aid' Ha E. exact (eq_sym (proj1 (proj2 (Hi work_hub aid' work_seed [1] H1 H2 H1 Ha eq_refl E)))).
Defined.

Lemma solve_returns_the_work_witness :
  ∃ c, solves work_hub work_aid work_seed 5 4 (Errf "context canceled") (Ok (u64be c)) ∧
    Check work_hub work_aid work_seed (u64be c) 5 = true.
Proof.
  assert (4 < two63) as Hp by (vm_compute; reflexivity).
  destruct (solve_returns_the_work work_hub work_aid work_seed 5 4 (Errf "context canceled") Hp) as [Hs Hl].
  assert (∃ pre, prefix work_hub work_aid work_seed = Ok pre) as [pre Hpre] by (eexists; vm_compute; reflexivity).
  destruct (Hl pre work_nonce true (start pre true 4)) as (s' & c & _ & _ & Hr).
  - split; vm_compute; discriminate.
  - exact Hpre.
  - split; [vm_compute; discriminate|vm_compute; reflexivity].
  - vm_compute. reflexivity.
  - apply rtc_refl.
  - reflexivity.
  - reflexivity.
  - exists c. exact (conj Hr (proj1 (Hs _ Hr))).
Defined.
